(** * A shallow embedding of blink-tree-go

    The development follows the Go sources: [page.go] (page codec),
    [bufmgr.go] (buffer manager) and [bltree.go] (B-link tree).

    Conventions.
    - [uint32], [uint8] and [uid] values are integers of [Z]; every
      arithmetic operation of the source is followed by its wrap-around
      ([u32], [u8], [u64]).
    - A page's [Data] is a list of bytes.  The slot array and the key/value
      heap live in that one list, exactly as in the source.
    - A Go run-time panic (slice or index out of range, nil dereference,
      the explicit [panic] of [SetKeyOffset]) is an [outcome] of its own;
      so is the exhaustion of the fuel of a loop that has no bound.
    - Latches are not part of the state: the model is the single-threaded
      run, where every acquisition succeeds at once.  The buffer pool and
      the file behind it are one store from page number to page: a page is
      found there exactly when [PinLatch] finds or reads it. *)

From Stdlib Require Import ZArith List Lia Bool.
From stdpp Require Import base option list gmap.
From coqutil Require Import Byte Word.LittleEndianList.
Local Open Scope Z_scope.

(** ** Outcomes *)

Inductive panic : Type :=
| SliceBounds    (* slice bounds or index out of range *)
| OffsetTooBig   (* panic("offset is too big") *)
| NilDeref       (* method call through a nil *LatchSet *)
| OutOfFuel.     (* the loop was cut off by the model *)

Inductive outcome (A : Type) : Type :=
| Val (a : A)
| Panic (r : panic).
Arguments Val {A} a.
Arguments Panic {A} r.

Definition bind {A B : Type} (m : outcome A) (f : A -> outcome B) : outcome B :=
  match m with Val a => f a | Panic r => Panic r end.

Notation "'let*' x ':=' m 'in' k" := (bind m (fun x => k))
  (at level 10, x name, m at level 100, k at level 200).
Notation "'let*' ' pat ':=' m 'in' k" :=
  (bind m (fun x => match x with pat => k end))
  (at level 10, pat pattern, m at level 100, k at level 200).

(** ** Machine integers *)

Definition u8 (z : Z) : Z := z mod 2 ^ 8.
Definition u32 (z : Z) : Z := z mod 2 ^ 32.
Definition u64 (z : Z) : Z := z mod 2 ^ 64.

Definition len {A} (l : list A) : Z := Z.of_nat (length l).

(** [s[i]] *)
Definition index (l : list byte) (i : Z) : outcome byte :=
  if 0 <=? i then
    match l !! Z.to_nat i with
    | Some b => Val b
    | None => Panic SliceBounds
    end
  else Panic SliceBounds.

(** the [n] bytes of [l] from [off] on *)
Definition sub (l : list byte) (off n : Z) : list byte :=
  take (Z.to_nat n) (drop (Z.to_nat off) l).

(** [s[lo:hi]] on a slice whose capacity is its length *)
Definition slice (l : list byte) (lo hi : Z) : outcome (list byte) :=
  if (0 <=? lo) && (lo <=? hi) && (hi <=? len l)
  then Val (sub l lo (hi - lo))
  else Panic SliceBounds.

(** the bytes of [l] with [src] laid over them from [off] on, cut at the end *)
Definition splice (l : list byte) (off : nat) (src : list byte) : list byte :=
  take off l ++ take (length l - off) src ++ drop (off + length src) l.

(** [copy(s[off:], src)] *)
Definition copy_at (l : list byte) (off : Z) (src : list byte)
  : outcome (list byte) :=
  if (0 <=? off) && (off <=? len l)
  then Val (splice l (Z.to_nat off) src)
  else Panic SliceBounds.

(** ** blterr.go *)

Inductive BLTErr : Type :=
| BLTErrOk | BLTErrStruct | BLTErrOverflow | BLTErrLock
| BLTErrMap | BLTErrRead | BLTErrWrite | BLTErrAtomic.

#[global] Instance BLTErr_eq_dec : EqDecision BLTErr.
Proof. solve_decision. Defined.

(** ** Constants *)

Definition BtMaxBits : Z := 24.
Definition BtMinBits : Z := 9.
Definition BtId : Z := 6.
Definition RootPage : Z := 1.
Definition MinLvl : Z := 2.

Definition MaxKey : Z := 255.
Definition PageHeaderSize : Z := 26.
Definition SlotSize : Z := 6.

(** [SlotType] *)
Definition Unique : Z := 0.
Definition Librarian : Z := 1.
Definition Duplicate : Z := 2.
Definition Delete : Z := 3.

Inductive BLTLockMode : Type :=
| LockNone | LockAccess | LockDelete | LockRead | LockWrite | LockParent.

#[global] Instance BLTLockMode_eq_dec : EqDecision BLTLockMode.
Proof. solve_decision. Defined.

(** ** page.go *)

Record Page : Type := mkPage {
  Cnt : Z;            (* count of keys in page *)
  Act : Z;            (* count of active keys *)
  Min : Z;            (* next key offset *)
  Garbage : Z;        (* page garbage in bytes *)
  Bits : Z;           (* page size in bits *)
  Free : bool;        (* page is on free chain *)
  Lvl : Z;            (* level of page *)
  Kill : bool;        (* page is being deleted *)
  Right : list byte;  (* page number to right *)
  Data : list byte    (* key and value slots *)
}.

Definition with_Cnt (p : Page) (v : Z) : Page :=
  mkPage v (Act p) (Min p) (Garbage p) (Bits p) (Free p) (Lvl p) (Kill p) (Right p) (Data p).
Definition with_Act (p : Page) (v : Z) : Page :=
  mkPage (Cnt p) v (Min p) (Garbage p) (Bits p) (Free p) (Lvl p) (Kill p) (Right p) (Data p).
Definition with_Min (p : Page) (v : Z) : Page :=
  mkPage (Cnt p) (Act p) v (Garbage p) (Bits p) (Free p) (Lvl p) (Kill p) (Right p) (Data p).
Definition with_Garbage (p : Page) (v : Z) : Page :=
  mkPage (Cnt p) (Act p) (Min p) v (Bits p) (Free p) (Lvl p) (Kill p) (Right p) (Data p).
Definition with_Bits (p : Page) (v : Z) : Page :=
  mkPage (Cnt p) (Act p) (Min p) (Garbage p) v (Free p) (Lvl p) (Kill p) (Right p) (Data p).
Definition with_Free (p : Page) (v : bool) : Page :=
  mkPage (Cnt p) (Act p) (Min p) (Garbage p) (Bits p) v (Lvl p) (Kill p) (Right p) (Data p).
Definition with_Lvl (p : Page) (v : Z) : Page :=
  mkPage (Cnt p) (Act p) (Min p) (Garbage p) (Bits p) (Free p) v (Kill p) (Right p) (Data p).
Definition with_Kill (p : Page) (v : bool) : Page :=
  mkPage (Cnt p) (Act p) (Min p) (Garbage p) (Bits p) (Free p) (Lvl p) v (Right p) (Data p).
Definition with_Right (p : Page) (v : list byte) : Page :=
  mkPage (Cnt p) (Act p) (Min p) (Garbage p) (Bits p) (Free p) (Lvl p) (Kill p) v (Data p).
Definition with_Data (p : Page) (v : list byte) : Page :=
  mkPage (Cnt p) (Act p) (Min p) (Garbage p) (Bits p) (Free p) (Lvl p) (Kill p) (Right p) v.

Definition zeros (n : Z) : list byte := replicate (Z.to_nat n) Byte.x00.

(** [NewPage(pageDataSize)] of page.go: the zero header over zeroed data *)
Definition NewPage (pageDataSize : Z) : Page :=
  mkPage 0 0 0 0 0 false 0 false (zeros BtId) (zeros pageDataSize).

(** [slotBytes] gives a window of [Data]; the model returns where it starts *)
Definition slotBytes (p : Page) (i : Z) : outcome Z :=
  let off := u32 (SlotSize * u32 (i - 1)) in
  let hi := u32 (off + SlotSize) in
  if (off <=? hi) && (hi <=? len (Data p)) then Val off else Panic SliceBounds.

Definition ClearSlot (p : Page) (slot : Z) : outcome Page :=
  let* off := slotBytes p slot in
  Val (with_Data p (splice (Data p) (Z.to_nat off) (zeros SlotSize))).

Definition SetKeyOffset (p : Page) (slot : Z) (offset : Z) : outcome Page :=
  if 32767 <? offset then Panic OffsetTooBig
  else
    let* off := slotBytes p slot in
    Val (with_Data p (splice (Data p) (Z.to_nat off) (le_split 4 offset))).

Definition KeyOffset (p : Page) (slot : Z) : outcome Z :=
  let* off := slotBytes p slot in
  Val (le_combine (sub (Data p) off 4)).

Definition SetTyp (p : Page) (slot : Z) (typ : Z) : outcome Page :=
  let* off := slotBytes p slot in
  Val (with_Data p (splice (Data p) (Z.to_nat (off + 4)) [byte.of_Z typ])).

Definition Typ (p : Page) (slot : Z) : outcome Z :=
  let* off := slotBytes p slot in
  let* b := index (Data p) (off + 4) in
  Val (byte.unsigned b).

Definition SetDead (p : Page) (slot : Z) (b : bool) : outcome Page :=
  let* off := slotBytes p slot in
  Val (with_Data p (splice (Data p) (Z.to_nat (off + 5))
                      [if b then Byte.x01 else Byte.x00])).

Definition Dead (p : Page) (slot : Z) : outcome bool :=
  let* off := slotBytes p slot in
  let* b := index (Data p) (off + 5) in
  Val (byte.unsigned b =? 1).

Definition SetKey (p : Page) (bytes : list byte) (slot : Z) : outcome Page :=
  let* off := KeyOffset p slot in
  let keyLen := byte.of_Z (len bytes) in
  let* d := copy_at (Data p) off (keyLen :: bytes) in
  Val (with_Data p d).

Definition Key (p : Page) (slot : Z) : outcome (list byte) :=
  let* off := KeyOffset p slot in
  let* b := index (Data p) off in
  let keyLen := byte.unsigned b in
  slice (Data p) (u32 (off + 1)) (u32 (u32 (off + 1) + keyLen)).

(** [1+keyLen] is an addition of bytes in the source *)
Definition ValueOffset (p : Page) (slot : Z) : outcome Z :=
  let* off := KeyOffset p slot in
  let* b := index (Data p) off in
  let keyLen := byte.unsigned b in
  Val (u32 (off + u8 (1 + keyLen))).

Definition SetValue (p : Page) (bytes : list byte) (slot : Z) : outcome Page :=
  let* off := ValueOffset p slot in
  let valLen := byte.of_Z (len bytes) in
  let* d := copy_at (Data p) off (valLen :: bytes) in
  Val (with_Data p d).

Definition Value (p : Page) (slot : Z) : outcome (list byte) :=
  let* off := ValueOffset p slot in
  let* b := index (Data p) off in
  let valLen := byte.unsigned b in
  slice (Data p) (u32 (off + 1)) (u32 (u32 (off + 1) + valLen)).

(** [bytes.Compare] *)
Fixpoint bytes_compare (a b : list byte) : comparison :=
  match a, b with
  | [], [] => Eq
  | [], _ :: _ => Lt
  | _ :: _, [] => Gt
  | x :: a', y :: b' =>
      match byte.unsigned x ?= byte.unsigned y with
      | Eq => bytes_compare a' b'
      | c => c
      end
  end.

Definition KeyCmp (a b : list byte) : Z :=
  match bytes_compare a b with Lt => -1 | Eq => 0 | Gt => 1 end.

Definition PutID (id : Z) : list byte :=
  map (fun i => byte.of_Z (Z.shiftr id (8 * i))) [5; 4; 3; 2; 1; 0].

Definition GetID (src : list byte) : Z :=
  fold_left (fun id b => Z.lor (u64 (Z.shiftl id 8)) (byte.unsigned b)) src 0.

Definition GetIDFromValue (src : list byte) : Z :=
  if len src <? BtId then 0 else GetID (take (Z.to_nat BtId) src).

Definition MemCpyPage (dest src : Page) : Page :=
  mkPage (Cnt src) (Act src) (Min src) (Garbage src) (Bits src) (Free src)
         (Lvl src) (Kill src) (Right src)
         (splice (Data dest) 0 (Data src)).

(** The loop of [FindSlot].  [diff] at least halves in every round, so the
    33 rounds that [FindSlot] grants are never used up. *)
Fixpoint FindSlot_loop (n : nat) (p : Page) (key : list byte)
    (low higher good : Z) : outcome Z :=
  let diff := u32 (higher - low) in
  if 0 <? diff then
    match n with
    | O => Panic OutOfFuel
    | S n' =>
        let slot := u32 (low + Z.shiftr diff 1) in
        let* k := Key p slot in
        if KeyCmp k key <? 0
        then FindSlot_loop n' p key (u32 (slot + 1)) higher good
        else FindSlot_loop n' p key low slot (u32 (good + 1))
    end
  else
    if 0 <? good then Val higher else Val 0.

Definition FindSlot (p : Page) (key : list byte) : outcome Z :=
  let higher := Cnt p in
  let low := 1 in
  if 0 <? GetID (Right p)
  then FindSlot_loop 33 p key low (u32 (higher + 1)) 0
  else FindSlot_loop 33 p key low higher 1.

(** ** bufmgr.go *)

Record PageZero : Type := mkPageZero {
  allocRight : list byte;  (* AllocRight(): next page_no, in the mapped page zero *)
  dups : Z;                (* global duplicate key unique id *)
  chain : list byte        (* head of free page_nos chain *)
}.

Record BufMgr : Type := mkBufMgr {
  pageSize : Z;
  pageBits : Z;
  pageDataSize : Z;
  pageZero : PageZero;
  pagePool : gmap Z Page;  (* the pool and the file behind it *)
  mgr_err : BLTErr         (* last error *)
}.

Definition with_pageZero (m : BufMgr) (z : PageZero) : BufMgr :=
  mkBufMgr (pageSize m) (pageBits m) (pageDataSize m) z (pagePool m) (mgr_err m).
Definition with_pagePool (m : BufMgr) (s : gmap Z Page) : BufMgr :=
  mkBufMgr (pageSize m) (pageBits m) (pageDataSize m) (pageZero m) s (mgr_err m).
Definition with_mgr_err (m : BufMgr) (e : BLTErr) : BufMgr :=
  mkBufMgr (pageSize m) (pageBits m) (pageDataSize m) (pageZero m) (pagePool m) e.

(** the frame behind a pinned latch: [set.page] *)
Definition getPage (m : BufMgr) (pageNo : Z) : outcome Page :=
  match pagePool m !! pageNo with
  | Some p => Val p
  | None => Panic NilDeref
  end.

Definition setPage (m : BufMgr) (pageNo : Z) (p : Page) : BufMgr :=
  with_pagePool m (<[pageNo := p]> (pagePool m)).

(** [writePage]: [log.Panicf] when the data has not the size of the manager *)
Definition writePage (pds : Z) (file : gmap Z Page) (page : Page) (pageNo : Z)
  : outcome (gmap Z Page) :=
  if len (Data page) =? pds then Val (<[pageNo := page]> file)
  else Panic SliceBounds.

(** One round of the loop of [NewBufMgr] that writes the first pages. *)
Definition NewBufMgr_level (pds : Z) (alloc : Page) (file : gmap Z Page) (lvl : Z)
  : outcome (Page * gmap Z Page) :=
  let z := if 0 <? lvl then u32 (1 + BtId) else 1 in
  let* alloc := SetKeyOffset alloc 1 (u32 (u32 (pds - 3) - z)) in
  let* alloc := SetKey alloc [Byte.xff; Byte.xff] 1 in
  let* alloc := (if 0 <? lvl then SetValue alloc (PutID (u64 (MinLvl - lvl + 1))) 1 else SetValue alloc [] 1) in
  let* off := KeyOffset alloc 1 in
  let alloc := with_Act (with_Cnt (with_Lvl (with_Min alloc off) (u8 lvl)) 1) 1 in
  let* file := writePage pds file alloc (u64 (MinLvl - lvl)) in
  Val (alloc, file).

(** [NewBufMgr] on a file that does not exist yet.  [None] is the nil
    manager. *)
Definition NewBufMgr (bits : Z) (nodeMax : Z) : outcome (option BufMgr) :=
  let bits := if BtMaxBits <? bits then BtMaxBits
              else if bits <? BtMinBits then BtMinBits else bits in
  if nodeMax <? 16 then Val None
  else
    let pageSize := u32 (Z.shiftl 1 bits) in
    let pds := u32 (pageSize - PageHeaderSize) in
    let alloc := with_Right (with_Bits (NewPage pds) bits) (PutID (MinLvl + 1)) in
    let* file := writePage pds ∅ alloc 0 in
    let alloc := with_Bits (NewPage pds) bits in
    let* '(alloc, file) := NewBufMgr_level pds alloc file 1 in
    let* '(alloc, file) := NewBufMgr_level pds alloc file 0 in
    match file !! 0 with
    | None => Panic NilDeref
    | Some zero =>
        Val (Some (mkBufMgr pageSize bits pds
                     (mkPageZero (Right zero) 0 (zeros BtId)) file BLTErrOk))
    end.

(** [NewPage] of the manager: take the head of the free chain, or the next
    page number.  The result is the error and the page number of
    [set.latch]. *)
Definition mgr_NewPage (m : BufMgr) (contents : Page) : BLTErr * option Z * BufMgr :=
  let pageNo := GetID (chain (pageZero m)) in
  if 0 <? pageNo then
    match pagePool m !! pageNo with
    | None => (BLTErrStruct, None, with_mgr_err m BLTErrStruct)
    | Some page =>
        let z := pageZero m in
        let m := with_pageZero m
                   (mkPageZero (allocRight z) (dups z) (PutID (GetID (Right page)))) in
        let m := setPage m pageNo (MemCpyPage page contents) in
        (BLTErrOk, Some pageNo, with_mgr_err m BLTErrOk)
    end
  else
    let z := pageZero m in
    let pageNo := GetID (allocRight z) in
    let m := with_pageZero m
               (mkPageZero (PutID (u64 (pageNo + 1))) (dups z) (chain z)) in
    let page := MemCpyPage (NewPage (pageDataSize m)) contents in
    let m := setPage m pageNo page in
    (BLTErrOk, Some pageNo, with_mgr_err m BLTErrOk).

(** the loop of [LoadPage] over dead slots: [None] is the jump to
    [sliderRight] *)
Fixpoint LoadPage_live (n : nat) (p : Page) (slot : Z) : outcome (option Z) :=
  let* d := Dead p slot in
  if d then
    if slot <? Cnt p then
      match n with
      | O => Panic OutOfFuel
      | S n' => LoadPage_live n' p (u32 (slot + 1))
      end
    else Val None
  else Val (Some slot).

(** [LoadPage]: the slot, the latch left in [set] and the manager.  The
    pool stands for the latch table and the file behind it: a page that is
    there is pinned, one that is not gives [BLTErrRead].  Whether [PinLatch]
    has to read the page in, and [latchLink] then sets the error of the
    manager to [BLTErrOk], depends on the latch table, which is not modelled:
    [mgr_err] is left as it is by a pin that succeeds, here and in
    [findNext], [collapseRoot] and [deletePage]. *)
Fixpoint LoadPage_loop (fuel : nat) (m : BufMgr) (key : list byte) (lvl : Z)
    (lock : BLTLockMode) (set : option Z) (pageNo drill : Z)
  : outcome (Z * option Z * BufMgr) :=
  if 0 <? pageNo then
    match fuel with
    | O => Panic OutOfFuel
    | S fuel' =>
        match pagePool m !! pageNo with
        | None => Val (0, None, with_mgr_err m BLTErrRead)
        | Some page =>
            let set := Some pageNo in
            let slideRight := fun drill =>
              LoadPage_loop fuel' m key lvl lock set (GetID (Right page)) drill in
            let descend := fun drill =>
              if Kill page then slideRight drill
              else
                let* slot := FindSlot page key in
                if 0 <? slot then
                  if drill =? lvl then Val (slot, set, m)
                  else
                    let* live := LoadPage_live (Z.to_nat (Cnt page)) page slot in
                    match live with
                    | None => slideRight drill
                    | Some slot =>
                        let* v := Value page slot in
                        LoadPage_loop fuel' m key lvl lock set
                          (GetIDFromValue v) (u8 (drill - 1))
                    end
                else slideRight drill in
            if Free page then Val (0, set, with_mgr_err m BLTErrStruct)
            else if negb (Lvl page =? drill) then
              if negb (pageNo =? RootPage)
              then Val (0, set, with_mgr_err m BLTErrStruct)
              else
                let drill := Lvl page in
                if negb (bool_decide (lock = LockRead)) && (drill =? lvl)
                then LoadPage_loop fuel' m key lvl lock set pageNo drill
                else descend drill
            else descend drill
        end
    end
  else Val (0, set, with_mgr_err m BLTErrStruct).

Definition LoadPage (fuel : nat) (m : BufMgr) (key : list byte) (lvl : Z)
    (lock : BLTLockMode) : outcome (Z * option Z * BufMgr) :=
  LoadPage_loop fuel m key lvl lock None RootPage 255.

(** [FreePage]: return page to free list *)
Definition FreePage (m : BufMgr) (pageNo : Z) : outcome BufMgr :=
  let* page := getPage m pageNo in
  let z := pageZero m in
  let page := with_Free (with_Right page (chain z)) true in
  let m := with_pageZero m (mkPageZero (allocRight z) (dups z) (PutID pageNo)) in
  Val (setPage m pageNo page).

(** ** bltree.go *)

Record BLTree : Type := mkBLTree {
  mgr : BufMgr;   (* buffer manager for thread *)
  found : bool;   (* last delete or insert was found *)
  err : BLTErr    (* last error *)
}.

Definition NewBLTree (m : BufMgr) : BLTree := mkBLTree m false BLTErrOk.

Definition with_mgr (t : BLTree) (m : BufMgr) : BLTree := mkBLTree m (found t) (err t).
Definition with_found (t : BLTree) (b : bool) : BLTree := mkBLTree (mgr t) b (err t).
Definition with_err (t : BLTree) (e : BLTErr) : BLTree := mkBLTree (mgr t) (found t) e.

(** What [cleanPage] and both loops of [splitPage] do with a slot [cnt] of
    [src] that they keep: the value and the key go below [nxt] in [dst], a
    librarian slot is made unless the slot is the first, and the slot itself
    is set up with its offset and type. *)
Definition copy_entry (src dst : Page) (cnt nxt idx : Z) : outcome (Page * Z * Z) :=
  let* val := Value src cnt in
  let nxt := u32 (nxt - u32 (len val + 1)) in
  let* d := copy_at (Data dst) nxt (byte.of_Z (len val) :: val) in
  let dst := with_Data dst d in
  let* key := Key src cnt in
  let nxt := u32 (nxt - u32 (len key + 1)) in
  let* d := copy_at (Data dst) nxt (byte.of_Z (len key) :: key) in
  let dst := with_Data dst d in
  let* '(dst, idx) :=
    (if 0 <? idx then
       let idx := u32 (idx + 1) in
       let* dst := SetKeyOffset dst idx nxt in
       let* dst := SetTyp dst idx Librarian in
       let* dst := SetDead dst idx true in
       Val (dst, idx)
     else Val (dst, idx)) in
  let idx := u32 (idx + 1) in
  let* dst := SetKeyOffset dst idx nxt in
  let* t := Typ src cnt in
  let* dst := SetTyp dst idx t in
  Val (dst, nxt, idx).

Definition space_needed (cnt keyLen valLen : Z) : Z :=
  u32 ((cnt + 2) * SlotSize + PageHeaderSize + keyLen + 1 + valLen + 1).

Fixpoint cleanPage_loop (n : nat) (frame : Page) (max slot cnt : Z)
    (page : Page) (nxt idx newSlot : Z) : outcome (Page * Z * Z * Z) :=
  if cnt <? max then
    match n with
    | O => Panic OutOfFuel
    | S n' =>
        let cnt := u32 (cnt + 1) in
        let newSlot :=
          if cnt =? slot then (if idx =? 0 then 1 else u32 (idx + 2)) else newSlot in
        let* skip := (if cnt <? max then Dead frame cnt else Val false) in
        if skip then cleanPage_loop n' frame max slot cnt page nxt idx newSlot
        else
          let* '(page, nxt, idx) := copy_entry frame page cnt nxt idx in
          let* d := Dead frame cnt in
          let* page := SetDead page idx d in
          let* d := Dead page idx in
          let page := if d then page else with_Act page (u32 (Act page + 1)) in
          cleanPage_loop n' frame max slot cnt page nxt idx newSlot
    end
  else Val (page, nxt, idx, newSlot).

(** [cleanPage]: the slot to use (0: the page needs splitting) and the page *)
Definition cleanPage (pds : Z) (page : Page) (keyLen slot valLen : Z)
  : outcome (Z * Page) :=
  let nxt := pds in
  let max := Cnt page in
  if space_needed max keyLen valLen <=? Min page then Val (slot, page)
  else if Garbage page <? nxt / 5 then Val (0, page)
  else
    let frame := MemCpyPage (NewPage pds) page in
    let page := with_Act (with_Garbage (with_Data page (zeros pds)) 0) 0 in
    let* '(page, nxt, idx, newSlot) :=
      cleanPage_loop (Z.to_nat max) frame max slot 0 page nxt 0 max in
    let page := with_Cnt (with_Min page nxt) idx in
    if space_needed idx keyLen valLen <=? Min page then Val (newSlot, page)
    else Val (0, page).

(** [splitRoot]: split the root and raise the height of the btree *)
Definition splitRoot (tree : BLTree) (root rightNo : Z) : outcome (BLTErr * BLTree) :=
  let m := mgr tree in
  let nxt := pageDataSize m in
  let* rootPage := getPage m root in
  let* leftKey := Key rootPage (Cnt rootPage) in
  let '(e, leftSet, m) := mgr_NewPage m rootPage in
  if negb (bool_decide (e = BLTErrOk)) then Val (e, with_mgr tree m)
  else
    match leftSet with
    | None => Panic NilDeref
    | Some leftPageNo =>
        let* page := getPage m root in
        let page := with_Data page (zeros (pageDataSize m)) in
        let nxt := u32 (nxt - (BtId + 1)) in
        let* d := copy_at (Data page) nxt (byte.of_Z BtId :: PutID rightNo) in
        let page := with_Data page d in
        let nxt := u32 (nxt - (2 + 1)) in
        let* page := SetKeyOffset page 2 nxt in
        let* d := copy_at (Data page) nxt [byte.of_Z 2; Byte.xff; Byte.xff] in
        let page := with_Data page d in
        let nxt := u32 (nxt - (BtId + 1)) in
        let* d := copy_at (Data page) nxt (byte.of_Z BtId :: PutID leftPageNo) in
        let page := with_Data page d in
        let nxt := u32 (nxt - u32 (u32 (len leftKey) + 1)) in
        let* page := SetKeyOffset page 1 nxt in
        let* d := copy_at (Data page) nxt (byte.of_Z (len leftKey) :: leftKey) in
        let page := with_Data page d in
        let page := with_Right page (PutID 0) in
        let page := with_Min page nxt in
        let page := with_Cnt page 2 in
        let page := with_Act page 2 in
        let page := with_Lvl page (u8 (Lvl page + 1)) in
        Val (BLTErrOk, with_mgr tree (setPage m root page))
    end.

(** first loop of [splitPage]: split higher half of keys to frame *)
Fixpoint splitPage_upper (n : nat) (page : Page) (max cnt : Z)
    (frame : Page) (nxt idx : Z) : outcome (Page * Z * Z) :=
  if cnt <? max then
    match n with
    | O => Panic OutOfFuel
    | S n' =>
        let cnt := u32 (cnt + 1) in
        let* skip := (if (cnt <? max) || (0 <? Lvl page)
                      then Dead page cnt else Val false) in
        if skip then splitPage_upper n' page max cnt frame nxt idx
        else
          let* '(frame, nxt, idx) := copy_entry page frame cnt nxt idx in
          let* d := Dead page cnt in
          let* frame := SetDead frame idx d in
          let* d := Dead frame idx in
          let frame := if d then frame else with_Act frame (u32 (Act frame + 1)) in
          splitPage_upper n' page max cnt frame nxt idx
    end
  else Val (frame, nxt, idx).

(** second loop of [splitPage]: the lower half goes back into the page *)
Fixpoint splitPage_lower (n : nat) (frame : Page) (max cnt : Z)
    (page : Page) (nxt idx : Z) : outcome (Page * Z * Z) :=
  if cnt <? max then
    match n with
    | O => Panic OutOfFuel
    | S n' =>
        let cnt := u32 (cnt + 1) in
        let* skip := Dead frame cnt in
        if skip then splitPage_lower n' frame max cnt page nxt idx
        else
          let* '(page, nxt, idx) := copy_entry frame page cnt nxt idx in
          let page := with_Act page (u32 (Act page + 1)) in
          splitPage_lower n' frame max cnt page nxt idx
    end
  else Val (page, nxt, idx).

(** [splitPage]: the page number behind the pool entry of the new right
    page ([None]: the entry 0 of the source) *)
Definition splitPage (tree : BLTree) (pageNo : Z) : outcome (option Z * BLTree) :=
  let m := mgr tree in
  let pds := pageDataSize m in
  let* page := getPage m pageNo in
  let lvl := Lvl page in
  let frame := NewPage pds in
  let max := Cnt page in
  let* '(frame, nxt, idx) :=
    splitPage_upper (Z.to_nat max) page max (max / 2) frame pds 0 in
  let frame := with_Bits frame (pageBits m) in
  let frame := with_Min frame nxt in
  let frame := with_Cnt frame idx in
  let frame := with_Lvl frame lvl in
  let frame := if RootPage <? pageNo
               then with_Right frame (PutID (GetID (Right page))) else frame in
  let '(e, rightSet, m) := mgr_NewPage m frame in
  if negb (bool_decide (e = BLTErrOk)) then Val (None, with_mgr tree m)
  else
    match rightSet with
    | None => Panic NilDeref
    | Some rightNo =>
        let* page := getPage m pageNo in
        let frame := MemCpyPage frame page in
        let page := with_Data page (zeros pds) in
        let page := with_Act (with_Garbage page 0) 0 in
        let max := max / 2 in
        let* t := Typ frame max in
        let max := if t =? Librarian then u32 (max - 1) else max in
        let* '(page, nxt, idx) :=
          splitPage_lower (Z.to_nat max) frame max 0 page pds 0 in
        let page := with_Right page (PutID rightNo) in
        let page := with_Min page nxt in
        let page := with_Cnt page idx in
        Val (Some rightNo, with_mgr tree (setPage m pageNo page))
    end.

(** the search of [insertSlot] for the first empty slot *)
Fixpoint insertSlot_empty (n : nat) (p : Page) (idx : Z) : outcome Z :=
  if idx <? Cnt p then
    let* d := Dead p idx in
    if d then Val idx
    else
      match n with
      | O => Panic OutOfFuel
      | S n' => insertSlot_empty n' p (u32 (idx + 1))
      end
  else Val idx.

(** the loop of [insertSlot] that moves slots up to make room for new key *)
Fixpoint insertSlot_move (n : nat) (p : Page) (idx slot librarian : Z)
  : outcome Page :=
  if u32 (u32 (slot + librarian) - 1) <? idx then
    match n with
    | O => Panic OutOfFuel
    | S n' =>
        let* d := Dead p (u32 (idx - librarian)) in
        let* p := SetDead p idx d in
        let* t := Typ p (u32 (idx - librarian)) in
        let* p := SetTyp p idx t in
        let* o := KeyOffset p (u32 (idx - librarian)) in
        let* p := SetKeyOffset p idx o in
        insertSlot_move n' p (u32 (idx - 1)) slot librarian
    end
  else Val p.

(** [insertSlot] on the page of the set *)
Definition insertSlot (p : Page) (slot : Z) (key value : list byte) (typ : Z)
  : outcome Page :=
  let* slot :=
    (if 1 <? slot then
       let* t := Typ p (u32 (slot - 1)) in
       Val (if t =? Librarian then u32 (slot - 1) else slot)
     else Val slot) in
  let p := with_Min p (u32 (Min p - (BtId + 1))) in
  let* d := copy_at (Data p) (Min p) (byte.of_Z (len value) :: value) in
  let p := with_Data p d in
  let p := with_Min p (u32 (Min p - u32 (len key + 1))) in
  let* d := copy_at (Data p) (Min p) (byte.of_Z (len key) :: key) in
  let p := with_Data p d in
  let* idx := insertSlot_empty (Z.to_nat (Cnt p)) p slot in
  let '(idx, p, librarian) :=
    if idx =? Cnt p
    then (u32 (idx + 2), with_Cnt p (u32 (Cnt p + 2)), 2)
    else (idx, p, 1) in
  let p := with_Act p (u32 (Act p + 1)) in
  let* p := insertSlot_move (Z.to_nat idx) p idx slot librarian in
  let* '(p, slot) :=
    (if 1 <? librarian then
       let* p := SetKeyOffset p slot (Min p) in
       let* p := SetTyp p slot Librarian in
       let* p := SetDead p slot true in
       Val (p, u32 (slot + 1))
     else Val (p, slot)) in
  let* p := SetKeyOffset p slot (Min p) in
  let* p := SetTyp p slot typ in
  SetDead p slot false.

(** [splitKeys]: fix keys for newly split page.  [insert] is [insertKey]
    with less fuel. *)
Definition splitKeys
    (insert : BLTree -> list byte -> Z -> list byte -> outcome (BLTErr * BLTree))
    (tree : BLTree) (pageNo rightNo : Z) : outcome (BLTErr * BLTree) :=
  let* setPg := getPage (mgr tree) pageNo in
  let lvl := Lvl setPg in
  if RootPage =? pageNo then splitRoot tree pageNo rightNo
  else
    let* leftKey := Key setPg (Cnt setPg) in
    let* page := getPage (mgr tree) rightNo in
    let* rightKey := Key page (Cnt page) in
    let* '(e, tree) := insert tree leftKey (u8 (lvl + 1)) (PutID pageNo) in
    if negb (bool_decide (e = BLTErrOk)) then Val (e, tree)
    else
      let* '(e, tree) := insert tree rightKey (u8 (lvl + 1)) (PutID rightNo) in
      if negb (bool_decide (e = BLTErrOk)) then Val (e, tree)
      else Val (BLTErrOk, tree).

(** the [for] loop of [insertKey]; [ins] and [typ] come from its prelude.
    The page number of [set.latch] is read, for the log, before the slot is
    looked at: without a latch this is a nil dereference. *)
Fixpoint insertKey_loop (fuel : nat) (tree : BLTree) (key ins : list byte)
    (lvl : Z) (value : list byte) (uniq : bool) (typ : Z)
  : outcome (BLTErr * BLTree) :=
  match fuel with
  | O => Panic OutOfFuel
  | S fuel' =>
      let* '(slot, set, m) := LoadPage fuel (mgr tree) key lvl LockWrite in
      let tree := with_mgr tree m in
      match set with
      | None => Panic NilDeref
      | Some pageNo =>
          if negb (0 <? slot) then
            let tree := if negb (bool_decide (err tree = BLTErrOk))
                        then with_err tree BLTErrOverflow else tree in
            Val (err tree, tree)
          else
            let* page := getPage m pageNo in
            let* ptr := Key page slot in
            let* t := Typ page slot in
            let* '(slot, ptr) :=
              (if (t =? Librarian) && (KeyCmp ptr key =? 0)
               then let slot := u32 (slot + 1) in
                    let* ptr := Key page slot in Val (slot, ptr)
               else Val (slot, ptr)) in
            let keyLen := u8 (len ptr) in
            let* t := Typ page slot in
            let keyLen := if t =? Duplicate then u8 (keyLen - BtId) else keyLen in
            if (uniq && (negb (keyLen =? u8 (len ins)) || negb (KeyCmp ptr ins =? 0)))
               || negb uniq
            then
              let* '(slot, page) :=
                cleanPage (pageDataSize m) page (u8 (len ins)) slot BtId in
              let tree := with_mgr tree (setPage m pageNo page) in
              if slot =? 0 then
                let* '(entry, tree) := splitPage tree pageNo in
                match entry with
                | None => Val (err tree, tree)
                | Some rightNo =>
                    let* '(e, tree) :=
                      splitKeys
                        (fun tree key lvl value =>
                           insertKey_loop fuel' tree key key lvl value true Unique)
                        tree pageNo rightNo in
                    if negb (bool_decide (e = BLTErrOk)) then Val (e, tree)
                    else insertKey_loop fuel' tree key ins lvl value uniq typ
                end
              else
                let* page := insertSlot page slot ins value typ in
                Val (BLTErrOk, with_mgr tree (setPage m pageNo page))
            else
              let* d := Dead page slot in
              let page := if d then with_Act page (u32 (Act page + 1)) else page in
              let* page := SetDead page slot false in
              let* page := SetValue page value slot in
              Val (BLTErrOk, with_mgr tree (setPage m pageNo page))
      end
  end.

(** [newDup] *)
Definition newDup (tree : BLTree) : Z * BLTree :=
  let m := mgr tree in
  let z := pageZero m in
  let d := u64 (dups z + 1) in
  (d, with_mgr tree (with_pageZero m (mkPageZero (allocRight z) d (chain z)))).

(** [insertKey]: insert new key into the btree at given level *)
Definition insertKey (fuel : nat) (tree : BLTree) (key : list byte) (lvl : Z)
    (value : list byte) (uniq : bool) : outcome (BLTErr * BLTree) :=
  if uniq then insertKey_loop fuel tree key key lvl value uniq Unique
  else
    let '(sequence, tree) := newDup tree in
    insertKey_loop fuel tree key (key ++ PutID sequence) lvl value uniq Duplicate.

(** [fixFence]: a fence key was deleted from a page, push new fence value
    upwards *)
Definition fixFence
    (insert : BLTree -> list byte -> Z -> list byte -> outcome (BLTErr * BLTree))
    (delete : BLTree -> list byte -> Z -> outcome (BLTErr * BLTree))
    (tree : BLTree) (pageNo : Z) (lvl : Z) : outcome (BLTErr * BLTree) :=
  let m := mgr tree in
  let* page := getPage m pageNo in
  let* rightKey := Key page (Cnt page) in
  let* page := ClearSlot page (Cnt page) in
  let page := with_Cnt page (u32 (Cnt page - 1)) in
  let* leftKey := Key page (Cnt page) in
  let tree := with_mgr tree (setPage m pageNo page) in
  let* '(e, tree) := insert tree leftKey (u8 (lvl + 1)) (PutID pageNo) in
  if negb (bool_decide (e = BLTErrOk)) then Val (e, tree)
  else
    let* '(e, tree) := delete tree rightKey (u8 (lvl + 1)) in
    if negb (bool_decide (e = BLTErrOk)) then Val (e, tree)
    else Val (BLTErrOk, tree).

(** the search of [collapseRoot] for the child entry *)
Fixpoint collapseRoot_child (n : nat) (p : Page) (idx : Z) : outcome Z :=
  if idx <=? Cnt p then
    let* d := Dead p idx in
    if negb d then Val idx
    else
      match n with
      | O => Panic OutOfFuel
      | S n' => collapseRoot_child n' p (u32 (idx + 1))
      end
  else Val idx.

(** [collapseRoot]: root has a single child, collapse a level from the tree *)
Fixpoint collapseRoot (fuel : nat) (tree : BLTree) (root : Z)
  : outcome (BLTErr * BLTree) :=
  match fuel with
  | O => Panic OutOfFuel
  | S fuel' =>
      let m := mgr tree in
      let* rootPg := getPage m root in
      let* idx := collapseRoot_child (Z.to_nat (Cnt rootPg)) rootPg 1 in
      let* v := Value rootPg idx in
      let pageNo := GetIDFromValue v in
      match pagePool m !! pageNo with
      | None => Val (err tree, with_mgr tree (with_mgr_err m BLTErrRead))
      | Some childPg =>
          let m := setPage m root (MemCpyPage rootPg childPg) in
          let* m := FreePage m pageNo in
          let* rootPg := getPage m root in
          if negb ((1 <? Lvl rootPg) && (Act rootPg =? 1))
          then Val (BLTErrOk, with_mgr tree m)
          else collapseRoot fuel' (with_mgr tree m) root
      end
  end.

(** [deletePage]: delete a page and manage keys *)
Definition deletePage
    (insert : BLTree -> list byte -> Z -> list byte -> outcome (BLTErr * BLTree))
    (delete : BLTree -> list byte -> Z -> outcome (BLTErr * BLTree))
    (tree : BLTree) (setNo : Z) : outcome (BLTErr * BLTree) :=
  let m := mgr tree in
  let* setPg := getPage m setNo in
  let* lowerFence := Key setPg (Cnt setPg) in
  let pageNo := GetID (Right setPg) in
  match pagePool m !! pageNo with
  | None => Val (BLTErrOk, with_mgr tree (with_mgr_err m BLTErrRead))
  | Some rightPg =>
      let* higherFence := Key rightPg (Cnt rightPg) in
      if Kill rightPg then
        let tree := with_err tree BLTErrStruct in Val (err tree, tree)
      else
        let m := setPage m setNo (MemCpyPage setPg rightPg) in
        let* rightPg := getPage m pageNo in
        let rightPg := with_Kill (with_Right rightPg (PutID setNo)) true in
        let m := setPage m pageNo rightPg in
        let tree := with_mgr tree m in
        let* setPg := getPage m setNo in
        let* '(e, tree) :=
          insert tree higherFence (u8 (Lvl setPg + 1)) (PutID setNo) in
        if negb (bool_decide (e = BLTErrOk)) then Val (e, tree)
        else
          let* setPg := getPage (mgr tree) setNo in
          let* '(e, tree) := delete tree lowerFence (u8 (Lvl setPg + 1)) in
          if negb (bool_decide (e = BLTErrOk)) then Val (e, tree)
          else
            let* m := FreePage (mgr tree) pageNo in
            Val (BLTErrOk, with_found (with_mgr tree m) true)
  end.

(** the loop of [deleteKey] that collapses empty slots beneath the fence *)
Fixpoint deleteKey_collapse (n : nat) (p : Page) : outcome Page :=
  let idx := u32 (Cnt p - 1) in
  if 0 <? idx then
    let* d := Dead p idx in
    if d then
      match n with
      | O => Panic OutOfFuel
      | S n' =>
          let* dst := slotBytes p idx in
          let* src := slotBytes p (u32 (idx + 1)) in
          let bytes := sub (Data p) src SlotSize in
          let p := with_Data p (splice (Data p) (Z.to_nat dst) bytes) in
          let* p := ClearSlot p (Cnt p) in
          deleteKey_collapse n' (with_Cnt p (u32 (Cnt p - 1)))
      end
    else Val p
  else Val p.

(** [deleteKey]: find and delete key on page by marking delete flag bit; if
    page becomes empty, delete it from the btree *)
Fixpoint deleteKey (fuel : nat) (tree : BLTree) (key : list byte) (lvl : Z)
  : outcome (BLTErr * BLTree) :=
  match fuel with
  | O => Panic OutOfFuel
  | S fuel' =>
      let* '(slot, set, m) := LoadPage fuel (mgr tree) key lvl LockWrite in
      let tree := with_mgr tree m in
      if slot =? 0 then Val (err tree, tree)
      else
        match set with
        | None => Panic NilDeref
        | Some pageNo =>
            let* page := getPage m pageNo in
            let* ptr := Key page slot in
            let* t := Typ page slot in
            let* '(slot, ptr) :=
              (if t =? Librarian
               then let slot := u32 (slot + 1) in
                    let* ptr := Key page slot in Val (slot, ptr)
               else Val (slot, ptr)) in
            let fence := slot =? Cnt page in
            let* '(fnd, page) :=
              (if KeyCmp ptr key =? 0 then
                 let* d := Dead page slot in
                 if negb d then
                   let* val := Value page slot in
                   let* page := SetDead page slot true in
                   let page := with_Garbage page
                     (u32 (Garbage page + u32 (u32 (1 + len ptr) + u32 (1 + len val)))) in
                   let page := with_Act page (u32 (Act page - 1)) in
                   let* page := deleteKey_collapse (Z.to_nat (Cnt page)) page in
                   Val (true, page)
                 else Val (false, page)
               else Val (false, page)) in
            let tree := with_found (with_mgr tree (setPage m pageNo page)) fnd in
            if fnd && (0 <? lvl) && (0 <? Act page) && fence then
              fixFence
                (fun tree key lvl value => insertKey fuel' tree key lvl value true)
                (deleteKey fuel') tree pageNo lvl
            else if (1 <? lvl) && (pageNo =? RootPage) && (Act page =? 1) then
              collapseRoot fuel tree pageNo
            else if Act page =? 0 then
              deletePage
                (fun tree key lvl value => insertKey fuel' tree key lvl value true)
                (deleteKey fuel') tree pageNo
            else Val (BLTErrOk, tree)
        end
  end.

(** [findNext]: advance to next slot; the result is the slot and the set *)
Definition findNext (tree : BLTree) (set : option Z) (slot : Z)
  : outcome (Z * option Z * BLTree) :=
  match set with
  | None => Panic NilDeref
  | Some setNo =>
      let* page := getPage (mgr tree) setNo in
      if slot <? Cnt page then Val (u32 (slot + 1), set, tree)
      else
        let pageNo := GetID (Right page) in
        if 0 <? pageNo then
          match pagePool (mgr tree) !! pageNo with
          | None =>
              Val (0, None, with_mgr tree (with_mgr_err (mgr tree) BLTErrRead))
          | Some _ => Val (1, Some pageNo, tree)
          end
        else Val (0, set, with_err tree BLTErrStruct)
  end.

(** the [for] loop of [findKey]; the result is [ret], [foundKey],
    [foundValue], the set and the tree *)
Fixpoint findKey_loop (fuel : nat) (tree : BLTree) (key : list byte) (valMax : Z)
    (set : option Z) (slot : Z) (foundKey : list byte)
  : outcome (Z * list byte * list byte * option Z * BLTree) :=
  if 0 <? slot then
    match set with
    | None => Panic NilDeref
    | Some setNo =>
        let* page := getPage (mgr tree) setNo in
        let* ptr := Key page slot in
        let* t := Typ page slot in
        let* '(slot, ptr) :=
          (if t =? Librarian
           then let slot := u32 (slot + 1) in
                let* ptr := Key page slot in Val (slot, ptr)
           else Val (slot, ptr)) in
        let foundKey := ptr in
        let keyLen := len ptr in
        let* t := Typ page slot in
        let keyLen := if t =? Duplicate then keyLen - BtId else keyLen in
        if (slot =? Cnt page) && (GetID (Right page) =? 0)
        then Val (-1, foundKey, [], set, tree)
        else
          let* d := Dead page slot in
          if d then
            match fuel with
            | O => Panic OutOfFuel
            | S fuel' =>
                let* '(slot, set, tree) := findNext tree set slot in
                findKey_loop fuel' tree key valMax set slot foundKey
            end
          else if (keyLen =? len key)
                  && (KeyCmp (take (Z.to_nat keyLen) ptr) key =? 0) then
            let* val := Value page slot in
            let valMax := if len val <? valMax then len val else valMax in
            if valMax <? 0 then Panic SliceBounds
            else Val (valMax, foundKey, take (Z.to_nat valMax) val, set, tree)
          else Val (-1, foundKey, [], set, tree)
    end
  else Val (-1, foundKey, [], set, tree).

(** [findKey]: number of value bytes or (-1) if not found, the key found
    and the value *)
Definition findKey (fuel : nat) (tree : BLTree) (key : list byte) (valMax : Z)
  : outcome (Z * list byte * list byte * BLTree) :=
  let* '(slot, set, m) := LoadPage fuel (mgr tree) key 0 LockRead in
  let tree := with_mgr tree m in
  let* '(ret, foundKey, foundValue, set, tree) :=
    findKey_loop fuel tree key valMax set slot [] in
  match set with
  | None => Panic NilDeref
  | Some _ => Val (ret, foundKey, foundValue, tree)
  end.

(** * Bytes and slices *)

Lemma u32_small z : 0 <= z < 2 ^ 32 -> u32 z = z.
Proof. intros. unfold u32. apply Z.mod_small. lia. Qed.

Lemma u8_small z : 0 <= z < 2 ^ 8 -> u8 z = z.
Proof. intros. unfold u8. apply Z.mod_small. lia. Qed.

Lemma u32_range z : 0 <= u32 z < 2 ^ 32.
Proof. unfold u32. apply Z.mod_pos_bound. lia. Qed.

Lemma u8_range z : 0 <= u8 z < 2 ^ 8.
Proof. unfold u8. apply Z.mod_pos_bound. lia. Qed.

Lemma len_nonneg {A} (l : list A) : 0 <= len l.
Proof. unfold len. lia. Qed.

Lemma len_app {A} (l k : list A) : len (l ++ k) = len l + len k.
Proof. unfold len. rewrite length_app. lia. Qed.

Lemma len_cons {A} (x : A) (l : list A) : len (x :: l) = 1 + len l.
Proof. unfold len. simpl. lia. Qed.

Lemma len_zeros n : 0 <= n -> len (zeros n) = n.
Proof. intros. unfold len, zeros. rewrite length_replicate. lia. Qed.

Lemma len_le_split n z : len (le_split n z) = Z.of_nat n.
Proof. unfold len. now rewrite length_le_split. Qed.

Definition byte_at (d : list byte) (a : Z) : byte :=
  default Byte.x00 (d !! Z.to_nat a).

Lemma index_Val d a : 0 <= a < len d -> index d a = Val (byte_at d a).
Proof.
  intros H. unfold index, byte_at, len in *.
  destruct (Z.leb_spec 0 a); [|lia].
  destruct (d !! Z.to_nat a) eqn:E; [done|].
  apply lookup_ge_None in E. lia.
Qed.

Lemma index_inv d a b : index d a = Val b -> 0 <= a < len d /\ b = byte_at d a.
Proof.
  unfold index, byte_at, len.
  destruct (Z.leb_spec 0 a); [|done].
  destruct (d !! Z.to_nat a) eqn:E; [|done].
  intros [= ->]. apply lookup_lt_Some in E. split; [lia|done].
Qed.

Lemma slice_Val d lo hi :
  0 <= lo <= hi -> hi <= len d -> slice d lo hi = Val (sub d lo (hi - lo)).
Proof.
  intros. unfold slice.
  destruct (Z.leb_spec 0 lo); [|lia].
  destruct (Z.leb_spec lo hi); [|lia].
  destruct (Z.leb_spec hi (len d)); [|lia]. done.
Qed.

Lemma slice_inv d lo hi r :
  slice d lo hi = Val r -> 0 <= lo <= hi /\ hi <= len d /\ r = sub d lo (hi - lo).
Proof.
  unfold slice.
  destruct (Z.leb_spec 0 lo); [|done].
  destruct (Z.leb_spec lo hi); [|done].
  destruct (Z.leb_spec hi (len d)); [|done].
  simpl. intros [= <-]. repeat split; lia.
Qed.

Lemma len_sub d a n : 0 <= a -> 0 <= n -> a + n <= len d -> len (sub d a n) = n.
Proof.
  intros. unfold sub, len in *. rewrite length_take, length_drop. lia.
Qed.

Lemma sub_lookup d a n i :
  0 <= a -> (i < Z.to_nat n)%nat -> sub d a n !! i = d !! (Z.to_nat a + i)%nat.
Proof.
  intros. unfold sub. rewrite lookup_take_lt by lia. apply lookup_drop.
Qed.

Lemma sub_eq d d' a n :
  0 <= a -> 0 <= n ->
  (forall b, a <= b < a + n -> d' !! Z.to_nat b = d !! Z.to_nat b) ->
  sub d' a n = sub d a n.
Proof.
  intros Ha Hn H. apply list_eq. intros i.
  destruct (decide (i < Z.to_nat n)%nat).
  - rewrite !sub_lookup by lia.
    specialize (H (a + Z.of_nat i)).
    replace (Z.to_nat (a + Z.of_nat i)) with (Z.to_nat a + i)%nat in H by lia.
    apply H. lia.
  - unfold sub. rewrite !lookup_take_ge by lia. done.
Qed.

Lemma sub_sub d a n b m :
  0 <= a -> 0 <= b -> 0 <= m -> b + m <= n ->
  sub (sub d a n) b m = sub d (a + b) m.
Proof.
  intros. apply list_eq. intros i.
  destruct (decide (i < Z.to_nat m)%nat).
  - rewrite !sub_lookup by lia. f_equal. lia.
  - unfold sub. rewrite !lookup_take_ge by lia. done.
Qed.

Lemma sub_all d : sub d 0 (len d) = d.
Proof. unfold sub, len. simpl. rewrite Nat2Z.id. apply firstn_all. Qed.

Lemma sub_app_split d a n m :
  0 <= a -> 0 <= n -> 0 <= m -> sub d a (n + m) = sub d a n ++ sub d (a + n) m.
Proof.
  intros. unfold sub.
  replace (Z.to_nat (n + m)) with (Z.to_nat n + Z.to_nat m)%nat by lia.
  rewrite <- take_take_drop, drop_drop.
  do 3 f_equal. lia.
Qed.

Lemma byte_at_sub d a n b :
  0 <= a -> 0 <= b < n -> byte_at (sub d a n) b = byte_at d (a + b).
Proof.
  intros. unfold byte_at. rewrite sub_lookup by lia.
  do 2 f_equal. lia.
Qed.

Lemma sub_one d a : 0 <= a < len d -> sub d a 1 = [byte_at d a].
Proof.
  intros. unfold sub, byte_at, len in *.
  destruct (drop (Z.to_nat a) d) eqn:E.
  - apply (f_equal length) in E. rewrite length_drop in E. simpl in E. lia.
  - simpl. rewrite take_0. f_equal.
    rewrite <- (Nat.add_0_r (Z.to_nat a)), <- lookup_drop, E. done.
Qed.

(** ** One write *)

Lemma length_splice d o src :
  (o <= length d)%nat -> length (splice d o src) = length d.
Proof.
  intros. unfold splice.
  rewrite !length_app, !length_take, length_drop. lia.
Qed.

Lemma len_splice d o src :
  0 <= o <= len d -> len (splice d (Z.to_nat o) src) = len d.
Proof. intros. unfold len in *. rewrite length_splice; lia. Qed.

Lemma lookup_splice_out d o src i :
  (o <= length d)%nat -> (i < o \/ o + length src <= i)%nat ->
  splice d o src !! i = d !! i.
Proof.
  intros Ho Hi. unfold splice.
  destruct (decide (i < o)%nat).
  - rewrite lookup_app_l by (rewrite length_take; lia).
    apply lookup_take_lt. lia.
  - rewrite lookup_app_r by (rewrite length_take; lia).
    rewrite length_take.
    destruct (decide (o + length src <= length d)%nat).
    + rewrite lookup_app_r by (rewrite length_take; lia).
      rewrite length_take, lookup_drop. f_equal. lia.
    + rewrite lookup_app_r by (rewrite length_take; lia).
      rewrite length_take, lookup_drop.
      rewrite !(proj2 (lookup_ge_None _ _)); [done|lia|lia].
Qed.

Lemma lookup_splice_in d o src i :
  (o <= i < o + length src)%nat -> (i < length d)%nat ->
  splice d o src !! i = src !! (i - o)%nat.
Proof.
  intros Hi Hd. unfold splice.
  rewrite lookup_app_r by (rewrite length_take; lia).
  rewrite length_take.
  rewrite lookup_app_l by (rewrite length_take; lia).
  rewrite lookup_take_lt by lia. f_equal. lia.
Qed.

Lemma byte_at_splice_out d o src a :
  0 <= a -> 0 <= o <= len d -> a < o \/ o + len src <= a ->
  byte_at (splice d (Z.to_nat o) src) a = byte_at d a.
Proof.
  intros. unfold byte_at, len in *. rewrite lookup_splice_out; [done|lia|lia].
Qed.

Lemma byte_at_splice_in d o src a :
  0 <= o -> o <= a < o + len src -> a < len d ->
  byte_at (splice d (Z.to_nat o) src) a = byte_at src (a - o).
Proof.
  intros. unfold byte_at, len in *. rewrite lookup_splice_in by lia.
  do 2 f_equal. lia.
Qed.

Lemma sub_splice_out d o src a n :
  0 <= a -> 0 <= n -> 0 <= o <= len d -> a + n <= o \/ o + len src <= a ->
  sub (splice d (Z.to_nat o) src) a n = sub d a n.
Proof.
  intros. apply sub_eq; [lia|lia|].
  intros b Hb. unfold len in *. apply lookup_splice_out; lia.
Qed.

Lemma sub_splice_in d o src a n :
  0 <= o -> o <= a -> 0 <= n -> a + n <= o + len src -> o + len src <= len d ->
  sub (splice d (Z.to_nat o) src) a n = sub src (a - o) n.
Proof.
  intros. apply list_eq. intros i. unfold len in *.
  destruct (decide (i < Z.to_nat n)%nat).
  - rewrite !sub_lookup by lia.
    rewrite lookup_splice_in by lia. f_equal. lia.
  - unfold sub. rewrite !lookup_take_ge by lia. done.
Qed.

Lemma sub_splice_same d o src :
  0 <= o -> o + len src <= len d -> sub (splice d (Z.to_nat o) src) o (len src) = src.
Proof.
  intros. rewrite sub_splice_in by (pose proof (len_nonneg src); lia).
  rewrite Z.sub_diag. apply sub_all.
Qed.

Lemma copy_at_Val d o src :
  0 <= o <= len d -> copy_at d o src = Val (splice d (Z.to_nat o) src).
Proof.
  intros. unfold copy_at.
  destruct (Z.leb_spec 0 o); [|lia].
  destruct (Z.leb_spec o (len d)); [|lia]. done.
Qed.

Lemma copy_at_inv d o src r :
  copy_at d o src = Val r -> 0 <= o <= len d /\ r = splice d (Z.to_nat o) src.
Proof.
  unfold copy_at.
  destruct (Z.leb_spec 0 o); [|done].
  destruct (Z.leb_spec o (len d)); [|done].
  simpl. intros [= <-]. repeat split; lia.
Qed.


(** ** Two byte lists that agree on a window *)

Definition agree (d d' : list byte) (lo hi : Z) : Prop :=
  len d' = len d /\
  forall b, lo <= b < hi -> 0 <= b -> d' !! Z.to_nat b = d !! Z.to_nat b.

Lemma agree_refl d lo hi : agree d d lo hi.
Proof. split; done. Qed.

Lemma agree_trans d1 d2 d3 lo hi :
  agree d1 d2 lo hi -> agree d2 d3 lo hi -> agree d1 d3 lo hi.
Proof.
  intros [L1 H1] [L2 H2]. split; [congruence|].
  intros b Hb Hb0. rewrite H2, H1; done.
Qed.

Lemma agree_mono d d' lo hi lo' hi' :
  agree d d' lo hi -> lo <= lo' -> hi' <= hi -> agree d d' lo' hi'.
Proof. intros [L H] ? ?. split; [done|]. intros b ? ?. apply H; lia. Qed.

Lemma agree_sym d d' lo hi : agree d d' lo hi -> agree d' d lo hi.
Proof. intros [L H]. split; [done|]. intros b ? ?. symmetry. apply H; lia. Qed.

Lemma agree_splice d o src lo hi :
  0 <= o <= len d -> hi <= o \/ o + len src <= lo ->
  agree d (splice d (Z.to_nat o) src) lo hi.
Proof.
  intros Ho Hd. split; [apply len_splice; lia|].
  intros b Hb Hb0. unfold len in *. apply lookup_splice_out; lia.
Qed.

Lemma agree_sub d d' lo hi a n :
  agree d d' lo hi -> 0 <= a -> 0 <= n -> lo <= a -> a + n <= hi ->
  sub d' a n = sub d a n.
Proof.
  intros [L H] ? ? ? ?. apply sub_eq; [lia|lia|].
  intros b Hb. apply H; lia.
Qed.

Lemma agree_byte d d' lo hi a :
  agree d d' lo hi -> 0 <= a -> lo <= a < hi -> byte_at d' a = byte_at d a.
Proof. intros [L H] ? ?. unfold byte_at. rewrite H; [done|lia|lia]. Qed.

(** ** The slot array seen through the data *)

Definition slot_at (i : Z) : Z := SlotSize * (i - 1).

Definition in_slots (d : list byte) (i : Z) : Prop := 1 <= i /\ SlotSize * i <= len d.

Definition off_of (d : list byte) (i : Z) : Z := le_combine (sub d (slot_at i) 4).
Definition typ_of (d : list byte) (i : Z) : Z := byte.unsigned (byte_at d (slot_at i + 4)).
Definition dead_of (d : list byte) (i : Z) : bool :=
  byte.unsigned (byte_at d (slot_at i + 5)) =? 1.

Lemma off_of_range d i : 0 <= off_of d i < 2 ^ 32.
Proof.
  unfold off_of. pose proof (le_combine_bound (sub d (slot_at i) 4)) as H.
  assert (length (sub d (slot_at i) 4) <= 4)%nat.
  { unfold sub. rewrite length_take. lia. }
  assert (2 ^ (8 * Z.of_nat (length (sub d (slot_at i) 4))) <= 2 ^ 32).
  { apply Z.pow_le_mono_r; lia. }
  lia.
Qed.

Lemma typ_of_range d i : 0 <= typ_of d i < 256.
Proof. unfold typ_of. pose proof (byte.unsigned_range (byte_at d (slot_at i + 4))). lia. Qed.

Lemma slotBytes_Val p i :
  len (Data p) < 2 ^ 32 -> in_slots (Data p) i -> slotBytes p i = Val (slot_at i).
Proof.
  intros HL [H1 H2]. unfold slotBytes, slot_at, SlotSize in *.
  rewrite (u32_small (i - 1)) by lia.
  rewrite (u32_small (6 * (i - 1))) by lia.
  rewrite (u32_small (6 * (i - 1) + 6)) by lia.
  destruct (Z.leb_spec (6 * (i - 1)) (6 * (i - 1) + 6)); [|lia].
  destruct (Z.leb_spec (6 * (i - 1) + 6) (len (Data p))); [|lia]. done.
Qed.

Lemma slotBytes_inv p i o :
  len (Data p) < 2 ^ 32 -> 0 <= i -> SlotSize * i < 2 ^ 32 ->
  slotBytes p i = Val o -> in_slots (Data p) i /\ o = slot_at i.
Proof.
  intros HL H0 Hi. unfold slotBytes, slot_at, in_slots, SlotSize in *.
  destruct (decide (i = 0)) as [->|].
  { vm_compute. done. }
  rewrite (u32_small (i - 1)) by lia.
  rewrite (u32_small (6 * (i - 1))) by lia.
  rewrite (u32_small (6 * (i - 1) + 6)) by lia.
  destruct (Z.leb_spec (6 * (i - 1)) (6 * (i - 1) + 6)); [|done].
  destruct (Z.leb_spec (6 * (i - 1) + 6) (len (Data p))); [|done].
  simpl. intros [= <-]. lia.
Qed.

Lemma slotBytes_panic p i r :
  slotBytes p i = Panic r -> r = SliceBounds.
Proof. unfold slotBytes. case_match; congruence. Qed.

Section Slots.
Variable p : Page.
Hypothesis HL : len (Data p) < 2 ^ 32.
Variable i : Z.
Hypothesis Hi : in_slots (Data p) i.

Lemma KeyOffset_Val : KeyOffset p i = Val (off_of (Data p) i).
Proof. unfold KeyOffset. rewrite slotBytes_Val by done. done. Qed.

Lemma Typ_Val : Typ p i = Val (typ_of (Data p) i).
Proof.
  unfold Typ. rewrite slotBytes_Val by done. simpl.
  rewrite index_Val; [done|]. destruct Hi. unfold slot_at, SlotSize in *. lia.
Qed.

Lemma Dead_Val : Dead p i = Val (dead_of (Data p) i).
Proof.
  unfold Dead. rewrite slotBytes_Val by done. simpl.
  rewrite index_Val; [done|]. destruct Hi. unfold slot_at, SlotSize in *. lia.
Qed.

Lemma SetKeyOffset_Val o :
  o <= 32767 ->
  SetKeyOffset p i o =
    Val (with_Data p (splice (Data p) (Z.to_nat (slot_at i)) (le_split 4 o))).
Proof.
  intros. unfold SetKeyOffset.
  destruct (Z.ltb_spec 32767 o); [lia|].
  rewrite slotBytes_Val by done. done.
Qed.

Lemma SetTyp_Val t :
  SetTyp p i t =
    Val (with_Data p (splice (Data p) (Z.to_nat (slot_at i + 4)) [byte.of_Z t])).
Proof. unfold SetTyp. rewrite slotBytes_Val by done. done. Qed.

Lemma SetDead_Val b :
  SetDead p i b =
    Val (with_Data p (splice (Data p) (Z.to_nat (slot_at i + 5))
                        [if b then Byte.x01 else Byte.x00])).
Proof. unfold SetDead. rewrite slotBytes_Val by done. done. Qed.

Lemma ClearSlot_Val :
  ClearSlot p i =
    Val (with_Data p (splice (Data p) (Z.to_nat (slot_at i)) (zeros SlotSize))).
Proof. unfold ClearSlot. rewrite slotBytes_Val by done. done. Qed.
End Slots.

(** what a write leaves of a slot *)
Lemma slot_views_agree d d' lo hi i :
  agree d d' lo hi -> 1 <= i -> lo <= slot_at i -> slot_at i + SlotSize <= hi ->
  off_of d' i = off_of d i /\ typ_of d' i = typ_of d i /\ dead_of d' i = dead_of d i.
Proof.
  intros A H1 H2 H3. unfold off_of, typ_of, dead_of, slot_at, SlotSize in *.
  rewrite (agree_sub _ _ _ _ _ _ A) by lia.
  rewrite !(agree_byte _ _ _ _ _ A) by lia. done.
Qed.

Lemma in_slots_agree d d' lo hi i : agree d d' lo hi -> in_slots d i -> in_slots d' i.
Proof. intros [L _]. unfold in_slots. rewrite L. done. Qed.

(** the three fields after each write into slot [i] *)
Section SlotWrites.
Variable d : list byte.
Variable i : Z.
Hypothesis Hi : in_slots d i.

Let bounds : 0 <= slot_at i /\ slot_at i + 6 <= len d.
Proof. destruct Hi. unfold slot_at, SlotSize in *. lia. Qed.

Lemma off_of_set o :
  0 <= o < 2 ^ 32 -> off_of (splice d (Z.to_nat (slot_at i)) (le_split 4 o)) i = o.
Proof.
  intros. unfold off_of. destruct bounds.
  rewrite sub_splice_in by (rewrite ?len_le_split; simpl; lia).
  rewrite Z.sub_diag.
  replace 4 with (len (le_split 4 o)) at 2 by apply len_le_split.
  rewrite sub_all, le_combine_split. apply Z.mod_small. simpl. lia.
Qed.

Lemma typ_of_set_off o :
  typ_of (splice d (Z.to_nat (slot_at i)) (le_split 4 o)) i = typ_of d i.
Proof.
  unfold typ_of. destruct bounds.
  rewrite byte_at_splice_out by (rewrite ?len_le_split; simpl; lia). done.
Qed.

Lemma dead_of_set_off o :
  dead_of (splice d (Z.to_nat (slot_at i)) (le_split 4 o)) i = dead_of d i.
Proof.
  unfold dead_of. destruct bounds.
  rewrite byte_at_splice_out by (rewrite ?len_le_split; simpl; lia). done.
Qed.

Lemma typ_of_set t :
  typ_of (splice d (Z.to_nat (slot_at i + 4)) [byte.of_Z t]) i = t mod 256.
Proof.
  unfold typ_of. destruct bounds.
  rewrite byte_at_splice_in by (unfold len in *; simpl; lia).
  rewrite Z.sub_diag. unfold byte_at. simpl.
  rewrite byte.unsigned_of_Z. done.
Qed.

Lemma off_of_set_typ t :
  off_of (splice d (Z.to_nat (slot_at i + 4)) [byte.of_Z t]) i = off_of d i.
Proof.
  unfold off_of. destruct bounds.
  rewrite sub_splice_out by (unfold len in *; simpl; lia). done.
Qed.

Lemma dead_of_set_typ t :
  dead_of (splice d (Z.to_nat (slot_at i + 4)) [byte.of_Z t]) i = dead_of d i.
Proof.
  unfold dead_of. destruct bounds.
  rewrite byte_at_splice_out by (unfold len in *; simpl; lia). done.
Qed.

Lemma dead_of_set (b : bool) :
  dead_of (splice d (Z.to_nat (slot_at i + 5)) [if b then Byte.x01 else Byte.x00]) i = b.
Proof.
  unfold dead_of. destruct bounds.
  rewrite byte_at_splice_in by (unfold len in *; simpl; lia).
  rewrite Z.sub_diag. unfold byte_at. simpl. destruct b; done.
Qed.

Lemma off_of_set_dead (b : byte) :
  off_of (splice d (Z.to_nat (slot_at i + 5)) [b]) i = off_of d i.
Proof.
  unfold off_of. destruct bounds.
  rewrite sub_splice_out by (unfold len in *; simpl; lia). done.
Qed.

Lemma typ_of_set_dead (b : byte) :
  typ_of (splice d (Z.to_nat (slot_at i + 5)) [b]) i = typ_of d i.
Proof.
  unfold typ_of. destruct bounds.
  rewrite byte_at_splice_out by (unfold len in *; simpl; lia). done.
Qed.
End SlotWrites.

(** a write into slot [i] leaves the rest of the data *)
Lemma agree_slot_write d i a src lo hi :
  in_slots d i -> slot_at i <= a -> a + len src <= slot_at i + SlotSize ->
  hi <= slot_at i \/ slot_at i + SlotSize <= lo ->
  agree d (splice d (Z.to_nat a) src) lo hi.
Proof.
  intros [H1 H2] Ha Hs Hd. unfold slot_at, SlotSize in *.
  pose proof (len_nonneg src).
  apply agree_splice; lia.
Qed.


(** ** Keys and values in the heap *)

(** the bytes at [off] are a length byte and the key [k] *)
Definition key_ok (d : list byte) (off : Z) (k : list byte) : Prop :=
  0 <= off /\ off + 1 + len k <= len d /\
  byte.unsigned (byte_at d off) = len k /\ sub d (off + 1) (len k) = k.

(** ... followed by a length byte and the value [v] *)
Definition entry_ok (d : list byte) (off : Z) (k v : list byte) : Prop :=
  key_ok d off k /\ len k <= 254 /\
  off + 1 + len k + 1 + len v <= len d /\
  byte.unsigned (byte_at d (off + 1 + len k)) = len v /\
  sub d (off + 1 + len k + 1) (len v) = v.

Lemma key_ok_len d off k : key_ok d off k -> len k <= 255.
Proof.
  intros (_ & _ & H & _). pose proof (byte.unsigned_range (byte_at d off)). lia.
Qed.

Lemma entry_ok_len d off k v : entry_ok d off k v -> len v <= 255.
Proof.
  intros (_ & _ & _ & H & _).
  pose proof (byte.unsigned_range (byte_at d (off + 1 + len k))). lia.
Qed.

Lemma key_ok_fun d off k k' : key_ok d off k -> key_ok d off k' -> k = k'.
Proof.
  intros (_ & _ & H1 & H2) (_ & _ & H1' & H2'). congruence.
Qed.

Lemma entry_ok_fun d off k v k' v' :
  entry_ok d off k v -> entry_ok d off k' v' -> k = k' /\ v = v'.
Proof.
  intros (K & _ & _ & H1 & H2) (K' & _ & _ & H1' & H2').
  pose proof (key_ok_fun _ _ _ _ K K') as <-. split; [done|]. congruence.
Qed.

Lemma key_ok_agree d d' lo hi off k :
  agree d d' lo hi -> lo <= off -> off + 1 + len k <= hi ->
  key_ok d off k -> key_ok d' off k.
Proof.
  intros A Hlo Hhi (H0 & H1 & H2 & H3). pose proof (len_nonneg k).
  split; [done|]. split; [destruct A as [-> _]; done|]. split.
  - rewrite (agree_byte _ _ _ _ _ A) by lia. done.
  - rewrite (agree_sub _ _ _ _ _ _ A) by lia. done.
Qed.

Lemma entry_ok_agree d d' lo hi off k v :
  agree d d' lo hi -> lo <= off -> off + 1 + len k + 1 + len v <= hi ->
  entry_ok d off k v -> entry_ok d' off k v.
Proof.
  intros A Hlo Hhi (K & H1 & H2 & H3 & H4).
  pose proof (len_nonneg k). pose proof (len_nonneg v).
  destruct K as (K0 & K'). 
  split; [apply (key_ok_agree _ _ _ _ _ _ A); [lia|lia|split; done]|].
  split; [done|]. split; [destruct A as [-> _]; done|]. split.
  - rewrite (agree_byte _ _ _ _ _ A) by lia. done.
  - rewrite (agree_sub _ _ _ _ _ _ A) by lia. done.
Qed.

(** the two writes that put an entry on a page *)
Lemma key_ok_write d a k :
  0 <= a -> a + 1 + len k <= len d -> len k <= 255 ->
  key_ok (splice d (Z.to_nat a) (byte.of_Z (len k) :: k)) a k.
Proof.
  intros Ha Hb Hk. pose proof (len_nonneg k).
  split; [done|]. split; [rewrite len_splice; lia|]. split.
  - rewrite byte_at_splice_in by (rewrite ?len_cons; lia).
    rewrite Z.sub_diag. unfold byte_at. simpl.
    rewrite byte.unsigned_of_Z. unfold byte.wrap. apply Z.mod_small. lia.
  - rewrite sub_splice_in by (rewrite ?len_cons; lia).
    replace (a + 1 - a) with 1 by lia.
    change (byte.of_Z (len k) :: k) with ([byte.of_Z (len k)] ++ k).
    unfold sub. simpl. rewrite drop_0. unfold len. rewrite Nat2Z.id. apply firstn_all.
Qed.

Lemma entry_ok_write d a k v :
  0 <= a -> a + 1 + len k + 1 + len v <= len d -> len k <= 254 -> len v <= 255 ->
  entry_ok
    (splice (splice d (Z.to_nat (a + 1 + len k)) (byte.of_Z (len v) :: v))
       (Z.to_nat a) (byte.of_Z (len k) :: k)) a k v.
Proof.
  intros Ha Hb Hk Hv. pose proof (len_nonneg k). pose proof (len_nonneg v).
  set (d1 := splice d (Z.to_nat (a + 1 + len k)) (byte.of_Z (len v) :: v)).
  assert (L1 : len d1 = len d) by (apply len_splice; lia).
  assert (K1 : key_ok d1 (a + 1 + len k) v).
  { apply key_ok_write; lia. }
  assert (A : agree d1 (splice d1 (Z.to_nat a) (byte.of_Z (len k) :: k))
                (a + 1 + len k) (len d)).
  { apply agree_splice; rewrite ?len_cons; lia. }
  split; [apply key_ok_write; lia|]. split; [done|].
  assert (key_ok (splice d1 (Z.to_nat a) (byte.of_Z (len k) :: k)) (a + 1 + len k) v)
    as (_ & K2 & K3 & K4).
  { eapply key_ok_agree; [exact A|lia|lia|exact K1]. }
  split; [rewrite len_splice; lia|]. done.
Qed.

(** ** The getters of page.go on a slot in range *)

Definition slot_key (p : Page) (i : Z) (k : list byte) : Prop :=
  in_slots (Data p) i /\ key_ok (Data p) (off_of (Data p) i) k.

Definition slot_entry (p : Page) (i : Z) (k v : list byte) : Prop :=
  in_slots (Data p) i /\ entry_ok (Data p) (off_of (Data p) i) k v.

Lemma slot_entry_key p i k v : slot_entry p i k v -> slot_key p i k.
Proof. intros [? [? _]]. split; done. Qed.

Section Getters.
Variable p : Page.
Hypothesis HL : len (Data p) < 2 ^ 31.

Lemma Key_Val i k : slot_key p i k -> Key p i = Val k.
Proof.
  intros [Hi (H0 & H1 & H2 & H3)]. pose proof (len_nonneg k).
  unfold Key. rewrite KeyOffset_Val by (done || lia). simpl.
  rewrite index_Val by lia. simpl.
  rewrite H2.
  rewrite (u32_small (off_of (Data p) i + 1)) by lia.
  rewrite u32_small by lia.
  rewrite slice_Val by lia.
  replace (off_of (Data p) i + 1 + len k - (off_of (Data p) i + 1)) with (len k) by lia.
  rewrite H3. done.
Qed.

Lemma Key_inv i k :
  0 <= i -> SlotSize * i < 2 ^ 32 -> Key p i = Val k -> slot_key p i k.
Proof.
  intros H0 H1. unfold Key, KeyOffset.
  destruct (slotBytes p i) as [o|] eqn:E; [|done]. simpl.
  apply slotBytes_inv in E as [Hi ->]; [|lia|done|done].
  fold (off_of (Data p) i).
  destruct (index (Data p) (off_of (Data p) i)) as [b|] eqn:E; [|done]. simpl.
  apply index_inv in E as [Ho ->].
  pose proof (byte.unsigned_range (byte_at (Data p) (off_of (Data p) i))) as Hb.
  rewrite (u32_small (off_of (Data p) i + 1)) by lia.
  rewrite u32_small by lia.
  intros (S1 & S2 & ->)%slice_inv.
  split; [done|].
  assert (LS : len (sub (Data p) (off_of (Data p) i + 1)
                (byte.unsigned (byte_at (Data p) (off_of (Data p) i)))) =
               byte.unsigned (byte_at (Data p) (off_of (Data p) i))).
  { apply len_sub; lia. }
  replace (off_of (Data p) i + 1 +
           byte.unsigned (byte_at (Data p) (off_of (Data p) i)) -
           (off_of (Data p) i + 1))
    with (byte.unsigned (byte_at (Data p) (off_of (Data p) i))) in * by lia.
  split; [lia|]. rewrite LS. repeat split; try lia. 
Qed.

Lemma ValueOffset_Val i k :
  slot_key p i k -> len k <= 254 ->
  ValueOffset p i = Val (off_of (Data p) i + 1 + len k).
Proof.
  intros [Hi (H0 & H1 & H2 & H3)] Hk. pose proof (len_nonneg k).
  unfold ValueOffset. rewrite KeyOffset_Val by (done || lia). simpl.
  rewrite index_Val by lia. simpl. rewrite H2.
  rewrite u8_small by lia. rewrite u32_small by lia. f_equal. lia.
Qed.

Lemma Value_Val i k v : slot_entry p i k v -> Value p i = Val v.
Proof.
  intros [Hi (K & Hk & H1 & H2 & H3)].
  pose proof (len_nonneg k). pose proof (len_nonneg v).
  unfold Value. rewrite (ValueOffset_Val i k) by (done || split; done). simpl.
  rewrite index_Val by (destruct K; lia). simpl. rewrite H2.
  destruct K as [K0 _].
  rewrite (u32_small (off_of (Data p) i + 1 + len k + 1)) by lia.
  rewrite u32_small by lia.
  rewrite slice_Val by lia.
  replace (off_of (Data p) i + 1 + len k + 1 + len v -
           (off_of (Data p) i + 1 + len k + 1)) with (len v) by lia.
  rewrite H3. done.
Qed.

Lemma Value_inv i k v :
  slot_key p i k -> len k <= 254 -> Value p i = Val v -> slot_entry p i k v.
Proof.
  intros K Hk. unfold Value. rewrite (ValueOffset_Val i k) by done. simpl.
  destruct K as [Hi K]. pose proof K as (K0 & K1 & K2 & K3).
  pose proof (len_nonneg k).
  destruct (index (Data p) (off_of (Data p) i + 1 + len k)) as [b|] eqn:E; [|done].
  simpl. apply index_inv in E as [Ho ->].
  set (vo := off_of (Data p) i + 1 + len k) in *.
  pose proof (byte.unsigned_range (byte_at (Data p) vo)) as Hb.
  rewrite (u32_small (vo + 1)) by lia.
  rewrite u32_small by lia.
  intros (S1 & S2 & ->)%slice_inv.
  replace (vo + 1 + byte.unsigned (byte_at (Data p) vo) - (vo + 1))
    with (byte.unsigned (byte_at (Data p) vo)) in * by lia.
  assert (LS : len (sub (Data p) (vo + 1) (byte.unsigned (byte_at (Data p) vo))) =
               byte.unsigned (byte_at (Data p) vo)).
  { apply len_sub; lia. }
  split; [done|]. split; [done|]. split; [done|].
  rewrite LS. fold vo. repeat split; try lia.
Qed.
End Getters.

Lemma slot_key_agree p p' lo hi i k :
  agree (Data p) (Data p') lo hi ->
  lo <= slot_at i -> slot_at i + SlotSize <= hi ->
  lo <= off_of (Data p) i -> off_of (Data p) i + 1 + len k <= hi ->
  slot_key p i k -> slot_key p' i k.
Proof.
  intros A H1 H2 H3 H4 [Hi K].
  destruct (slot_views_agree _ _ _ _ i A) as (E & _); [destruct Hi; lia|lia|lia|].
  split; [eapply in_slots_agree; done|]. rewrite E.
  eapply key_ok_agree; done.
Qed.


(** * The order of keys *)

Lemma bytes_compare_refl a : bytes_compare a a = Eq.
Proof. induction a as [|x a IH]; simpl; [done|]. rewrite Z.compare_refl. done. Qed.

Lemma bytes_compare_eq a b : bytes_compare a b = Eq -> a = b.
Proof.
  revert b. induction a as [|x a IH]; intros [|y b]; simpl; try done.
  destruct (byte.unsigned x ?= byte.unsigned y) eqn:E; try done.
  intros H. apply Z.compare_eq in E. apply byte.unsigned_inj in E.
  f_equal; [done|]. apply IH. done.
Qed.

Lemma bytes_compare_antisym a b : bytes_compare b a = CompOpp (bytes_compare a b).
Proof.
  revert b. induction a as [|x a IH]; intros [|y b]; simpl; try done.
  rewrite (Z.compare_antisym (byte.unsigned x) (byte.unsigned y)).
  destruct (byte.unsigned x ?= byte.unsigned y); simpl; try done.
Qed.

Lemma bytes_compare_lt_trans a b c :
  bytes_compare a b = Lt -> bytes_compare b c = Lt -> bytes_compare a c = Lt.
Proof.
  revert b c. induction a as [|x a IH]; intros [|y b] [|z c]; simpl; try done.
  destruct (byte.unsigned x ?= byte.unsigned y) eqn:E1;
    destruct (byte.unsigned y ?= byte.unsigned z) eqn:E2; try done.
  - apply Z.compare_eq in E1, E2. rewrite E1, E2, Z.compare_refl. apply IH.
  - apply Z.compare_eq in E1. rewrite E1, E2. done.
  - apply Z.compare_eq in E2. rewrite <- E2, E1. done.
  - intros _ _. rewrite Z.compare_lt_iff in *.
    assert (byte.unsigned x < byte.unsigned z) as ->%Z.compare_lt_iff by lia. done.
Qed.

(** [a <= b] and [a < b] on keys *)
Definition key_le (a b : list byte) : Prop := KeyCmp a b <= 0.
Definition key_lt (a b : list byte) : Prop := KeyCmp a b < 0.

Lemma key_lt_iff a b : key_lt a b <-> bytes_compare a b = Lt.
Proof. unfold key_lt, KeyCmp. destruct (bytes_compare a b); split; (done || lia). Qed.

Lemma key_le_iff a b : key_le a b <-> bytes_compare a b <> Gt.
Proof. unfold key_le, KeyCmp. destruct (bytes_compare a b); split; (done || lia). Qed.

Lemma KeyCmp_eq a b : KeyCmp a b = 0 <-> a = b.
Proof.
  unfold KeyCmp. split.
  - destruct (bytes_compare a b) eqn:E; try done. intros _. by apply bytes_compare_eq.
  - intros ->. rewrite bytes_compare_refl. done.
Qed.

Lemma key_le_refl a : key_le a a.
Proof. apply key_le_iff. rewrite bytes_compare_refl. done. Qed.

Lemma key_lt_le a b : key_lt a b -> key_le a b.
Proof. unfold key_lt, key_le. lia. Qed.

Lemma key_le_lt_trans a b c : key_le a b -> key_lt b c -> key_lt a c.
Proof.
  rewrite key_le_iff, !key_lt_iff. intros H1 H2.
  destruct (bytes_compare a b) eqn:E; [| |done].
  - apply bytes_compare_eq in E as ->. done.
  - eapply bytes_compare_lt_trans; done.
Qed.

Lemma key_lt_le_trans a b c : key_lt a b -> key_le b c -> key_lt a c.
Proof.
  rewrite key_le_iff, !key_lt_iff. intros H1 H2.
  destruct (bytes_compare b c) eqn:E; [| |done].
  - apply bytes_compare_eq in E as ->. done.
  - eapply bytes_compare_lt_trans; done.
Qed.

Lemma key_le_trans a b c : key_le a b -> key_le b c -> key_le a c.
Proof.
  intros H1 H2. apply key_le_iff in H2 as H2'.
  destruct (bytes_compare b c) eqn:E; [| |done].
  - apply bytes_compare_eq in E as ->. done.
  - apply key_lt_le. eapply key_le_lt_trans; [done|]. by apply key_lt_iff.
Qed.

Lemma key_lt_not_le a b : key_lt a b <-> ~ key_le b a.
Proof.
  rewrite key_lt_iff, key_le_iff, (bytes_compare_antisym a b).
  destruct (bytes_compare a b); simpl; split; try done; intros H; try congruence;
    exfalso; apply H; done.
Qed.

Lemma key_le_total a b : key_le a b \/ key_lt b a.
Proof.
  rewrite key_le_iff, key_lt_iff, (bytes_compare_antisym a b).
  destruct (bytes_compare a b); simpl; auto.
Qed.

Lemma key_le_antisym a b : key_le a b -> key_le b a -> a = b.
Proof.
  rewrite !key_le_iff, (bytes_compare_antisym a b).
  destruct (bytes_compare a b) eqn:E; simpl; try done.
  intros _ _. by apply bytes_compare_eq.
Qed.


(** * FindSlot *)

Section FindSlotLoop.
Variables (p : Page) (key : list byte) (kf : Z -> list byte) (top g0 : Z).
Hypothesis Htop : top < 2 ^ 32.
Hypothesis Hread : forall i, 1 <= i < top -> Key p i = Val (kf i).
Hypothesis Hsorted : forall i j, 1 <= i <= j -> j < top -> key_le (kf i) (kf j).

Lemma FindSlot_loop_spec n low higher good :
  1 <= low <= higher -> higher <= top -> higher - low < 2 ^ Z.of_nat n ->
  (forall i, 1 <= i < low -> key_lt (kf i) key) ->
  (higher < top -> 0 < good /\ ~ key_lt (kf higher) key) ->
  (higher = top -> good = g0) ->
  0 <= good -> good + Z.of_nat n < 2 ^ 32 ->
  exists r,
    low <= r <= higher /\
    (forall i, 1 <= i < r -> key_lt (kf i) key) /\
    (r < top -> ~ key_lt (kf r) key) /\
    FindSlot_loop n p key low higher good =
      Val (if (r <? top) || (0 <? g0) then r else 0).
Proof.
  revert low higher good.
  induction n as [|n IH]; intros low higher good Hlh Hht Hfuel Hlow Hhi Hg0 Hg Hgn.
  - assert (higher = low) as -> by (simpl in Hfuel; lia).
    exists low. split; [lia|]. split; [done|]. split; [intros Hl; apply Hhi; done|].
    simpl. rewrite Z.sub_diag. change (u32 0) with 0. simpl.
    destruct (Z.ltb_spec low top) as [Hlt|Hge].
    + destruct (Hhi Hlt) as [Hgood _]. simpl.
      destruct (Z.ltb_spec 0 good); [reflexivity|lia].
    + simpl. rewrite <- Hg0 by lia. destruct (0 <? good); done.
  - cbn [FindSlot_loop].
    rewrite (u32_small (higher - low)) by lia.
    destruct (Z.ltb_spec 0 (higher - low)) as [Hd|Hd].
    + rewrite Z.shiftr_div_pow2 by lia. change (2 ^ 1) with 2.
      set (slot := low + (higher - low) / 2).
      assert (Hslot : low <= slot < higher).
      { unfold slot. pose proof (Z.div_lt_upper_bound (higher - low) 2 (higher - low)).
        pose proof (Z.div_pos (higher - low) 2). lia. }
      rewrite (u32_small slot) by lia.
      rewrite Hread by lia. simpl.
      assert (Hpow : 2 ^ Z.of_nat (S n) = 2 * 2 ^ Z.of_nat n).
      { rewrite Nat2Z.inj_succ, Z.pow_succ_r by lia. done. }
      assert (Hhalf : (higher - low) / 2 < 2 ^ Z.of_nat n).
      { apply Z.div_lt_upper_bound; lia. }
      destruct (Z.ltb_spec (KeyCmp (kf slot) key) 0) as [Hc|Hc].
      * rewrite (u32_small (slot + 1)) by lia.
        destruct (IH (slot + 1) higher good) as (r & R1 & R2 & R3 & R4);
          try done; try lia.
        { unfold slot.
          pose proof (Z.div_mod (higher - low) 2 ltac:(lia)).
          pose proof (Z.mod_pos_bound (higher - low) 2 ltac:(lia)). lia. }
        { intros i Hi. eapply key_le_lt_trans; [|exact Hc].
          apply Hsorted; lia. }
        exists r. split; [lia|]. done.
      * rewrite (u32_small (good + 1)) by lia.
        destruct (IH low slot (good + 1)) as (r & R1 & R2 & R3 & R4);
          try done; try lia.
        { intros _. split; [lia|]. unfold key_lt. lia. }
        exists r. split; [lia|]. done.
    + assert (higher = low) as -> by lia.
      exists low. split; [lia|]. split; [done|]. split; [intros Hl; apply Hhi; done|].
      destruct (Z.ltb_spec low top) as [Hlt|Hge].
      * destruct (Hhi Hlt) as [Hgood _]. simpl.
        destruct (Z.ltb_spec 0 good); [reflexivity|lia].
      * simpl. rewrite <- Hg0 by lia. destruct (0 <? good); done.
Qed.
End FindSlotLoop.

(** The contract of [FindSlot] as the specification words it: the result is
    the smallest slot of [1, Cnt] whose key is not below [key], or 0 when
    there is none; on a page without right sibling the fence slot [Cnt] counts
    as such a slot without being looked at. *)
Definition slot_below (p : Page) (key : list byte) (i : Z) : Prop :=
  exists k, Key p i = Val k /\ key_lt k key.

Definition slot_not_below (p : Page) (key : list byte) (i : Z) : Prop :=
  exists k, Key p i = Val k /\ ~ key_lt k key.

Definition FindSlot_contract (p : Page) (key : list byte) : Prop :=
  exists r,
    FindSlot p key = Val r /\
    if 0 <? GetID (Right p) then
      (r = 0 /\ forall i, 1 <= i <= Cnt p -> slot_below p key i) \/
      (1 <= r <= Cnt p /\ slot_not_below p key r /\
       forall i, 1 <= i < r -> slot_below p key i)
    else
      1 <= r <= Cnt p /\ (r < Cnt p -> slot_not_below p key r) /\
      forall i, 1 <= i < r -> slot_below p key i.

(** the keys of the slots that [FindSlot] may look at are readable and in
    non-decreasing order, dead and librarian slots included *)
Definition searchable (p : Page) : Prop :=
  let top := if 0 <? GetID (Right p) then Cnt p + 1 else Cnt p in
  (forall i, 1 <= i < top -> exists k, Key p i = Val k) /\
  (forall i j ki kj, 1 <= i <= j -> j < top ->
     Key p i = Val ki -> Key p j = Val kj -> key_le ki kj).

Lemma searchable_keys p :
  searchable p ->
  exists kf,
    let top := if 0 <? GetID (Right p) then Cnt p + 1 else Cnt p in
    (forall i, 1 <= i < top -> Key p i = Val (kf i)) /\
    (forall i j, 1 <= i <= j -> j < top -> key_le (kf i) (kf j)).
Proof.
  intros [Hr Hs].
  exists (fun i => match Key p i with Val k => k | Panic _ => [] end).
  split.
  - intros i Hi. destruct (Hr i Hi) as [k ->]. done.
  - intros i j Hij Hj.
    destruct (Hr i ltac:(lia)) as [ki Ei], (Hr j ltac:(lia)) as [kj Ej].
    rewrite Ei, Ej. eapply Hs; done.
Qed.

Lemma FindSlot_searchable p key :
  1 <= Cnt p -> Cnt p < 2 ^ 32 - 1 -> searchable p -> FindSlot_contract p key.
Proof.
  intros H1 H2 S. destruct (searchable_keys p S) as (kf & Hr & Hs).
  unfold FindSlot_contract, FindSlot.
  destruct (0 <? GetID (Right p)); cbv zeta in Hr, Hs.
  - rewrite (u32_small (Cnt p + 1)) by lia.
    assert (Ht : Cnt p + 1 < 2 ^ 32) by lia.
    destruct (FindSlot_loop_spec p key kf (Cnt p + 1) 0 Ht Hr Hs
                33 1 (Cnt p + 1) 0) as (r & R1 & R2 & R3 & R4);
      try done; try lia.
    rewrite R4. change (0 <? 0) with false. rewrite orb_false_r.
    destruct (Z.ltb_spec r (Cnt p + 1)) as [Hlt|Hge].
    + exists r. split; [done|]. right. split; [lia|]. split.
      * exists (kf r). split; [apply Hr; lia|]. apply R3. lia.
      * intros i Hi. exists (kf i). split; [apply Hr; lia|]. apply R2. lia.
    + exists 0. split; [done|]. left. split; [done|].
      intros i Hi. exists (kf i). split; [apply Hr; lia|]. apply R2. lia.
  - assert (Ht : Cnt p < 2 ^ 32) by lia.
    destruct (FindSlot_loop_spec p key kf (Cnt p) 1 Ht Hr Hs
                33 1 (Cnt p) 1) as (r & R1 & R2 & R3 & R4);
      try done; try lia.
    exists r. rewrite R4. change (0 <? 1) with true. rewrite orb_true_r.
    split; [done|]. split; [lia|]. split.
    + intros Hlt. exists (kf r). split; [apply Hr; lia|]. apply R3. lia.
    + intros i Hi. exists (kf i). split; [apply Hr; lia|]. apply R2. lia.
Qed.


(** ** Pages to run the code on *)

Definition bytes_of (l : list Z) : list byte := map byte.of_Z l.

(** the page of [TestPage_FindSlot] in page_test.go *)
Definition test_page : Page :=
  with_Cnt
    (with_Data (NewPage 0)
       (bytes_of [40; 0; 0; 0; 0; 0;  29; 0; 0; 0; 0; 0;  18; 0; 0; 0; 0; 0;
                  3; 2; 1; 0;  6; 0; 0; 0; 0; 0; 0;
                  3; 0; 1; 0;  6; 0; 0; 0; 0; 0; 0;
                  4; 0; 0; 1; 1;  6; 0; 0; 0; 0; 0; 0])) 3.

(** three slots with the keys [9], [1], [5]; the first one is dead; the page
    has a right sibling *)
Definition unsorted_page : Page :=
  with_Right
    (with_Cnt
       (with_Data (NewPage 0)
          (bytes_of [22; 0; 0; 0; 0; 1;  20; 0; 0; 0; 0; 0;  18; 0; 0; 0; 0; 0;
                     1; 5;  1; 1;  1; 9])) 3)
    (PutID 7).

(** C4, as the specification states it, fails on a page whose keys are not in
    order: on [unsorted_page], whose only disorder is a dead first slot,
    [FindSlot] answers 3 for the key [4] although slot 1 holds [9]. *)
Lemma FindSlot_contract_unsorted :
  1 <= Cnt unsorted_page /\ ~ FindSlot_contract unsorted_page [Byte.x04].
Proof.
  split; [vm_compute; discriminate|].
  intros (r & Hr & H).
  assert (r = 3) as -> by (vm_compute in Hr; congruence).
  change (0 <? GetID (Right unsorted_page)) with true in H. cbv iota in H.
  destruct H as [[? _]|(_ & _ & H)]; [done|].
  destruct (H 1 ltac:(lia)) as (k & Hk & Hlt).
  vm_compute in Hk. injection Hk as <-. vm_compute in Hlt. done.
Qed.

(** C4 (amended): on every page with [Cnt >= 1] whose keys, dead and
    librarian slots included, are readable and in non-decreasing byte order
    over the slots that the search may look at, [FindSlot] returns the
    smallest slot of [1, Cnt] whose key is [>=] the search key, or 0 when
    there is none; the fence slot [Cnt] is looked at only when [Right != 0],
    and when [Right = 0] it counts as satisfying the comparison, so that the
    result is never 0. *)
Theorem FindSlot_contract_sorted (p : Page) (key : list byte) :
  1 <= Cnt p -> Cnt p < 2 ^ 32 - 1 -> searchable p -> FindSlot_contract p key.
Proof. apply FindSlot_searchable. Qed.

Lemma FindSlot_contract_sorted_witness :
  FindSlot_contract test_page (bytes_of [0; 1; 0]).
Proof.
  apply (FindSlot_contract_sorted test_page (bytes_of [0; 1; 0])).
  - vm_compute. discriminate.
  - vm_compute. reflexivity.
  - split.
    + intros i Hi. change (1 <= i < 3) in Hi.
      assert (i = 1 \/ i = 2) as [-> | ->] by lia; eexists; vm_compute; reflexivity.
    + intros i j ki kj Hij Hj. change (j < 3) in Hj.
      assert ((i = 1 /\ j = 1) \/ (i = 1 /\ j = 2) \/ (i = 2 /\ j = 2))
        as [[-> ->] | [[-> ->] | [-> ->]]] by lia;
        vm_compute; intros [= <-] [= <-]; discriminate.
Defined.


(** * LoadPage *)

(** [LoadPage] writes nothing but the error of the manager *)
Lemma LoadPage_loop_mgr fuel m key lvl lock set pageNo drill slot set' m' :
  LoadPage_loop fuel m key lvl lock set pageNo drill = Val (slot, set', m') ->
  m' = m \/ (slot = 0 /\ exists e, m' = with_mgr_err m e).
Proof.
  revert set pageNo drill.
  induction fuel as [|fuel IH]; intros set pageNo drill; simpl.
  - destruct (0 <? pageNo); [done|]. intros [= <- <- <-]. right. eauto.
  - destruct (0 <? pageNo); [|intros [= <- <- <-]; right; eauto].
    destruct (pagePool m !! pageNo) as [page|]; [|intros [= <- <- <-]; right; eauto].
    assert (D : forall drill,
      (if Kill page
       then LoadPage_loop fuel m key lvl lock (Some pageNo) (GetID (Right page)) drill
       else
         let* slot := FindSlot page key in
         if 0 <? slot
         then if drill =? lvl then Val (slot, Some pageNo, m)
              else
                let* live := LoadPage_live (Z.to_nat (Cnt page)) page slot in
                match live with
                | Some slot0 =>
                    let* v := Value page slot0 in
                    LoadPage_loop fuel m key lvl lock (Some pageNo)
                      (GetIDFromValue v) (u8 (drill - 1))
                | None =>
                    LoadPage_loop fuel m key lvl lock (Some pageNo)
                      (GetID (Right page)) drill
                end
         else LoadPage_loop fuel m key lvl lock (Some pageNo) (GetID (Right page)) drill)
      = Val (slot, set', m') ->
      m' = m \/ (slot = 0 /\ exists e, m' = with_mgr_err m e)).
    { intros d. destruct (Kill page); [apply IH|].
      destruct (FindSlot page key) as [s|]; [|done]. simpl.
      destruct (0 <? s); [|apply IH].
      destruct (d =? lvl); [intros [= <- <- <-]; auto|].
      destruct (LoadPage_live _ page s) as [[s'|]|]; simpl; [|apply IH|done].
      destruct (Value page s'); [|done]. simpl. apply IH. }
    destruct (Free page); [intros [= <- <- <-]; right; eauto|].
    destruct (negb (Lvl page =? drill)); [|apply D].
    destruct (negb (pageNo =? RootPage)); [intros [= <- <- <-]; right; eauto|].
    destruct (negb (bool_decide (lock = LockRead)) && (Lvl page =? lvl));
      [apply IH|apply D].
Qed.

(** where [LoadPage] stops with a slot *)
Lemma LoadPage_loop_post fuel m key lvl lock set pageNo drill slot set' m' :
  LoadPage_loop fuel m key lvl lock set pageNo drill = Val (slot, set', m') ->
  0 < slot ->
  m' = m /\
  exists no page,
    set' = Some no /\ pagePool m !! no = Some page /\
    FindSlot page key = Val slot /\ Lvl page = lvl /\
    Free page = false /\ Kill page = false.
Proof.
  revert set pageNo drill.
  induction fuel as [|fuel IH]; intros set pageNo drill; simpl.
  - destruct (0 <? pageNo); [done|]. intros [= <- <- <-]. lia.
  - destruct (0 <? pageNo); [|intros [= <- <- <-]; lia].
    destruct (pagePool m !! pageNo) as [page|] eqn:Epage; [|intros [= <- <- <-]; lia].
    assert (D : forall drill, drill = Lvl page ->
      (if Kill page
       then LoadPage_loop fuel m key lvl lock (Some pageNo) (GetID (Right page)) drill
       else
         let* slot := FindSlot page key in
         if 0 <? slot
         then if drill =? lvl then Val (slot, Some pageNo, m)
              else
                let* live := LoadPage_live (Z.to_nat (Cnt page)) page slot in
                match live with
                | Some slot0 =>
                    let* v := Value page slot0 in
                    LoadPage_loop fuel m key lvl lock (Some pageNo)
                      (GetIDFromValue v) (u8 (drill - 1))
                | None =>
                    LoadPage_loop fuel m key lvl lock (Some pageNo)
                      (GetID (Right page)) drill
                end
         else LoadPage_loop fuel m key lvl lock (Some pageNo) (GetID (Right page)) drill)
      = Val (slot, set', m') -> 0 < slot -> Free page = false ->
      m' = m /\
      exists no page,
        set' = Some no /\ pagePool m !! no = Some page /\
        FindSlot page key = Val slot /\ Lvl page = lvl /\
        Free page = false /\ Kill page = false).
    { intros d Hd. destruct (Kill page) eqn:EK; [intros; eapply IH; done|].
      destruct (FindSlot page key) as [s|] eqn:EF; [|done]. simpl.
      destruct (0 <? s); [|intros; eapply IH; done].
      destruct (Z.eqb_spec d lvl).
      { intros [= <- <- <-] ? ?. split; [done|]. exists pageNo, page.
        repeat split; try done. congruence. }
      destruct (LoadPage_live _ page s) as [[s'|]|]; simpl;
        [|intros; eapply IH; done|done].
      destruct (Value page s'); [|done]. simpl. intros; eapply IH; done. }
    destruct (Free page) eqn:EFree; [intros [= <- <- <-]; lia|].
    destruct (Z.eqb_spec (Lvl page) drill); simpl.
    { intros; eapply D; done. }
    destruct (negb (pageNo =? RootPage)); [intros [= <- <- <-]; lia|].
    destruct (negb (bool_decide (lock = LockRead)) && (Lvl page =? lvl)).
    + intros; eapply IH; done.
    + intros; eapply D; done.
Qed.

Lemma LoadPage_post fuel m key lvl lock slot set' m' :
  LoadPage fuel m key lvl lock = Val (slot, set', m') -> 0 < slot ->
  m' = m /\
  exists no page,
    set' = Some no /\ pagePool m !! no = Some page /\
    FindSlot page key = Val slot /\ Lvl page = lvl /\
    Free page = false /\ Kill page = false.
Proof. apply LoadPage_loop_post. Qed.

Lemma LoadPage_pool fuel m key lvl lock slot set' m' :
  LoadPage fuel m key lvl lock = Val (slot, set', m') -> pagePool m' = pagePool m.
Proof.
  intros H. apply LoadPage_loop_mgr in H as [->|(_ & e & ->)]; done.
Qed.


(** * A tree to run the code on *)

(** the manager of a new file with pages of 512 bytes and a pool of 16 *)
Definition small_mgr : BufMgr :=
  match NewBufMgr 9 16 with
  | Val (Some m) => m
  | _ => mkBufMgr 0 0 0 (mkPageZero [] 0 []) ∅ BLTErrOk
  end.

Definition small_tree : BLTree := NewBLTree small_mgr.

Lemma small_mgr_new : NewBufMgr 9 16 = Val (Some small_mgr).
Proof. vm_compute. reflexivity. Qed.

Definition value1 : list byte := bytes_of [0; 0; 0; 0; 0; 1].

Lemma setPage_same m pageNo page :
  pagePool m !! pageNo = Some page -> setPage m pageNo page = m.
Proof.
  intros H. unfold setPage, with_pagePool. rewrite insert_id by done.
  destruct m; done.
Qed.

(** * insertKey when LoadPage gives no slot *)

Lemma insertKey_loop_no_slot fuel tree key ins lvl value uniq typ slot pageNo m :
  LoadPage (S fuel) (mgr tree) key lvl LockWrite = Val (slot, Some pageNo, m) ->
  slot <= 0 ->
  insertKey_loop (S fuel) tree key ins lvl value uniq typ =
    Val (if bool_decide (err tree = BLTErrOk) then BLTErrOk else BLTErrOverflow,
         if bool_decide (err tree = BLTErrOk) then with_mgr tree m
         else with_err (with_mgr tree m) BLTErrOverflow).
Proof.
  intros H Hs. cbn [insertKey_loop]. rewrite H. cbn [bind].
  destruct (Z.ltb_spec 0 slot); [lia|]. cbn [negb].
  destruct tree as [m0 f e]. destruct e; reflexivity.
Qed.

(** C5: the mapping to [Overflow] is the other way round in the code.
    [insertKey] looks at the error of the tree, which [LoadPage] never sets,
    and replaces it by [Overflow] when it is not [Ok].  On a new tree an
    insert at level 5 finds no page: [LoadPage] gives slot 0 and records
    [Struct] in the manager, and [insertKey] returns [Ok], neither [Overflow]
    nor [Struct]; the pages are as before.  With [Struct] recorded in the
    tree, the same call returns [Overflow] instead of [Struct]. *)
Theorem insertKey_no_slot_returns_Ok :
  (exists set m,
     LoadPage 3 (mgr small_tree) [Byte.x01] 5 LockWrite = Val (0, set, m) /\
     mgr_err m = BLTErrStruct) /\
  (exists t,
     insertKey 3 small_tree [Byte.x01] 5 value1 true = Val (BLTErrOk, t) /\
     pagePool (mgr t) = pagePool (mgr small_tree)) /\
  (exists t,
     insertKey 3 (with_err small_tree BLTErrStruct) [Byte.x01] 5 value1 true =
       Val (BLTErrOverflow, t)).
Proof.
  split; [|split].
  - eexists _, _. split; vm_compute; reflexivity.
  - eexists. split; vm_compute; reflexivity.
  - eexists. vm_compute. reflexivity.
Qed.

(** * deleteKey of a key that is not there *)




(** the fields of a page under the setters of fields *)
Ltac page_simpl :=
  cbn [Data Cnt Act Lvl Min Bits Right Free Kill Garbage
       with_Cnt with_Act with_Min with_Garbage with_Bits with_Free with_Lvl
       with_Kill with_Right with_Data] in *.

(** * The setters of keys and values *)

Lemma SetKey_Val p i k :
  len (Data p) < 2 ^ 32 -> in_slots (Data p) i ->
  off_of (Data p) i <= len (Data p) ->
  SetKey p k i =
    Val (with_Data p (splice (Data p) (Z.to_nat (off_of (Data p) i))
                        (byte.of_Z (len k) :: k))).
Proof.
  intros HL Hi Ho. unfold SetKey. rewrite KeyOffset_Val by done. cbn [bind].
  pose proof (off_of_range (Data p) i).
  rewrite copy_at_Val by lia. done.
Qed.

Lemma SetValue_Val p i k v :
  len (Data p) < 2 ^ 31 -> slot_key p i k -> len k <= 254 ->
  SetValue p v i =
    Val (with_Data p (splice (Data p) (Z.to_nat (off_of (Data p) i + 1 + len k))
                        (byte.of_Z (len v) :: v))).
Proof.
  intros HL K Hk. unfold SetValue. rewrite (ValueOffset_Val p HL i k) by done.
  cbn [bind]. destruct K as [_ (K0 & K1 & _)]. pose proof (len_nonneg k).
  rewrite copy_at_Val by lia. done.
Qed.

(** a value written behind a key that is on the page *)
Lemma entry_ok_write_value d off k v :
  key_ok d off k -> len k <= 254 -> len v <= 255 ->
  off + 1 + len k + 1 + len v <= len d ->
  entry_ok (splice d (Z.to_nat (off + 1 + len k)) (byte.of_Z (len v) :: v)) off k v.
Proof.
  intros K Hk Hv Hb. pose proof K as (K0 & K1 & K2 & K3).
  pose proof (len_nonneg k). pose proof (len_nonneg v).
  assert (A : agree d (splice d (Z.to_nat (off + 1 + len k)) (byte.of_Z (len v) :: v))
                0 (off + 1 + len k)).
  { apply agree_splice; lia. }
  assert (V : key_ok (splice d (Z.to_nat (off + 1 + len k)) (byte.of_Z (len v) :: v))
                (off + 1 + len k) v).
  { apply key_ok_write; lia. }
  split; [eapply key_ok_agree; [exact A|lia|lia|exact K]|].
  split; [done|]. destruct V as (V0 & V1 & V2 & V3).
  split; [rewrite len_splice by lia; lia|]. split; done.
Qed.

(** * NewBufMgr *)

(** the stopper key *)
Definition stopper : list byte := [Byte.xff; Byte.xff].

Lemma len_PutID id : len (PutID id) = 6.
Proof. reflexivity. Qed.

Lemma NewBufMgr_level_spec pds alloc file lvl :
  len (Data alloc) = pds -> 16 <= pds <= 32767 + 4 -> lvl = 0 \/ lvl = 1 ->
  let v := if 0 <? lvl then PutID (u64 (MinLvl - lvl + 1)) else [] in
  exists alloc',
    NewBufMgr_level pds alloc file lvl = Val (alloc', <[MinLvl - lvl := alloc']> file) /\
    len (Data alloc') = pds /\
    Cnt alloc' = 1 /\ Act alloc' = 1 /\ Lvl alloc' = lvl /\
    Min alloc' = pds - 4 - len v /\
    off_of (Data alloc') 1 = Min alloc' /\
    Key alloc' 1 = Val stopper /\ Value alloc' 1 = Val v /\
    Bits alloc' = Bits alloc /\ Right alloc' = Right alloc /\
    Free alloc' = Free alloc /\ Kill alloc' = Kill alloc /\
    Garbage alloc' = Garbage alloc.
Proof.
  intros HL Hp Hl v.
  assert (Hv : len v = if 0 <? lvl then 6 else 0).
  { unfold v. destruct (0 <? lvl); done. }
  set (z := if 0 <? lvl then u32 (1 + BtId) else 1).
  assert (Hz : z = 1 + len v).
  { unfold z. rewrite Hv. destruct (0 <? lvl); done. }
  assert (Hvl : len v = 0 \/ len v = 6).
  { rewrite Hv. destruct (0 <? lvl); auto. }
  set (off := pds - 4 - len v).
  assert (Hoff : u32 (u32 (pds - 3) - z) = off).
  { rewrite (u32_small (pds - 3)) by lia. rewrite u32_small by lia. lia. }
  unfold NewBufMgr_level. fold z. rewrite Hoff.
  assert (Hin : in_slots (Data alloc) 1) by (unfold in_slots, SlotSize; lia).
  rewrite SetKeyOffset_Val by (done || lia). cbn [bind].
  set (d1 := splice (Data alloc) (Z.to_nat (slot_at 1)) (le_split 4 off)).
  assert (L1 : len d1 = pds).
  { unfold d1. rewrite len_splice; [done|]. unfold slot_at, SlotSize. lia. }
  assert (O1 : off_of d1 1 = off) by (apply off_of_set; [done|lia]).
  rewrite SetKey_Val by
    (cbn [Data with_Data]; fold d1; rewrite ?O1; unfold in_slots, SlotSize; lia).
  cbn [bind]. cbn [Data with_Data]. fold d1. rewrite O1.
  change [Byte.xff; Byte.xff] with stopper.
  set (d2 := splice d1 (Z.to_nat off) (byte.of_Z (len stopper) :: stopper)).
  assert (L2 : len d2 = pds) by (unfold d2; rewrite len_splice; lia).
  assert (A2 : agree d1 d2 0 off) by (apply agree_splice; lia).
  assert (O2 : off_of d2 1 = off).
  { destruct (slot_views_agree _ _ _ _ 1 A2) as (-> & _);
      unfold slot_at, SlotSize; (done || lia). }
  assert (K2 : key_ok d2 off stopper).
  { apply key_ok_write; change (len stopper) with 2; lia. }
  set (p2 := with_Data (with_Data alloc d1) d2).
  assert (S2 : slot_key p2 1 stopper).
  { split; cbn [p2 Data with_Data]; [unfold in_slots, SlotSize; lia|].
    rewrite O2. done. }
  assert (SV : SetValue p2 v 1 =
                 Val (with_Data p2 (splice d2 (Z.to_nat (off + 1 + 2))
                                      (byte.of_Z (len v) :: v)))).
  { rewrite (SetValue_Val p2 1 stopper v); cbn [p2 Data with_Data];
      rewrite ?O2; (done || lia). }
  assert (SV' : (if 0 <? lvl
                 then SetValue p2 (PutID (u64 (MinLvl - lvl + 1))) 1
                 else SetValue p2 [] 1) = SetValue p2 v 1).
  { unfold v. destruct (0 <? lvl); done. }
  rewrite SV', SV. cbn [bind].
  set (d3 := splice d2 (Z.to_nat (off + 1 + 2)) (byte.of_Z (len v) :: v)).
  assert (L3 : len d3 = pds) by (unfold d3; rewrite len_splice; lia).
  assert (A3 : agree d2 d3 0 (off + 3)) by (apply agree_splice; lia).
  assert (O3 : off_of d3 1 = off).
  { destruct (slot_views_agree _ _ _ _ 1 A3) as (-> & _);
      unfold slot_at, SlotSize; (done || lia). }
  assert (E3 : entry_ok d3 off stopper v).
  { apply (entry_ok_write_value d2 off stopper v); change (len stopper) with 2;
      (done || lia). }
  fold d3.
  rewrite KeyOffset_Val by
    (cbn [p2 Data with_Data]; unfold in_slots, SlotSize; lia).
  cbn [bind]. cbn [p2 Data with_Data]. rewrite O3.
  unfold writePage. cbn [Data with_Act with_Cnt with_Lvl with_Min with_Data].
  rewrite L3, Z.eqb_refl. cbn [bind].
  assert (Hu : u64 (MinLvl - lvl) = MinLvl - lvl) by (destruct Hl as [-> | ->]; done).
  assert (Hu8 : u8 lvl = lvl) by (destruct Hl as [-> | ->]; done).
  rewrite Hu, Hu8.
  eexists. split; [reflexivity|].
  cbn [Data Cnt Act Lvl Min Bits Right Free Kill Garbage
       with_Act with_Cnt with_Lvl with_Min with_Data].
  repeat split; try done.
  - apply Key_Val; page_simpl; [lia|].
    split; page_simpl; [unfold in_slots, SlotSize; lia|]. rewrite O3. apply E3.
  - apply Value_Val with (k := stopper); page_simpl; [lia|].
    split; page_simpl; [unfold in_slots, SlotSize; lia|]. rewrite O3. apply E3.
Qed.

Definition clamp_bits (bits : Z) : Z :=
  if BtMaxBits <? bits then BtMaxBits
  else if bits <? BtMinBits then BtMinBits else bits.

Lemma clamp_bits_range bits : 9 <= clamp_bits bits <= 24.
Proof.
  unfold clamp_bits, BtMaxBits, BtMinBits.
  destruct (Z.ltb_spec 24 bits); [lia|]. destruct (Z.ltb_spec bits 9); lia.
Qed.

Lemma pageSize_pow b : 9 <= b <= 24 -> u32 (Z.shiftl 1 b) = 2 ^ b /\ 2 ^ 9 <= 2 ^ b <= 2 ^ 24.
Proof.
  intros Hb. rewrite Z.shiftl_1_l.
  assert (2 ^ 9 <= 2 ^ b) by (apply Z.pow_le_mono_r; lia).
  assert (2 ^ b <= 2 ^ 24) by (apply Z.pow_le_mono_r; lia).
  split; [apply u32_small; lia|lia].
Qed.

Lemma NewBufMgr_pages (bits nodeMax : Z) :
  bits <= 15 -> 16 <= nodeMax ->
  let b := clamp_bits bits in
  let pds := 2 ^ b - 26 in
  let alloc := with_Right (with_Bits (NewPage pds) b) (PutID (MinLvl + 1)) in
  exists root leaf,
    NewBufMgr bits nodeMax =
      Val (Some (mkBufMgr (2 ^ b) b pds (mkPageZero (PutID (MinLvl + 1)) 0 (zeros BtId))
                   (<[2 := leaf]> (<[1 := root]> (<[0 := alloc]> ∅))) BLTErrOk)) /\
    (len (Data root) = pds /\ Lvl root = 1 /\ Cnt root = 1 /\ Act root = 1 /\
     Min root = pds - 10 /\ Key root 1 = Val stopper /\ Value root 1 = Val (PutID 2) /\
     Right root = zeros BtId /\ Free root = false /\ Kill root = false) /\
    (len (Data leaf) = pds /\ Lvl leaf = 0 /\ Cnt leaf = 1 /\ Act leaf = 1 /\
     Min leaf = pds - 4 /\ Key leaf 1 = Val stopper /\ Value leaf 1 = Val [] /\
     Right leaf = zeros BtId /\ Free leaf = false /\ Kill leaf = false).
Proof.
  intros Hbits Hnode b pds alloc.
  pose proof (clamp_bits_range bits) as Hb. fold b in Hb.
  assert (Hb15 : b <= 15).
  { unfold b, clamp_bits, BtMaxBits, BtMinBits.
    destruct (Z.ltb_spec 24 bits); [lia|]. destruct (Z.ltb_spec bits 9); lia. }
  destruct (pageSize_pow b Hb) as [Hps Hpow].
  assert (2 ^ b <= 2 ^ 15) by (apply Z.pow_le_mono_r; lia).
  assert (Hpds : 486 <= pds <= 32742) by (unfold pds; lia).
  unfold NewBufMgr. fold (clamp_bits bits). fold b.
  destruct (Z.ltb_spec nodeMax 16); [lia|].
  rewrite Hps. unfold PageHeaderSize. rewrite (u32_small (2 ^ b - 26)) by lia. fold pds.
  fold alloc.
  assert (La : len (Data alloc) = pds) by (apply len_zeros; lia).
  unfold writePage at 1. rewrite La, Z.eqb_refl. cbn [bind].
  destruct (NewBufMgr_level_spec pds (with_Bits (NewPage pds) b) (<[0 := alloc]> ∅) 1)
    as (root & E1 & R1 & R2 & R3 & R4 & R5 & R6 & R7 & R8 & R9 & R10 & R11 & R12 & R13);
    [apply len_zeros; lia|lia|auto|].
  rewrite E1. cbn [bind].
  destruct (NewBufMgr_level_spec pds root (<[MinLvl - 1 := root]> (<[0 := alloc]> ∅)) 0)
    as (leaf & E0 & L1 & L2 & L3 & L4 & L5 & L6 & L7 & L8 & L9 & L10 & L11 & L12 & L13);
    [done|lia|auto|].
  rewrite E0. cbn [bind].
  change (MinLvl - 0) with 2. change (MinLvl - 1) with 1.
  rewrite lookup_insert_ne by done. rewrite lookup_insert_ne by done.
  rewrite lookup_insert_eq.
  exists root, leaf. split; [reflexivity|].
  change (len (if 0 <? 1 then PutID (u64 (MinLvl - 1 + 1)) else [])) with 6 in R5.
  change (len (if 0 <? 0 then PutID (u64 (MinLvl - 0 + 1)) else [])) with 0 in L5.
  split.
  - repeat split; try done; try lia.
  - rewrite L10, L11, L12. repeat split; try done; try lia.
Qed.

(** C8, as the specification states it, fails on page 0: the allocation page
    of a new file carries no key. *)
Lemma NewBufMgr_alloc_page_no_stopper :
  NewBufMgr 9 16 = Val (Some small_mgr) /\
  ~ (exists p, pagePool small_mgr !! 0 = Some p /\
               Cnt p = 1 /\ Act p = 1 /\ Key p 1 = Val stopper).
Proof.
  split; [exact small_mgr_new|].
  intros (p & Hp & Hc & _).
  assert (Cnt <$> pagePool small_mgr !! 0 = Some 0) as E by (vm_compute; reflexivity).
  rewrite Hp in E. simpl in E. injection E as E. lia.
Qed.

(** C8 (amended): when a file is created with page bits of at most 15
    (smaller values than 9 count as 9), exactly the pages 0, 1 and 2 are
    written.  [RootPage] (1, [Lvl = 1]) and [LeafPage] (2, [Lvl = 0]) each
    carry the single stopper key [{0xff, 0xff}] ([Cnt = 1], [Act = 1]); the
    value of the root's stopper is the page number of the leaf (2) and the
    value of the leaf's stopper is empty.  [AllocPage] (0) carries no key
    ([Cnt = 0], [Act = 0]); its right pointer, the allocator, is
    [MinLvl + 1 = 3]. *)
Theorem NewBufMgr_initial_pages (bits nodeMax : Z) :
  bits <= 15 -> 16 <= nodeMax ->
  exists m alloc root leaf,
    NewBufMgr bits nodeMax = Val (Some m) /\
    pagePool m = <[2 := leaf]> (<[1 := root]> (<[0 := alloc]> ∅)) /\
    (Cnt alloc = 0 /\ Act alloc = 0 /\ GetID (Right alloc) = 3) /\
    (Lvl root = 1 /\ Cnt root = 1 /\ Act root = 1 /\
     Key root 1 = Val stopper /\
     exists v, Value root 1 = Val v /\ GetIDFromValue v = 2) /\
    (Lvl leaf = 0 /\ Cnt leaf = 1 /\ Act leaf = 1 /\
     Key leaf 1 = Val stopper /\ Value leaf 1 = Val []) /\
    GetID (allocRight (pageZero m)) = 3.
Proof.
  intros Hb Hn.
  destruct (NewBufMgr_pages bits nodeMax Hb Hn) as (root & leaf & E & R & L).
  eexists _, _, root, leaf. split; [exact E|]. split; [reflexivity|].
  split; [repeat split|]. split; [|split].
  - destruct R as (_ & ? & ? & ? & _ & ? & ? & _). repeat split; try done.
    exists (PutID 2). split; done.
  - destruct L as (_ & ? & ? & ? & _ & ? & ? & _). repeat split; done.
  - reflexivity.
Qed.

Lemma NewBufMgr_initial_pages_witness :
  exists m alloc root leaf,
    NewBufMgr 9 16 = Val (Some m) /\
    pagePool m = <[2 := leaf]> (<[1 := root]> (<[0 := alloc]> ∅)) /\
    (Cnt alloc = 0 /\ Act alloc = 0 /\ GetID (Right alloc) = 3) /\
    (Lvl root = 1 /\ Cnt root = 1 /\ Act root = 1 /\
     Key root 1 = Val stopper /\
     exists v, Value root 1 = Val v /\ GetIDFromValue v = 2) /\
    (Lvl leaf = 0 /\ Cnt leaf = 1 /\ Act leaf = 1 /\
     Key leaf 1 = Val stopper /\ Value leaf 1 = Val []) /\
    GetID (allocRight (pageZero m)) = 3.
Proof. apply (NewBufMgr_initial_pages 9 16); lia. Defined.

(** * The panic of SetKeyOffset *)

Lemma SetKeyOffset_panics p slot offset :
  32767 < offset -> SetKeyOffset p slot offset = Panic OffsetTooBig.
Proof. intros H. unfold SetKeyOffset. destruct (Z.ltb_spec 32767 offset); [done|lia]. Qed.

Lemma NewBufMgr_big_pages_panic bits nodeMax :
  16 <= bits -> 16 <= nodeMax -> NewBufMgr bits nodeMax = Panic OffsetTooBig.
Proof.
  intros Hbits Hnode.
  pose proof (clamp_bits_range bits) as Hb.
  assert (Hb16 : 16 <= clamp_bits bits).
  { unfold clamp_bits, BtMaxBits, BtMinBits.
    destruct (Z.ltb_spec 24 bits); [lia|]. destruct (Z.ltb_spec bits 9); lia. }
  set (b := clamp_bits bits) in *.
  destruct (pageSize_pow b Hb) as [Hps Hpow].
  assert (2 ^ 16 <= 2 ^ b) by (apply Z.pow_le_mono_r; lia).
  unfold NewBufMgr. fold (clamp_bits bits). fold b.
  destruct (Z.ltb_spec nodeMax 16); [lia|].
  rewrite Hps. unfold PageHeaderSize. rewrite (u32_small (2 ^ b - 26)) by lia.
  set (pds := 2 ^ b - 26).
  unfold writePage at 1.
  assert (La : len (Data (with_Right (with_Bits (NewPage pds) b) (PutID (MinLvl + 1)))) = pds)
    by (apply len_zeros; lia).
  rewrite La, Z.eqb_refl. cbn [bind].
  unfold NewBufMgr_level at 1.
  rewrite SetKeyOffset_panics; [done|].
  change (if 0 <? 1 then u32 (1 + BtId) else 1) with 7.
  rewrite (u32_small (pds - 3)) by lia. rewrite u32_small by lia. lia.
Qed.


(** * Writes and what they touch *)

(** [d'] is [d] but for the bytes at the places in [R] *)
Definition touched (d d' : list byte) (R : Z -> Prop) : Prop :=
  len d' = len d /\
  forall b, 0 <= b -> ~ R b -> d' !! Z.to_nat b = d !! Z.to_nat b.

Definition window (lo hi : Z) : Z -> Prop := fun b => lo <= b < hi.

Lemma touched_refl d R : touched d d R.
Proof. split; done. Qed.

Lemma touched_trans d1 d2 d3 R1 R2 (R : Z -> Prop) :
  touched d1 d2 R1 -> touched d2 d3 R2 ->
  (forall b, R1 b \/ R2 b -> R b) -> touched d1 d3 R.
Proof.
  intros [L1 H1] [L2 H2] HR. split; [congruence|].
  intros b Hb Hn. rewrite H2, H1; auto.
Qed.

Lemma touched_weaken d d' (R R' : Z -> Prop) :
  touched d d' R -> (forall b, R b -> R' b) -> touched d d' R'.
Proof. intros [L H] HR. split; [done|]. intros b Hb Hn. apply H; auto. Qed.

Lemma touched_splice d o src :
  0 <= o <= len d -> touched d (splice d (Z.to_nat o) src) (window o (o + len src)).
Proof.
  intros Ho. split; [apply len_splice; done|].
  intros b Hb Hn. unfold window, len in *. apply lookup_splice_out; lia.
Qed.

Lemma touched_agree d d' R lo hi :
  touched d d' R -> (forall b, lo <= b < hi -> ~ R b) -> agree d d' lo hi.
Proof. intros [L H] HR. split; [done|]. intros b Hb Hb0. apply H; auto. Qed.

(** ** Writing a slot *)

Section WriteSlot.
Variable p : Page.
Variable i : Z.
Hypothesis HL : len (Data p) < 2 ^ 32.
Hypothesis Hi : in_slots (Data p) i.

Lemma slot_window_bounds : 0 <= slot_at i /\ slot_at i + 6 <= len (Data p).
Proof. destruct Hi. unfold slot_at, SlotSize in *. lia. Qed.

Lemma SetKeyOffset_spec o :
  0 <= o <= 32767 ->
  exists d',
    SetKeyOffset p i o = Val (with_Data p d') /\
    touched (Data p) d' (window (slot_at i) (slot_at i + 4)) /\
    off_of d' i = o.
Proof.
  intros Ho. pose proof slot_window_bounds as [B1 B2].
  eexists. split; [apply SetKeyOffset_Val; (done || lia)|]. split.
  - eapply touched_weaken; [apply touched_splice; lia|].
    intros b. rewrite len_le_split. unfold window. lia.
  - apply off_of_set; [done|lia].
Qed.

Lemma SetTyp_spec t :
  exists d',
    SetTyp p i t = Val (with_Data p d') /\
    touched (Data p) d' (window (slot_at i + 4) (slot_at i + 5)) /\
    typ_of d' i = t mod 256.
Proof.
  pose proof slot_window_bounds as [B1 B2].
  eexists. split; [apply SetTyp_Val; done|]. split.
  - eapply touched_weaken; [apply touched_splice; lia|].
    intros b. unfold window, len. simpl. lia.
  - apply typ_of_set. done.
Qed.

Lemma SetDead_spec (b : bool) :
  exists d',
    SetDead p i b = Val (with_Data p d') /\
    touched (Data p) d' (window (slot_at i + 5) (slot_at i + 6)) /\
    dead_of d' i = b.
Proof.
  pose proof slot_window_bounds as [B1 B2].
  eexists. split; [apply SetDead_Val; done|]. split.
  - eapply touched_weaken; [apply touched_splice; lia|].
    intros c. unfold window, len. simpl. lia.
  - apply dead_of_set. done.
Qed.
End WriteSlot.

(** the views of a slot depend on its six bytes only *)
Lemma touched_off_of d d' R i :
  touched d d' R -> 1 <= i ->
  (forall b, slot_at i <= b < slot_at i + 4 -> ~ R b) -> off_of d' i = off_of d i.
Proof.
  intros T Hi HR. unfold off_of. f_equal.
  apply (agree_sub d d' (slot_at i) (slot_at i + 4)); unfold slot_at, SlotSize in *; try lia.
  eapply touched_agree; done.
Qed.

Lemma touched_typ_of d d' R i :
  touched d d' R -> 1 <= i -> ~ R (slot_at i + 4) -> typ_of d' i = typ_of d i.
Proof.
  intros T Hi HR. unfold typ_of. f_equal.
  apply (agree_byte d d' (slot_at i + 4) (slot_at i + 5)); unfold slot_at, SlotSize in *; try lia.
  eapply touched_agree; [done|]. intros b Hb. replace b with (6 * (i - 1) + 4) by lia. done.
Qed.

Lemma touched_dead_of d d' R i :
  touched d d' R -> 1 <= i -> ~ R (slot_at i + 5) -> dead_of d' i = dead_of d i.
Proof.
  intros T Hi HR. unfold dead_of. do 2 f_equal.
  apply (agree_byte d d' (slot_at i + 5) (slot_at i + 6)); unfold slot_at, SlotSize in *; try lia.
  eapply touched_agree; [done|]. intros b Hb. replace b with (6 * (i - 1) + 5) by lia. done.
Qed.

Lemma touched_key_ok d d' R off k :
  touched d d' R -> (forall b, off <= b < off + 1 + len k -> ~ R b) ->
  key_ok d off k -> key_ok d' off k.
Proof.
  intros T HR K. eapply key_ok_agree; [eapply touched_agree; done| | |done]; lia.
Qed.

Lemma touched_entry_ok d d' R off k v :
  touched d d' R -> (forall b, off <= b < off + 1 + len k + 1 + len v -> ~ R b) ->
  entry_ok d off k v -> entry_ok d' off k v.
Proof.
  intros T HR K. eapply entry_ok_agree; [eapply touched_agree; done| | |done]; lia.
Qed.

Lemma touched_in_slots d d' R i : touched d d' R -> in_slots d i -> in_slots d' i.
Proof. intros [L _]. unfold in_slots. rewrite L. done. Qed.

(** offset, type and dead flag of a slot, written one after the other *)
Lemma write_slot_spec p i o t (b : bool) :
  len (Data p) < 2 ^ 32 -> in_slots (Data p) i -> 0 <= o <= 32767 ->
  exists d',
    (let* p := SetKeyOffset p i o in let* p := SetTyp p i t in SetDead p i b)
      = Val (with_Data p d') /\
    touched (Data p) d' (window (slot_at i) (slot_at i + 6)) /\
    off_of d' i = o /\ typ_of d' i = t mod 256 /\ dead_of d' i = b.
Proof.
  intros HL Hi Ho. pose proof Hi as [Hi1 _].
  destruct (SetKeyOffset_spec p i HL Hi o Ho) as (d1 & E1 & T1 & O1).
  rewrite E1. cbn [bind].
  assert (L1 : len d1 = len (Data p)) by apply T1.
  destruct (SetTyp_spec (with_Data p d1) i) with (t := t) as (d2 & E2 & T2 & Y2);
    [page_simpl; lia|page_simpl; eapply touched_in_slots; done|].
  rewrite E2. cbn [bind]. page_simpl.
  assert (L2 : len d2 = len d1) by apply T2.
  destruct (SetDead_spec (with_Data (with_Data p d1) d2) i) with (b := b)
    as (d3 & E3 & T3 & D3);
    [page_simpl; lia|page_simpl; eapply touched_in_slots; [done|];
                     eapply touched_in_slots; done|].
  rewrite E3. page_simpl. exists d3. split; [done|]. split; [|split; [|split]].
  - eapply touched_trans; [|exact T3|].
    + eapply touched_trans; [exact T1|exact T2|]. intros c H. exact H.
    + unfold window. intros c. lia.
  - rewrite (touched_off_of d2 d3 _ i T3), (touched_off_of d1 d2 _ i T2); try done;
      unfold window; intros; lia.
  - rewrite (touched_typ_of d2 d3 _ i T3); try done. unfold window. lia.
  - done.
Qed.

Lemma write_slot2_spec p i o t :
  len (Data p) < 2 ^ 32 -> in_slots (Data p) i -> 0 <= o <= 32767 ->
  exists d',
    (let* p := SetKeyOffset p i o in SetTyp p i t) = Val (with_Data p d') /\
    touched (Data p) d' (window (slot_at i) (slot_at i + 5)) /\
    off_of d' i = o /\ typ_of d' i = t mod 256.
Proof.
  intros HL Hi Ho. pose proof Hi as [Hi1 _].
  destruct (SetKeyOffset_spec p i HL Hi o Ho) as (d1 & E1 & T1 & O1).
  rewrite E1. cbn [bind].
  assert (L1 : len d1 = len (Data p)) by apply T1.
  destruct (SetTyp_spec (with_Data p d1) i) with (t := t) as (d2 & E2 & T2 & Y2);
    [page_simpl; lia|page_simpl; eapply touched_in_slots; done|].
  rewrite E2. page_simpl. exists d2. split; [done|]. split; [|split].
  - eapply touched_trans; [exact T1|exact T2|]. unfold window. intros c. lia.
  - rewrite (touched_off_of d1 d2 _ i T2); try done. unfold window; intros; lia.
  - done.
Qed.


Lemma with_Data_twice p a b : with_Data (with_Data p a) b = with_Data p b.
Proof. reflexivity. Qed.

(** * One entry copied by cleanPage or splitPage *)

Lemma copy_entry_spec src dst cnt nxt idx k v :
  len (Data src) < 2 ^ 31 ->
  slot_entry src cnt k v ->
  len (Data dst) <= 32767 ->
  nxt <= len (Data dst) -> 0 <= idx ->
  len v + len k + 2 <= nxt ->
  let idx' := if 0 <? idx then idx + 2 else 1 in
  let nxt' := nxt - len v - len k - 2 in
  SlotSize * idx' <= len (Data dst) ->
  exists d',
    copy_entry src dst cnt nxt idx = Val (with_Data dst d', nxt', idx') /\
    len d' = len (Data dst) /\
    (SlotSize * idx' <= nxt' ->
     touched (Data dst) d'
       (fun b => window (SlotSize * idx) (SlotSize * idx') b \/ window nxt' nxt b) /\
     entry_ok d' nxt' k v /\
     off_of d' idx' = nxt' /\ typ_of d' idx' = typ_of (Data src) cnt /\
     (0 < idx ->
      off_of d' (idx + 1) = nxt' /\ typ_of d' (idx + 1) = Librarian /\
      dead_of d' (idx + 1) = true)).
Proof.
  intros HLs Hsrc HLd Hnxt Hidx Hfit idx' nxt' Hslots.
  pose proof Hsrc as [Hin E]. pose proof E as (K & Hk254 & _).
  pose proof (entry_ok_len _ _ _ _ E) as Hv255.
  pose proof (len_nonneg k). pose proof (len_nonneg v).
  set (d := Data dst) in *.
  unfold copy_entry.
  rewrite (Value_Val src HLs cnt k v Hsrc). cbn [bind].
  rewrite (u32_small (len v + 1)) by lia.
  rewrite (u32_small (nxt - (len v + 1))) by lia.
  set (nxt1 := nxt - (len v + 1)).
  rewrite copy_at_Val by (fold d; lia). cbn [bind]. page_simpl. fold d.
  set (d1 := splice d (Z.to_nat nxt1) (byte.of_Z (len v) :: v)).
  rewrite (Key_Val src HLs cnt k (slot_entry_key _ _ _ _ Hsrc)). cbn [bind].
  rewrite (u32_small (len k + 1)) by lia.
  rewrite (u32_small (nxt1 - (len k + 1))) by (unfold nxt1; lia).
  replace (nxt1 - (len k + 1)) with nxt' by (unfold nxt', nxt1; lia).
  assert (L1 : len d1 = len d) by (apply len_splice; unfold nxt1; lia).
  rewrite copy_at_Val by (rewrite L1; unfold nxt'; lia). cbn [bind].
  set (d2 := splice d1 (Z.to_nat nxt') (byte.of_Z (len k) :: k)).
  rewrite with_Data_twice.
  assert (L2 : len d2 = len d) by (unfold d2; rewrite len_splice; unfold nxt'; lia).
  assert (E2 : entry_ok d2 nxt' k v).
  { unfold d2, d1. replace nxt1 with (nxt' + 1 + len k) by (unfold nxt', nxt1; lia).
    apply entry_ok_write; unfold nxt'; lia. }
  assert (T2 : touched d d2 (window nxt' nxt)).
  { eapply touched_trans; [apply (touched_splice d nxt1); unfold nxt1; lia| |].
    - apply (touched_splice d1 nxt'). rewrite L1. unfold nxt'. lia.
    - intros b. rewrite !len_cons. unfold window, nxt1, nxt'. lia. }
  rewrite (Typ_Val src ltac:(lia) cnt Hin).
  pose proof (typ_of_range (Data src) cnt) as Ht.
  assert (Hidx' : 1 <= idx') by (unfold idx'; destruct (0 <? idx); lia).
  assert (Hnxt' : 0 <= nxt' <= 32767) by (unfold nxt'; lia).
  destruct (Z.ltb_spec 0 idx) as [Hpos|Hzero].
  - (* a librarian slot first *)
    rewrite (u32_small (idx + 1)) by (unfold SlotSize, idx' in *; lia).
    destruct (write_slot_spec (with_Data dst d2) (idx + 1) nxt' Librarian true)
      as (d3 & E3 & T3 & O3 & Y3 & D3);
      [page_simpl; lia|page_simpl; unfold in_slots, SlotSize, idx' in *; lia|lia|].
    page_simpl.
    assert (L3 : len d3 = len d) by (destruct T3; lia).
    replace (let* dst0 := SetKeyOffset (with_Data dst d2) (idx + 1) nxt' in
             let* dst1 := SetTyp dst0 (idx + 1) Librarian in
             let* dst2 := SetDead dst1 (idx + 1) true in Val (dst2, idx + 1))
      with (Val (with_Data dst d3, idx + 1)).
    2:{ revert E3. destruct (SetKeyOffset (with_Data dst d2) (idx + 1) nxt') as [q|];
          cbn [bind]; [|done].
        destruct (SetTyp q (idx + 1) Librarian) as [q'|]; cbn [bind]; [|done].
        intros ->. page_simpl. done. }
    cbn [bind].
    rewrite (u32_small (idx + 1 + 1)) by (unfold SlotSize, idx' in *; lia).
    replace (idx + 1 + 1) with idx' by (unfold idx'; lia).
    destruct (write_slot2_spec (with_Data dst d3) idx' nxt' (typ_of (Data src) cnt))
      as (d4 & E4 & T4 & O4 & Y4);
      [page_simpl; lia|page_simpl; unfold in_slots; lia|lia|].
    page_simpl.
    assert (L4 : len d4 = len d) by (destruct T4; lia).
    exists d4. split.
    { revert E4. destruct (SetKeyOffset (with_Data dst d3) idx' nxt') as [q|];
        cbn [bind]; [|done]. intros ->. page_simpl. done. }
    split; [done|]. intros Hno.
    assert (Hs1 : slot_at (idx + 1) = SlotSize * idx) by (unfold slot_at; lia).
    assert (Hs2 : slot_at idx' = SlotSize * idx + 6) by (unfold slot_at, idx', SlotSize; lia).
    assert (Hs3 : SlotSize * idx' = SlotSize * idx + 12) by (unfold idx', SlotSize; lia).
    rewrite Hs1 in T3. rewrite Hs2 in T4.
    split; [|split; [|split; [|split]]].
    + eapply touched_trans; [|exact T4|].
      * eapply touched_trans; [exact T2|exact T3|]. intros b Hb. exact Hb.
      * intros b. unfold window. lia.
    + eapply touched_entry_ok; [exact T4| |].
      2: eapply touched_entry_ok; [exact T3| |exact E2].
      all: intros b Hb; unfold window; lia.
    + done.
    + rewrite Y4. apply Z.mod_small. lia.
    + intros _.
      rewrite (touched_off_of d3 d4 _ (idx + 1) T4), (touched_typ_of d3 d4 _ (idx + 1) T4),
        (touched_dead_of d3 d4 _ (idx + 1) T4); try lia;
        try (unfold window; rewrite ?Hs1; intros; lia).
      done.
  - assert (idx = 0) as -> by lia.
    cbn [bind].
    change (u32 (0 + 1)) with 1.
    change idx' with 1 in *.
    destruct (write_slot2_spec (with_Data dst d2) 1 nxt' (typ_of (Data src) cnt))
      as (d4 & E4 & T4 & O4 & Y4);
      [page_simpl; lia|page_simpl; unfold in_slots; lia|lia|].
    page_simpl.
    assert (L4 : len d4 = len d) by (destruct T4; lia).
    exists d4. split.
    { revert E4. destruct (SetKeyOffset (with_Data dst d2) 1 nxt') as [q|];
        cbn [bind]; [|done]. intros ->. page_simpl. done. }
    split; [done|]. intros Hno.
    change (slot_at 1) with 0 in T4.
    split; [|split; [|split; [|split]]].
    + eapply touched_trans; [exact T2|exact T4|].
      intros b. unfold window, SlotSize. lia.
    + eapply touched_entry_ok; [exact T4| |exact E2].
      intros b Hb; unfold window, SlotSize in *; lia.
    + done.
    + rewrite Y4. apply Z.mod_small. lia.
    + intros ?. lia.
Qed.


(** * Compaction: the slots that are kept, rewritten with librarians *)

(** the slots of [start+1 .. start+n] that a loop keeps *)
Fixpoint kept (keep : Z -> bool) (start : Z) (n : nat) : list Z :=
  match n with
  | O => []
  | S n' =>
      kept keep start n' ++
      (if keep (start + Z.of_nat (S n')) then [start + Z.of_nat (S n')] else [])
  end.

Lemma kept_bounds keep start n i :
  i ∈ kept keep start n -> start < i <= start + Z.of_nat n.
Proof.
  induction n as [|n IH]; simpl; [by intros ?%elem_of_nil|].
  rewrite elem_of_app. intros [H|H]; [specialize (IH H); lia|].
  destruct (keep _); [|by apply elem_of_nil in H].
  apply list_elem_of_singleton in H. lia.
Qed.

Lemma kept_keep keep start n i : i ∈ kept keep start n -> keep i = true.
Proof.
  induction n as [|n IH]; simpl; [by intros ?%elem_of_nil|].
  rewrite elem_of_app. intros [H|H]; [auto|].
  destruct (keep (start + _)) eqn:E; [|by apply elem_of_nil in H].
  apply list_elem_of_singleton in H. congruence.
Qed.

Lemma kept_length keep start n : (length (kept keep start n) <= n)%nat.
Proof.
  induction n as [|n IH]; simpl; [lia|].
  rewrite length_app. destruct (keep _); simpl; lia.
Qed.

Lemma kept_prefix keep start n m :
  (n <= m)%nat -> exists rest, kept keep start m = kept keep start n ++ rest.
Proof.
  induction 1 as [|m Hm [rest IH]].
  - exists []. by rewrite app_nil_r.
  - simpl. rewrite IH. eexists. by rewrite <- app_assoc.
Qed.

(** the slot number of the last of [n] kept slots; librarians sit between *)
Definition last_idx (n : Z) : Z := if n =? 0 then 0 else 2 * n - 1.

Lemma last_idx_next n :
  0 <= n -> (if 0 <? last_idx n then last_idx n + 2 else 1) = last_idx (n + 1).
Proof.
  intros. unfold last_idx.
  destruct (Z.eqb_spec n 0) as [->|]; [done|].
  destruct (Z.eqb_spec (n + 1) 0); [lia|].
  destruct (Z.ltb_spec 0 (2 * n - 1)); lia.
Qed.

Lemma last_idx_mono n m : 0 <= n <= m -> last_idx n <= last_idx m.
Proof.
  intros. unfold last_idx.
  destruct (Z.eqb_spec n 0), (Z.eqb_spec m 0); lia.
Qed.

Lemma last_idx_nonneg n : 0 <= n -> 0 <= last_idx n.
Proof. intros. unfold last_idx. destruct (Z.eqb_spec n 0); lia. Qed.

Section Compaction.
Variable src : Page.
Variables kf vf : Z -> list byte.
Variable pds : Z.

(** the bytes that the entries of the slots [ks] need *)
Definition total (ks : list Z) : Z :=
  fold_right (fun i acc => len (kf i) + len (vf i) + 2 + acc) 0 ks.

Lemma total_app ks ks' : total (ks ++ ks') = total ks + total ks'.
Proof. induction ks as [|i ks IH]; simpl; [done|]. rewrite IH. lia. Qed.

Lemma total_nonneg ks : 0 <= total ks.
Proof.
  induction ks as [|i ks IH]; simpl; [done|].
  pose proof (len_nonneg (kf i)). pose proof (len_nonneg (vf i)). lia.
Qed.

(** [d] holds the entries of the slots [ks] of [src], in this order, each
    but the first behind a librarian of its own *)
Definition compacted (d : list byte) (ks : list Z) : Prop :=
  forall (j : nat) i, ks !! j = Some i ->
    let s := 2 * Z.of_nat j + 1 in
    let off := pds - total (take (S j) ks) in
    off_of d s = off /\
    entry_ok d off (kf i) (vf i) /\
    typ_of d s = typ_of (Data src) i /\
    ((0 < j)%nat ->
     off_of d (s - 1) = off /\ typ_of d (s - 1) = Librarian /\ dead_of d (s - 1) = true).

(** ... with their dead flags *)
Definition dead_copied (d : list byte) (ks : list Z) : Prop :=
  forall (j : nat) i, ks !! j = Some i ->
    dead_of d (2 * Z.of_nat j + 1) = dead_of (Data src) i.

Lemma compacted_nil d : compacted d [].
Proof. intros j i H. done. Qed.

Lemma dead_copied_nil d : dead_copied d [] .
Proof. intros j i H. done. Qed.

Lemma total_take_le ks j : total (take j ks) <= total ks.
Proof.
  rewrite <- (take_drop j ks) at 2. rewrite total_app.
  pose proof (total_nonneg (drop j ks)). lia.
Qed.

(** writes above the slots and below the heap leave the compacted part *)
Lemma compacted_touched d d' ks (R : Z -> Prop) :
  len d = pds ->
  touched d d' R ->
  (forall b, R b -> SlotSize * last_idx (len ks) <= b < pds - total ks) ->
  compacted d ks -> compacted d' ks.
Proof.
  intros HL T HR C j i Hj. specialize (C j i Hj). cbv zeta in *.
  destruct C as (C1 & C2 & C3 & C4).
  pose proof (lookup_lt_Some _ _ _ Hj) as Hlt.
  assert (Hlast : 2 * Z.of_nat j + 1 <= last_idx (len ks)).
  { unfold last_idx, len. destruct (Z.eqb_spec (Z.of_nat (length ks)) 0); lia. }
  pose proof (total_take_le ks (S j)) as Htk.
  pose proof C2 as (K & _ & Hb & _).
  split; [|split; [|split]].
  - rewrite <- C1. apply (touched_off_of d d' R); [done|lia|].
    intros b Hb' HRb. apply HR in HRb. unfold slot_at, SlotSize in *. lia.
  - eapply touched_entry_ok; [exact T| |exact C2].
    intros b Hb' HRb. apply HR in HRb. lia.
  - rewrite <- C3. apply (touched_typ_of d d' R); [done|lia|].
    intros HRb. apply HR in HRb. unfold slot_at, SlotSize in *. lia.
  - intros Hpos. destruct (C4 Hpos) as (D1 & D2 & D3).
    split; [|split].
    + rewrite <- D1. apply (touched_off_of d d' R); [done|lia|].
      intros b Hb' HRb. apply HR in HRb. unfold slot_at, SlotSize in *. lia.
    + rewrite <- D2. apply (touched_typ_of d d' R); [done|lia|].
      intros HRb. apply HR in HRb. unfold slot_at, SlotSize in *. lia.
    + rewrite <- D3. apply (touched_dead_of d d' R); [done|lia|].
      intros HRb. apply HR in HRb. unfold slot_at, SlotSize in *. lia.
Qed.

Lemma dead_copied_touched d d' ks (R : Z -> Prop) :
  touched d d' R ->
  (forall b, R b -> SlotSize * last_idx (len ks) <= b) ->
  dead_copied d ks -> dead_copied d' ks.
Proof.
  intros T HR C j i Hj. rewrite <- (C j i Hj).
  pose proof (lookup_lt_Some _ _ _ Hj) as Hlt.
  assert (Hlast : 2 * Z.of_nat j + 1 <= last_idx (len ks)).
  { unfold last_idx, len. destruct (Z.eqb_spec (Z.of_nat (length ks)) 0); lia. }
  apply (touched_dead_of d d' R); [done|lia|].
  intros HRb. apply HR in HRb. unfold slot_at, SlotSize in *. lia.
Qed.

(** one more slot, copied by [copy_entry] *)
Lemma compact_step dst d ks i :
  len (Data src) < 2 ^ 31 ->
  slot_entry src i (kf i) (vf i) ->
  len d = pds -> pds <= 32767 ->
  total (ks ++ [i]) <= pds ->
  SlotSize * last_idx (len ks + 1) <= pds ->
  (SlotSize * last_idx (len ks) <= pds - total ks -> compacted d ks) ->
  exists d',
    copy_entry src (with_Data dst d) i (pds - total ks) (last_idx (len ks)) =
      Val (with_Data dst d', pds - total (ks ++ [i]), last_idx (len ks + 1)) /\
    len d' = pds /\
    (SlotSize * last_idx (len ks + 1) <= pds - total (ks ++ [i]) ->
     compacted d' (ks ++ [i]) /\
     touched d d' (window (SlotSize * last_idx (len ks)) (pds - total ks))).
Proof.
  intros HLs Hi HL Hpds Htot Hslots IH.
  pose proof (len_nonneg ks) as Hks.
  pose proof (total_nonneg ks) as Htk.
  pose proof (last_idx_nonneg (len ks) Hks) as Hli.
  rewrite total_app in *. simpl in Htot |- *. rewrite Z.add_0_r in *.
  pose proof (len_nonneg (kf i)). pose proof (len_nonneg (vf i)).
  destruct (copy_entry_spec src (with_Data dst d) i (pds - total ks) (last_idx (len ks))
              (kf i) (vf i)) as (d' & E & L' & Hc); page_simpl; try lia; try done.
  { rewrite last_idx_next by done. lia. }
  rewrite last_idx_next in * by done.
  exists d'. split.
  { rewrite with_Data_twice in E. rewrite E. do 3 f_equal. lia. }
  split; [lia|]. intros Hno.
  replace (pds - total ks - len (vf i) - len (kf i) - 2)
    with (pds - (total ks + (len (kf i) + len (vf i) + 2))) in Hc by lia.
  destruct (Hc Hno) as (T & En & On & Yn & Lib).
  pose proof (last_idx_mono (len ks) (len ks + 1) ltac:(lia)) as Hmono.
  assert (IH' : compacted d ks) by (apply IH; unfold SlotSize in *; lia).
  assert (T' : touched d d' (window (SlotSize * last_idx (len ks)) (pds - total ks))).
  { eapply touched_weaken; [exact T|]. unfold window, SlotSize in *. intros b. lia. }
  split; [|exact T'].
  intros j i' Hj. cbv zeta.
  apply lookup_app_Some in Hj as [Hj|[Hge Hj]].
  - (* an old slot *)
    pose proof (lookup_lt_Some _ _ _ Hj) as Hlt.
    rewrite take_app_le by lia.
    eapply (compacted_touched d d' ks); [done|exact T'| |exact IH'|exact Hj].
    unfold window. intros b. lia.
  - (* the new slot *)
    apply list_lookup_singleton_Some in Hj as [Hj <-].
    assert (j = length ks) as -> by lia. clear Hge Hj.
    rewrite take_ge by (rewrite length_app; simpl; lia).
    rewrite total_app. simpl. rewrite Z.add_0_r.
    assert (Hs : 2 * Z.of_nat (length ks) + 1 = last_idx (len ks + 1)).
    { unfold last_idx, len. destruct (Z.eqb_spec (Z.of_nat (length ks) + 1) 0); lia. }
    rewrite Hs. split; [done|]. split; [done|]. split; [done|].
    intros Hpos.
    assert (Hl : 0 < last_idx (len ks)).
    { unfold last_idx, len. destruct (Z.eqb_spec (Z.of_nat (length ks)) 0); lia. }
    destruct (Lib Hl) as (L1 & L2 & L3).
    replace (last_idx (len ks + 1) - 1) with (last_idx (len ks) + 1).
    2:{ unfold last_idx, len. destruct (Z.eqb_spec (Z.of_nat (length ks) + 1) 0),
          (Z.eqb_spec (Z.of_nat (length ks)) 0); lia. }
    done.
Qed.
End Compaction.


(** * The loop of [cleanPage] *)

(** setting the dead flag of the last slot *)
Lemma compacted_set_dead src kf vf pds d d' ks :
  ks <> [] ->
  SlotSize * last_idx (len ks) <= pds - total kf vf ks ->
  touched d d' (window (slot_at (last_idx (len ks)) + 5) (slot_at (last_idx (len ks)) + 6)) ->
  compacted src kf vf pds d ks -> compacted src kf vf pds d' ks.
Proof.
  intros Hne Hno T C j i Hj. specialize (C j i Hj). cbv zeta in *.
  destruct C as (C1 & C2 & C3 & C4).
  pose proof (lookup_lt_Some _ _ _ Hj) as Hlt.
  assert (Hl : last_idx (len ks) = 2 * len ks - 1).
  { unfold last_idx, len. destruct ks; [done|]. simpl length.
    destruct (Z.eqb_spec (Z.of_nat (S (length ks))) 0); lia. }
  rewrite Hl in *. unfold len in *.
  pose proof (total_take_le kf vf ks (S j)) as Htk.
  pose proof C2 as (K & _ & Hb & _).
  split; [|split; [|split]].
  - rewrite <- C1. apply (touched_off_of d d' _ _ T); [lia|].
    unfold window, slot_at, SlotSize. intros b. lia.
  - eapply touched_entry_ok; [exact T| |exact C2].
    unfold window, slot_at, SlotSize in *. intros b. lia.
  - rewrite <- C3. apply (touched_typ_of d d' _ _ T); [lia|].
    unfold window, slot_at, SlotSize. lia.
  - intros Hpos. destruct (C4 Hpos) as (D1 & D2 & D3).
    split; [|split].
    + rewrite <- D1. apply (touched_off_of d d' _ _ T); [lia|].
      unfold window, slot_at, SlotSize. intros b. lia.
    + rewrite <- D2. apply (touched_typ_of d d' _ _ T); [lia|].
      unfold window, slot_at, SlotSize. lia.
    + rewrite <- D3. apply (touched_dead_of d d' _ _ T); [lia|].
      unfold window, slot_at, SlotSize. lia.
Qed.

Section CleanLoop.
Variable src : Page.
Variables kf vf : Z -> list byte.
Variables pds max slot : Z.

(** what the loop keeps: the live slots, and the last slot whatever it is *)
Definition keep (i : Z) : bool := negb ((i <? max) && dead_of (Data src) i).

Fixpoint live (ks : list Z) : Z :=
  match ks with
  | [] => 0
  | i :: ks => (if dead_of (Data src) i then 0 else 1) + live ks
  end.

Lemma live_app ks ks' : live (ks ++ ks') = live ks + live ks'.
Proof. induction ks as [|i ks IH]; simpl; [done|]. rewrite IH. lia. Qed.

Lemma live_range ks : 0 <= live ks <= len ks.
Proof.
  induction ks as [|i ks IH]; simpl; [done|].
  rewrite len_cons. destruct (dead_of _ _); lia.
Qed.

(** where the requested slot goes *)
Definition adjusted : Z := 2 * len (kept keep 0 (Z.to_nat (slot - 1))) + 1.

Hypothesis HLs : len (Data src) < 2 ^ 31.
Hypothesis Hpds : pds <= 32767.
Hypothesis Hmax : 0 <= max /\ SlotSize * max <= len (Data src).
Hypothesis Hent : forall i, 1 <= i <= max -> keep i = true -> slot_entry src i (kf i) (vf i).

Let all := kept keep 0 (Z.to_nat max).

Hypothesis Htot : total kf vf all <= pds.
Hypothesis Hslots : SlotSize * last_idx (len all) <= pds.

Lemma kept_all_prefix c :
  0 <= c <= max ->
  total kf vf (kept keep 0 (Z.to_nat c)) <= total kf vf all /\
  last_idx (len (kept keep 0 (Z.to_nat c))) <= last_idx (len all).
Proof.
  intros Hc. destruct (kept_prefix keep 0 (Z.to_nat c) (Z.to_nat max)) as [rest E]; [lia|].
  unfold all. rewrite E, total_app, len_app.
  pose proof (total_nonneg kf vf rest). pose proof (len_nonneg rest).
  pose proof (len_nonneg (kept keep 0 (Z.to_nat c))).
  split; [lia|]. apply last_idx_mono. lia.
Qed.

Lemma cleanPage_loop_spec n : forall c d newSlot page,
  0 <= c <= max -> max <= c + Z.of_nat n ->
  len d = pds ->
  let ks := kept keep 0 (Z.to_nat c) in
  (SlotSize * last_idx (len ks) <= pds - total kf vf ks ->
   compacted src kf vf pds d ks /\ dead_copied src d ks) ->
  exists d',
    cleanPage_loop n src max slot c (with_Act (with_Data page d) (live ks))
      (pds - total kf vf ks) (last_idx (len ks)) newSlot =
    Val (with_Act (with_Data page d') (live all), pds - total kf vf all,
         last_idx (len all),
         if (c <? slot) && (slot <=? max) then adjusted else newSlot) /\
    len d' = pds /\
    (SlotSize * last_idx (len all) <= pds - total kf vf all ->
     compacted src kf vf pds d' all /\ dead_copied src d' all).
Proof.
  pose proof Hmax as [Hm0 Hm1]. unfold SlotSize in Hm1.
  induction n as [|n IH]; intros c d newSlot page Hc Hn HL ks Inv.
  - assert (c = max) as -> by lia.
    exists d. simpl. rewrite Z.ltb_irrefl.
    replace ((max <? slot) && (slot <=? max)) with false
      by (destruct (Z.ltb_spec max slot), (Z.leb_spec slot max); simpl; try done; lia).
    done.
  - destruct (Z.eq_dec c max) as [->|Hne].
    { exists d. simpl. rewrite Z.ltb_irrefl.
      replace ((max <? slot) && (slot <=? max)) with false
        by (destruct (Z.ltb_spec max slot), (Z.leb_spec slot max); simpl; try done; lia).
      done. }
    assert (Hlt : c < max) by lia.
    cbn [cleanPage_loop].
    destruct (Z.ltb_spec c max) as [_|]; [|lia].
    rewrite (u32_small (c + 1)) by lia.
    assert (Hin : in_slots (Data src) (c + 1)) by (unfold in_slots, SlotSize in *; lia).
    rewrite (Dead_Val src) by (done || lia).
    assert (Hskip : (if c + 1 <? max then Val (dead_of (Data src) (c + 1)) else Val false)
                    = Val (negb (keep (c + 1)))).
    { unfold keep. rewrite negb_involutive. destruct (c + 1 <? max); done. }
    rewrite Hskip. cbn [bind].
    assert (Hks : kept keep 0 (Z.to_nat (c + 1)) =
                  ks ++ (if keep (c + 1) then [c + 1] else [])).
    { replace (Z.to_nat (c + 1)) with (S (Z.to_nat c)) by lia. simpl kept.
      replace (0 + Z.of_nat (S (Z.to_nat c))) with (c + 1) by lia. done. }
    pose proof (len_nonneg ks) as Hlk.
    (* the slot asked for *)
    set (newSlot' := if c + 1 =? slot
                     then (if last_idx (len ks) =? 0 then 1 else u32 (last_idx (len ks) + 2))
                     else newSlot).
    assert (Hnew : (if (c + 1 <? slot) && (slot <=? max) then adjusted else newSlot') =
                   (if (c <? slot) && (slot <=? max) then adjusted else newSlot)).
    { unfold newSlot'. destruct (Z.eqb_spec (c + 1) slot) as [Hs|Hs].
      - destruct (Z.ltb_spec (c + 1) slot); [lia|].
        destruct (Z.ltb_spec c slot); [|lia]. destruct (Z.leb_spec slot max); [|lia].
        simpl. unfold adjusted. replace (slot - 1) with c by lia. fold ks.
        pose proof (kept_length keep 0 (Z.to_nat c)) as Hkl. fold ks in Hkl.
        unfold last_idx. destruct (Z.eqb_spec (len ks) 0) as [->|]; [done|].
        destruct (Z.eqb_spec (2 * len ks - 1) 0); [lia|].
        rewrite u32_small; unfold len in *; lia.
      - destruct (Z.ltb_spec (c + 1) slot), (Z.ltb_spec c slot); try lia; done. }
    destruct (keep (c + 1)) eqn:Hk; simpl negb; cbv iota.
    + (* the slot is kept *)
      destruct (kept_all_prefix (c + 1)) as [Ht Hs]; [lia|].
      rewrite Hks in Ht, Hs. rewrite len_app in Hs. change (len [c + 1]) with 1 in Hs.
      destruct (compact_step src kf vf pds (with_Act page (live ks)) d ks (c + 1))
        as (d1 & E1 & L1 & Inv1);
        [exact HLs|apply Hent; [lia|done]|exact HL|exact Hpds|lia
        |unfold SlotSize in *; lia|intros Hno; apply Inv; done|].
      change (with_Data (with_Act page (live ks)) d)
        with (with_Act (with_Data page d) (live ks)) in E1.
      rewrite E1. cbn [bind].
      set (idx := last_idx (len ks + 1)) in *.
      assert (Hidx : idx = 2 * len ks + 1).
      { unfold idx, last_idx. destruct (Z.eqb_spec (len ks + 1) 0); lia. }
      destruct (SetDead_spec (with_Data (with_Act page (live ks)) d1) idx)
        with (b := dead_of (Data src) (c + 1)) as (d2 & E2 & T2 & D2).
      { page_simpl. lia. }
      { page_simpl. unfold in_slots, SlotSize in *. lia. }
      rewrite E2. cbn [bind]. page_simpl.
      assert (L2 : len d2 = pds) by (destruct T2; lia).
      rewrite (Dead_Val (with_Data (with_Data (with_Act page (live ks)) d1) d2))
        by (page_simpl; (lia || (unfold in_slots, SlotSize in *; lia))).
      cbn [bind]. page_simpl. rewrite D2.
      assert (Hact : (if dead_of (Data src) (c + 1)
                      then with_Data (with_Data (with_Act page (live ks)) d1) d2
                      else with_Act (with_Data (with_Data (with_Act page (live ks)) d1) d2)
                             (u32 (live ks + 1)))
                     = with_Act (with_Data page d2) (live (ks ++ [c + 1]))).
      { rewrite live_app. simpl live. pose proof (live_range ks).
        pose proof (kept_length keep 0 (Z.to_nat c)) as Hkl. fold ks in Hkl.
        destruct (dead_of (Data src) (c + 1)).
        - rewrite !Z.add_0_r. done.
        - page_simpl. rewrite u32_small by (unfold len in *; lia).
          rewrite Z.add_0_r. done. }
      rewrite Hact. clear Hact.
      destruct (IH (c + 1) d2 newSlot' page) as (d' & E' & L' & Inv'); try lia.
      { cbv zeta. rewrite Hks, len_app. change (len [c + 1]) with 1. fold idx.
        intros Hno. destruct (Inv1 Hno) as [C1 T1].
        assert (Hno0 : SlotSize * last_idx (len ks) <= pds - total kf vf ks).
        { rewrite total_app in Hno. pose proof (total_nonneg kf vf [c + 1]).
          pose proof (last_idx_mono (len ks) (len ks + 1) ltac:(lia)).
          fold idx in H0. unfold SlotSize in *. lia. }
        destruct (Inv Hno0) as [_ DC].
        assert (Hidx' : idx = last_idx (len (ks ++ [c + 1]))).
        { rewrite len_app. done. }
        split.
        - eapply compacted_set_dead; [| |rewrite <- Hidx'; exact T2|exact C1].
          + by destruct ks.
          + rewrite <- Hidx'. done.
        - intros j i Hj. apply lookup_app_Some in Hj as [Hj|[Hge Hj]].
          + pose proof (lookup_lt_Some _ _ _ Hj) as Hjl.
            rewrite <- (DC j i Hj).
            rewrite (touched_dead_of d1 d2 _ _ T2); [|lia|].
            2:{ unfold window, slot_at, SlotSize, len in *. lia. }
            apply (touched_dead_of d d1 _ _ T1); [lia|].
            assert (2 * Z.of_nat j + 1 <= last_idx (len ks)).
            { unfold last_idx, len. destruct (Z.eqb_spec (Z.of_nat (length ks)) 0); lia. }
            unfold window, slot_at, SlotSize in *. lia.
          + apply list_lookup_singleton_Some in Hj as [Hj <-].
            assert (j = length ks) as -> by lia.
            replace (2 * Z.of_nat (length ks) + 1) with idx by (unfold len in *; lia).
            done. }
      rewrite Hks in E'. rewrite len_app in E'. change (len [c + 1]) with 1 in E'.
      fold idx in E'. exists d'. rewrite E'. rewrite Hnew. done.
    + (* a dead slot is left out *)
      rewrite app_nil_r in Hks.
      destruct (IH (c + 1) d newSlot' page) as (d' & E' & L' & Inv'); try lia; try done.
      { cbv zeta. rewrite Hks. done. }
      rewrite Hks in E'. exists d'. rewrite E', Hnew. done.
Qed.
End CleanLoop.


(** * [cleanPage] *)

(** the room that a page with [cnt] slots needs for one more entry *)
Definition need (cnt keyLen valLen : Z) : Z :=
  (cnt + 2) * SlotSize + PageHeaderSize + (keyLen + 1) + (valLen + 1).

Lemma space_needed_need cnt keyLen valLen :
  0 <= cnt -> SlotSize * cnt <= 32767 -> 0 <= keyLen < 256 -> 0 <= valLen < 256 ->
  space_needed cnt keyLen valLen = need cnt keyLen valLen.
Proof.
  intros. unfold space_needed, need, SlotSize, PageHeaderSize in *.
  rewrite <- (u32_small ((cnt + 2) * 6 + 26 + (keyLen + 1) + (valLen + 1))) by lia.
  f_equal. lia.
Qed.

Lemma MemCpyPage_same pds page :
  len (Data page) = pds -> MemCpyPage (NewPage pds) page = page.
Proof.
  intros HL. destruct page as [c a m g b f l k r d]. unfold MemCpyPage, NewPage. simpl in *.
  f_equal. unfold splice. simpl. rewrite Nat.sub_0_r, take_ge, drop_ge.
  - apply app_nil_r.
  - unfold zeros, len in *. rewrite length_replicate. lia.
  - unfold zeros, len in *. rewrite length_replicate. lia.
Qed.

(** the page after the compaction: [all] are the slots kept, [d'] the data *)
Definition cleaned (page : Page) (kf vf : Z -> list byte) (pds : Z)
    (all : list Z) (d' : list byte) : Page :=
  with_Cnt
    (with_Min (with_Act (with_Data (with_Garbage page 0) d') (live page all))
       (pds - total kf vf all))
    (last_idx (len all)).

Lemma cleanPage_room pds page keyLen slot valLen :
  0 <= Cnt page -> SlotSize * Cnt page <= 32767 ->
  0 <= keyLen < 256 -> 0 <= valLen < 256 ->
  need (Cnt page) keyLen valLen <= Min page ->
  cleanPage pds page keyLen slot valLen = Val (slot, page).
Proof.
  intros. unfold cleanPage. rewrite space_needed_need by done.
  destruct (Z.leb_spec (need (Cnt page) keyLen valLen) (Min page)); [done|lia].
Qed.

Lemma cleanPage_little_garbage pds page keyLen slot valLen :
  0 <= Cnt page -> SlotSize * Cnt page <= 32767 ->
  0 <= keyLen < 256 -> 0 <= valLen < 256 ->
  Min page < need (Cnt page) keyLen valLen ->
  Garbage page < pds / 5 ->
  cleanPage pds page keyLen slot valLen = Val (0, page).
Proof.
  intros. unfold cleanPage. rewrite space_needed_need by done.
  destruct (Z.leb_spec (need (Cnt page) keyLen valLen) (Min page)); [lia|].
  destruct (Z.ltb_spec (Garbage page) (pds / 5)); [done|lia].
Qed.

Lemma cleanPage_compacts pds page keyLen slot valLen kf vf :
  let max := Cnt page in
  let all := kept (keep page max) 0 (Z.to_nat max) in
  len (Data page) = pds -> pds <= 32767 ->
  SlotSize * max <= pds -> 1 <= slot <= max ->
  0 <= keyLen < 256 -> 0 <= valLen < 256 ->
  (forall i, 1 <= i <= max -> keep page max i = true -> slot_entry page i (kf i) (vf i)) ->
  total kf vf all <= pds ->
  SlotSize * last_idx (len all) <= pds ->
  Min page < need max keyLen valLen ->
  pds / 5 <= Garbage page ->
  exists d',
    cleanPage pds page keyLen slot valLen =
      Val (if need (last_idx (len all)) keyLen valLen <=? pds - total kf vf all
           then adjusted page max slot else 0,
           cleaned page kf vf pds all d') /\
    len d' = pds /\
    (need (last_idx (len all)) keyLen valLen <= pds - total kf vf all ->
     compacted page kf vf pds d' all /\ dead_copied page d' all).
Proof.
  intros max all HL Hpds Hmax Hslot Hk Hv Hent Htot Hslots Hmin Hg.
  unfold cleanPage. fold max. rewrite space_needed_need by lia.
  destruct (Z.leb_spec (need max keyLen valLen) (Min page)); [lia|].
  destruct (Z.ltb_spec (Garbage page) (pds / 5)); [lia|].
  rewrite MemCpyPage_same by done.
  assert (A1 : len (Data page) < 2 ^ 31) by lia.
  assert (A3 : 0 <= max /\ SlotSize * max <= len (Data page)) by lia.
  assert (B1 : 0 <= 0 <= max) by lia.
  assert (B2 : max <= 0 + Z.of_nat (Z.to_nat max)) by lia.
  assert (B3 : len (zeros pds) = pds) by (rewrite len_zeros; unfold SlotSize in *; lia).
  destruct (cleanPage_loop_spec page kf vf pds max slot A1 Hpds A3 Hent Htot Hslots
              (Z.to_nat max) 0 (zeros pds) max (with_Garbage page 0) B1 B2 B3)
    as (d' & E & L' & Inv).
  { intros _. split; [apply compacted_nil|apply dead_copied_nil]. }
  change (Z.to_nat 0) with 0%nat in E. simpl kept in E. simpl live in E.
  simpl total in E. change (len []) with 0 in E. change (last_idx 0) with 0 in E.
  rewrite Z.sub_0_r in E.
  change (with_Act (with_Garbage (with_Data page (zeros pds)) 0) 0)
    with (with_Act (with_Data (with_Garbage page 0) (zeros pds)) 0).
  rewrite E. cbn [bind]. fold all.
  destruct (Z.ltb_spec 0 slot); [|lia]. destruct (Z.leb_spec slot max); [|lia].
  simpl andb. cbv iota.
  pose proof (len_nonneg all).
  pose proof (last_idx_nonneg (len all) ltac:(lia)).
  rewrite space_needed_need by (done || lia).
  exists d'. split; [|split; [done|]].
  - page_simpl. unfold cleaned.
    destruct (need (last_idx (len all)) keyLen valLen <=? pds - total kf vf all); done.
  - intros Hn. apply Inv. fold all. unfold need, SlotSize, PageHeaderSize in *. lia.
Qed.


(** a page of 128 data bytes with the keys [1], [2], [3] and 6-byte values;
    the slots 2 and 3 are dead, and the header tells of 50 bytes of garbage
    and of a heap that reaches down to byte 60 *)
Definition garbage_page : Page :=
  mkPage 3 1 60 50 7 false 0 false (zeros BtId)
    (bytes_of [119; 0; 0; 0; 0; 0;  110; 0; 0; 0; 0; 1;  101; 0; 0; 0; 0; 1]
     ++ zeros 83
     ++ bytes_of [1; 3; 6; 0; 0; 0; 0; 0; 3;
                  1; 2; 6; 0; 0; 0; 0; 0; 2;
                  1; 1; 6; 0; 0; 0; 0; 0; 1]).

Definition garbage_key (i : Z) : list byte := bytes_of [i].
Definition garbage_value (i : Z) : list byte := bytes_of [0; 0; 0; 0; 0; i].





(** * The slots of a page as offset, type and dead flag *)

Definition sv (d : list byte) (j : Z) : Z * Z * bool := (off_of d j, typ_of d j, dead_of d j).

Lemma touched_sv d d' (R : Z -> Prop) j :
  touched d d' R -> 1 <= j ->
  (forall b, slot_at j <= b < slot_at j + 6 -> ~ R b) -> sv d' j = sv d j.
Proof.
  intros T Hj HR. unfold sv.
  rewrite (touched_off_of d d' R j T Hj), (touched_typ_of d d' R j T Hj),
    (touched_dead_of d d' R j T Hj); [done| | |].
  - apply HR. lia.
  - apply HR. lia.
  - intros b Hb. apply HR. lia.
Qed.

Lemma touched_sv_slot d d' i j :
  touched d d' (window (slot_at i) (slot_at i + 6)) -> 1 <= j -> j <> i ->
  sv d' j = sv d j.
Proof.
  intros T Hj Hne. apply (touched_sv d d' _ j T Hj).
  unfold window, slot_at, SlotSize. intros b. lia.
Qed.

(** one round of the loop of [insertSlot] that moves the slots up *)
Lemma move_slot_spec p i a :
  len (Data p) < 2 ^ 32 -> in_slots (Data p) i -> in_slots (Data p) a -> a <> i ->
  off_of (Data p) a <= 32767 ->
  exists d',
    (let* d := Dead p a in
     let* p := SetDead p i d in
     let* t := Typ p a in
     let* p := SetTyp p i t in
     let* o := KeyOffset p a in
     SetKeyOffset p i o) = Val (with_Data p d') /\
    touched (Data p) d' (window (slot_at i) (slot_at i + 6)) /\
    sv d' i = sv (Data p) a.
Proof.
  intros HL Hi Ha Hne Ho. pose proof Hi as [Hi1 _]. pose proof Ha as [Ha1 _].
  rewrite Dead_Val by done. cbn [bind].
  destruct (SetDead_spec p i HL Hi (dead_of (Data p) a)) as (d1 & E1 & T1 & D1).
  rewrite E1. cbn [bind].
  assert (L1 : len d1 = len (Data p)) by apply T1.
  assert (S1 : sv d1 a = sv (Data p) a).
  { apply (touched_sv _ _ _ a T1 Ha1). unfold window, slot_at, SlotSize. intros b. lia. }
  rewrite (Typ_Val (with_Data p d1))
    by (page_simpl; (lia || (eapply touched_in_slots; done))).
  cbn [bind]. page_simpl.
  destruct (SetTyp_spec (with_Data p d1) i) with (t := typ_of d1 a)
    as (d2 & E2 & T2 & Y2); [page_simpl; lia|page_simpl; eapply touched_in_slots; done|].
  rewrite E2. cbn [bind]. page_simpl.
  assert (L2 : len d2 = len d1) by apply T2.
  assert (S2 : sv d2 a = sv d1 a).
  { apply (touched_sv _ _ _ a T2 Ha1). unfold window, slot_at, SlotSize. intros b. lia. }
  rewrite (KeyOffset_Val (with_Data (with_Data p d1) d2))
    by (page_simpl; (lia || (do 2 (eapply touched_in_slots; [done|]); done))).
  cbn [bind]. page_simpl.
  assert (Oa : off_of d2 a = off_of (Data p) a).
  { transitivity (off_of d1 a); [injection S2|injection S1]; congruence. }
  pose proof (off_of_range d2 a) as Hr.
  destruct (SetKeyOffset_spec (with_Data (with_Data p d1) d2) i) with (o := off_of d2 a)
    as (d3 & E3 & T3 & O3);
    [page_simpl; lia|page_simpl; do 2 (eapply touched_in_slots; [done|]); done|lia|].
  rewrite E3. page_simpl. exists d3. split; [done|]. split.
  - eapply touched_trans; [|exact T3|].
    + eapply touched_trans; [exact T1|exact T2|]. intros c H. exact H.
    + unfold window. intros c. lia.
  - unfold sv. rewrite O3, Oa. f_equal; [f_equal|].
    + rewrite (touched_typ_of d2 d3 _ i T3 Hi1) by (unfold window; lia).
      rewrite Y2. injection S1 as _ Y _. rewrite Y.
      pose proof (typ_of_range (Data p) a). apply Z.mod_small. lia.
    + rewrite (touched_dead_of d2 d3 _ i T3 Hi1) by (unfold window; lia).
      rewrite (touched_dead_of d1 d2 _ i T2 Hi1) by (unfold window; lia).
      done.
Qed.

(** the loop that moves the slots [slot .. idx - librarian] up by [librarian] *)
Lemma insertSlot_move_spec slot lib n :
  1 <= slot -> 1 <= lib <= 2 ->
  forall p idx,
    len (Data p) < 2 ^ 31 ->
    slot + lib - 1 <= idx -> idx <= slot + lib - 1 + Z.of_nat n ->
    SlotSize * idx <= len (Data p) ->
    (forall j, slot <= j <= idx - lib -> off_of (Data p) j <= 32767) ->
    exists d',
      insertSlot_move n p idx slot lib = Val (with_Data p d') /\
      touched (Data p) d' (window (slot_at (slot + lib)) (slot_at idx + 6)) /\
      (forall j, slot + lib <= j <= idx -> sv d' j = sv (Data p) (j - lib)).
Proof.
  intros Hs Hlib. induction n as [|n IH]; intros p idx HL Hlo Hhi Hin Hoff.
  - assert (idx = slot + lib - 1) as -> by lia.
    exists (Data p). simpl.
    unfold SlotSize in *.
    rewrite (u32_small (slot + lib)), (u32_small (slot + lib - 1)) by lia.
    rewrite Z.ltb_irrefl. split; [by destruct p|]. split; [apply touched_refl|].
    intros j Hj. lia.
  - cbn [insertSlot_move]. unfold SlotSize in *.
    rewrite (u32_small (slot + lib)), (u32_small (slot + lib - 1)) by lia.
    destruct (Z.ltb_spec (slot + lib - 1) idx) as [Hlt|Hge].
    2:{ exists (Data p). split; [by destruct p|]. split; [apply touched_refl|].
        intros j Hj. lia. }
    rewrite (u32_small (idx - lib)), (u32_small (idx - 1)) by lia.
    destruct (move_slot_spec p idx (idx - lib)) as (d1 & E1 & T1 & S1);
      [lia|unfold in_slots, SlotSize; lia|unfold in_slots, SlotSize; lia|lia
      |apply Hoff; lia|].
    assert (L1 : len d1 = len (Data p)) by apply T1.
    assert (E1' : forall A (k : Page -> outcome A),
      (let* d := Dead p (idx - lib) in
       let* p0 := SetDead p idx d in
       let* t := Typ p0 (idx - lib) in
       let* p1 := SetTyp p0 idx t in
       let* o := KeyOffset p1 (idx - lib) in
       let* p2 := SetKeyOffset p1 idx o in k p2) = k (with_Data p d1)).
    { intros A k. revert E1.
      destruct (Dead p (idx - lib)) as [x|]; [|done]. cbn [bind].
      destruct (SetDead p idx x) as [p0|]; [|done]. cbn [bind].
      destruct (Typ p0 (idx - lib)) as [t|]; [|done]. cbn [bind].
      destruct (SetTyp p0 idx t) as [p1|]; [|done]. cbn [bind].
      destruct (KeyOffset p1 (idx - lib)) as [o|]; [|done]. cbn [bind].
      intros ->. done. }
    rewrite E1'. clear E1'.
    destruct (IH (with_Data p d1) (idx - 1)) as (d' & E' & T' & S'); page_simpl; try lia.
    { intros j Hj. replace (off_of d1 j) with (off_of (Data p) j); [apply Hoff; lia|].
      symmetry. apply (touched_off_of _ _ _ j T1); [lia|].
      unfold window, slot_at, SlotSize. intros b. lia. }
    rewrite with_Data_twice in E'.
    exists d'. split; [exact E'|]. split.
    + eapply touched_trans; [exact T1|exact T'|].
      unfold window, slot_at, SlotSize. intros b. lia.
    + intros j Hj. destruct (Z.eq_dec j idx) as [->|Hne].
      * rewrite <- S1. apply (touched_sv _ _ _ idx T'); [lia|].
        unfold window, slot_at, SlotSize. intros b. lia.
      * rewrite S' by lia. apply (touched_sv_slot _ _ idx); [done|lia|lia].
Qed.

(** the first dead slot of [idx .. Cnt - 1], or [Cnt] *)
Lemma insertSlot_empty_spec n : forall p idx,
  len (Data p) < 2 ^ 31 -> 1 <= idx <= Cnt p -> SlotSize * Cnt p <= len (Data p) ->
  Cnt p <= idx + Z.of_nat n ->
  exists e,
    insertSlot_empty n p idx = Val e /\ idx <= e <= Cnt p /\
    (e < Cnt p -> dead_of (Data p) e = true) /\
    (forall j, idx <= j < e -> dead_of (Data p) j = false).
Proof.
  induction n as [|n IH]; intros p idx HL Hidx Hin Hn; unfold SlotSize in *.
  - assert (idx = Cnt p) as -> by lia. exists (Cnt p). simpl.
    rewrite Z.ltb_irrefl. repeat split; lia.
  - cbn [insertSlot_empty].
    destruct (Z.ltb_spec idx (Cnt p)) as [Hlt|Hge].
    2:{ exists idx. repeat split; lia. }
    rewrite Dead_Val by (lia || (unfold in_slots, SlotSize; lia)). cbn [bind].
    destruct (dead_of (Data p) idx) eqn:Ed.
    + exists idx. repeat split; (lia || done).
    + rewrite u32_small by lia.
      destruct (IH p (idx + 1)) as (e & E & He & Hd & Hl); try lia.
      exists e. split; [done|]. split; [lia|]. split; [done|].
      intros j Hj. destruct (Z.eq_dec j idx) as [->|]; [done|apply Hl; lia].
Qed.


(** * [insertSlot] *)

Lemma bind3_Val {A B C D} (m1 : outcome A) (m2 : A -> outcome B) (m3 : B -> outcome C)
    (r : C) (k : C -> outcome D) :
  (let* a := m1 in let* b := m2 a in m3 b) = Val r ->
  (let* a := m1 in let* b := m2 a in let* c := m3 b in k c) = k r.
Proof.
  destruct m1 as [a|]; [|done]. cbn [bind].
  destruct (m2 a) as [b|]; [|done]. cbn [bind]. intros ->. done.
Qed.

(** the slot that takes the new key: a librarian in front of [s] is used *)
Definition lib_slot (d : list byte) (s : Z) : Z :=
  if (1 <? s) && (typ_of d (s - 1) =? Librarian) then s - 1 else s.

Lemma lib_slot_range d s : 1 <= s -> 1 <= lib_slot d s <= s /\ s - 1 <= lib_slot d s.
Proof.
  intros. unfold lib_slot. destruct (Z.ltb_spec 1 s); simpl; [|lia].
  destruct (typ_of d (s - 1) =? Librarian); lia.
Qed.

(** the first part of [insertSlot]: the entry goes below [Min] *)
Lemma insertSlot_heap d m key value :
  len d <= 32767 -> m <= len d -> 0 <= m - (BtId + 1) - (len key + 1) ->
  len key <= 254 -> len value = BtId ->
  let min1 := m - (BtId + 1) in
  let min' := min1 - (len key + 1) in
  exists d2,
    copy_at d (u32 (m - (BtId + 1))) (byte.of_Z (len value) :: value) =
      Val (splice d (Z.to_nat min1) (byte.of_Z (len value) :: value)) /\
    u32 (u32 (m - (BtId + 1)) - u32 (len key + 1)) = min' /\
    copy_at (splice d (Z.to_nat min1) (byte.of_Z (len value) :: value)) min'
      (byte.of_Z (len key) :: key) = Val d2 /\
    touched d d2 (window min' m) /\ entry_ok d2 min' key value.
Proof.
  intros HL Hm Hroom Hk Hv min1 min'. unfold BtId in *.
  pose proof (len_nonneg key).
  rewrite (u32_small (m - (6 + 1))) by lia.
  rewrite (u32_small (len key + 1)) by lia.
  rewrite (u32_small (m - (6 + 1) - (len key + 1))) by lia.
  fold min1. fold min'.
  rewrite copy_at_Val by lia.
  set (d1 := splice d (Z.to_nat min1) (byte.of_Z (len value) :: value)).
  assert (L1 : len d1 = len d) by (apply len_splice; lia).
  rewrite copy_at_Val by lia.
  eexists. split; [done|]. split; [done|]. split; [done|]. split.
  - eapply touched_trans; [apply touched_splice|apply touched_splice|].
    + lia.
    + fold d1. lia.
    + unfold window. intros b. rewrite !len_cons. lia.
  - unfold d1. replace min1 with (min' + 1 + len key) by lia.
    apply entry_ok_write; lia.
Qed.

(** what [insertSlot] makes of the slots: [e] is the slot that is given up,
    or [Cnt] when two more slots are taken *)
Definition inserted (d d' : list byte) (n s' e min' typ : Z) : Prop :=
  (forall j, 1 <= j < s' -> sv d' j = sv d j) /\
  if e =? n then
    sv d' s' = (min', Librarian, true) /\ sv d' (s' + 1) = (min', typ, false) /\
    forall j, s' + 2 <= j <= n + 2 -> sv d' j = sv d (j - 2)
  else
    sv d' s' = (min', typ, false) /\
    (forall j, s' < j <= e -> sv d' j = sv d (j - 1)) /\
    forall j, e < j <= n -> sv d' j = sv d j.

Lemma insertSlot_spec p s key value typ :
  let d := Data p in
  let n := Cnt p in
  let s' := lib_slot d s in
  let min' := Min p - (BtId + 1) - (len key + 1) in
  len d <= 32767 -> 1 <= s <= n -> len key <= 254 -> len value = BtId ->
  0 <= typ < 256 -> Min p <= len d -> SlotSize * (n + 2) <= min' ->
  (forall j, 1 <= j <= n -> off_of d j <= 32767) ->
  exists e d',
    (s' <= e <= n /\ (e < n -> dead_of d e = true) /\
     forall j, s' <= j < e -> dead_of d j = false) /\
    let n' := if e =? n then n + 2 else n in
    insertSlot p s key value typ =
      Val (with_Data (with_Act (with_Cnt (with_Min p min') n') (u32 (Act p + 1))) d') /\
    touched d d' (fun b => b < SlotSize * n' \/ min' <= b < Min p) /\
    entry_ok d' min' key value /\
    inserted d d' n s' e min' typ.
Proof.
  intros d n s' min' HL Hs Hk Hv Htyp Hmin Hroom Hoff.
  unfold SlotSize, BtId in *.
  pose proof (len_nonneg key) as Hk0.
  pose proof (lib_slot_range d s ltac:(lia)) as Hs'. fold s' in Hs'.
  unfold insertSlot.
  (* the librarian in front *)
  assert (E0 : (if 1 <? s
                then let* t := Typ p (u32 (s - 1)) in
                     Val (if t =? Librarian then u32 (s - 1) else s)
                else Val s) = Val s').
  { unfold s', lib_slot. destruct (Z.ltb_spec 1 s); [|done].
    rewrite (u32_small (s - 1)) by lia.
    rewrite Typ_Val by (fold d; (lia || (unfold in_slots, SlotSize; lia))).
    cbn [bind]. fold d. simpl. done. }
  rewrite E0. cbn [bind]. page_simpl. fold d.
  (* the entry *)
  destruct (insertSlot_heap d (Min p) key value) as (d2 & E1 & E2 & E3 & T2 & En);
    try (unfold BtId; lia).
  unfold BtId in *. rewrite E1. cbn [bind]. page_simpl. rewrite E2.
  fold min'. fold min' in E3, T2, En. rewrite E3. cbn [bind]. page_simpl.
  assert (L2 : len d2 = len d) by apply T2.
  assert (V2 : forall j, 1 <= j <= n + 2 -> sv d2 j = sv d j).
  { intros j Hj. apply (touched_sv _ _ _ j T2); [lia|].
    unfold window, slot_at, SlotSize. intros b. lia. }
  (* the slot to give up *)
  set (p2 := with_Data (with_Min p min') d2).
  match goal with |- context [insertSlot_empty _ ?q s'] => change q with p2 end.
  assert (Cp2 : Cnt p2 = n) by done.
  assert (Dp2 : Data p2 = d2) by done.
  destruct (insertSlot_empty_spec (Z.to_nat n) p2 s') as (e & Ee & He & Hd & Hl);
    rewrite ?Cp2, ?Dp2; unfold SlotSize; try lia.
  fold n. rewrite Ee. cbn [bind]. rewrite Dp2 in *.
  assert (Hd' : e < n -> dead_of d e = true).
  { intros H. rewrite <- (Hd H). symmetry.
    specialize (V2 e ltac:(lia)). injection V2. done. }
  assert (Hl' : forall j, s' <= j < e -> dead_of d j = false).
  { intros j Hj. rewrite <- (Hl j Hj). symmetry.
    specialize (V2 j ltac:(lia)). injection V2. done. }
  assert (Hoff2 : forall j, 1 <= j <= n -> off_of d2 j <= 32767).
  { intros j Hj. specialize (V2 j ltac:(lia)). injection V2 as -> _ _. apply Hoff. lia. }
  exists e.
  destruct (Z.eqb_spec e n) as [->|Hne].
  - (* two more slots *)
    rewrite (u32_small (n + 2)) by lia.
    set (p3 := with_Act (with_Cnt p2 (n + 2)) (u32 (Act (with_Cnt p2 (n + 2)) + 1))).
    assert (Dp3 : Data p3 = d2) by done.
    destruct (insertSlot_move_spec s' 2 (Z.to_nat (n + 2)) ltac:(lia) ltac:(lia) p3 (n + 2))
      as (d3 & E4 & T3 & S3);
      [rewrite ?Dp3; unfold SlotSize; first [lia | intros; apply Hoff2; lia] .. |].
    rewrite Dp3 in *. rewrite E4. cbn [bind].
    assert (L3 : len d3 = len d2) by apply T3.
    change (1 <? 2) with true. cbv iota.
    unfold p3, p2. page_simpl.
    match goal with |- context [SetKeyOffset ?q s' min'] => set (p4 := q) end.
    assert (Dp4 : Data p4 = d3) by done.
    destruct (write_slot_spec p4 s' min' Librarian true) as (d4 & E5 & T4 & O4 & Y4 & D4);
      [rewrite ?Dp4; first [lia | unfold in_slots, SlotSize; lia] .. |].
    rewrite Dp4 in *.
    rewrite (bind3_Val _ _ _ _ _ E5). cbn [bind]. unfold p4. page_simpl.
    rewrite (u32_small (s' + 1)) by lia.
    assert (L4 : len d4 = len d3) by apply T4.
    match goal with |- context [SetKeyOffset ?q (s' + 1) min'] => set (p5 := q) end.
    assert (Dp5 : Data p5 = d4) by done.
    destruct (write_slot_spec p5 (s' + 1) min' typ false) as (d5 & E6 & T5 & O5 & Y5 & D5);
      [rewrite ?Dp5; first [lia | unfold in_slots, SlotSize; lia] .. |].
    rewrite Dp5 in *. rewrite E6. unfold p5. page_simpl.
    exists d5. split; [repeat split; (lia || done)|]. cbv zeta.
    split; [done|].
    assert (T25 : touched d2 d5 (fun b => b < 6 * (n + 2))).
    { eapply touched_trans; [|exact T5|].
      - eapply touched_trans; [exact T3|exact T4|]. intros b H. exact H.
      - unfold window, slot_at, SlotSize. intros b. lia. }
    split; [|split].
    + eapply touched_trans; [exact T2|exact T25|]. unfold window. intros b. lia.
    + eapply touched_entry_ok; [exact T25| |exact En]. intros b Hb. cbv beta. lia.
    + split.
      * intros j Hj. rewrite <- V2 by lia.
        rewrite (touched_sv_slot _ _ _ j T5) by lia.
        rewrite (touched_sv_slot _ _ _ j T4) by lia.
        apply (touched_sv _ _ _ j T3); [lia|].
        unfold window, slot_at, SlotSize. intros b. lia.
      * rewrite Z.eqb_refl. split; [|split].
        -- rewrite (touched_sv_slot _ _ _ s' T5) by lia.
           unfold sv. rewrite O4, Y4, D4. done.
        -- unfold sv. rewrite O5, Y5, D5. rewrite Z.mod_small by lia. done.
        -- intros j Hj.
           rewrite (touched_sv_slot _ _ _ j T5) by lia.
           rewrite (touched_sv_slot _ _ _ j T4) by lia.
           rewrite S3 by lia. apply V2. lia.
  - (* the slot [e] is taken *)
    set (p3 := with_Act p2 (u32 (Act p2 + 1))).
    assert (Dp3 : Data p3 = d2) by done.
    destruct (insertSlot_move_spec s' 1 (Z.to_nat e) ltac:(lia) ltac:(lia) p3 e)
      as (d3 & E4 & T3 & S3);
      [rewrite ?Dp3; unfold SlotSize; first [lia | intros; apply Hoff2; lia] .. |].
    rewrite Dp3 in *. rewrite E4. cbn [bind].
    assert (L3 : len d3 = len d2) by apply T3.
    change (1 <? 1) with false. cbv iota. cbn [bind].
    unfold p3, p2. page_simpl.
    match goal with |- context [SetKeyOffset ?q s' min'] => set (p4 := q) end.
    assert (Dp4 : Data p4 = d3) by done.
    destruct (write_slot_spec p4 s' min' typ false) as (d4 & E5 & T4 & O4 & Y4 & D4);
      [rewrite ?Dp4; first [lia | unfold in_slots, SlotSize; lia] .. |].
    rewrite Dp4 in *. rewrite E5. unfold p4. page_simpl.
    exists d4. split; [repeat split; (lia || done)|]. cbv zeta.
    split; [done|].
    assert (T24 : touched d2 d4 (fun b => b < 6 * n)).
    { eapply touched_trans; [exact T3|exact T4|].
      unfold window, slot_at, SlotSize. intros b. lia. }
    split; [|split].
    + eapply touched_trans; [exact T2|exact T24|]. unfold window. intros b. lia.
    + eapply touched_entry_ok; [exact T24| |exact En]. intros b Hb. cbv beta. lia.
    + split.
      * intros j Hj. rewrite <- V2 by lia.
        rewrite (touched_sv_slot _ _ _ j T4) by lia.
        apply (touched_sv _ _ _ j T3); [lia|].
        unfold window, slot_at, SlotSize. intros b. lia.
      * destruct (Z.eqb_spec e n); [lia|]. split; [|split].
        -- unfold sv. rewrite O4, Y4, D4. rewrite Z.mod_small by lia. done.
        -- intros j Hj. rewrite (touched_sv_slot _ _ _ j T4) by lia.
           rewrite S3 by lia. apply V2. lia.
        -- intros j Hj. rewrite <- V2 by lia.
           rewrite (touched_sv_slot _ _ _ j T4) by lia.
           apply (touched_sv _ _ _ j T3); [lia|].
           unfold window, slot_at, SlotSize. intros b. lia.
Qed.


(** * The keys of a page *)

(** the slots [1 .. n] point at the keys [kf], which lie at [lo] or above *)
Definition keys_at (d : list byte) (n lo : Z) (kf : Z -> list byte) : Prop :=
  forall j, 1 <= j <= n -> lo <= off_of d j /\ key_ok d (off_of d j) (kf j).

(** the keys of the slots below [top] are in non-decreasing order *)
Definition sorted_keys (kf : Z -> list byte) (top : Z) : Prop :=
  forall i j, 1 <= i <= j -> j < top -> key_le (kf i) (kf j).

(** the keys after [insertSlot] *)
Definition inserted_keys (kf : Z -> list byte) (key : list byte) (n s' e : Z)
  : Z -> list byte :=
  fun j =>
    if e =? n then
      if j <? s' then kf j else if j <=? s' + 1 then key else kf (j - 2)
    else
      if j <? s' then kf j else if j =? s' then key
      else if j <=? e then kf (j - 1) else kf j.

Lemma inserted_keys_at d d' n s' e min' m typ kf key :
  let n' := if e =? n then n + 2 else n in
  inserted d d' n s' e min' typ ->
  touched d d' (fun b => b < SlotSize * n' \/ min' <= b < m) ->
  key_ok d' min' key ->
  keys_at d n m kf ->
  SlotSize * n' <= min' -> min' <= m -> 1 <= s' <= e -> e <= n ->
  keys_at d' n' min' (inserted_keys kf key n s' e).
Proof.
  intros n' [I1 I2] T K KA Hroom Hm Hs He j Hj.
  assert (Old : forall x, 1 <= x <= n -> sv d' j = sv d x ->
                min' <= off_of d' j /\ key_ok d' (off_of d' j) (kf x)).
  { intros x Hx E. injection E as -> _ _.
    destruct (KA x Hx) as [Hlo Hk]. split; [lia|].
    pose proof Hk as (_ & _ & _ & _).
    eapply touched_key_ok; [exact T| |exact Hk].
    intros b Hb. cbv beta. unfold SlotSize in *. lia. }
  assert (New : forall t b, sv d' j = (min', t, b) ->
                min' <= off_of d' j /\ key_ok d' (off_of d' j) key).
  { intros t b E. injection E as -> _ _. split; [lia|done]. }
  unfold inserted_keys, n' in *. cbv beta. destruct (Z.eqb_spec e n) as [->|Hne].
  - destruct I2 as (A1 & A2 & A3).
    destruct (Z.ltb_spec j s'); [apply Old; [lia|apply I1; lia]|].
    destruct (Z.leb_spec j (s' + 1)).
    + destruct (Z.eq_dec j s') as [Hjs|]; [subst j; eapply New; exact A1|].
      assert (j = s' + 1) by lia. subst j. eapply New; exact A2.
    + apply Old; [lia|apply A3; lia].
  - destruct I2 as (A1 & A2 & A3).
    destruct (Z.ltb_spec j s'); [apply Old; [lia|apply I1; lia]|].
    destruct (Z.eqb_spec j s') as [Hjs|]; [subst j; eapply New; exact A1|].
    destruct (Z.leb_spec j e); [apply Old; [lia|apply A2; lia]|].
    apply Old; [lia|apply A3; lia].
Qed.

Lemma inserted_sorted kf key n s s' e top :
  sorted_keys kf top ->
  (forall x, 1 <= x < s -> key_lt (kf x) key) ->
  (forall x, s <= x < top -> key_le key (kf x)) ->
  s - 1 <= s' <= s -> s <= n -> (s' < s -> e = s') -> s' <= e <= n -> 1 <= s' ->
  n <= top ->
  sorted_keys (inserted_keys kf key n s' e) (if e =? n then top + 2 else top).
Proof.
  intros S Hlt Hge Hs' Hsn Hlib He H1 Htop i j Hij Hj.
  unfold inserted_keys. destruct (Z.eqb_spec e n) as [->|Hne].
  - assert (s' = s) as -> by lia.
    destruct (Z.ltb_spec i s), (Z.ltb_spec j s); try lia.
    + apply S; lia.
    + destruct (Z.leb_spec j (s + 1)); [apply key_lt_le, Hlt; lia|apply S; lia].
    + destruct (Z.leb_spec i (s + 1)), (Z.leb_spec j (s + 1)); try lia.
      * apply key_le_refl.
      * apply Hge. lia.
      * apply S; lia.
  - destruct (Z.ltb_spec i s'), (Z.ltb_spec j s'); try lia.
    + apply S; lia.
    + destruct (Z.eqb_spec j s'); [apply key_lt_le, Hlt; lia|].
      destruct (Z.leb_spec j e); apply S; lia.
    + destruct (Z.eqb_spec i s') as [->|], (Z.eqb_spec j s') as [->|]; try lia.
      * apply key_le_refl.
      * destruct (Z.leb_spec j e); apply Hge; lia.
      * destruct (Z.leb_spec i e), (Z.leb_spec j e); try lia; apply S; lia.
Qed.

(** [insertSlot] on a page with room whose keys are in order: the page that
    comes out, its keys, and their order *)
Lemma insertSlot_keys p s key value typ kf top :
  let d := Data p in
  let n := Cnt p in
  let s' := lib_slot d s in
  let min' := Min p - (BtId + 1) - (len key + 1) in
  len d <= 32767 -> 1 <= s <= n -> len key <= 254 -> len value = BtId ->
  0 <= typ < 256 -> Min p <= len d -> SlotSize * (n + 2) <= min' ->
  keys_at d n (Min p) kf ->
  (1 < s -> typ_of d (s - 1) = Librarian -> dead_of d (s - 1) = true) ->
  sorted_keys kf top -> n <= top ->
  (forall x, 1 <= x < s -> key_lt (kf x) key) ->
  (forall x, s <= x < top -> key_le key (kf x)) ->
  exists e d',
    let n' := if e =? n then n + 2 else n in
    let kf' := inserted_keys kf key n s' e in
    s' <= e <= n /\
    insertSlot p s key value typ =
      Val (with_Data (with_Act (with_Cnt (with_Min p min') n') (u32 (Act p + 1))) d') /\
    len d' = len d /\
    entry_ok d' min' key value /\
    inserted d d' n s' e min' typ /\
    keys_at d' n' min' kf' /\
    sorted_keys kf' (if e =? n then top + 2 else top).
Proof.
  intros d n s' min' HL Hs Hk Hv Htyp Hmin Hroom KA Hlib S Htop Hlt Hge.
  assert (Hoff : forall j, 1 <= j <= n -> off_of d j <= 32767).
  { intros j Hj. destruct (KA j Hj) as [_ (K0 & K1 & _)].
    pose proof (len_nonneg (kf j)). lia. }
  destruct (insertSlot_spec p s key value typ) as (e & d' & (He & Hd & Hl) & E & T & En & I);
    try done.
  fold d n s' min' in He, Hd, Hl, E, T, En, I. cbv zeta in E, T.
  pose proof (lib_slot_range d s ltac:(lia)) as Hs'. fold s' in Hs'.
  exists e, d'. cbv zeta.
  split; [done|]. split; [exact E|]. split; [apply T|]. split; [done|]. split; [done|].
  split.
  - apply (inserted_keys_at d d' n s' e min' (Min p) typ kf key I T (proj1 En) KA).
    + unfold SlotSize, BtId in *. destruct (e =? n); lia.
    + unfold BtId in *. pose proof (len_nonneg key). lia.
    + lia.
    + lia.
  - apply inserted_sorted with (s := s); try done; try lia.
    intros Hlt'. destruct (Z.eq_dec e s') as [|Hne]; [done|].
    assert (Hds : dead_of d s' = false) by (apply Hl; lia).
    assert (s' = s - 1) as Es by lia.
    pose proof Es as Es'. unfold s', lib_slot in Es'.
    destruct (Z.ltb_spec 1 s); simpl in Es'; [|lia].
    destruct (Z.eqb_spec (typ_of d (s - 1)) Librarian) as [Ht|]; [|lia].
    rewrite Es in Hds. rewrite (Hlib ltac:(lia) Ht) in Hds. done.
Qed.


(** * The loops of [splitPage] *)

Section SplitLoops.
Variable src : Page.
Variables kf vf : Z -> list byte.
Variable pds : Z.
Hypothesis HLs : len (Data src) < 2 ^ 31.
Hypothesis Hpds : pds <= 32767.

(** a slot is copied, with its dead flag, and counted if it is live *)
Lemma copy_dead_step page d a ks i :
  in_slots (Data src) i ->
  slot_entry src i (kf i) (vf i) ->
  len d = pds ->
  total kf vf (ks ++ [i]) <= pds ->
  SlotSize * last_idx (len ks + 1) <= pds ->
  (SlotSize * last_idx (len ks) <= pds - total kf vf ks -> compacted src kf vf pds d ks) ->
  exists d' a',
    (forall A (k : Page -> Z -> Z -> outcome A),
       (let* '(pg, nxt, idx) :=
          copy_entry src (with_Act (with_Data page d) a) i
            (pds - total kf vf ks) (last_idx (len ks)) in
        let* dd := Dead src i in
        let* pg := SetDead pg idx dd in
        let* dd := Dead pg idx in
        k (if dd then pg else with_Act pg (u32 (Act pg + 1))) nxt idx) =
       k (with_Act (with_Data page d') a') (pds - total kf vf (ks ++ [i]))
         (last_idx (len ks + 1))) /\
    len d' = pds /\
    (SlotSize * last_idx (len ks + 1) <= pds - total kf vf (ks ++ [i]) ->
     compacted src kf vf pds d' (ks ++ [i])).
Proof.
  intros Hin Hent HL Htot Hslots Inv.
  pose proof (len_nonneg ks) as Hlk.
  destruct (compact_step src kf vf pds (with_Act page a) d ks i)
    as (d1 & E1 & L1 & Inv1); try done.
  change (with_Data (with_Act page a) d) with (with_Act (with_Data page d) a) in E1.
  set (idx := last_idx (len ks + 1)) in *.
  assert (Hidx : idx = 2 * len ks + 1).
  { unfold idx, last_idx. destruct (Z.eqb_spec (len ks + 1) 0); lia. }
  destruct (SetDead_spec (with_Data (with_Act page a) d1) idx)
    with (b := dead_of (Data src) i) as (d2 & E2 & T2 & D2).
  { page_simpl. lia. }
  { page_simpl. unfold in_slots, SlotSize in *. lia. }
  page_simpl.
  assert (L2 : len d2 = pds) by (destruct T2; lia).
  exists d2, (if dead_of (Data src) i then a else u32 (a + 1)).
  split; [|split; [done|]].
  - intros A k. rewrite E1. cbn [bind].
    rewrite (Dead_Val src) by (done || lia). cbn [bind].
    rewrite E2. cbn [bind]. page_simpl.
    rewrite (Dead_Val (with_Data (with_Data (with_Act page a) d1) d2))
      by (page_simpl; (lia || (unfold in_slots, SlotSize in *; lia))).
    cbn [bind]. page_simpl. rewrite D2.
    destruct (dead_of (Data src) i); done.
  - intros Hno. destruct (Inv1 Hno) as [C1 T1].
    eapply compacted_set_dead; [| | |exact C1].
    + by destruct ks.
    + rewrite len_app. done.
    + rewrite len_app. exact T2.
Qed.

(** a live slot is copied and counted *)
Lemma copy_live_step page d a ks i :
  slot_entry src i (kf i) (vf i) ->
  len d = pds ->
  total kf vf (ks ++ [i]) <= pds ->
  SlotSize * last_idx (len ks + 1) <= pds ->
  (SlotSize * last_idx (len ks) <= pds - total kf vf ks -> compacted src kf vf pds d ks) ->
  exists d',
    (forall A (k : Page -> Z -> Z -> outcome A),
       (let* '(pg, nxt, idx) :=
          copy_entry src (with_Act (with_Data page d) a) i
            (pds - total kf vf ks) (last_idx (len ks)) in
        k (with_Act pg (u32 (Act pg + 1))) nxt idx) =
       k (with_Act (with_Data page d') (u32 (a + 1))) (pds - total kf vf (ks ++ [i]))
         (last_idx (len ks + 1))) /\
    len d' = pds /\
    (SlotSize * last_idx (len ks + 1) <= pds - total kf vf (ks ++ [i]) ->
     compacted src kf vf pds d' (ks ++ [i])).
Proof.
  intros Hent HL Htot Hslots Inv.
  destruct (compact_step src kf vf pds (with_Act page a) d ks i)
    as (d1 & E1 & L1 & Inv1); try done.
  change (with_Data (with_Act page a) d) with (with_Act (with_Data page d) a) in E1.
  exists d1. split; [|split; [done|]].
  - intros A k. rewrite E1. cbn [bind]. done.
  - intros Hno. apply Inv1. done.
Qed.
End SplitLoops.

Lemma kept_prefix_bounds keep kf vf lo (m1 m2 : nat) :
  (m1 <= m2)%nat ->
  total kf vf (kept keep lo m1) <= total kf vf (kept keep lo m2) /\
  last_idx (len (kept keep lo m1)) <= last_idx (len (kept keep lo m2)).
Proof.
  intros H. destruct (kept_prefix keep lo m1 m2 H) as [rest E].
  rewrite E, total_app, len_app.
  pose proof (total_nonneg kf vf rest). pose proof (len_nonneg rest).
  pose proof (len_nonneg (kept keep lo m1)).
  split; [lia|]. apply last_idx_mono. lia.
Qed.

Lemma kept_step keep lo c :
  lo <= c ->
  kept keep lo (Z.to_nat (c + 1 - lo)) =
  kept keep lo (Z.to_nat (c - lo)) ++ (if keep (c + 1) then [c + 1] else []).
Proof.
  intros H. replace (Z.to_nat (c + 1 - lo)) with (S (Z.to_nat (c - lo))) by lia.
  simpl kept. replace (lo + Z.of_nat (S (Z.to_nat (c - lo)))) with (c + 1) by lia. done.
Qed.

Section SplitUpper.
Variable src : Page.
Variables kf vf : Z -> list byte.
Variables pds max lo : Z.

(** the first loop keeps the live slots above [lo]; on a leaf the last slot
    is kept whatever it is *)
Definition keep_upper (i : Z) : bool :=
  negb (((i <? max) || (0 <? Lvl src)) && dead_of (Data src) i).

Hypothesis HLs : len (Data src) < 2 ^ 31.
Hypothesis Hpds : pds <= 32767.
Hypothesis Hlo : 0 <= lo.
Hypothesis Hmax : SlotSize * max <= len (Data src).
Hypothesis Hent :
  forall i, lo < i <= max -> keep_upper i = true -> slot_entry src i (kf i) (vf i).

Let all := kept keep_upper lo (Z.to_nat (max - lo)).

Hypothesis Htot : total kf vf all <= pds.
Hypothesis Hslots : SlotSize * last_idx (len all) <= pds.

Lemma splitPage_upper_spec n : forall c d a frame,
  lo <= c <= max -> max <= c + Z.of_nat n ->
  len d = pds ->
  let ks := kept keep_upper lo (Z.to_nat (c - lo)) in
  (SlotSize * last_idx (len ks) <= pds - total kf vf ks -> compacted src kf vf pds d ks) ->
  exists d' a',
    splitPage_upper n src max c (with_Act (with_Data frame d) a)
      (pds - total kf vf ks) (last_idx (len ks)) =
    Val (with_Act (with_Data frame d') a', pds - total kf vf all, last_idx (len all)) /\
    len d' = pds /\
    (SlotSize * last_idx (len all) <= pds - total kf vf all ->
     compacted src kf vf pds d' all).
Proof.
  induction n as [|n IH]; intros c d a frame Hc Hn HL ks Inv; unfold SlotSize in *.
  - assert (c = max) as -> by lia.
    exists d, a. simpl. rewrite Z.ltb_irrefl. done.
  - destruct (Z.eq_dec c max) as [->|Hne].
    { exists d, a. simpl. rewrite Z.ltb_irrefl. done. }
    cbn [splitPage_upper].
    destruct (Z.ltb_spec c max) as [_|]; [|lia].
    rewrite (u32_small (c + 1)) by lia.
    assert (Hin : in_slots (Data src) (c + 1)) by (unfold in_slots, SlotSize in *; lia).
    rewrite (Dead_Val src) by (done || lia).
    assert (Hskip : (if (c + 1 <? max) || (0 <? Lvl src)
                     then Val (dead_of (Data src) (c + 1)) else Val false)
                    = Val (negb (keep_upper (c + 1)))).
    { unfold keep_upper. rewrite negb_involutive.
      destruct ((c + 1 <? max) || (0 <? Lvl src)); done. }
    rewrite Hskip. cbn [bind].
    pose proof (kept_step keep_upper lo c ltac:(lia)) as Hks. fold ks in Hks.
    destruct (kept_prefix_bounds keep_upper kf vf lo (Z.to_nat (c + 1 - lo))
                (Z.to_nat (max - lo)) ltac:(lia)) as [Ht Hs].
    fold all in Ht, Hs. rewrite Hks in Ht, Hs.
    destruct (keep_upper (c + 1)) eqn:Hk; simpl negb; cbv iota.
    + rewrite len_app in Hs. change (len [c + 1]) with 1 in Hs.
      destruct (copy_dead_step src kf vf pds HLs Hpds frame d a ks (c + 1))
        as (d1 & a1 & E1 & L1 & Inv1); try done; try (unfold SlotSize; lia).
      { apply Hent; [lia|done]. }
      pose proof (E1 _ (fun pg nxt idx => splitPage_upper n src max (c + 1) pg nxt idx))
        as E1'. cbv beta in E1'.
      rewrite (Dead_Val src) in E1' by (done || lia). cbn [bind] in E1'.
      rewrite E1'. clear E1 E1'.
      destruct (IH (c + 1) d1 a1 frame) as (d' & a' & E' & L' & Inv'); try lia.
      { cbv zeta. rewrite Hks, len_app. exact Inv1. }
      rewrite Hks, len_app in E'. exists d', a'. done.
    + rewrite app_nil_r in Hks.
      destruct (IH (c + 1) d a frame) as (d' & a' & E' & L' & Inv'); try lia; try done.
      { cbv zeta. rewrite Hks. done. }
      rewrite Hks in E'. exists d', a'. done.
Qed.
End SplitUpper.

Section SplitLower.
Variable src : Page.
Variables kf vf : Z -> list byte.
Variables pds max : Z.

(** the second loop keeps the live slots *)
Definition keep_lower (i : Z) : bool := negb (dead_of (Data src) i).

Hypothesis HLs : len (Data src) < 2 ^ 31.
Hypothesis Hpds : pds <= 32767.
Hypothesis Hmax : SlotSize * max <= len (Data src).
Hypothesis Hent :
  forall i, 0 < i <= max -> keep_lower i = true -> slot_entry src i (kf i) (vf i).

Let all := kept keep_lower 0 (Z.to_nat max).

Hypothesis Htot : total kf vf all <= pds.
Hypothesis Hslots : SlotSize * last_idx (len all) <= pds.

Lemma splitPage_lower_spec n : forall c d a page,
  0 <= c <= max -> max <= c + Z.of_nat n ->
  len d = pds ->
  let ks := kept keep_lower 0 (Z.to_nat c) in
  (SlotSize * last_idx (len ks) <= pds - total kf vf ks -> compacted src kf vf pds d ks) ->
  exists d' a',
    splitPage_lower n src max c (with_Act (with_Data page d) a)
      (pds - total kf vf ks) (last_idx (len ks)) =
    Val (with_Act (with_Data page d') a', pds - total kf vf all, last_idx (len all)) /\
    len d' = pds /\
    (SlotSize * last_idx (len all) <= pds - total kf vf all ->
     compacted src kf vf pds d' all).
Proof.
  induction n as [|n IH]; intros c d a page Hc Hn HL ks Inv; unfold SlotSize in *.
  - assert (c = max) as -> by lia.
    exists d, a. simpl. rewrite Z.ltb_irrefl. done.
  - destruct (Z.eq_dec c max) as [->|Hne].
    { exists d, a. simpl. rewrite Z.ltb_irrefl. done. }
    cbn [splitPage_lower].
    destruct (Z.ltb_spec c max) as [_|]; [|lia].
    rewrite (u32_small (c + 1)) by lia.
    assert (Hin : in_slots (Data src) (c + 1)) by (unfold in_slots, SlotSize in *; lia).
    rewrite (Dead_Val src) by (done || lia). cbn [bind].
    pose proof (kept_step keep_lower 0 c ltac:(lia)) as Hks.
    rewrite !Z.sub_0_r in Hks. fold ks in Hks.
    destruct (kept_prefix_bounds keep_lower kf vf 0 (Z.to_nat (c + 1))
                (Z.to_nat max) ltac:(lia)) as [Ht Hs].
    fold all in Ht, Hs. rewrite Hks in Ht, Hs.
    assert (Hk : keep_lower (c + 1) = negb (dead_of (Data src) (c + 1))) by done.
    destruct (dead_of (Data src) (c + 1)); simpl in Hk; rewrite Hk in *.
    + rewrite app_nil_r in Hks.
      destruct (IH (c + 1) d a page) as (d' & a' & E' & L' & Inv'); try lia; try done.
      { cbv zeta. rewrite Hks. done. }
      rewrite Hks in E'. exists d', a'. done.
    + rewrite len_app in Hs. change (len [c + 1]) with 1 in Hs.
      destruct (copy_live_step src kf vf pds HLs Hpds page d a ks (c + 1))
        as (d1 & E1 & L1 & Inv1); try done; try (unfold SlotSize; lia).
      { apply Hent; [lia|]. rewrite Hk. done. }
      pose proof (E1 _ (fun pg nxt idx => splitPage_lower n src max (c + 1) pg nxt idx))
        as E1'. cbv beta in E1'. rewrite E1'. clear E1 E1'.
      destruct (IH (c + 1) d1 (u32 (a + 1)) page) as (d' & a' & E' & L' & Inv'); try lia.
      { cbv zeta. rewrite Hks, len_app. exact Inv1. }
      rewrite Hks, len_app in E'. exists d', a'. done.
Qed.
End SplitLower.


(** * The keys of a compacted page *)

Lemma kept_increasing keep lo n (j1 j2 : nat) i1 i2 :
  (j1 < j2)%nat -> kept keep lo n !! j1 = Some i1 -> kept keep lo n !! j2 = Some i2 ->
  i1 < i2.
Proof.
  revert j1 j2 i1 i2. induction n as [|n IH]; intros j1 j2 i1 i2 Hj H1 H2;
    [simpl in H1; by rewrite lookup_nil in H1|].
  simpl in H1, H2.
  apply lookup_app_Some in H2 as [H2|[Hge H2]].
  - pose proof (lookup_lt_Some _ _ _ H2).
    rewrite lookup_app_l in H1 by lia. exact (IH j1 j2 i1 i2 Hj H1 H2).
  - destruct (keep (lo + Z.of_nat (S n))); [|done].
    apply list_lookup_singleton_Some in H2 as [H2 <-].
    rewrite lookup_app_l in H1 by lia.
    apply list_elem_of_lookup_2, kept_bounds in H1. lia.
Qed.

(** the slot [x] of a compacted page holds the key of the kept slot [x / 2] *)
Definition compacted_keys (kf : Z -> list byte) (ks : list Z) : Z -> list byte :=
  fun x => kf (default 0 (ks !! Z.to_nat (x / 2))).

Lemma compacted_keys_at src kf vf pds d ks :
  compacted src kf vf pds d ks ->
  keys_at d (last_idx (len ks)) (pds - total kf vf ks) (compacted_keys kf ks).
Proof.
  intros C x Hx. unfold compacted_keys.
  assert (Hl : last_idx (len ks) = 2 * len ks - 1 /\ 0 < len ks).
  { unfold last_idx in *. destruct (Z.eqb_spec (len ks) 0); lia. }
  assert (Hj : (Z.to_nat (x / 2) < length ks)%nat).
  { unfold len in *. apply Nat2Z.inj_lt. rewrite Z2Nat.id by (apply Z.div_pos; lia).
    apply Z.div_lt_upper_bound; lia. }
  destruct (lookup_lt_is_Some_2 ks _ Hj) as [i Hi]. rewrite Hi. simpl.
  destruct (C _ _ Hi) as (C1 & C2 & _ & C4). cbv zeta in *.
  pose proof (total_take_le kf vf ks (S (Z.to_nat (x / 2)))) as Htk.
  pose proof (Z.div_mod x 2 ltac:(lia)) as Hdm.
  pose proof (Z.mod_pos_bound x 2 ltac:(lia)) as Hmb.
  assert (Hq : 0 <= x / 2) by (apply Z.div_pos; lia).
  rewrite Z2Nat.id in * by done.
  set (q := x / 2) in *. set (r := x mod 2) in *. clearbody q r.
  destruct (Z.eq_dec r 1) as [Hodd|Heven].
  - rewrite Hdm, Hodd, C1. split; [lia|apply C2].
  - destruct C4 as (D1 & _); [lia|].
    rewrite Hdm. replace (2 * q + r) with (2 * q + 1 - 1) by lia. rewrite D1.
    split; [lia|apply C2].
Qed.

Lemma compacted_keys_sorted kf keep lo n top :
  sorted_keys kf top -> 0 <= lo -> lo + Z.of_nat n < top ->
  sorted_keys (compacted_keys kf (kept keep lo n))
    (last_idx (len (kept keep lo n)) + 1).
Proof.
  intros S Hlo Htop x y Hxy Hy. unfold compacted_keys.
  set (ks := kept keep lo n) in *.
  assert (Hl : last_idx (len ks) = 2 * len ks - 1 /\ 0 < len ks).
  { unfold last_idx in *. destruct (Z.eqb_spec (len ks) 0); lia. }
  assert (Hdiv : x / 2 <= y / 2) by (apply Z.div_le_mono; lia).
  assert (Hjy : (Z.to_nat (y / 2) < length ks)%nat).
  { unfold len in *. apply Nat2Z.inj_lt. rewrite Z2Nat.id by (apply Z.div_pos; lia).
    apply Z.div_lt_upper_bound; lia. }
  assert (Hx0 : 0 <= x / 2) by (apply Z.div_pos; lia).
  destruct (lookup_lt_is_Some_2 ks (Z.to_nat (y / 2)) Hjy) as [iy Hiy].
  destruct (lookup_lt_is_Some_2 ks (Z.to_nat (x / 2)) ltac:(lia)) as [ix Hix].
  rewrite Hix, Hiy. simpl.
  pose proof (kept_bounds keep lo n ix (list_elem_of_lookup_2 _ _ _ Hix)).
  pose proof (kept_bounds keep lo n iy (list_elem_of_lookup_2 _ _ _ Hiy)).
  destruct (Z.eq_dec (x / 2) (y / 2)) as [E|Hne].
  - rewrite E in Hix. assert (ix = iy) as -> by congruence. apply key_le_refl.
  - apply S; [|lia]. split; [lia|].
    apply Z.lt_le_incl. eapply (kept_increasing keep lo n); [|exact Hix|exact Hiy]. lia.
Qed.


(** * Pages whose keys are in order *)

(** the keys of all the slots are readable and in non-decreasing order, dead
    and librarian slots included *)
Definition keys_in_order (p : Page) : Prop :=
  exists kf, (forall i, 1 <= i <= Cnt p -> Key p i = Val (kf i)) /\
             sorted_keys kf (Cnt p + 1).

Lemma keys_at_Key p n lo kf i :
  len (Data p) < 2 ^ 31 -> SlotSize * n <= len (Data p) ->
  keys_at (Data p) n lo kf -> 1 <= i <= n -> Key p i = Val (kf i).
Proof.
  intros HL Hn KA Hi. apply Key_Val; [done|].
  split; [unfold in_slots, SlotSize in *; lia|]. apply KA. done.
Qed.

Lemma keys_in_order_compacted p src kf vf pds keep lo n top :
  let ks := kept keep lo n in
  len (Data p) = pds -> pds <= 32767 -> Cnt p = last_idx (len ks) ->
  SlotSize * last_idx (len ks) <= pds - total kf vf ks ->
  compacted src kf vf pds (Data p) ks ->
  sorted_keys kf top -> 0 <= lo -> lo + Z.of_nat n < top ->
  keys_in_order p.
Proof.
  intros ks HL Hpds Hc Hno C S Hlo Htop.
  exists (compacted_keys kf ks). rewrite Hc. split.
  - intros i Hi.
    apply (keys_at_Key p (last_idx (len ks)) (pds - total kf vf ks)); try lia.
    + pose proof (total_nonneg kf vf ks). lia.
    + apply (compacted_keys_at src). done.
  - apply compacted_keys_sorted with (top := top); done.
Qed.

Lemma MemCpyPage_eq dest src :
  len (Data dest) = len (Data src) -> MemCpyPage dest src = src.
Proof.
  intros HL. destruct src as [c a m g b f l k r d]. unfold MemCpyPage. simpl in *.
  f_equal. unfold splice. simpl. unfold len in *.
  rewrite Nat.sub_0_r, take_ge, drop_ge by lia. apply app_nil_r.
Qed.

(** [NewPage] of the manager puts the contents on a page of their size *)
Lemma mgr_NewPage_spec m contents :
  (forall no pg, pagePool m !! no = Some pg -> len (Data pg) = pageDataSize m) ->
  len (Data contents) = pageDataSize m ->
  (exists m', mgr_NewPage m contents = (BLTErrStruct, None, m')) \/
  (exists no m0,
     (no = GetID (chain (pageZero m)) \/ no = GetID (allocRight (pageZero m))) /\
     mgr_NewPage m contents =
       (BLTErrOk, Some no, with_mgr_err (setPage m0 no contents) BLTErrOk) /\
     pagePool m0 = pagePool m /\ pageDataSize m0 = pageDataSize m).
Proof.
  intros Hpool HL. unfold mgr_NewPage.
  destruct (0 <? GetID (chain (pageZero m))).
  - destruct (pagePool m !! GetID (chain (pageZero m))) as [pg|] eqn:E.
    + right. eexists _, _. split; [left; done|].
      rewrite MemCpyPage_eq by (rewrite (Hpool _ _ E); done).
      split; [done|]. done.
    + left. eexists. done.
  - right. eexists _, _. split; [right; done|].
    rewrite MemCpyPage_eq.
    + split; [done|]. done.
    + cbn. unfold NewPage. cbn. rewrite len_zeros; [done|].
      rewrite <- HL. apply len_nonneg.
Qed.

(** * [splitPage] *)

(** the slots that stay on the page: those below the middle, without a
    librarian at the middle *)
Definition lower_max (page : Page) : Z :=
  let max := Cnt page / 2 in
  if typ_of (Data page) max =? Librarian then max - 1 else max.

Lemma splitPage_keys tree pageNo page kf vf :
  let m := mgr tree in
  let pds := pageDataSize m in
  let max := Cnt page in
  let up := kept (keep_upper page max) (max / 2) (Z.to_nat (max - max / 2)) in
  let low := kept (keep_lower page) 0 (Z.to_nat (lower_max page)) in
  pagePool m !! pageNo = Some page ->
  (forall no pg, pagePool m !! no = Some pg -> len (Data pg) = pds) ->
  pds <= 32767 -> 2 <= max -> SlotSize * max <= pds ->
  (forall i, 1 <= i <= max -> slot_entry page i (kf i) (vf i)) ->
  sorted_keys kf (max + 1) ->
  GetID (chain (pageZero m)) <> pageNo ->
  GetID (allocRight (pageZero m)) <> pageNo ->
  SlotSize * last_idx (len up) <= pds - total kf vf up ->
  SlotSize * last_idx (len low) <= pds - total kf vf low ->
  exists r tree',
    splitPage tree pageNo = Val (r, tree') /\
    (r = None \/
     exists rightNo left right,
       r = Some rightNo /\
       pagePool (mgr tree') !! pageNo = Some left /\
       pagePool (mgr tree') !! rightNo = Some right /\
       keys_in_order left /\ keys_in_order right).
Proof.
  intros m pds max up low Hpage Hpool Hpds Hmax Hslots Hent S Hchain Halloc Hup Hlow.
  assert (HL : len (Data page) = pds) by (eapply Hpool; done).
  assert (Hpds0 : 0 <= pds) by (rewrite <- HL; apply len_nonneg).
  pose proof (total_nonneg kf vf up) as Htu.
  pose proof (total_nonneg kf vf low) as Htl.
  pose proof (last_idx_nonneg (len up) (len_nonneg up)) as Hiu.
  pose proof (last_idx_nonneg (len low) (len_nonneg low)) as Hil.
  assert (Hhalf : 1 <= max / 2 <= max).
  { split; [apply Z.div_le_lower_bound; lia|]. apply Z.div_le_upper_bound; lia. }
  unfold splitPage. fold m. fold pds. unfold getPage at 1. rewrite Hpage. cbn [bind].
  fold max.
  (* the upper half *)
  destruct (splitPage_upper_spec page kf vf pds max (max / 2)) with
    (n := Z.to_nat max) (c := max / 2) (d := zeros pds) (a := 0) (frame := NewPage pds)
    as (du & au & Eu & Lu & Cu);
    [lia|lia|lia|unfold SlotSize in *; lia|intros; apply Hent; lia
    |fold up; unfold SlotSize in *; lia|fold up; unfold SlotSize in *; lia
    |lia|lia|apply len_zeros; lia|rewrite Z.sub_diag; intros _; apply compacted_nil|].
  rewrite Z.sub_diag in Eu. simpl kept in Eu. simpl total in Eu.
  change (len []) with 0 in Eu. change (last_idx 0) with 0 in Eu. rewrite Z.sub_0_r in Eu.
  change (with_Act (with_Data (NewPage pds) (zeros pds)) 0) with (NewPage pds) in Eu.
  fold up in Eu, Cu. rewrite Eu. cbn [bind]. clear Eu.
  specialize (Cu Hup).
  set (frame2 :=
         let f := with_Lvl
                    (with_Cnt
                       (with_Min
                          (with_Bits (with_Act (with_Data (NewPage pds) du) au) (pageBits m))
                          (pds - total kf vf up))
                       (last_idx (len up)))
                    (Lvl page) in
         if RootPage <? pageNo then with_Right f (PutID (GetID (Right page))) else f).
  assert (Df2 : Data frame2 = du) by (unfold frame2; destruct (RootPage <? pageNo); done).
  assert (Cf2 : Cnt frame2 = last_idx (len up))
    by (unfold frame2; destruct (RootPage <? pageNo); done).
  assert (Kr : keys_in_order frame2).
  { apply (keys_in_order_compacted frame2 page kf vf pds (keep_upper page max) (max / 2)
             (Z.to_nat (max - max / 2)) (max + 1)); fold up;
      rewrite ?Df2; try done; try lia. }
  change (let f := with_Lvl
                    (with_Cnt
                       (with_Min
                          (with_Bits (with_Act (with_Data (NewPage pds) du) au) (pageBits m))
                          (pds - total kf vf up))
                       (last_idx (len up)))
                    (Lvl page) in
         if RootPage <? pageNo then with_Right f (PutID (GetID (Right page))) else f)
    with frame2.
  destruct (mgr_NewPage_spec m frame2) as [[m' Em]|(no & m0 & Hno & Em & Hp0 & Hd0)];
    [done|rewrite Df2; done| |].
  { rewrite Em. simpl. eexists _, _. split; [done|]. left. done. }
  rewrite Em. simpl negb. cbv iota.
  assert (Hne : no <> pageNo) by (destruct Hno; congruence).
  (* the lower half *)
  unfold getPage, setPage, with_mgr_err. cbn [pagePool pageDataSize with_pagePool].
  rewrite lookup_insert_ne by done. rewrite Hp0. fold m. rewrite Hpage. cbn [bind].
  rewrite MemCpyPage_eq by (rewrite Df2; lia).
  rewrite Typ_Val by (lia || (unfold in_slots, SlotSize in *; lia)). cbn [bind].
  assert (Elm : (if typ_of (Data page) (max / 2) =? Librarian
                 then u32 (max / 2 - 1) else max / 2) = lower_max page).
  { unfold lower_max. fold max. destruct (_ =? Librarian); [|done].
    apply u32_small. unfold SlotSize in *. lia. }
  rewrite Elm.
  assert (Hlm : 0 <= lower_max page <= max).
  { unfold lower_max. fold max. destruct (_ =? Librarian); lia. }
  destruct (splitPage_lower_spec page kf vf pds (lower_max page)) with
    (n := Z.to_nat (lower_max page)) (c := 0) (d := zeros pds) (a := 0)
    (page := with_Garbage page 0) as (dl & al & El & Ll & Cl);
    [lia|lia|unfold SlotSize in *; lia|intros; apply Hent; lia
    |fold low; unfold SlotSize in *; lia|fold low; unfold SlotSize in *; lia
    |lia|lia|apply len_zeros; lia|intros _; apply compacted_nil|].
  simpl kept in El. simpl total in El.
  change (len []) with 0 in El. change (last_idx 0) with 0 in El. rewrite Z.sub_0_r in El.
  fold low in El, Cl.
  change (with_Act (with_Garbage (with_Data page (zeros pds)) 0) 0)
    with (with_Act (with_Data (with_Garbage page 0) (zeros pds)) 0).
  rewrite El. cbn [bind]. clear El.
  specialize (Cl Hlow).
  eexists _, _. split; [done|]. right.
  eexists no, _, frame2. split; [done|].
  cbn [mgr with_mgr pagePool with_pagePool].
  split; [apply lookup_insert_eq|].
  split; [rewrite lookup_insert_ne by done; apply lookup_insert_eq|].
  split; [|done].
  eapply (keys_in_order_compacted _ page kf vf pds (keep_lower page) 0
            (Z.to_nat (lower_max page)) (max + 1)); fold low;
    page_simpl; try done; try lia.
Qed.


(** * The order of the keys of a page *)

(** the invariant of the specification: a slot below the last one is dead
    or its key is not above the key of the next slot *)
Definition sortedness (p : Page) : Prop :=
  forall i, 1 <= i < Cnt p ->
    Dead p i = Val true \/
    exists ki kj, Key p i = Val ki /\ Key p (i + 1) = Val kj /\ key_le ki kj.

Lemma keys_in_order_sortedness p : keys_in_order p -> sortedness p.
Proof.
  intros (kf & Hk & S) i Hi. right. exists (kf i), (kf (i + 1)).
  split; [apply Hk; lia|]. split; [apply Hk; lia|]. apply S; lia.
Qed.

Definition stopper_overtaken : list byte := [Byte.xff; Byte.xff; Byte.xff].

(** a key above the stopper: the stopper key of the rightmost leaf is the
    two bytes ff ff, and [FindSlot] takes it for a key above all others
    without looking at it.  The key ff ff ff, inserted into the tree as it is
    created, goes in front of the stopper: slot 2 of the leaf is live and
    holds ff ff ff, slot 3 holds ff ff. *)
Lemma insertKey_above_stopper_unsorted :
  exists tree page,
    insertKey 4 small_tree stopper_overtaken 0 value1 true = Val (BLTErrOk, tree) /\
    pagePool (mgr tree) !! 2 = Some page /\
    Cnt page = 3 /\
    Dead page 2 = Val false /\
    Key page 2 = Val [Byte.xff; Byte.xff; Byte.xff] /\
    Key page 3 = Val [Byte.xff; Byte.xff] /\
    ~ sortedness page.
Proof.
  eexists _, _.
  split; [vm_compute; reflexivity|]. split; [vm_compute; reflexivity|].
  match goal with |- Cnt ?q = 3 /\ _ => set (page := q) end.
  assert (F2 : Dead page 2 = Val false) by (vm_compute; reflexivity).
  assert (F3 : Key page 2 = Val [Byte.xff; Byte.xff; Byte.xff]) by (vm_compute; reflexivity).
  assert (F4 : Key page 3 = Val [Byte.xff; Byte.xff]) by (vm_compute; reflexivity).
  split; [vm_compute; reflexivity|]. repeat (split; [done|]).
  intros S. destruct (S 2) as [D|(ki & kj & K1 & K2 & L)].
  - vm_compute. done.
  - congruence.
  - rewrite F3 in K1. change (2 + 1) with 3 in K2. rewrite F4 in K2.
    injection K1 as <-. injection K2 as <-. vm_compute in L. done.
Qed.

(** a manager with pages of 128 data bytes that holds [garbage_page] as its
    page 2 *)
Definition split_tree : BLTree :=
  NewBLTree (mkBufMgr 154 7 128 (mkPageZero (PutID 3) 0 (zeros BtId))
               {[ 2 := garbage_page ]} BLTErrOk).

Lemma insertSlot_keeps_order p s key value typ kf :
  let d := Data p in
  let n := Cnt p in
  let min' := Min p - (BtId + 1) - (len key + 1) in
  len d <= 32767 -> 1 <= s <= n -> len key <= 254 -> len value = BtId ->
  0 <= typ < 256 -> Min p <= len d -> SlotSize * (n + 2) <= min' ->
  keys_at d n (Min p) kf ->
  (1 < s -> typ_of d (s - 1) = Librarian -> dead_of d (s - 1) = true) ->
  sorted_keys kf (n + 1) ->
  (forall x, 1 <= x < s -> key_lt (kf x) key) ->
  (forall x, s <= x <= n -> key_le key (kf x)) ->
  exists p', insertSlot p s key value typ = Val p' /\ keys_in_order p' /\ sortedness p'.
Proof.
  intros d n min' HL Hs Hk Hv Htyp Hmin Hroom KA Hlib S Hlt Hge.
  destruct (insertSlot_keys p s key value typ kf (n + 1))
    as (e & d' & He & E & L' & _ & _ & KA' & S'); try done; try lia.
  { intros x Hx. apply Hge. lia. }
  cbv zeta in *. fold d n min' in E, KA', S', L', He.
  eexists. split; [exact E|].
  assert (K : keys_in_order
                (with_Data
                   (with_Act (with_Cnt (with_Min p min') (if e =? n then n + 2 else n))
                      (u32 (Act p + 1))) d')).
  { exists (inserted_keys kf key n (lib_slot d s) e). page_simpl. split.
    - intros i Hi.
      apply (keys_at_Key _ (if e =? n then n + 2 else n) min'); page_simpl; try done.
      + lia.
      + pose proof (len_nonneg key). unfold SlotSize, BtId in *.
        destruct (e =? n); lia.
    - destruct (e =? n); [|done]. replace (n + 2 + 1) with (n + 1 + 2) by lia. done. }
  split; [exact K|]. apply keys_in_order_sortedness. exact K.
Qed.


Lemma garbage_keys_sorted : sorted_keys garbage_key 4.
Proof.
  intros i j Hij Hj.
  assert ((i = 1 /\ j = 1) \/ (i = 1 /\ j = 2) \/ (i = 1 /\ j = 3) \/
          (i = 2 /\ j = 2) \/ (i = 2 /\ j = 3) \/ (i = 3 /\ j = 3))
    as [[-> ->]|[[-> ->]|[[-> ->]|[[-> ->]|[[-> ->]|[-> ->]]]]]] by lia;
    vm_compute; discriminate.
Defined.



(** * Runs without the panic of SetKeyOffset *)

(** the outcome is not the panic of [SetKeyOffset], and a value that comes
    out satisfies [Q] *)
Definition fits {A} (o : outcome A) (Q : A -> Prop) : Prop :=
  match o with
  | Val a => Q a
  | Panic r => r <> OffsetTooBig
  end.

Lemma fits_bind {A B} (m : outcome A) (k : A -> outcome B) (R : A -> Prop)
    (Q : B -> Prop) :
  fits m R -> (forall a, R a -> fits (k a) Q) -> fits (bind m k) Q.
Proof. destruct m as [a|r]; simpl; auto. Qed.

Lemma fits_weaken {A} (o : outcome A) (Q Q' : A -> Prop) :
  fits o Q -> (forall a, Q a -> Q' a) -> fits o Q'.
Proof. destruct o; simpl; auto. Qed.

Lemma fits_not_panic {A} (o : outcome A) (Q : A -> Prop) :
  fits o Q -> o <> Panic OffsetTooBig.
Proof. destruct o; simpl; congruence. Qed.

Lemma fits_Val_inv {A} (o : outcome A) (Q : A -> Prop) a : fits o Q -> o = Val a -> Q a.
Proof. intros H ->. exact H. Qed.

Lemma slotBytes_fits p i :
  fits (slotBytes p i) (fun o => 0 <= o /\ o + SlotSize <= len (Data p)).
Proof.
  unfold slotBytes. set (off := u32 (SlotSize * u32 (i - 1))).
  pose proof (u32_range (SlotSize * u32 (i - 1))). fold off in H.
  unfold SlotSize in *.
  destruct (Z.leb_spec off (u32 (off + 6))) as [H1|]; [|done].
  destruct (Z.leb_spec (u32 (off + 6)) (len (Data p))) as [H2|]; [|done].
  simpl. split; [lia|].
  destruct (Z.lt_ge_cases (off + 6) (2 ^ 32)).
  - rewrite u32_small in H2 by lia. lia.
  - exfalso. unfold u32 in H1.
    assert ((off + 6) mod 2 ^ 32 = off + 6 - 2 ^ 32).
    { rewrite <- (Z.mod_small (off + 6 - 2 ^ 32) (2 ^ 32)) by lia.
      rewrite <- (Z_mod_plus_full (off + 6 - 2 ^ 32) 1 (2 ^ 32)). f_equal. lia. }
    lia.
Qed.

Lemma index_fits d i : fits (index d i) (fun _ => True).
Proof. unfold index. destruct (0 <=? i); [|done]. destruct (d !! _); done. Qed.

Lemma slice_fits d lo hi : fits (slice d lo hi) (fun r => len r <= hi - lo).
Proof.
  unfold slice.
  destruct (Z.leb_spec 0 lo), (Z.leb_spec lo hi), (Z.leb_spec hi (len d)); simpl; try done.
  rewrite len_sub; lia.
Qed.

Lemma copy_at_fits d off src :
  fits (copy_at d off src) (fun r => len r = len d /\ 0 <= off <= len d).
Proof.
  unfold copy_at.
  destruct (Z.leb_spec 0 off), (Z.leb_spec off (len d)); simpl; try done.
  split; [apply len_splice|]; lia.
Qed.

Lemma Dead_fits p i : fits (Dead p i) (fun _ => True).
Proof.
  unfold Dead. eapply fits_bind; [apply slotBytes_fits|]. intros o _.
  eapply fits_bind; [apply index_fits|]. done.
Qed.

Lemma Typ_fits p i : fits (Typ p i) (fun _ => True).
Proof.
  unfold Typ. eapply fits_bind; [apply slotBytes_fits|]. intros o _.
  eapply fits_bind; [apply index_fits|]. done.
Qed.

Lemma KeyOffset_fits p i : fits (KeyOffset p i) (fun _ => True).
Proof. unfold KeyOffset. eapply fits_bind; [apply slotBytes_fits|]. done. Qed.

(** a write of a slot leaves the size of the data *)
Definition same_size (p : Page) : Page -> Prop :=
  fun p' => len (Data p') = len (Data p).

Lemma SetTyp_fits p i t : fits (SetTyp p i t) (same_size p).
Proof.
  unfold SetTyp. eapply fits_bind; [apply slotBytes_fits|]. intros o Ho. simpl.
  unfold same_size. simpl. apply len_splice. unfold SlotSize in *. lia.
Qed.

Lemma SetDead_fits p i b : fits (SetDead p i b) (same_size p).
Proof.
  unfold SetDead. eapply fits_bind; [apply slotBytes_fits|]. intros o Ho. simpl.
  unfold same_size. simpl. apply len_splice. unfold SlotSize in *. lia.
Qed.

Lemma SetKeyOffset_fits p i o : o <= 32767 -> fits (SetKeyOffset p i o) (same_size p).
Proof.
  intros H. unfold SetKeyOffset. destruct (Z.ltb_spec 32767 o); [lia|].
  eapply fits_bind; [apply slotBytes_fits|]. intros off Ho. simpl.
  unfold same_size. simpl. apply len_splice. unfold SlotSize in *. lia.
Qed.

Lemma Key_fits p i : fits (Key p i) (fun k => len k <= 255).
Proof.
  unfold Key. eapply fits_bind; [apply KeyOffset_fits|]. intros off _.
  eapply fits_bind; [apply index_fits|]. intros b _.
  eapply fits_weaken; [apply slice_fits|]. intros r Hr. cbv beta in Hr.
  pose proof (byte.unsigned_range b).
  pose proof (u32_range (off + 1)).
  set (lo := u32 (off + 1)) in *.
  unfold u32 in Hr.
  destruct (Z.lt_ge_cases (lo + byte.unsigned b) (2 ^ 32)).
  - rewrite Z.mod_small in Hr by lia. lia.
  - pose proof (len_nonneg r).
    replace ((lo + byte.unsigned b) mod 2 ^ 32) with (lo + byte.unsigned b - 2 ^ 32) in Hr.
    + lia.
    + symmetry. rewrite <- (Z.mod_small (lo + byte.unsigned b - 2 ^ 32) (2 ^ 32)) by lia.
      symmetry. rewrite <- (Z_mod_plus_full (lo + byte.unsigned b - 2 ^ 32) 1 (2 ^ 32)).
      f_equal. lia.
Qed.

Lemma Value_fits p i : fits (Value p i) (fun _ => True).
Proof.
  unfold Value, ValueOffset. apply (fits_bind _ _ (fun _ => True)).
  { apply (fits_bind _ _ (fun _ => True)); [apply KeyOffset_fits|]. intros off _.
    apply (fits_bind _ _ (fun _ => True)); [apply index_fits|]. intros b _. exact I. }
  intros off _. apply (fits_bind _ _ (fun _ => True)); [apply index_fits|]. intros b _.
  eapply fits_weaken; [apply slice_fits|]. done.
Qed.


(** ** The copies of [cleanPage] and [splitPage] *)

(** the offsets that [copy_entry] writes are places of the data, into which
    it has copied before *)
Lemma copy_entry_fits src dst cnt nxt idx :
  len (Data dst) <= 32767 ->
  fits (copy_entry src dst cnt nxt idx)
    (fun r => len (Data (fst (fst r))) = len (Data dst)).
Proof.
  intros HL. unfold copy_entry.
  eapply fits_bind; [apply Value_fits|]. intros val _.
  eapply fits_bind; [apply copy_at_fits|]. intros d1 [L1 _].
  eapply fits_bind; [apply Key_fits|]. intros key _.
  eapply fits_bind; [apply copy_at_fits|]. page_simpl. intros d2 [L2 Hn].
  set (nxt2 := u32 (u32 (nxt - u32 (len val + 1)) - u32 (len key + 1))) in *.
  apply (fits_bind _ _ (fun r => len (Data (fst r)) = len (Data dst))).
  - destruct (0 <? idx).
    + eapply fits_bind; [apply SetKeyOffset_fits; page_simpl; lia|].
      intros p1 H1. unfold same_size in H1. page_simpl.
      eapply fits_bind; [apply SetTyp_fits|]. intros p2 H2. unfold same_size in H2.
      eapply fits_bind; [apply SetDead_fits|]. intros p3 H3. unfold same_size in H3.
      simpl. lia.
    + simpl. lia.
  - intros [p1 idx1] H1. simpl in H1.
    eapply fits_bind; [apply SetKeyOffset_fits; lia|].
    intros p2 H2. unfold same_size in H2.
    eapply fits_bind; [apply Typ_fits|]. intros t _.
    eapply fits_bind; [apply SetTyp_fits|]. intros p3 H3. unfold same_size in H3.
    simpl. lia.
Qed.

Lemma cleanPage_loop_fits n : forall frame max slot cnt page nxt idx newSlot,
  len (Data page) <= 32767 ->
  fits (cleanPage_loop n frame max slot cnt page nxt idx newSlot) (fun _ => True).
Proof.
  induction n as [|n IH]; intros frame max slot cnt page nxt idx newSlot HL; simpl.
  - destruct (cnt <? max); done.
  - destruct (cnt <? max); [|done].
    apply (fits_bind _ _ (fun _ => True)).
    { destruct (u32 (cnt + 1) <? max); [apply Dead_fits|done]. }
    intros [|] _; [apply IH; done|].
    eapply fits_bind; [apply copy_entry_fits; done|].
    intros [[p1 nxt1] idx1] H1. simpl in H1.
    eapply fits_bind; [apply Dead_fits|]. intros dd _.
    eapply fits_bind; [apply SetDead_fits|]. intros p2 H2. unfold same_size in H2.
    eapply fits_bind; [apply Dead_fits|]. intros dd2 _.
    apply IH. destruct dd2; page_simpl; lia.
Qed.

Lemma splitPage_upper_fits n : forall page max cnt frame nxt idx,
  len (Data frame) <= 32767 ->
  fits (splitPage_upper n page max cnt frame nxt idx) (fun _ => True).
Proof.
  induction n as [|n IH]; intros page max cnt frame nxt idx HL; simpl.
  - destruct (cnt <? max); done.
  - destruct (cnt <? max); [|done].
    apply (fits_bind _ _ (fun _ => True)).
    { destruct ((u32 (cnt + 1) <? max) || (0 <? Lvl page)); [apply Dead_fits|done]. }
    intros [|] _; [apply IH; done|].
    eapply fits_bind; [apply copy_entry_fits; done|].
    intros [[p1 nxt1] idx1] H1. simpl in H1.
    eapply fits_bind; [apply Dead_fits|]. intros dd _.
    eapply fits_bind; [apply SetDead_fits|]. intros p2 H2. unfold same_size in H2.
    eapply fits_bind; [apply Dead_fits|]. intros dd2 _.
    apply IH. destruct dd2; page_simpl; lia.
Qed.

Lemma splitPage_lower_fits n : forall frame max cnt page nxt idx,
  len (Data page) <= 32767 ->
  fits (splitPage_lower n frame max cnt page nxt idx) (fun _ => True).
Proof.
  induction n as [|n IH]; intros frame max cnt page nxt idx HL; simpl.
  - destruct (cnt <? max); done.
  - destruct (cnt <? max); [|done].
    eapply fits_bind; [apply Dead_fits|].
    intros [|] _; [apply IH; done|].
    eapply fits_bind; [apply copy_entry_fits; done|].
    intros [[p1 nxt1] idx1] H1. simpl in H1.
    apply IH. page_simpl. lia.
Qed.

Lemma cleanPage_fits pds page keyLen slot valLen :
  0 <= pds <= 32767 ->
  fits (cleanPage pds page keyLen slot valLen) (fun _ => True).
Proof.
  intros Hpds. unfold cleanPage.
  destruct (_ <=? Min page); [done|]. destruct (Garbage page <? pds / 5); [done|].
  eapply fits_bind.
  { apply cleanPage_loop_fits. page_simpl. rewrite len_zeros; lia. }
  intros [[[p1 nxt1] idx1] ns] _. destruct (_ <=? _); done.
Qed.

Lemma getPage_fits m no : fits (getPage m no) (fun _ => True).
Proof. unfold getPage. destruct (pagePool m !! no); done. Qed.

Lemma splitPage_fits tree pageNo :
  0 <= pageDataSize (mgr tree) <= 32767 ->
  fits (splitPage tree pageNo) (fun _ => True).
Proof.
  intros Hpds. unfold splitPage.
  eapply fits_bind; [apply getPage_fits|]. intros page _.
  eapply fits_bind.
  { apply splitPage_upper_fits. unfold NewPage. page_simpl. rewrite len_zeros; lia. }
  intros [[f1 nxt1] idx1] _.
  destruct (mgr_NewPage _ _) as [[e rs] m'].
  destruct (negb (bool_decide (e = BLTErrOk))); [done|].
  destruct rs as [rightNo|]; [|done].
  eapply fits_bind; [apply getPage_fits|]. intros page' _.
  eapply fits_bind; [apply Typ_fits|]. intros t _.
  eapply fits_bind.
  { apply splitPage_lower_fits. page_simpl. rewrite len_zeros; lia. }
  intros [[p1 nxt2] idx2] _. done.
Qed.

Lemma mgr_NewPage_pageDataSize m contents e s m' :
  mgr_NewPage m contents = (e, s, m') -> pageDataSize m' = pageDataSize m.
Proof.
  unfold mgr_NewPage. destruct (0 <? GetID (chain (pageZero m))).
  - destruct (pagePool m !! _); intros [= <- <- <-]; done.
  - intros [= <- <- <-]. done.
Qed.

(** [splitRoot] writes two offsets before it copies to them; they are less
    than 273 bytes below the end of the data *)
Lemma splitRoot_fits tree root rightNo :
  273 <= pageDataSize (mgr tree) <= 32767 ->
  fits (splitRoot tree root rightNo) (fun _ => True).
Proof.
  intros Hpds. unfold splitRoot.
  eapply fits_bind; [apply getPage_fits|]. intros rootPage _.
  eapply fits_bind; [apply Key_fits|]. intros leftKey Hk. cbv beta in Hk.
  pose proof (len_nonneg leftKey) as Hk0.
  destruct (mgr_NewPage _ _) as [[e rs] m'] eqn:En.
  apply mgr_NewPage_pageDataSize in En.
  destruct (negb (bool_decide (e = BLTErrOk))); [done|].
  destruct rs as [leftPageNo|]; [|done].
  eapply fits_bind; [apply getPage_fits|]. intros page _.
  set (pds := pageDataSize (mgr tree)) in *. rewrite En. unfold BtId.
  rewrite (u32_small (pds - (6 + 1))) by lia.
  rewrite (u32_small (pds - (6 + 1) - (2 + 1))) by lia.
  rewrite (u32_small (pds - (6 + 1) - (2 + 1) - (6 + 1))) by lia.
  rewrite (u32_small (len leftKey)) by lia.
  rewrite (u32_small (len leftKey + 1)) by lia.
  rewrite (u32_small (pds - (6 + 1) - (2 + 1) - (6 + 1) - (len leftKey + 1))) by lia.
  eapply fits_bind; [apply copy_at_fits|]. page_simpl. intros d1 [L1 _].
  rewrite len_zeros in L1 by lia.
  eapply fits_bind; [apply SetKeyOffset_fits; lia|]. intros p1 H1.
  unfold same_size in H1. page_simpl.
  eapply fits_bind; [apply copy_at_fits|]. intros d2 [L2 _].
  eapply fits_bind; [apply copy_at_fits|]. page_simpl. intros d3 [L3 _].
  eapply fits_bind; [apply SetKeyOffset_fits; lia|]. intros p2 H2.
  eapply fits_bind; [apply copy_at_fits|]. intros d4 _. done.
Qed.

(** [insertSlot] on a page with room whose slots hold offsets of the page *)
Lemma insertSlot_fits p s key value typ :
  len (Data p) <= 32767 -> 1 <= s <= Cnt p -> len key <= 254 -> len value = BtId ->
  0 <= typ < 256 -> Min p <= len (Data p) ->
  SlotSize * (Cnt p + 2) <= Min p - (BtId + 1) - (len key + 1) ->
  (forall j, 1 <= j <= Cnt p -> off_of (Data p) j <= 32767) ->
  fits (insertSlot p s key value typ) (fun _ => True).
Proof.
  intros H1 H2 H3 H4 H5 H6 H7 H8.
  destruct (insertSlot_spec p s key value typ H1 H2 H3 H4 H5 H6 H7 H8)
    as (e & d' & _ & E & _).
  cbv zeta in E. rewrite E. done.
Qed.


(** * The bound of the key offsets *)

Lemma page_bits_size bits : 9 <= bits <= 15 -> 486 <= 2 ^ bits - PageHeaderSize <= 32742.
Proof.
  intros H. unfold PageHeaderSize.
  assert (2 ^ 9 <= 2 ^ bits) by (apply Z.pow_le_mono_r; lia).
  assert (2 ^ bits <= 2 ^ 15) by (apply Z.pow_le_mono_r; lia).
  lia.
Qed.


(** the leaf of the tree as it is created *)
Definition small_leaf : Page :=
  match pagePool small_mgr !! 2 with
  | Some p => p
  | None => NewPage 0
  end.



(** * One round of [LoadPage] *)

Definition load_result : Type := outcome (Z * option Z * BufMgr).

(** what [LoadPage] does with a page of the level it is at; [rec] is the
    rest of the loop *)
Definition LoadPage_descend (m : BufMgr) (key : list byte) (lvl : Z)
    (rec : option Z -> Z -> Z -> load_result) (page : Page) (pageNo drill : Z)
  : load_result :=
  if Kill page then rec (Some pageNo) (GetID (Right page)) drill
  else
    let* slot := FindSlot page key in
    if 0 <? slot then
      if drill =? lvl then Val (slot, Some pageNo, m)
      else
        let* live := LoadPage_live (Z.to_nat (Cnt page)) page slot in
        match live with
        | None => rec (Some pageNo) (GetID (Right page)) drill
        | Some slot =>
            let* v := Value page slot in
            rec (Some pageNo) (GetIDFromValue v) (u8 (drill - 1))
        end
    else rec (Some pageNo) (GetID (Right page)) drill.

Definition LoadPage_step (m : BufMgr) (key : list byte) (lvl : Z) (lock : BLTLockMode)
    (rec : option Z -> Z -> Z -> load_result) (set : option Z) (pageNo drill : Z)
  : load_result :=
  if 0 <? pageNo then
    match pagePool m !! pageNo with
    | None => Val (0, None, with_mgr_err m BLTErrRead)
    | Some page =>
        if Free page then Val (0, Some pageNo, with_mgr_err m BLTErrStruct)
        else if negb (Lvl page =? drill) then
          if negb (pageNo =? RootPage)
          then Val (0, Some pageNo, with_mgr_err m BLTErrStruct)
          else
            if negb (bool_decide (lock = LockRead)) && (Lvl page =? lvl)
            then rec (Some pageNo) pageNo (Lvl page)
            else LoadPage_descend m key lvl rec page pageNo (Lvl page)
        else LoadPage_descend m key lvl rec page pageNo drill
    end
  else Val (0, set, with_mgr_err m BLTErrStruct).

Lemma LoadPage_loop_S fuel m key lvl lock set pageNo drill :
  LoadPage_loop (S fuel) m key lvl lock set pageNo drill =
  LoadPage_step m key lvl lock (LoadPage_loop fuel m key lvl lock) set pageNo drill.
Proof. reflexivity. Qed.

Lemma LoadPage_loop_O m key lvl lock set pageNo drill r :
  LoadPage_loop 0 m key lvl lock set pageNo drill = Val r ->
  pageNo <= 0 /\ r = (0, set, with_mgr_err m BLTErrStruct).
Proof.
  simpl. destruct (Z.ltb_spec 0 pageNo); [done|]. intros [= <-]. split; [lia|done].
Qed.

Lemma LoadPage_descend_mono m key lvl (rec rec' : option Z -> Z -> Z -> load_result)
    page pageNo drill r :
  (forall s p d r, rec s p d = Val r -> rec' s p d = Val r) ->
  LoadPage_descend m key lvl rec page pageNo drill = Val r ->
  LoadPage_descend m key lvl rec' page pageNo drill = Val r.
Proof.
  intros Hrec. unfold LoadPage_descend.
  destruct (Kill page); [apply Hrec|].
  destruct (FindSlot page key) as [s|]; [|done]. cbn [bind].
  destruct (0 <? s); [|apply Hrec].
  destruct (drill =? lvl); [done|].
  destruct (LoadPage_live _ page s) as [[s'|]|]; cbn [bind]; [|apply Hrec|done].
  destruct (Value page s'); [|done]. cbn [bind]. apply Hrec.
Qed.

Lemma LoadPage_step_mono m key lvl lock (rec rec' : option Z -> Z -> Z -> load_result)
    set pageNo drill r :
  (forall s p d r, rec s p d = Val r -> rec' s p d = Val r) ->
  LoadPage_step m key lvl lock rec set pageNo drill = Val r ->
  LoadPage_step m key lvl lock rec' set pageNo drill = Val r.
Proof.
  intros Hrec. unfold LoadPage_step.
  destruct (0 <? pageNo); [|done].
  destruct (pagePool m !! pageNo) as [page|]; [|done].
  destruct (Free page); [done|].
  destruct (negb (Lvl page =? drill)); [|apply LoadPage_descend_mono; done].
  destruct (negb (pageNo =? RootPage)); [done|].
  destruct (negb (bool_decide (lock = LockRead)) && (Lvl page =? lvl));
    [apply Hrec|apply LoadPage_descend_mono; done].
Qed.

(** more fuel does not change what [LoadPage] gives *)
Lemma LoadPage_loop_fuel_S fuel : forall m key lvl lock set pageNo drill r,
  LoadPage_loop fuel m key lvl lock set pageNo drill = Val r ->
  LoadPage_loop (S fuel) m key lvl lock set pageNo drill = Val r.
Proof.
  induction fuel as [|fuel IH]; intros m key lvl lock set pageNo drill r H.
  - apply LoadPage_loop_O in H as [Hp ->]. simpl.
    destruct (Z.ltb_spec 0 pageNo); [lia|done].
  - rewrite LoadPage_loop_S in *.
    eapply LoadPage_step_mono; [|exact H]. intros s p d r'. apply IH.
Qed.

Lemma LoadPage_loop_fuel_le fuel fuel' m key lvl lock set pageNo drill r :
  (fuel <= fuel')%nat ->
  LoadPage_loop fuel m key lvl lock set pageNo drill = Val r ->
  LoadPage_loop fuel' m key lvl lock set pageNo drill = Val r.
Proof.
  induction 1 as [|fuel' Hle IH]; [done|]. intros H. apply LoadPage_loop_fuel_S. auto.
Qed.

(** the lock does not change what [LoadPage] gives *)
Lemma LoadPage_loop_read fuel : forall m key lvl set pageNo drill r,
  LoadPage_loop fuel m key lvl LockWrite set pageNo drill = Val r ->
  LoadPage_loop fuel m key lvl LockRead set pageNo drill = Val r.
Proof.
  induction fuel as [|fuel IH]; intros m key lvl set pageNo drill r H.
  - exact H.
  - rewrite LoadPage_loop_S in *. unfold LoadPage_step in *.
    destruct (0 <? pageNo) eqn:Hp; [|done].
    destruct (pagePool m !! pageNo) as [page|] eqn:Epage; [|done].
    destruct (Free page) eqn:Efree; [done|].
    destruct (negb (Lvl page =? drill)) eqn:Elvl.
    2:{ eapply LoadPage_descend_mono; [|exact H]. intros s p d r'. apply IH. }
    destruct (negb (pageNo =? RootPage)); [done|].
    change (negb (bool_decide (LockRead = LockRead))) with false. cbn [andb].
    change (negb (bool_decide (LockWrite = LockRead))) with true in H. cbn [andb] in H.
    destruct (Lvl page =? lvl) eqn:El.
    2:{ eapply LoadPage_descend_mono; [|exact H]. intros s p d r'. apply IH. }
    apply IH in H.
    destruct fuel as [|fuel'].
    { apply LoadPage_loop_O in H as [Hp' _]. apply Z.ltb_lt in Hp. lia. }
    rewrite LoadPage_loop_S in H. unfold LoadPage_step in H.
    rewrite Hp, Epage, Efree, Z.eqb_refl in H. cbn [negb] in H.
    eapply LoadPage_descend_mono; [|exact H]. intros s p d r'.
    apply LoadPage_loop_fuel_S.
Qed.

(** ** A leaf is replaced *)

Section Frame.
Variables (m : BufMgr) (key : list byte) (lvl : Z) (lock : BLTLockMode).
Variables (no : Z) (page page2 : Page) (s s2 : Z).
Hypothesis Hpage : pagePool m !! no = Some page.
Hypothesis Hfree : Free page2 = false.
Hypothesis Hkill : Kill page2 = false.
Hypothesis Hlvl : Lvl page2 = Lvl page.
Hypothesis Hfind2 : FindSlot page2 key = Val s2.
Hypothesis Hs2 : 0 < s2.
Hypothesis Hs : 0 < s.

Let m2 := setPage m no page2.

Lemma LoadPage_descend_frame (rec rec' : option Z -> Z -> Z -> load_result) pg pageNo drill :
  (forall st p d, rec st p d = Val (s, Some no, m) -> rec' st p d = Val (s2, Some no, m2)) ->
  pageNo <> no ->
  LoadPage_descend m key lvl rec pg pageNo drill = Val (s, Some no, m) ->
  LoadPage_descend m2 key lvl rec' pg pageNo drill = Val (s2, Some no, m2).
Proof.
  intros Hrec Hne. unfold LoadPage_descend.
  destruct (Kill pg); [apply Hrec|].
  destruct (FindSlot pg key) as [s'|]; [|done]. cbn [bind].
  destruct (0 <? s'); [|apply Hrec].
  destruct (drill =? lvl); [intros E; injection E; intros; congruence|].
  destruct (LoadPage_live _ pg s') as [[s''|]|]; cbn [bind]; [|apply Hrec|done].
  destruct (Value pg s''); [|done]. cbn [bind]. apply Hrec.
Qed.

Lemma LoadPage_loop_frame fuel : forall set pageNo drill,
  LoadPage_loop fuel m key lvl lock set pageNo drill = Val (s, Some no, m) ->
  LoadPage_loop fuel m2 key lvl lock set pageNo drill = Val (s2, Some no, m2).
Proof.
  induction fuel as [|fuel IH]; intros set pageNo drill H.
  - apply LoadPage_loop_O in H as [_ E]. injection E. intros. lia.
  - destruct (LoadPage_loop_post _ _ _ _ _ _ _ _ _ _ _ H Hs)
      as (_ & no' & page' & [= <-] & Hp' & Hf & Hl & Hfr & Hk).
    rewrite Hpage in Hp'. injection Hp' as <-.
    rewrite LoadPage_loop_S in *. unfold LoadPage_step in *.
    destruct (0 <? pageNo) eqn:Hp; [|injection H; intros; lia].
    unfold m2 at 1. unfold setPage. cbn [pagePool with_pagePool].
    destruct (Z.eq_dec pageNo no) as [->|Hne].
    + rewrite lookup_insert_eq. rewrite Hpage in H. rewrite Hfree. rewrite Hfr in H.
      rewrite Hlvl.
      assert (D : LoadPage_descend m2 key lvl (LoadPage_loop fuel m2 key lvl lock)
                    page2 no lvl = Val (s2, Some no, m2)).
      { unfold LoadPage_descend. rewrite Hkill, Hfind2. cbn [bind].
        destruct (Z.ltb_spec 0 s2); [|lia]. rewrite Z.eqb_refl. done. }
      rewrite Hl in *.
      destruct (negb (lvl =? drill)) eqn:Ed.
      * destruct (negb (no =? RootPage)); [injection H; intros; lia|].
        rewrite Z.eqb_refl in *. rewrite andb_true_r in *.
        destruct (negb (bool_decide (lock = LockRead))); [apply IH; done|exact D].
      * apply negb_false_iff, Z.eqb_eq in Ed. subst drill. exact D.
    + rewrite lookup_insert_ne by done.
      destruct (pagePool m !! pageNo) as [pg|]; [|injection H; intros; lia].
      destruct (Free pg); [injection H; intros; lia|].
      destruct (negb (Lvl pg =? drill)).
      2:{ eapply LoadPage_descend_frame; [|done|exact H]. intros st p d. apply IH. }
      destruct (negb (pageNo =? RootPage)); [injection H; intros; lia|].
      destruct (negb (bool_decide (lock = LockRead)) && (Lvl pg =? lvl)).
      * apply IH. done.
      * eapply LoadPage_descend_frame; [|done|exact H]. intros st p d. apply IH.
Qed.
End Frame.


(** * [FindSlot] on a page with known keys *)

(** the slots that [FindSlot] may look at: all of them on a page with a right
    sibling, all but the last one on a page without *)
Definition search_top (p : Page) : Z :=
  if 0 <? GetID (Right p) then Cnt p + 1 else Cnt p.

Section Search.
Variable p : Page.
Variable kf : Z -> list byte.
Hypothesis HL : len (Data p) < 2 ^ 31.
Hypothesis Hcnt : 1 <= Cnt p.
Hypothesis Hslots : SlotSize * Cnt p <= len (Data p).
Hypothesis Hkeys : forall i, 1 <= i <= Cnt p -> Key p i = Val (kf i).
Hypothesis Hsorted : sorted_keys kf (search_top p).

Lemma search_top_range : Cnt p <= search_top p <= Cnt p + 1.
Proof. unfold search_top. destruct (0 <? GetID (Right p)); lia. Qed.

Lemma keys_searchable : searchable p.
Proof.
  pose proof search_top_range as Ht. unfold searchable. fold (search_top p). split.
  - intros i Hi. exists (kf i). apply Hkeys. lia.
  - intros i j ki kj Hij Hj Hi' Hj'.
    rewrite Hkeys in Hi', Hj' by lia. injection Hi' as <-. injection Hj' as <-.
    apply Hsorted; lia.
Qed.

Lemma FindSlot_contract_keys key : FindSlot_contract p key.
Proof.
  apply FindSlot_searchable; [done| |apply keys_searchable].
  unfold SlotSize in *. lia.
Qed.

(** where the slot that [FindSlot] gives lies among the keys *)
Lemma FindSlot_position key r :
  FindSlot p key = Val r -> 0 < r ->
  1 <= r <= Cnt p /\
  (forall x, 1 <= x < r -> key_lt (kf x) key) /\
  (forall x, r <= x < search_top p -> key_le key (kf x)).
Proof.
  intros Hr Hpos. destruct (FindSlot_contract_keys key) as (r' & E & C).
  rewrite Hr in E. injection E as <-.
  assert (Below : forall i, 1 <= i <= Cnt p -> slot_below p key i -> key_lt (kf i) key).
  { intros i Hi (k & Hk & Hlt). rewrite Hkeys in Hk by done. injection Hk as <-. done. }
  assert (NotBelow : forall i, 1 <= i <= Cnt p -> slot_not_below p key i ->
                     key_le key (kf i)).
  { intros i Hi (k & Hk & Hlt). rewrite Hkeys in Hk by done. injection Hk as <-.
    destruct (key_le_total key (kf i)); done. }
  unfold search_top in *.
  destruct (0 <? GetID (Right p)).
  - destruct C as [[-> _]|(Hr1 & Hnb & Hb)]; [lia|].
    split; [done|]. split.
    + intros x Hx. apply Below; [lia|]. apply Hb. done.
    + intros x Hx. eapply key_le_trans; [apply NotBelow; [|exact Hnb]; lia|].
      apply Hsorted; lia.
  - destruct C as (Hr1 & Hnb & Hb).
    split; [done|]. split.
    + intros x Hx. apply Below; [lia|]. apply Hb. done.
    + intros x Hx. eapply key_le_trans; [apply NotBelow; [|apply Hnb]; lia|].
      apply Hsorted; lia.
Qed.

(** the slot that [FindSlot] gives for a key that is on the page *)
Lemma FindSlot_of_key key t :
  1 <= t <= Cnt p -> ((0 <? GetID (Right p)) = false -> t < Cnt p) ->
  (forall x, 1 <= x < t -> key_lt (kf x) key) -> key_le key (kf t) ->
  FindSlot p key = Val t.
Proof.
  intros Ht Htop Hlt Hle. destruct (FindSlot_contract_keys key) as (r & E & C).
  rewrite E. f_equal.
  assert (Below : forall i, 1 <= i <= Cnt p -> slot_below p key i -> key_lt (kf i) key).
  { intros i Hi (k & Hk & Hl). rewrite Hkeys in Hk by done. injection Hk as <-. done. }
  assert (NotBelow : forall i, 1 <= i <= Cnt p -> slot_not_below p key i ->
                     ~ key_lt (kf i) key).
  { intros i Hi (k & Hk & Hl). rewrite Hkeys in Hk by done. injection Hk as <-. done. }
  assert (Hnt : ~ key_lt (kf t) key).
  { intros H. apply key_lt_not_le in H. apply H. done. }
  destruct (0 <? GetID (Right p)).
  - destruct C as [[-> Hb]|(Hr1 & Hnb & Hb)].
    + exfalso. apply Hnt, Below; [lia|]. apply Hb. lia.
    + destruct (Z.lt_trichotomy r t) as [Hlt'|[->|Hgt]]; [|done|].
      * exfalso. apply (NotBelow r); [lia|done|]. apply Hlt. lia.
      * exfalso. apply Hnt, Below; [lia|]. apply Hb. lia.
  - specialize (Htop eq_refl). destruct C as (Hr1 & Hnb & Hb).
    destruct (Z.lt_trichotomy r t) as [Hlt'|[->|Hgt]]; [|done|].
    + exfalso. apply (NotBelow r); [lia|apply Hnb; lia|]. apply Hlt. lia.
    + exfalso. apply Hnt, Below; [lia|]. apply Hb. lia.
Qed.
End Search.


(** * [findKey] on the slot of the key *)

(** the slot that [findKey] looks at: the one behind a librarian *)
Definition real_slot (d : list byte) (r : Z) : Z :=
  if typ_of d r =? Librarian then r + 1 else r.

Lemma findKey_loop_eq fuel tree key valMax set slot foundKey :
  findKey_loop fuel tree key valMax set slot foundKey =
  if 0 <? slot then
    match set with
    | None => Panic NilDeref
    | Some setNo =>
        let* page := getPage (mgr tree) setNo in
        let* ptr := Key page slot in
        let* t := Typ page slot in
        let* '(slot, ptr) :=
          (if t =? Librarian
           then let slot := u32 (slot + 1) in
                let* ptr := Key page slot in Val (slot, ptr)
           else Val (slot, ptr)) in
        let foundKey := ptr in
        let keyLen := len ptr in
        let* t := Typ page slot in
        let keyLen := if t =? Duplicate then keyLen - BtId else keyLen in
        if (slot =? Cnt page) && (GetID (Right page) =? 0)
        then Val (-1, foundKey, [], set, tree)
        else
          let* d := Dead page slot in
          if d then
            match fuel with
            | O => Panic OutOfFuel
            | S fuel' =>
                let* '(slot, set, tree) := findNext tree set slot in
                findKey_loop fuel' tree key valMax set slot foundKey
            end
          else if (keyLen =? len key)
                  && (KeyCmp (take (Z.to_nat keyLen) ptr) key =? 0) then
            let* val := Value page slot in
            let valMax := if len val <? valMax then len val else valMax in
            if valMax <? 0 then Panic SliceBounds
            else Val (valMax, foundKey, take (Z.to_nat valMax) val, set, tree)
          else Val (-1, foundKey, [], set, tree)
    end
  else Val (-1, foundKey, [], set, tree).
Proof. destruct fuel; reflexivity. Qed.

Lemma findKey_loop_hit fuel tree key v no page r k0 :
  let slot := real_slot (Data page) r in
  pagePool (mgr tree) !! no = Some page ->
  len (Data page) < 2 ^ 31 -> 0 < r ->
  slot_key page r k0 ->
  slot_entry page slot key v ->
  typ_of (Data page) slot <> Duplicate ->
  dead_of (Data page) slot = false ->
  ~ (slot = Cnt page /\ GetID (Right page) = 0) ->
  len v = BtId ->
  findKey_loop fuel tree key 6 (Some no) r [] = Val (6, key, v, Some no, tree).
Proof.
  intros slot Hpage HL Hr Hk0 Hent Htyp Hdead Hstop Hv.
  pose proof Hk0 as [Hin _]. pose proof Hent as [Hin' En].
  assert (Hslot : slot < 2 ^ 31) by (destruct Hin'; unfold SlotSize in *; lia).
  rewrite findKey_loop_eq.
  destruct (Z.ltb_spec 0 r); [|lia].
  unfold getPage. rewrite Hpage. cbn [bind].
  rewrite (Key_Val page) with (k := k0) by (done || lia). cbn [bind].
  rewrite Typ_Val by (done || lia). cbn [bind].
  assert (E1 : (if typ_of (Data page) r =? Librarian
                then let* ptr := Key page (u32 (r + 1)) in Val (u32 (r + 1), ptr)
                else Val (r, k0)) = Val (slot, key)).
  { unfold slot, real_slot in *. destruct (typ_of (Data page) r =? Librarian).
    - rewrite (u32_small (r + 1)) by lia.
      rewrite (Key_Val page) with (k := key)
        by (lia || (apply slot_entry_key in Hent; done)).
      done.
    - assert (k0 = key) as ->; [|done].
      destruct Hk0 as [_ K0]. destruct En as [K1 _]. eapply key_ok_fun; done. }
  rewrite E1. cbn [bind]. rewrite Typ_Val by (done || lia). cbn [bind].
  rewrite Dead_Val by (done || lia). cbn [bind]. rewrite Hdead.
  destruct (Z.eqb_spec (typ_of (Data page) slot) Duplicate) as [|_]; [done|].
  assert (E2 : (slot =? Cnt page) && (GetID (Right page) =? 0) = false).
  { destruct (Z.eqb_spec slot (Cnt page)), (Z.eqb_spec (GetID (Right page)) 0);
      simpl; try done. exfalso. apply Hstop. done. }
  rewrite E2, Z.eqb_refl. cbn [andb].
  replace (Z.to_nat (len key)) with (length key) by (unfold len; lia).
  rewrite firstn_all.
  replace (KeyCmp key key =? 0) with true by (symmetry; apply Z.eqb_eq, KeyCmp_eq; done).
  rewrite (Value_Val page) with (k := key) (v := v) by (done || lia). cbn [bind].
  rewrite Hv. unfold BtId. change (6 <? 6) with false. change (6 <? 0) with false.
  cbv iota.
  replace (Z.to_nat 6) with (length v) by (unfold len, BtId in Hv; lia).
  rewrite firstn_all. done.
Qed.

(** * A new key on a leaf with room *)

Section NewKey.
Variable page : Page.
Variable kf : Z -> list byte.
Variables key value : list byte.
Variable s : Z.
Hypothesis HL : len (Data page) <= 32767.
Hypothesis Hcnt : 1 <= Cnt page.
Hypothesis Hmin : Min page <= len (Data page).
Hypothesis KA : keys_at (Data page) (Cnt page) (Min page) kf.
Hypothesis Hsorted : sorted_keys kf (search_top page).
Hypothesis Hlib :
  forall i, 1 <= i <= Cnt page ->
    typ_of (Data page) i = Librarian -> dead_of (Data page) i = true.
Hypothesis Hk : len key <= 254.
Hypothesis Hv : len value = BtId.
Hypothesis Hroom : need (Cnt page) (len key) BtId <= Min page.
Hypothesis Hfind : FindSlot page key = Val s.
Hypothesis Hs : 0 < s.

Lemma leaf_slots : SlotSize * (Cnt page + 2) <= Min page - (BtId + 1) - (len key + 1).
Proof.
  pose proof (len_nonneg key). unfold need, SlotSize, PageHeaderSize, BtId in *. lia.
Qed.

Lemma leaf_keys i : 1 <= i <= Cnt page -> Key page i = Val (kf i).
Proof.
  pose proof leaf_slots. pose proof (len_nonneg key).
  apply (keys_at_Key page (Cnt page) (Min page)); [lia| |done].
  unfold SlotSize, BtId in *. lia.
Qed.

Lemma leaf_position :
  1 <= s <= Cnt page /\
  (forall x, 1 <= x < s -> key_lt (kf x) key) /\
  (forall x, s <= x < search_top page -> key_le key (kf x)).
Proof.
  pose proof leaf_slots. pose proof (len_nonneg key).
  apply FindSlot_position; try done; try lia.
  - unfold SlotSize, BtId in *. lia.
  - apply leaf_keys.
Qed.

(** the page after [insertSlot], and where [findKey] finds the key on it *)
Lemma insertSlot_found :
  exists page' r,
    insertSlot page s key value Unique = Val page' /\
    Free page' = Free page /\ Kill page' = Kill page /\ Lvl page' = Lvl page /\
    len (Data page') = len (Data page) /\
    FindSlot page' key = Val r /\ 0 < r /\
    slot_key page' r key /\
    slot_entry page' (real_slot (Data page') r) key value /\
    typ_of (Data page') (real_slot (Data page') r) <> Duplicate /\
    dead_of (Data page') (real_slot (Data page') r) = false /\
    real_slot (Data page') r <> Cnt page'.
Proof.
  pose proof leaf_slots as Hsl. pose proof (len_nonneg key) as Hk0.
  destruct leaf_position as (Hsr & Hlt & Hge).
  pose proof (search_top_range page) as Htop.
  destruct (insertSlot_keys page s key value Unique kf (search_top page))
    as (e & d' & He & E & L' & En & I & KA' & S'); try done; try lia.
  { intros H1 Ht. apply Hlib; [lia|done]. }
  cbv zeta in *.
  set (d := Data page) in *. set (n := Cnt page) in *.
  set (s' := lib_slot d s) in *.
  set (min' := Min page - (BtId + 1) - (len key + 1)) in *.
  set (n' := if e =? n then n + 2 else n) in *.
  set (page' := with_Data (with_Act (with_Cnt (with_Min page min') n')
                             (u32 (Act page + 1))) d') in *.
  pose proof (lib_slot_range d s ltac:(lia)) as Hs'. fold s' in Hs'.
  assert (Hn' : n <= n' <= n + 2) by (unfold n'; destruct (e =? n); lia).
  assert (Hslots' : SlotSize * n' <= len d') by (unfold SlotSize, BtId in *; lia).
  assert (Hkeys' : forall i, 1 <= i <= n' ->
            Key page' i = Val (inserted_keys kf key n s' e i)).
  { intros i Hi. apply (keys_at_Key page' n' min'); unfold page'; page_simpl; try done.
    lia. }
  assert (Hks' : inserted_keys kf key n s' e s' = key).
  { unfold inserted_keys. destruct (e =? n).
    - destruct (Z.ltb_spec s' s'); [lia|]. destruct (Z.leb_spec s' (s' + 1)); [done|lia].
    - destruct (Z.ltb_spec s' s'); [lia|]. rewrite Z.eqb_refl. done. }
  assert (Hsn' : s' < n').
  { unfold n'. destruct (Z.eqb_spec e n); lia. }
  assert (Hf : FindSlot page' key = Val s').
  { apply (FindSlot_of_key page' (inserted_keys kf key n s' e));
      unfold page'; page_simpl; fold page'; try done; try lia.
    - unfold search_top. unfold page'. page_simpl. fold n.
      unfold search_top in S'. fold n in S'. unfold n'.
      destruct (0 <? GetID (Right page)), (e =? n); try done.
      replace (n + 2 + 1) with (n + 1 + 2) by lia. done.
    - intros x Hx. unfold inserted_keys.
      destruct (e =? n); (destruct (Z.ltb_spec x s'); [|lia]); apply Hlt; lia.
    - rewrite Hks'. apply key_le_refl. }
  assert (Hin : forall i, 1 <= i <= n' -> in_slots d' i).
  { intros i Hi. unfold in_slots, SlotSize in *. lia. }
  assert (Hoff : forall i t b, 1 <= i <= n' -> sv d' i = (min', t, b) ->
                 slot_entry page' i key value).
  { intros i t b Hi Hsv. split; [apply Hin; done|].
    unfold page'. page_simpl. injection Hsv as -> _ _. done. }
  exists page', s'. split; [exact E|].
  split; [done|]. split; [done|]. split; [done|].
  split; [exact L'|]. split; [exact Hf|]. split; [lia|].
  destruct I as [_ I2]. unfold real_slot.
  assert (Dp : Data page' = d') by done. assert (Cp : Cnt page' = n') by done.
  rewrite Dp, Cp.
  destruct (Z.eqb_spec e n) as [Een|Hne].
  - destruct I2 as (A1 & A2 & _).
    assert (Tl : typ_of d' s' = Librarian) by (injection A1; done).
    rewrite Tl. change (Librarian =? Librarian) with true. cbv iota.
    split; [apply slot_entry_key with (v := value); eapply Hoff; [|exact A1]; lia|].
    split; [eapply Hoff; [|exact A2]; lia|].
    injection A2 as _ -> ->. split; [done|]. split; [done|]. lia.
  - destruct I2 as (A1 & _).
    assert (Tl : typ_of d' s' = Unique) by (injection A1; done).
    rewrite Tl. change (Unique =? Librarian) with false. cbv iota.
    split; [apply slot_entry_key with (v := value); eapply Hoff; [|exact A1]; lia|].
    split; [eapply Hoff; [|exact A1]; lia|].
    injection A1 as _ -> ->. split; [done|]. split; [done|]. lia.
Qed.
End NewKey.


(** * Insert, then find *)

Lemma with_mgr_same tree : with_mgr tree (mgr tree) = tree.
Proof. by destruct tree. Qed.

(** [findKey] after the leaf of the key has been replaced by a page on which
    the key is found *)
Lemma findKey_replaced fuel fuel' m key value no page page' s r k0 tree :
  LoadPage fuel m key 0 LockWrite = Val (s, Some no, m) -> 0 < s ->
  pagePool m !! no = Some page ->
  (fuel <= fuel')%nat ->
  mgr tree = setPage m no page' ->
  Free page' = Free page -> Kill page' = Kill page -> Lvl page' = Lvl page ->
  len (Data page') < 2 ^ 31 ->
  FindSlot page' key = Val r -> 0 < r ->
  slot_key page' r k0 ->
  slot_entry page' (real_slot (Data page') r) key value ->
  typ_of (Data page') (real_slot (Data page') r) <> Duplicate ->
  dead_of (Data page') (real_slot (Data page') r) = false ->
  ~ (real_slot (Data page') r = Cnt page' /\ GetID (Right page') = 0) ->
  len value = BtId ->
  findKey fuel' tree key 6 = Val (6, key, value, tree).
Proof.
  intros H Hs Hpage Hfuel Hm Hfree Hkill Hlvl HL Hf Hr Hk0 Hent Htyp Hdead Hstop Hv.
  unfold LoadPage in H.
  destruct (LoadPage_loop_post _ _ _ _ _ _ _ _ _ _ _ H Hs)
    as (_ & no' & pg & [= <-] & Hp' & _ & _ & Hfr & Hk).
  rewrite Hpage in Hp'. injection Hp' as <-.
  apply LoadPage_loop_read in H.
  apply (LoadPage_loop_frame m key 0 LockRead no page page' s r Hpage) in H;
    [|congruence|congruence|done|done|done|done].
  apply (LoadPage_loop_fuel_le fuel fuel') in H; [|done].
  unfold findKey, LoadPage. rewrite Hm, H. cbn [bind].
  assert (Et : with_mgr tree (setPage m no page') = tree).
  { rewrite <- Hm. apply with_mgr_same. }
  rewrite Et.
  rewrite (findKey_loop_hit fuel' tree key value no page' r k0); try done.
  rewrite Hm. unfold setPage. cbn [pagePool with_pagePool]. apply lookup_insert_eq.
Qed.

(** [insertKey] of a key that is not on its leaf, which has room *)
Lemma insertKey_new fuel tree key value s no page kf page' :
  let m := mgr tree in
  LoadPage (S fuel) m key 0 LockWrite = Val (s, Some no, m) -> 0 < s ->
  pagePool m !! no = Some page ->
  len (Data page) <= 32767 -> 1 <= s <= Cnt page ->
  SlotSize * Cnt page <= len (Data page) ->
  Key page s = Val (kf s) -> kf s <> key ->
  len key <= 254 ->
  need (Cnt page) (len key) BtId <= Min page ->
  insertSlot page s key value Unique = Val page' ->
  insertKey (S fuel) tree key 0 value true =
    Val (BLTErrOk, with_mgr tree (setPage m no page')).
Proof.
  intros m H Hs Hpage HL Hsr Hslots Hkey Hnew Hk Hroom Hins.
  pose proof (len_nonneg key) as Hk0.
  unfold insertKey. cbn [insertKey_loop]. fold m. rewrite H. cbn [bind].
  destruct (Z.ltb_spec 0 s); [|lia]. cbn [negb].
  unfold getPage. rewrite Hpage. cbn [bind]. rewrite Hkey. cbn [bind].
  rewrite Typ_Val by (lia || (unfold in_slots, SlotSize in *; lia)). cbn [bind].
  assert (Ecmp : (KeyCmp (kf s) key =? 0) = false).
  { apply Z.eqb_neq. intros E. apply KeyCmp_eq in E. done. }
  rewrite Ecmp, andb_false_r. cbn [bind].
  rewrite Typ_Val by (lia || (unfold in_slots, SlotSize in *; lia)). cbn [bind].
  rewrite Ecmp. cbn [negb]. rewrite orb_true_r. cbn [andb orb].
  rewrite (u8_small (len key)) by lia.
  rewrite cleanPage_room; [|lia|unfold SlotSize in *; lia|lia|unfold BtId; lia|done].
  cbn [bind].
  destruct (Z.eqb_spec s 0); [lia|]. rewrite Hins. cbn [bind]. done.
Qed.

(** the round trip for a new key *)
Lemma insert_new_then_find fuel fuel' tree key value s no page kf :
  let m := mgr tree in
  LoadPage (S fuel) m key 0 LockWrite = Val (s, Some no, m) -> 0 < s ->
  pagePool m !! no = Some page ->
  len (Data page) <= 32767 -> 1 <= Cnt page -> Min page <= len (Data page) ->
  keys_at (Data page) (Cnt page) (Min page) kf ->
  sorted_keys kf (search_top page) ->
  (forall i, 1 <= i <= Cnt page ->
     typ_of (Data page) i = Librarian -> dead_of (Data page) i = true) ->
  len key <= 254 -> len value = BtId ->
  need (Cnt page) (len key) BtId <= Min page ->
  kf s <> key ->
  (S fuel <= fuel')%nat ->
  exists tree',
    insertKey (S fuel) tree key 0 value true = Val (BLTErrOk, tree') /\
    findKey fuel' tree' key 6 = Val (6, key, value, tree').
Proof.
  intros m H Hs Hpage HL Hcnt Hmin KA Hsorted Hlib Hk Hv Hroom Hnew Hfuel.
  destruct (LoadPage_post _ _ _ _ _ _ _ _ H Hs)
    as (_ & no' & pg & [= <-] & Hp' & Hfind & _ & Hfr & Hkl).
  fold m in Hp'. rewrite Hpage in Hp'. injection Hp' as <-.
  destruct (insertSlot_found page kf key value s)
    as (page' & r & E & F1 & F2 & F3 & F4 & F5 & F6 & F7 & F8 & F9 & F10 & F11);
    try done.
  destruct (leaf_position page kf key s) as (Hsr & _); try done.
  pose proof (leaf_slots page key Hroom) as Hsl. pose proof (len_nonneg key).
  exists (with_mgr tree (setPage m no page')). split.
  - apply (insertKey_new fuel tree key value s no page kf page'); try done.
    + unfold SlotSize, BtId in *. lia.
    + apply (leaf_keys page kf key); try done.
  - apply (findKey_replaced (S fuel) fuel' m key value no page page' s r key); try done.
    + lia.
    + intros [Hc _]. done.
Qed.


Lemma GetID_nonneg l : 0 <= GetID l.
Proof.
  unfold GetID.
  assert (H : forall (l : list byte) z, 0 <= z ->
            0 <= fold_left (fun id b => Z.lor (u64 (Z.shiftl id 8)) (byte.unsigned b)) l z).
  { clear. induction l as [|b l IH]; intros z Hz; simpl; [done|].
    apply IH. apply Z.lor_nonneg. split; [apply Z.mod_pos_bound; lia|].
    apply byte.unsigned_range. }
  apply H. lia.
Qed.

(** * A key that is on its leaf: the value is written over *)

Section Update.
Variable page : Page.
Variable kf : Z -> list byte.
Variables key value vold : list byte.
Variable s : Z.

Let d := Data page.
Let n := Cnt page.
Let slot := real_slot d s.
Let off := off_of d slot.

Hypothesis HL : len d <= 32767.
Hypothesis Hcnt : 1 <= n.
Hypothesis Hslots : SlotSize * n <= Min page.
Hypothesis Hmin : Min page <= len d.
Hypothesis KA : keys_at d n (Min page) kf.
Hypothesis Hsorted : sorted_keys kf (search_top page).
Hypothesis Hk : len key <= 254.
Hypothesis Hv : len value = BtId.
Hypothesis Hfind : FindSlot page key = Val s.
Hypothesis Hs : 0 < s.
Hypothesis Hon : kf s = key.
Hypothesis Hslot : slot <= n.
Hypothesis Hent : entry_ok d off key vold.
Hypothesis Hvold : len vold = BtId.
Hypothesis Hstop : ~ (slot = n /\ GetID (Right page) = 0).
Hypothesis Hdisj :
  forall j, 1 <= j <= n ->
    off_of d j + 1 + len (kf j) <= off + 1 + len key \/
    off + 1 + len key + 1 + BtId <= off_of d j.

Lemma update_keys i : 1 <= i <= n -> Key page i = Val (kf i).
Proof.
  apply (keys_at_Key page n (Min page)); [fold d; lia| |done].
  fold d. lia.
Qed.

Lemma update_position :
  1 <= s <= n /\ (forall x, 1 <= x < s -> key_lt (kf x) key).
Proof.
  destruct (FindSlot_position page kf) with (key := key) (r := s) as (H1 & H2 & _);
    try done; fold d n; try lia.
  apply update_keys.
Qed.

Lemma update_slot : s <= slot <= s + 1 /\ kf slot = key.
Proof.
  destruct update_position as (Hsr & _).
  assert (Hr : s <= slot <= s + 1).
  { unfold slot, real_slot. destruct (typ_of d s =? Librarian); lia. }
  split; [done|].
  destruct (KA slot ltac:(lia)) as [_ K]. destruct Hent as [K' _].
  eapply key_ok_fun; done.
Qed.

(** the page after the writes of [insertKey], and where [findKey] finds the
    key on it *)
Lemma update_found :
  exists page',
    (let* dd := Dead page slot in
     let page := if dd then with_Act page (u32 (Act page + 1)) else page in
     let* page := SetDead page slot false in
     SetValue page value slot) = Val page' /\
    Free page' = Free page /\ Kill page' = Kill page /\ Lvl page' = Lvl page /\
    len (Data page') = len d /\
    FindSlot page' key = Val s /\
    slot_key page' s key /\
    slot_entry page' (real_slot (Data page') s) key value /\
    typ_of (Data page') (real_slot (Data page') s) = typ_of d slot /\
    dead_of (Data page') (real_slot (Data page') s) = false /\
    ~ (real_slot (Data page') s = Cnt page' /\ GetID (Right page') = 0).
Proof.
  destruct update_position as (Hsr & Hlt).
  destruct update_slot as (Hsl & Hks).
  pose proof (len_nonneg key) as Hk0.
  assert (Hin : forall i, 1 <= i <= n -> in_slots d i).
  { intros i Hi. unfold in_slots, SlotSize in *. lia. }
  pose proof Hent as (K & _ & Hb & _).
  pose proof K as (Hoff0 & _).
  pose proof (len_nonneg vold) as Hvo0.
  destruct (KA slot ltac:(lia)) as [Hlo _]. fold off in Hlo.
  rewrite Dead_Val by (fold d; (lia || (apply Hin; lia))). cbn [bind].
  set (p1 := if dead_of (Data page) slot
             then with_Act page (u32 (Act page + 1)) else page).
  assert (Dp1 : Data p1 = d) by (unfold p1; destruct (dead_of _ _); done).
  destruct (SetDead_spec p1 slot) with (b := false) as (d1 & E1 & T1 & D1);
    [rewrite Dp1; lia|rewrite Dp1; apply Hin; lia|].
  rewrite Dp1 in T1. rewrite E1. cbn [bind].
  assert (L1 : len d1 = len d) by apply T1.
  assert (V1 : forall i, 1 <= i <= n -> off_of d1 i = off_of d i /\ typ_of d1 i = typ_of d i).
  { intros i Hi. split.
    - apply (touched_off_of _ _ _ i T1); [lia|].
      unfold window, slot_at, SlotSize. intros b. lia.
    - apply (touched_typ_of _ _ _ i T1); [lia|]. unfold window, slot_at, SlotSize. lia. }
  assert (K1 : forall i k, 1 <= i <= n -> key_ok d (off_of d i) k -> Min page <= off_of d i ->
               key_ok d1 (off_of d i) k).
  { intros i k Hi Hk' Hlo'. eapply touched_key_ok; [exact T1| |exact Hk'].
    unfold window, slot_at, SlotSize in *. intros b. lia. }
  assert (Ho1 : off_of d1 slot = off) by (apply V1; lia).
  rewrite (SetValue_Val (with_Data p1 d1) slot key).
  2:{ page_simpl. lia. }
  2:{ split; page_simpl; [unfold in_slots, SlotSize in *; lia|].
      rewrite Ho1. apply (K1 slot); [lia|apply K|done]. }
  2:{ done. }
  page_simpl. rewrite Ho1.
  set (d2 := splice d1 (Z.to_nat (off + 1 + len key)) (byte.of_Z (len value) :: value)).
  assert (T2 : touched d1 d2 (window (off + 1 + len key) (off + 1 + len key + 1 + BtId))).
  { eapply touched_weaken; [apply touched_splice; lia|].
    unfold window. intros b. rewrite len_cons, Hv. lia. }
  assert (L2 : len d2 = len d) by (destruct T2; lia).
  assert (V2 : forall i, 1 <= i <= n -> sv d2 i = sv d1 i).
  { intros i Hi. apply (touched_sv _ _ _ i T2); [lia|].
    unfold window, slot_at, SlotSize in *. intros b. lia. }
  assert (O2 : forall i, 1 <= i <= n -> off_of d2 i = off_of d i).
  { intros i Hi. specialize (V2 i Hi). injection V2 as -> _ _. apply V1. done. }
  assert (KA2 : keys_at d2 n (Min page) kf).
  { intros j Hj. rewrite O2 by done. destruct (KA j Hj) as [Hlj Kj].
    split; [done|]. eapply touched_key_ok; [exact T2| |apply K1; done].
    unfold window. intros b. destruct (Hdisj j Hj); unfold BtId in *; lia. }
  assert (En2 : entry_ok d2 off key value).
  { apply entry_ok_write_value; [apply (K1 slot); [lia|apply K|done]|done| |].
    - unfold BtId in *. lia.
    - unfold BtId in *. lia. }
  eexists. split; [done|].
  set (page' := with_Data (with_Data p1 d1) d2).
  assert (Dp : Data page' = d2) by done.
  assert (Cp : Cnt page' = n) by (unfold page', p1; destruct (dead_of _ _); done).
  assert (Rp : Right page' = Right page)
    by (unfold page', p1; destruct (dead_of _ _); done).
  split; [unfold page', p1; destruct (dead_of _ _); done|].
  split; [unfold page', p1; destruct (dead_of _ _); done|].
  split; [unfold page', p1; destruct (dead_of _ _); done|].
  split; [rewrite Dp; done|].
  assert (Hts : typ_of d2 s = typ_of d s).
  { specialize (V2 s ltac:(lia)). injection V2 as _ -> _. apply V1. lia. }
  assert (Hrs : real_slot d2 s = slot).
  { unfold slot, real_slot. rewrite Hts. done. }
  rewrite Dp, Cp, Rp, Hrs.
  assert (Hsn : (0 <? GetID (Right page)) = false -> s < n).
  { intros Hr. apply Z.ltb_ge in Hr.
    destruct (Z.eq_dec s n) as [->|]; [|lia]. exfalso.
    assert (slot = n) by lia. apply Hstop. split; [done|].
    pose proof (GetID_nonneg (Right page)). lia. }
  split.
  { apply (FindSlot_of_key page' kf); rewrite ?Dp, ?Cp, ?Rp; try done; try lia.
    - intros i Hi. apply (keys_at_Key page' n (Min page)); rewrite ?Dp; try done; lia.
    - unfold search_top. rewrite Cp, Rp. exact Hsorted.
    - rewrite Hon. apply key_le_refl. }
  split.
  { split; rewrite Dp; [unfold in_slots, SlotSize in *; lia|].
    rewrite <- Hon. apply KA2. lia. }
  split.
  { split; rewrite Dp; [unfold in_slots, SlotSize in *; lia|].
    rewrite O2 by lia. exact En2. }
  split.
  { specialize (V2 slot ltac:(lia)). injection V2 as _ -> _. apply V1. lia. }
  split; [|done].
  rewrite (touched_dead_of d1 d2 _ slot T2); [done|lia|].
  unfold window, slot_at, SlotSize in *. lia.
Qed.
End Update.

(** [insertKey] of a key that is on its leaf *)
Lemma insertKey_update fuel tree key value s no page page' :
  let m := mgr tree in
  let slot := real_slot (Data page) s in
  LoadPage (S fuel) m key 0 LockWrite = Val (s, Some no, m) -> 0 < s ->
  pagePool m !! no = Some page ->
  len (Data page) <= 32767 -> slot <= Cnt page ->
  SlotSize * Cnt page <= len (Data page) ->
  Key page s = Val key -> Key page slot = Val key ->
  typ_of (Data page) slot <> Duplicate ->
  (let* dd := Dead page slot in
   let page := if dd then with_Act page (u32 (Act page + 1)) else page in
   let* page := SetDead page slot false in
   SetValue page value slot) = Val page' ->
  insertKey (S fuel) tree key 0 value true =
    Val (BLTErrOk, with_mgr tree (setPage m no page')).
Proof.
  intros m slot H Hs Hpage HL Hslot Hslots Hkey Hkey' Htyp Hupd.
  assert (Hr : s <= slot <= s + 1).
  { unfold slot, real_slot. destruct (typ_of (Data page) s =? Librarian); lia. }
  unfold insertKey. cbn [insertKey_loop]. fold m. rewrite H. cbn [bind].
  destruct (Z.ltb_spec 0 s); [|lia]. cbn [negb].
  unfold getPage. rewrite Hpage. cbn [bind]. rewrite Hkey. cbn [bind].
  rewrite Typ_Val by (lia || (unfold in_slots, SlotSize in *; lia)). cbn [bind].
  assert (Ecmp : (KeyCmp key key =? 0) = true) by (apply Z.eqb_eq, KeyCmp_eq; done).
  rewrite Ecmp, andb_true_r.
  assert (E1 : (if typ_of (Data page) s =? Librarian
                then let* ptr := Key page (u32 (s + 1)) in Val (u32 (s + 1), ptr)
                else Val (s, key)) = Val (slot, key)).
  { unfold slot, real_slot in *. destruct (typ_of (Data page) s =? Librarian); [|done].
    unfold SlotSize in *. rewrite (u32_small (s + 1)) by lia. rewrite Hkey'. done. }
  rewrite E1. cbn [bind].
  rewrite Typ_Val by (lia || (unfold in_slots, SlotSize in *; lia)). cbn [bind].
  destruct (Z.eqb_spec (typ_of (Data page) slot) Duplicate) as [|_]; [done|].
  rewrite Z.eqb_refl, Ecmp. cbn [negb andb orb].
  fold slot in Hupd.
  destruct (Dead page slot) as [dd|]; [|done]. cbn [bind] in *.
  destruct (SetDead _ slot false) as [p1|]; [|done]. cbn [bind] in *.
  rewrite Hupd. cbn [bind]. done.
Qed.

(** the round trip for a key that is on its leaf *)
Lemma insert_again_then_find fuel fuel' tree key value vold s no page kf :
  let m := mgr tree in
  let d := Data page in
  let n := Cnt page in
  let slot := real_slot d s in
  let off := off_of d slot in
  LoadPage (S fuel) m key 0 LockWrite = Val (s, Some no, m) -> 0 < s ->
  pagePool m !! no = Some page ->
  len d <= 32767 -> 1 <= n -> SlotSize * n <= Min page -> Min page <= len d ->
  keys_at d n (Min page) kf ->
  sorted_keys kf (search_top page) ->
  len key <= 254 -> len value = BtId ->
  kf s = key -> slot <= n ->
  entry_ok d off key vold -> len vold = BtId ->
  typ_of d slot <> Duplicate ->
  ~ (slot = n /\ GetID (Right page) = 0) ->
  (forall j, 1 <= j <= n ->
     off_of d j + 1 + len (kf j) <= off + 1 + len key \/
     off + 1 + len key + 1 + BtId <= off_of d j) ->
  (S fuel <= fuel')%nat ->
  exists tree',
    insertKey (S fuel) tree key 0 value true = Val (BLTErrOk, tree') /\
    findKey fuel' tree' key 6 = Val (6, key, value, tree').
Proof.
  intros m d n slot off H Hs Hpage HL Hcnt Hslots Hmin KA Hsorted Hk Hv Hon Hslot
    Hent Hvold Htyp Hstop Hdisj Hfuel.
  destruct (LoadPage_post _ _ _ _ _ _ _ _ H Hs)
    as (_ & no' & pg & [= <-] & Hp' & Hfind & _ & Hfr & Hkl).
  fold m in Hp'. rewrite Hpage in Hp'. injection Hp' as <-.
  destruct (update_found page kf key value vold s)
    as (page' & E & F1 & F2 & F3 & F4 & F5 & F6 & F7 & F8 & F9 & F10); try done.
  destruct (update_position page kf key s) as (Hsr & _); try done.
  destruct (update_slot page kf key vold s) as (Hsl & Hks); try done.
  fold d n slot in Hsl, Hks, Hsr.
  exists (with_mgr tree (setPage m no page')). split.
  - apply (insertKey_update fuel tree key value s no page page'); try done.
    + unfold SlotSize in *. fold d n. lia.
    + rewrite <- Hon. apply (keys_at_Key page n (Min page)); fold d; try done; lia.
    + fold d slot. rewrite <- Hks.
      apply (keys_at_Key page n (Min page)); fold d; try done; lia.
  - apply (findKey_replaced (S fuel) fuel' m key value no page page' s s key); try done.
    + fold d in F4. lia.
    + rewrite F8. done.
Qed.


(** * The round trip of a key *)

(** the stopper key is not found: the key ff ff, inserted into the tree as
    it is created, is the key of the last slot of the rightmost leaf, where
    [insertKey] writes the value and answers Ok, and where [findKey] stops
    with -1 without looking at the key *)
Lemma insert_stopper_not_found :
  exists tree' tree'',
    insertKey 4 small_tree stopper 0 value1 true = Val (BLTErrOk, tree') /\
    findKey 4 tree' stopper 6 = Val (-1, stopper, [], tree'').
Proof.
  eexists _, _. split.
  - vm_compute. reflexivity.
  - vm_compute. reflexivity.
Qed.

(** the key is not on the leaf, which has room for it, and whose librarians
    are dead *)
Definition new_on_leaf (page : Page) (kf : Z -> list byte) (key : list byte) (s : Z)
  : Prop :=
  kf s <> key /\
  need (Cnt page) (len key) BtId <= Min page /\
  forall i, 1 <= i <= Cnt page ->
    typ_of (Data page) i = Librarian -> dead_of (Data page) i = true.

(** the key is on the leaf, in a slot other than the last one of a rightmost
    page, with a value of 6 bytes that overlaps the key of no slot *)
Definition kept_on_leaf (page : Page) (kf : Z -> list byte) (key : list byte) (s : Z)
  : Prop :=
  let d := Data page in
  let slot := real_slot d s in
  let off := off_of d slot in
  kf s = key /\ slot <= Cnt page /\
  (exists vold, entry_ok d off key vold /\ len vold = BtId) /\
  typ_of d slot <> Duplicate /\
  ~ (slot = Cnt page /\ GetID (Right page) = 0) /\
  forall j, 1 <= j <= Cnt page ->
    off_of d j + 1 + len (kf j) <= off + 1 + len key \/
    off + 1 + len key + 1 + BtId <= off_of d j.

(** X25: the round trip on a leaf.  For every key [k] of at most 254
    bytes and every value [v] of 6 bytes: if [LoadPage] takes [k] to a leaf
    whose slots hold readable keys in non-decreasing order, and [k] is either
    not on the leaf, which has room for it, or on the leaf in a slot that is
    not the last slot of a rightmost page, then [insertKey(k, 0, v, true)]
    returns Ok, and [findKey(k, 6)] on the tree that it leaves returns 6,
    the key [k] and the value [v], and changes no page. *)
Theorem insert_then_find_on_leaf fuel fuel' tree key value s no page kf :
  let m := mgr tree in
  let d := Data page in
  let n := Cnt page in
  LoadPage (S fuel) m key 0 LockWrite = Val (s, Some no, m) -> 0 < s ->
  pagePool m !! no = Some page ->
  len d <= 32767 -> 1 <= n -> SlotSize * n <= Min page -> Min page <= len d ->
  keys_at d n (Min page) kf ->
  sorted_keys kf (search_top page) ->
  len key <= 254 -> len value = BtId ->
  new_on_leaf page kf key s \/ kept_on_leaf page kf key s ->
  (S fuel <= fuel')%nat ->
  exists tree' tree'',
    insertKey (S fuel) tree key 0 value true = Val (BLTErrOk, tree') /\
    findKey fuel' tree' key 6 = Val (6, key, value, tree'') /\
    pagePool (mgr tree'') = pagePool (mgr tree').
Proof.
  intros m d n H Hs Hpage HL Hcnt Hslots Hmin KA Hsorted Hk Hv Hcase Hfuel.
  assert (R : exists tree',
             insertKey (S fuel) tree key 0 value true = Val (BLTErrOk, tree') /\
             findKey fuel' tree' key 6 = Val (6, key, value, tree')).
  { destruct Hcase as [(Hnew & Hroom & Hlib)|(Hon & Hslot & (vold & Hent & Hvold) & Htyp
                                             & Hstop & Hdisj)].
    - apply (insert_new_then_find fuel fuel' tree key value s no page kf); done.
    - apply (insert_again_then_find fuel fuel' tree key value vold s no page kf); done. }
  destruct R as (tree' & E1 & E2). exists tree', tree'. done.
Qed.

Lemma insert_then_find_on_leaf_witness :
  exists tree' tree'',
    insertKey 3 small_tree [Byte.x01] 0 value1 true = Val (BLTErrOk, tree') /\
    findKey 3 tree' [Byte.x01] 6 = Val (6, [Byte.x01], value1, tree'') /\
    pagePool (mgr tree'') = pagePool (mgr tree').
Proof.
  apply (insert_then_find_on_leaf 2 3 small_tree [Byte.x01] value1 1 2 small_leaf
           (fun _ => stopper)).
  - vm_compute. reflexivity.
  - lia.
  - vm_compute. reflexivity.
  - vm_compute. discriminate.
  - vm_compute. discriminate.
  - vm_compute. discriminate.
  - vm_compute. discriminate.
  - intros j Hj. change (1 <= j <= 1) in Hj. assert (j = 1) as -> by lia.
    vm_compute. repeat split; discriminate.
  - assert (search_top small_leaf = 1) as -> by (vm_compute; reflexivity).
    intros i j Hij Hj. lia.
  - vm_compute. discriminate.
  - reflexivity.
  - left. split; [discriminate|]. split; [vm_compute; discriminate|].
    intros i Hi. change (1 <= i <= 1) in Hi. assert (i = 1) as -> by lia.
    vm_compute. discriminate.
  - lia.
Defined.


(** * [FindSlot] on any page *)

Lemma FindSlot_loop_range p key n : forall low higher good r,
  1 <= low <= higher -> higher <= Cnt p + 1 -> Cnt p + 1 < 2 ^ 32 ->
  0 <= good -> good + Z.of_nat n < 2 ^ 32 ->
  (0 < good -> higher <= Cnt p) ->
  FindSlot_loop n p key low higher good = Val r ->
  (r = 0 \/ 1 <= r <= Cnt p) /\ (0 < good -> 1 <= r).
Proof.
  induction n as [|n IH]; intros low higher good r Hl Hh Hc Hg Hgn Hgood; simpl.
  - rewrite (u32_small (higher - low)) by lia.
    destruct (Z.ltb_spec 0 (higher - low)); [done|].
    destruct (Z.ltb_spec 0 good); intros [= <-]; lia.
  - rewrite (u32_small (higher - low)) by lia.
    destruct (Z.ltb_spec 0 (higher - low)) as [Hd|Hd].
    2:{ destruct (Z.ltb_spec 0 good); intros [= <-]; lia. }
    assert (Hs : 0 <= Z.shiftr (higher - low) 1 < higher - low).
    { rewrite Z.shiftr_div_pow2 by lia. change (2 ^ 1) with 2.
      split; [apply Z.div_pos; lia|]. apply Z.div_lt_upper_bound; lia. }
    rewrite (u32_small (low + _)) by lia.
    set (slot := low + Z.shiftr (higher - low) 1) in *.
    destruct (Key p slot) as [k|]; [|done]. cbn [bind].
    destruct (KeyCmp k key <? 0).
    + rewrite (u32_small (slot + 1)) by lia. intros H.
      apply IH in H; [exact H|lia..].
    + rewrite (u32_small (good + 1)) by lia. intros H.
      apply IH in H; [|lia..]. destruct H as [H1 H2]. split; [done|]. intros _. apply H2. lia.
Qed.

Lemma FindSlot_range p key r :
  0 <= Cnt p -> Cnt p + 1 < 2 ^ 32 -> (GetID (Right p) = 0 -> 1 <= Cnt p) ->
  FindSlot p key = Val r ->
  (r = 0 \/ 1 <= r <= Cnt p) /\ (GetID (Right p) = 0 -> 1 <= r).
Proof.
  intros H0 Hc Hr. unfold FindSlot.
  pose proof (GetID_nonneg (Right p)) as Hg.
  destruct (Z.ltb_spec 0 (GetID (Right p))) as [Hp|Hp].
  - rewrite (u32_small (Cnt p + 1)) by lia. intros H.
    apply FindSlot_loop_range in H; [|lia..]. split; [apply H|]. lia.
  - intros H. apply FindSlot_loop_range in H; [|lia..].
    destruct H as [H1 H2]. split; [done|]. intros _. apply H2. lia.
Qed.

(** X1: for every page, its keys in order or not, what [FindSlot] returns
    is 0 or a slot of [1, Cnt]; on a page without right sibling it is never
    0.  (A page without right sibling must hold a slot, its stopper.) *)
Theorem FindSlot_in_range p key r :
  0 <= Cnt p -> Cnt p + 1 < 2 ^ 32 -> (GetID (Right p) = 0 -> 1 <= Cnt p) ->
  FindSlot p key = Val r ->
  (r = 0 \/ 1 <= r <= Cnt p) /\ (GetID (Right p) = 0 -> 1 <= r).
Proof. apply FindSlot_range. Qed.

Lemma FindSlot_in_range_witness :
  (3 = 0 \/ 1 <= 3 <= Cnt unsorted_page) /\ (GetID (Right unsorted_page) = 0 -> 1 <= 3).
Proof.
  apply (FindSlot_in_range unsorted_page [Byte.x04] 3).
  - vm_compute. discriminate.
  - vm_compute. reflexivity.
  - vm_compute. discriminate.
  - vm_compute. reflexivity.
Defined.


(** * Keys that are not in the tree *)

(** the test of [findKey]: the slot holds [key], before the six bytes of
    the sequence number if the slot is a duplicate *)
Definition holds_key (ptr : list byte) (t : Z) (key : list byte) : bool :=
  let keyLen := if t =? Duplicate then len ptr - BtId else len ptr in
  (keyLen =? len key) && (KeyCmp (take (Z.to_nat keyLen) ptr) key =? 0).

(** [key] is live at the leaf level: a slot of a leaf that is in use and
    not dead holds it *)
Definition live_at_leaf (m : BufMgr) (key : list byte) : Prop :=
  exists no page i ptr t,
    pagePool m !! no = Some page /\ Lvl page = 0 /\ 1 <= i <= Cnt page /\
    Dead page i = Val false /\ Key page i = Val ptr /\ Typ page i = Val t /\
    holds_key ptr t key = true.

(** the leaves are well formed: the slot count is a 32-bit number, a leaf
    without right sibling has a slot, the last slot is not a librarian,
    and the right sibling of a leaf is a leaf with a slot *)
Definition leaves_chained (m : BufMgr) : Prop :=
  forall no page,
    pagePool m !! no = Some page -> Lvl page = 0 ->
    0 <= Cnt page /\ Cnt page + 1 < 2 ^ 32 /\
    (GetID (Right page) = 0 -> 1 <= Cnt page) /\
    Typ page (Cnt page) <> Val Librarian /\
    forall right, 0 < GetID (Right page) ->
      pagePool m !! GetID (Right page) = Some right ->
      Lvl right = 0 /\ 1 <= Cnt right.

Definition on_leaf (m : BufMgr) (set : option Z) (slot : Z) : Prop :=
  exists no page,
    set = Some no /\ pagePool m !! no = Some page /\ Lvl page = 0 /\ 1 <= slot <= Cnt page.

Lemma findNext_leaf tree set slot slot' set' tree' :
  leaves_chained (mgr tree) -> on_leaf (mgr tree) set slot ->
  findNext tree set slot = Val (slot', set', tree') ->
  pagePool (mgr tree') = pagePool (mgr tree) /\
  (0 < slot' -> tree' = tree /\ on_leaf (mgr tree) set' slot').
Proof.
  intros Hch (no & page & -> & Hpage & Hlvl & Hs). unfold findNext, getPage.
  rewrite Hpage. cbn [bind].
  destruct (Hch no page Hpage Hlvl) as (Hc0 & Hc & _ & _ & Hright).
  destruct (Z.ltb_spec slot (Cnt page)).
  { intros [= <- <- <-]. split; [done|]. intros Hp. split; [done|].
    exists no, page. repeat (split; [done|]).
    rewrite u32_small by lia. lia. }
  destruct (Z.ltb_spec 0 (GetID (Right page))) as [Hr|Hr].
  - specialize (fun rpage => Hright rpage Hr).
    destruct (pagePool (mgr tree) !! GetID (Right page)) as [rpage|] eqn:Er.
    + intros [= <- <- <-]. split; [done|]. intros _. split; [done|].
      destruct (Hright rpage eq_refl) as [Hl1 Hc1].
      exists (GetID (Right page)), rpage. done.
    + intros [= <- <- <-]. split; [done|]. lia.
  - intros [= <- <- <-]. split; [done|]. lia.
Qed.

(** whatever [findKey] returns for a key that is not live is -1 *)
Lemma findKey_loop_absent key valMax fuel : forall tree set slot fk ret fk' fv set' tree',
  ~ live_at_leaf (mgr tree) key -> leaves_chained (mgr tree) ->
  (0 < slot -> on_leaf (mgr tree) set slot) ->
  findKey_loop fuel tree key valMax set slot fk = Val (ret, fk', fv, set', tree') ->
  ret = -1 /\ fv = [].
Proof.
  induction fuel as [|fuel IH]; intros tree set slot fk ret fk' fv set' tree' Habs Hch Hset;
    rewrite findKey_loop_eq.
  all: destruct (Z.ltb_spec 0 slot) as [Hpos|]; [|intros [= <- _ <- _ _]; done].
  all: destruct (Hset Hpos) as (no & page & -> & Hpage & Hlvl & Hs).
  all: destruct (Hch no page Hpage Hlvl) as (Hc0 & Hc & _ & Hlast & _).
  all: unfold getPage; rewrite Hpage; cbn [bind].
  all: destruct (Key page slot) as [ptr|] eqn:Ek; [|done]; cbn [bind].
  all: destruct (Typ page slot) as [t|] eqn:Et; [|done]; cbn [bind].
  all: set (sk := if t =? Librarian
                  then let* ptr0 := Key page (u32 (slot + 1)) in Val (u32 (slot + 1), ptr0)
                  else Val (slot, ptr)).
  all: destruct sk as [[slot1 ptr1]|] eqn:Esk; [|done]; cbn [bind].
  all: assert (Ek1 : Key page slot1 = Val ptr1 /\ 1 <= slot1 <= Cnt page)
    by (unfold sk in Esk; destruct (Z.eqb_spec t Librarian) as [->|];
        [assert (slot <> Cnt page) by congruence;
         rewrite (u32_small (slot + 1)) in Esk by lia;
         destruct (Key page (slot + 1)) eqn:E; [|done]; cbn [bind] in Esk;
         injection Esk as <- <-; split; [done|lia]
        |injection Esk as <- <-; split; [done|lia]]).
  all: destruct Ek1 as [Ek1 Hs1].
  all: destruct (Typ page slot1) as [t1|] eqn:Et1; [|done]; cbn [bind].
  all: destruct ((slot1 =? Cnt page) && (GetID (Right page) =? 0));
    [intros [= <- _ <- _ _]; done|].
  all: destruct (Dead page slot1) as [dd|] eqn:Ed; [|done]; cbn [bind].
  all: destruct dd.
  1: done.
  2:{ destruct (findNext tree (Some no) slot1) as [[[slot2 set2] tree2]|] eqn:En; [|done].
      cbn [bind].
      assert (Hon : on_leaf (mgr tree) (Some no) slot1).
      { exists no, page. repeat (split; [done|]). lia. }
      destruct (findNext_leaf _ _ _ _ _ _ Hch Hon En) as [Hpool Hnext].
      destruct (Z.ltb_spec 0 slot2) as [Hp2|Hp2].
      - destruct (Hnext Hp2) as [-> Hleaf]. apply IH; done.
      - destruct fuel; simpl; destruct (Z.ltb_spec 0 slot2); try lia;
          intros [= <- _ <- _ _]; done. }
  all: fold (holds_key ptr1 t1 key).
  all: destruct (holds_key ptr1 t1 key) eqn:Eh; [|intros [= <- _ <- _ _]; done].
  all: exfalso; apply Habs; exists no, page, slot1, ptr1, t1; done.
Qed.

Lemma findKey_absent fuel tree key valMax ret fk fv tree' :
  ~ live_at_leaf (mgr tree) key -> leaves_chained (mgr tree) ->
  findKey fuel tree key valMax = Val (ret, fk, fv, tree') ->
  ret = -1 /\ fv = [].
Proof.
  intros Habs Hch. unfold findKey.
  destruct (LoadPage fuel (mgr tree) key 0 LockRead) as [[[slot set] m']|] eqn:El; [|done].
  cbn [bind].
  pose proof (LoadPage_pool _ _ _ _ _ _ _ _ El) as Hpool.
  destruct (findKey_loop fuel (with_mgr tree m') key valMax set slot [])
    as [[[[[r k] v] s'] t']|] eqn:Ef; [|done].
  cbn [bind]. destruct s'; [|done]. intros [= <- <- <- <-].
  apply (findKey_loop_absent key valMax fuel (with_mgr tree m') set slot [] r k v (Some z) t');
    try done.
  - intros (no & page & i & ptr & t & H1 & H2). apply Habs.
    exists no, page, i, ptr, t. cbn [mgr with_mgr] in H1. rewrite Hpool in H1.
    split; [exact H1|exact H2].
  - intros no page H1 H2. cbn [mgr with_mgr] in *.
    rewrite Hpool in *. exact (Hch no page H1 H2).
  - intros Hpos. destruct (LoadPage_post _ _ _ _ _ _ _ _ El Hpos)
      as (-> & no & page & -> & Hp & Hf & Hl & _).
    destruct (Hch no page Hp Hl) as (Hc0 & Hc & Hr & _).
    destruct (FindSlot_range page key slot Hc0 Hc Hr Hf) as [[?|?] _]; [lia|].
    exists no, page. repeat (split; [done|]). lia.
Qed.


(** * The scan of [findKey] on one leaf *)

Section Scan.
Variable tree : BLTree.
Variable key : list byte.
Variable valMax : Z.
Variable no : Z.
Variable page : Page.
Variable kf : Z -> list byte.
Variable t : Z.

Let d := Data page.
Let n := Cnt page.

Hypothesis Hpage : pagePool (mgr tree) !! no = Some page.
Hypothesis HL : len d < 2 ^ 31.
Hypothesis Hslots : SlotSize * n <= len d.
Hypothesis Hkeys : forall i, 1 <= i <= n -> Key page i = Val (kf i).
Hypothesis Habs :
  forall i, 1 <= i <= n -> dead_of d i = false -> holds_key (kf i) (typ_of d i) key = false.
Hypothesis Ht : t <= n.
Hypothesis Htyp : typ_of d t <> Librarian.
Hypothesis Hend : dead_of d t = false \/ (t = n /\ GetID (Right page) = 0).

Lemma findKey_loop_ends fuel : forall x fk,
  1 <= x <= t -> t - x <= Z.of_nat fuel ->
  exists fk',
    findKey_loop fuel tree key valMax (Some no) x fk = Val (-1, fk', [], Some no, tree).
Proof.
  assert (Hin : forall i, 1 <= i <= n -> in_slots d i).
  { intros i Hi. unfold in_slots, SlotSize in *. lia. }
  induction fuel as [|fuel IH]; intros x fk Hx Hf; rewrite findKey_loop_eq.
  all: destruct (Z.ltb_spec 0 x); [|lia].
  all: unfold getPage; rewrite Hpage; cbn [bind].
  all: rewrite Hkeys by lia; cbn [bind].
  all: rewrite Typ_Val by (fold d; (lia || (apply Hin; lia))); cbn [bind]; fold d.
  all: set (x' := real_slot d x).
  all: assert (Hx' : x <= x' <= t)
    by (unfold x', real_slot; destruct (Z.eqb_spec (typ_of d x) Librarian) as [E|];
        [|lia]; destruct (Z.eq_dec x t) as [->|]; [done|lia]).
  all: assert (E1 : (if typ_of d x =? Librarian
                     then let* ptr := Key page (u32 (x + 1)) in Val (u32 (x + 1), ptr)
                     else Val (x, kf x)) = Val (x', kf x'))
    by (unfold x', real_slot in *; destruct (typ_of d x =? Librarian); [|done];
        unfold SlotSize in *; rewrite (u32_small (x + 1)) by lia;
        rewrite Hkeys by lia; done).
  all: rewrite E1; cbn [bind].
  all: rewrite Typ_Val by (fold d; (lia || (apply Hin; lia))); cbn [bind]; fold d.
  all: destruct ((x' =? Cnt page) && (GetID (Right page) =? 0)) eqn:Estop;
    [eexists; done|].
  all: rewrite Dead_Val by (fold d; (lia || (apply Hin; lia))); cbn [bind]; fold d.
  all: destruct (dead_of d x') eqn:Ed;
    [|fold (holds_key (kf x') (typ_of d x') key); rewrite Habs by (done || lia);
      eexists; done].
  all: assert (Hlt : x' < t)
    by (destruct (Z.eq_dec x' t) as [E|]; [|lia]; exfalso; rewrite E in *;
        destruct Hend as [Hd|[-> Hr]]; [congruence|];
        fold n in Estop; rewrite Z.eqb_refl, Hr in Estop; done).
  - lia.
  - unfold findNext, getPage. rewrite Hpage. cbn [bind].
    fold n. destruct (Z.ltb_spec x' n); [|lia]. cbn [bind].
    unfold SlotSize in *. rewrite (u32_small (x' + 1)) by lia.
    apply IH; lia.
Qed.
End Scan.

Lemma small_tree_pool no page :
  pagePool (mgr small_tree) !! no = Some page ->
  no = 0 \/ no = 1 \/ no = 2.
Proof.
  intros H.
  destruct (decide (no = 0)) as [|H0]; [auto|].
  destruct (decide (no = 1)) as [|H1]; [auto|].
  destruct (decide (no = 2)) as [|H2]; [auto|].
  exfalso. revert H.
  assert (E : pagePool (mgr small_tree) =
              <[2 := small_leaf]> (<[1 := default (NewPage 0) (pagePool small_mgr !! 1)]>
                (<[0 := default (NewPage 0) (pagePool small_mgr !! 0)]> ∅)))
    by (vm_compute; reflexivity).
  rewrite E. rewrite !lookup_insert_ne by done. rewrite lookup_empty. done.
Qed.

Definition small_page (no : Z) : Page :=
  default (NewPage 0) (pagePool (mgr small_tree) !! no).

Lemma small_tree_page no page :
  pagePool (mgr small_tree) !! no = Some page ->
  (no = 0 \/ no = 1 \/ no = 2) /\ page = small_page no.
Proof.
  intros H. split; [exact (small_tree_pool no page H)|].
  unfold small_page. rewrite H. done.
Qed.

Definition absent_key : list byte := [Byte.x01; Byte.x01].

Lemma small_tree_not_live : ~ live_at_leaf (mgr small_tree) absent_key.
Proof.
  intros (no & page & i & ptr & t & Hp & Hl & Hi & Hd & Hk & Ht & Hh).
  apply small_tree_page in Hp as [[-> | [-> | ->]] ->].
  - assert (E : Cnt (small_page 0) = 0) by (vm_compute; reflexivity). lia.
  - revert Hl. vm_compute. discriminate.
  - assert (E : Cnt (small_page 2) = 1) by (vm_compute; reflexivity).
    assert (i = 1) as -> by lia.
    assert (E1 : Key (small_page 2) 1 = Val stopper) by (vm_compute; reflexivity).
    assert (E2 : Typ (small_page 2) 1 = Val 0) by (vm_compute; reflexivity).
    rewrite E1 in Hk. rewrite E2 in Ht. injection Hk as <-. injection Ht as <-.
    revert Hh. vm_compute. discriminate.
Qed.

Lemma small_tree_chained : leaves_chained (mgr small_tree).
Proof.
  intros no page Hp Hl.
  apply small_tree_page in Hp as [[-> | [-> | ->]] ->].
  - split; [vm_compute; discriminate|]. split; [vm_compute; reflexivity|].
    split; [vm_compute; discriminate|]. split; [vm_compute; discriminate|].
    intros right _. vm_compute. discriminate.
  - revert Hl. vm_compute. discriminate.
  - split; [vm_compute; discriminate|]. split; [vm_compute; reflexivity|].
    split; [vm_compute; discriminate|]. split; [vm_compute; discriminate|].
    intros right Hr. revert Hr. vm_compute. discriminate.
Qed.

(** X2: [findKey] never reports a key that is not live at the leaf level:
    when no slot of a leaf that is not dead holds the key, whatever
    [findKey] returns is the count -1 with no value bytes. *)
Theorem findKey_never_finds_absent fuel tree key valMax ret fk fv tree' :
  ~ live_at_leaf (mgr tree) key -> leaves_chained (mgr tree) ->
  findKey fuel tree key valMax = Val (ret, fk, fv, tree') ->
  ret = -1 /\ fv = [].
Proof. apply findKey_absent. Qed.

Lemma findKey_never_finds_absent_witness :
  exists fk tree',
    findKey 3 small_tree absent_key 6 = Val (-1, fk, [], tree') /\
    (-1 = -1 /\ @nil byte = []).
Proof.
  exists stopper, small_tree.
  split; [vm_compute; reflexivity|].
  apply (findKey_never_finds_absent 3 small_tree absent_key 6 (-1) stopper [] small_tree).
  - exact small_tree_not_live.
  - exact small_tree_chained.
  - vm_compute. reflexivity.
Defined.

(** X3: a key that is missing is reported as such.  When [LoadPage] lands
    at slot [x] of a leaf whose slots up to [Cnt] are readable and none of
    them that is not dead holds the key, and the scan from [x] over dead
    slots ends at a slot [t] (a slot that is not dead, or the last slot of
    a leaf without right sibling), [findKey] returns -1 and no value, and
    leaves the tree as it was. *)
Theorem findKey_missing_key fuel tree key valMax no page kf x t :
  LoadPage fuel (mgr tree) key 0 LockRead = Val (x, Some no, mgr tree) ->
  pagePool (mgr tree) !! no = Some page ->
  len (Data page) < 2 ^ 31 -> SlotSize * Cnt page <= len (Data page) ->
  (forall i, 1 <= i <= Cnt page -> Key page i = Val (kf i)) ->
  (forall i ty, 1 <= i <= Cnt page -> Dead page i = Val false -> Typ page i = Val ty ->
     holds_key (kf i) ty key = false) ->
  1 <= x <= t -> t <= Cnt page -> Typ page t <> Val Librarian ->
  Dead page t = Val false \/ (t = Cnt page /\ GetID (Right page) = 0) ->
  t - x <= Z.of_nat fuel ->
  exists fk, findKey fuel tree key valMax = Val (-1, fk, [], tree).
Proof.
  intros El Hp HL Hs Hk Ha Hx Ht Hty He Hf. unfold findKey. rewrite El. cbn [bind].
  rewrite with_mgr_same.
  assert (Hin : forall i, 1 <= i <= Cnt page -> in_slots (Data page) i).
  { intros i Hi. unfold in_slots, SlotSize in *. lia. }
  assert (HL' : len (Data page) < 2 ^ 32) by lia.
  destruct (findKey_loop_ends tree key valMax no page kf t Hp HL Hs Hk) with (fuel := fuel)
    (x := x) (fk := @nil byte) as [fk ->]; try done.
  - intros i Hi Hd. apply Ha; [done| |apply Typ_Val; auto].
    rewrite Dead_Val by auto. by f_equal.
  - intros E. apply Hty. rewrite Typ_Val by (auto || apply Hin; lia). by f_equal.
  - destruct He as [Hd|He]; [left|right; done].
    rewrite Dead_Val in Hd by (auto || apply Hin; lia). by injection Hd.
  - exists fk. done.
Qed.

Lemma findKey_missing_key_witness :
  exists fk, findKey 3 small_tree absent_key 6 = Val (-1, fk, [], small_tree).
Proof.
  apply (findKey_missing_key 3 small_tree absent_key 6 2 small_leaf (fun _ => stopper) 1 1).
  - vm_compute. reflexivity.
  - vm_compute. reflexivity.
  - vm_compute. reflexivity.
  - vm_compute. discriminate.
  - intros i Hi. change (1 <= i <= 1) in Hi. assert (i = 1) as -> by lia.
    vm_compute. reflexivity.
  - intros i ty Hi _ Hty. change (1 <= i <= 1) in Hi. assert (i = 1) as -> by lia.
    assert (E : Typ small_leaf 1 = Val 0) by (vm_compute; reflexivity).
    rewrite E in Hty. injection Hty as <-. vm_compute. reflexivity.
  - lia.
  - vm_compute. discriminate.
  - vm_compute. discriminate.
  - left. vm_compute. reflexivity.
  - lia.
Defined.


(** * Writing and reading the slots of a page *)

Lemma slot_getters p i :
  len (Data p) < 2 ^ 32 -> in_slots (Data p) i ->
  KeyOffset p i = Val (off_of (Data p) i) /\
  Typ p i = Val (typ_of (Data p) i) /\
  Dead p i = Val (dead_of (Data p) i).
Proof.
  intros HL Hi. split; [apply KeyOffset_Val; done|].
  split; [apply Typ_Val; done|apply Dead_Val; done].
Qed.

Lemma slot_getters_sv p p' i j :
  len (Data p) < 2 ^ 32 -> len (Data p') = len (Data p) ->
  in_slots (Data p) i -> in_slots (Data p) j ->
  sv (Data p') i = sv (Data p) j ->
  KeyOffset p' i = KeyOffset p j /\ Typ p' i = Typ p j /\ Dead p' i = Dead p j.
Proof.
  intros HL L Hi Hj E.
  assert (Hi' : in_slots (Data p') i) by (unfold in_slots in *; rewrite L; done).
  destruct (slot_getters p j HL Hj) as (-> & -> & ->).
  destruct (slot_getters p' i) as (-> & -> & ->); [lia|done|].
  unfold sv in E. injection E as -> -> ->. done.
Qed.

(** X4: the three fields of a slot, written as the code writes them (offset,
    type, dead flag), are read back as written, the type as a byte; every
    other slot of the page reads as before. *)
Theorem slot_write_then_read p i o t (b : bool) :
  len (Data p) < 2 ^ 32 -> 1 <= i -> SlotSize * i <= len (Data p) -> 0 <= o <= 32767 ->
  exists p',
    (let* p1 := SetKeyOffset p i o in let* p2 := SetTyp p1 i t in SetDead p2 i b) = Val p' /\
    KeyOffset p' i = Val o /\ Typ p' i = Val (t mod 256) /\ Dead p' i = Val b /\
    forall j, 1 <= j -> SlotSize * j <= len (Data p) -> j <> i ->
      KeyOffset p' j = KeyOffset p j /\ Typ p' j = Typ p j /\ Dead p' j = Dead p j.
Proof.
  intros HL H1 H2 Ho.
  assert (Hi : in_slots (Data p) i) by done.
  destruct (write_slot_spec p i o t b HL Hi Ho) as (d' & E & T & Eo & Et & Ed).
  exists (with_Data p d'). split; [exact E|].
  pose proof T as [L _].
  assert (Hi' : in_slots (Data (with_Data p d')) i) by (unfold in_slots; simpl; rewrite L; done).
  destruct (slot_getters (with_Data p d') i) as (-> & -> & ->); [simpl; lia|done|].
  simpl. rewrite Eo, Et, Ed. repeat (split; [done|]).
  intros j Hj1 Hj2 Hne.
  apply slot_getters_sv; try done.
  apply (touched_sv_slot _ _ i j T Hj1 Hne).
Qed.

Lemma slot_write_then_read_witness :
  exists p',
    (let* p1 := SetKeyOffset garbage_page 2 100 in
     let* p2 := SetTyp p1 2 Duplicate in SetDead p2 2 false) = Val p' /\
    KeyOffset p' 2 = Val 100 /\ Typ p' 2 = Val (Duplicate mod 256) /\ Dead p' 2 = Val false /\
    forall j, 1 <= j -> SlotSize * j <= len (Data garbage_page) -> j <> 2 ->
      KeyOffset p' j = KeyOffset garbage_page j /\ Typ p' j = Typ garbage_page j /\
      Dead p' j = Dead garbage_page j.
Proof.
  apply (slot_write_then_read garbage_page 2 100 Duplicate false).
  - vm_compute. reflexivity.
  - lia.
  - vm_compute. discriminate.
  - lia.
Defined.

(** X5: [ClearSlot] zeroes a slot: its offset reads 0, its type [Unique],
    it is not dead; every other slot of the page reads as before. *)
Theorem ClearSlot_then_read p i :
  len (Data p) < 2 ^ 32 -> 1 <= i -> SlotSize * i <= len (Data p) ->
  exists p',
    ClearSlot p i = Val p' /\
    KeyOffset p' i = Val 0 /\ Typ p' i = Val Unique /\ Dead p' i = Val false /\
    forall j, 1 <= j -> SlotSize * j <= len (Data p) -> j <> i ->
      KeyOffset p' j = KeyOffset p j /\ Typ p' j = Typ p j /\ Dead p' j = Dead p j.
Proof.
  intros HL H1 H2.
  assert (Hi : in_slots (Data p) i) by done.
  rewrite ClearSlot_Val by done.
  set (d' := splice (Data p) (Z.to_nat (slot_at i)) (zeros SlotSize)).
  assert (B : 0 <= slot_at i /\ slot_at i + 6 <= len (Data p))
    by (unfold slot_at, SlotSize in *; lia).
  assert (T : touched (Data p) d' (window (slot_at i) (slot_at i + 6))).
  { apply (touched_splice (Data p) (slot_at i) (zeros SlotSize)). lia. }
  pose proof T as [L _].
  exists (with_Data p d'). split; [done|].
  assert (Hi' : in_slots (Data (with_Data p d')) i) by (unfold in_slots; simpl; rewrite L; done).
  destruct (slot_getters (with_Data p d') i) as (-> & -> & ->); [simpl; lia|done|].
  simpl.
  assert (S : sub d' (slot_at i) 6 = zeros 6).
  { apply (sub_splice_same (Data p) (slot_at i) (zeros SlotSize)); [lia|].
    change (len (zeros SlotSize)) with 6. lia. }
  assert (Eo : off_of d' i = 0).
  { unfold off_of. replace (slot_at i) with (slot_at i + 0) at 1 by lia.
    rewrite <- (sub_sub d' (slot_at i) 6 0 4) by lia. rewrite S. reflexivity. }
  assert (Eb : forall a, 0 <= a < 6 -> byte_at d' (slot_at i + a) = Byte.x00).
  { intros a Ha. unfold d'.
    rewrite byte_at_splice_in by (change (len (zeros SlotSize)) with 6; lia).
    replace (slot_at i + a - slot_at i) with a by lia.
    assert (a = 0 \/ a = 1 \/ a = 2 \/ a = 3 \/ a = 4 \/ a = 5) as [->|[->|[->|[->|[->| ->]]]]]
      by lia; reflexivity. }
  split; [by rewrite Eo|].
  split; [unfold typ_of; rewrite Eb by lia; done|].
  split; [unfold dead_of; rewrite Eb by lia; done|].
  intros j Hj1 Hj2 Hne.
  apply slot_getters_sv; try done.
  apply (touched_sv_slot _ _ i j T Hj1 Hne).
Qed.

Lemma ClearSlot_then_read_witness :
  exists p',
    ClearSlot garbage_page 2 = Val p' /\
    KeyOffset p' 2 = Val 0 /\ Typ p' 2 = Val Unique /\ Dead p' 2 = Val false /\
    forall j, 1 <= j -> SlotSize * j <= len (Data garbage_page) -> j <> 2 ->
      KeyOffset p' j = KeyOffset garbage_page j /\ Typ p' j = Typ garbage_page j /\
      Dead p' j = Dead garbage_page j.
Proof.
  apply (ClearSlot_then_read garbage_page 2).
  - vm_compute. reflexivity.
  - lia.
  - vm_compute. discriminate.
Defined.


(** * Keys and values of a slot *)

Lemma KeyOffset_off p i o :
  len (Data p) < 2 ^ 32 -> in_slots (Data p) i -> KeyOffset p i = Val o ->
  o = off_of (Data p) i.
Proof. intros HL Hi. rewrite KeyOffset_Val by done. by intros [= <-]. Qed.

(** X6: a key of at most 255 bytes, stored with [SetKey] at the offset of
    a slot, above the slot array and inside the data, is what [Key] returns
    for the slot; the offset of the slot stays. *)
Theorem SetKey_then_Key p i k o :
  len (Data p) < 2 ^ 31 -> 1 <= i -> SlotSize * i <= o ->
  KeyOffset p i = Val o -> o + 1 + len k <= len (Data p) -> len k <= 255 ->
  exists p', SetKey p k i = Val p' /\ Key p' i = Val k /\ KeyOffset p' i = Val o.
Proof.
  intros HL H1 H2 Eo Hb Hk. pose proof (len_nonneg k) as Hk0.
  assert (Hi : in_slots (Data p) i) by (unfold in_slots, SlotSize in *; lia).
  apply KeyOffset_off in Eo; [|lia|done]. subst o.
  set (o := off_of (Data p) i) in *.
  rewrite SetKey_Val by (done || lia). fold o.
  set (d' := splice (Data p) (Z.to_nat o) (byte.of_Z (len k) :: k)).
  assert (T : touched (Data p) d' (window o (o + 1 + len k))).
  { eapply touched_weaken; [apply touched_splice; unfold SlotSize in *; lia|].
    unfold window. intros b. rewrite len_cons. lia. }
  pose proof T as [L _].
  assert (Eo : off_of d' i = o).
  { apply (touched_off_of _ _ _ i T H1). unfold window, slot_at, SlotSize in *.
    intros b. lia. }
  exists (with_Data p d'). split; [done|].
  assert (K : slot_key (with_Data p d') i k).
  { split; [simpl; unfold in_slots in *; rewrite L; done|]. simpl. rewrite Eo.
    apply key_ok_write; unfold SlotSize in *; lia. }
  split; [apply Key_Val; [simpl; lia|done]|].
  rewrite KeyOffset_Val; [simpl; by rewrite Eo|simpl; lia|apply K].
Qed.

Lemma SetKey_then_Key_witness :
  exists p',
    SetKey garbage_page [Byte.x07; Byte.x08] 2 = Val p' /\
    Key p' 2 = Val [Byte.x07; Byte.x08] /\ KeyOffset p' 2 = Val 110.
Proof.
  apply (SetKey_then_Key garbage_page 2 [Byte.x07; Byte.x08] 110).
  - vm_compute. reflexivity.
  - lia.
  - vm_compute. discriminate.
  - vm_compute. reflexivity.
  - vm_compute. discriminate.
  - vm_compute. discriminate.
Defined.

(** X7: a value of at most 255 bytes, stored with [SetValue] behind a key
    of at most 254 bytes, is what [Value] returns for the slot, and the key
    of the slot stays. *)
Theorem SetValue_then_Value p i k v o :
  len (Data p) < 2 ^ 31 -> 1 <= i -> SlotSize * i <= o ->
  KeyOffset p i = Val o -> Key p i = Val k -> len k <= 254 -> len v <= 255 ->
  o + 1 + len k + 1 + len v <= len (Data p) ->
  exists p', SetValue p v i = Val p' /\ Value p' i = Val v /\ Key p' i = Val k.
Proof.
  intros HL H1 H2 Eo Ek Hk Hv Hb.
  pose proof (len_nonneg k) as Hk0. pose proof (len_nonneg v) as Hv0.
  assert (Hi : in_slots (Data p) i) by (unfold in_slots, SlotSize in *; lia).
  apply KeyOffset_off in Eo; [|lia|done]. subst o.
  set (o := off_of (Data p) i) in *.
  assert (Hi32 : SlotSize * i < 2 ^ 32) by (unfold SlotSize in *; lia).
  assert (Hi0 : 0 <= i) by lia.
  apply (Key_inv p HL i k Hi0 Hi32) in Ek.
  rewrite (SetValue_Val p i k v) by done. fold o.
  set (d' := splice (Data p) (Z.to_nat (o + 1 + len k)) (byte.of_Z (len v) :: v)).
  assert (T : touched (Data p) d' (window (o + 1 + len k) (o + 1 + len k + 1 + len v))).
  { eapply touched_weaken; [apply touched_splice; unfold SlotSize in *; lia|].
    unfold window. intros b. rewrite len_cons. lia. }
  pose proof T as [L _].
  assert (Eo : off_of d' i = o).
  { apply (touched_off_of _ _ _ i T H1). unfold window, slot_at, SlotSize in *.
    intros b. lia. }
  exists (with_Data p d'). split; [done|].
  assert (E : slot_entry (with_Data p d') i k v).
  { split; [simpl; unfold in_slots in *; rewrite L; done|]. simpl. rewrite Eo.
    apply entry_ok_write_value; [apply Ek|done..]. }
  assert (HL' : len (Data (with_Data p d')) < 2 ^ 31) by (simpl; rewrite L; done).
  split; [apply (Value_Val _ HL' i k v E)|].
  apply Key_Val; [done|]. exact (slot_entry_key _ _ _ _ E).
Qed.

Lemma SetValue_then_Value_witness :
  exists p',
    SetValue garbage_page [Byte.x07; Byte.x08] 2 = Val p' /\
    Value p' 2 = Val [Byte.x07; Byte.x08] /\ Key p' 2 = Val (garbage_key 2).
Proof.
  apply (SetValue_then_Value garbage_page 2 (garbage_key 2) [Byte.x07; Byte.x08] 110).
  - vm_compute. reflexivity.
  - lia.
  - vm_compute. discriminate.
  - vm_compute. reflexivity.
  - vm_compute. reflexivity.
  - vm_compute. discriminate.
  - vm_compute. discriminate.
  - vm_compute. discriminate.
Defined.

(** ** A key of 255 bytes *)

Definition long_key : list byte := replicate 255 Byte.x01.

(** one slot with the key [long_key] and the value [7] behind it *)
Definition long_key_page : Page :=
  with_Cnt
    (with_Data (NewPage 0)
       (bytes_of [6; 0; 0; 0; 0; 0] ++ [Byte.xff] ++ long_key ++ bytes_of [1; 7])) 1.

(** X8: for a slot whose key has 255 bytes, the longest a length byte can
    tell, [Value] returns the bytes of the key: the byte addition 1+keyLen
    of [ValueOffset] wraps to 0, so the value is looked for where the key
    is. *)
Theorem Value_of_long_key p i k :
  len (Data p) < 2 ^ 31 -> Key p i = Val k -> len k = 255 ->
  ValueOffset p i = KeyOffset p i /\ Value p i = Val k.
Proof.
  intros HL. unfold Value, ValueOffset, Key.
  destruct (KeyOffset p i) as [off|]; [|done]. cbn [bind].
  destruct (index (Data p) off) as [b|] eqn:Eb; [|done]. cbn [bind].
  pose proof Eb as [Ho Hbeq]%index_inv.
  pose proof (byte.unsigned_range b) as Hb.
  rewrite (u32_small (off + 1)) by lia.
  rewrite (u32_small (off + 1 + byte.unsigned b)) by lia.
  intros Hs Hk. pose proof Hs as (S1 & S2 & ->)%slice_inv.
  rewrite len_sub in Hk by lia.
  assert (E : byte.unsigned b = 255) by lia.
  rewrite E in *.
  change (u8 (1 + 255)) with 0. rewrite Z.add_0_r, (u32_small off) by lia.
  split; [done|]. cbn [bind].
  rewrite Eb. cbn [bind]. rewrite E.
  rewrite (u32_small (off + 1)) by lia.
  rewrite (u32_small (off + 1 + 255)) by lia.
  exact Hs.
Qed.

Lemma Value_of_long_key_witness :
  ValueOffset long_key_page 1 = KeyOffset long_key_page 1 /\
  Value long_key_page 1 = Val long_key.
Proof.
  apply (Value_of_long_key long_key_page 1 long_key).
  - vm_compute. reflexivity.
  - vm_compute. reflexivity.
  - vm_compute. reflexivity.
Defined.


(** * Page numbers as six bytes *)

Lemma lor_shift_byte a b :
  0 <= a < 2 ^ 56 -> 0 <= b < 2 ^ 8 -> Z.lor (u64 (Z.shiftl a 8)) b = a * 256 + b.
Proof.
  intros Ha Hb. unfold u64.
  rewrite Z.shiftl_mul_pow2 by lia. change (2 ^ 8) with 256 in *.
  rewrite Z.mod_small by lia.
  rewrite <- Z.add_lor_land.
  assert (E : Z.land (a * 256) b = 0).
  { apply Z.bits_inj'. intros n Hn. rewrite Z.land_spec, Z.bits_0.
    destruct (Z.ltb_spec n 8).
    - change 256 with (2 ^ 8). rewrite Z.mul_pow2_bits_low by lia. done.
    - rewrite <- (Z.mod_small b (2 ^ 8)) by (change (2 ^ 8) with 256; lia).
      rewrite Z.mod_pow2_bits_high by lia. apply andb_false_r. }
  rewrite E. lia.
Qed.

Lemma GetID_bytes b5 b4 b3 b2 b1 b0 :
  GetID [b5; b4; b3; b2; b1; b0] =
  ((((byte.unsigned b5 * 256 + byte.unsigned b4) * 256 + byte.unsigned b3) * 256
    + byte.unsigned b2) * 256 + byte.unsigned b1) * 256 + byte.unsigned b0.
Proof.
  pose proof (byte.unsigned_range b5). pose proof (byte.unsigned_range b4).
  pose proof (byte.unsigned_range b3). pose proof (byte.unsigned_range b2).
  pose proof (byte.unsigned_range b1). pose proof (byte.unsigned_range b0).
  unfold GetID. cbn [fold_left].
  change (2 ^ 8) with 256 in *.
  rewrite (lor_shift_byte 0) by (change (2 ^ 8) with 256; lia).
  rewrite (lor_shift_byte (0 * 256 + _)) by (change (2 ^ 8) with 256; lia).
  rewrite (lor_shift_byte ((0 * 256 + _) * 256 + _)) by (change (2 ^ 8) with 256; lia).
  rewrite (lor_shift_byte (((0 * 256 + _) * 256 + _) * 256 + _))
    by (change (2 ^ 8) with 256; lia).
  rewrite (lor_shift_byte ((((0 * 256 + _) * 256 + _) * 256 + _) * 256 + _))
    by (change (2 ^ 8) with 256; lia).
  rewrite (lor_shift_byte (((((0 * 256 + _) * 256 + _) * 256 + _) * 256 + _) * 256 + _))
    by (change (2 ^ 8) with 256; lia).
  lia.
Qed.

Lemma shiftr_byte id i :
  0 <= i -> byte.unsigned (byte.of_Z (Z.shiftr id (8 * i))) = id / 2 ^ (8 * i) mod 256.
Proof.
  intros Hi. rewrite byte.unsigned_of_Z. unfold byte.wrap.
  rewrite Z.shiftr_div_pow2 by lia. done.
Qed.

Lemma GetID_PutID id : GetID (PutID id) = id mod 2 ^ 48.
Proof.
  unfold PutID. cbn [map]. rewrite GetID_bytes.
  rewrite !shiftr_byte by lia.
  change (8 * 0) with 0. change (8 * 1) with 8. change (8 * 2) with 16.
  change (8 * 3) with 24. change (8 * 4) with 32. change (8 * 5) with 40.
  assert (D : forall a, 0 <= a ->
             id / 2 ^ a mod 256 = id / 2 ^ a - 256 * (id / 2 ^ (a + 8))).
  { intros a Ha. rewrite Z.pow_add_r by lia. rewrite <- Z.div_div by lia.
    change (2 ^ 8) with 256. rewrite Z.mod_eq by lia. done. }
  rewrite (D 0), (D 8), (D 16), (D 24), (D 32), (D 40) by lia.
  change (0 + 8) with 8. change (8 + 8) with 16. change (16 + 8) with 24.
  change (24 + 8) with 32. change (32 + 8) with 40. change (40 + 8) with 48.
  rewrite (Z.mod_eq id (2 ^ 48)) by lia.
  change (2 ^ 0) with 1. rewrite Z.div_1_r.
  generalize (id / 2 ^ 8) (id / 2 ^ 16) (id / 2 ^ 24) (id / 2 ^ 32) (id / 2 ^ 40)
    (id / 2 ^ 48).
  intros. lia.
Qed.

Lemma len_PutID_6 id : length (PutID id) = 6%nat.
Proof. reflexivity. Qed.

(** X9: a page number written with [PutID] is read back by [GetID], and by
    [GetIDFromValue] from a value that starts with the six bytes, as the
    number modulo 2^48: the six bytes hold the low 48 bits, whatever is above
    is dropped. *)
Theorem PutID_then_GetID id rest :
  GetID (PutID id) = id mod 2 ^ 48 /\
  GetIDFromValue (PutID id ++ rest) = id mod 2 ^ 48.
Proof.
  split; [apply GetID_PutID|].
  unfold GetIDFromValue. rewrite len_app. pose proof (len_nonneg rest).
  change (len (PutID id)) with 6. unfold BtId.
  destruct (Z.ltb_spec (6 + len rest) 6); [lia|].
  change (Z.to_nat 6) with (length (PutID id)).
  rewrite take_app_length. apply GetID_PutID.
Qed.


(** * Slots out of range *)

Lemma slotBytes_out p i :
  0 <= i -> SlotSize * i < 2 ^ 32 -> i = 0 \/ len (Data p) < SlotSize * i ->
  slotBytes p i = Panic SliceBounds.
Proof.
  intros H0 H1 H. unfold slotBytes, SlotSize in *.
  destruct (decide (i = 0)) as [->|Hi].
  { reflexivity. }
  destruct H as [?|H]; [done|].
  rewrite (u32_small (i - 1)) by lia.
  rewrite (u32_small (6 * (i - 1))) by lia.
  rewrite (u32_small (6 * (i - 1) + 6)) by lia.
  destruct (Z.leb_spec (6 * (i - 1) + 6) (len (Data p))); [lia|].
  rewrite andb_false_r. done.
Qed.

(** X10: slot numbers start at 1 and end where the data ends: for slot 0,
    and for a slot whose six bytes do not lie inside the data, every reader
    and writer of slots panics with a slice out of bounds. *)
Theorem slot_out_of_range_panics p i k t (b : bool) :
  0 <= i -> SlotSize * i < 2 ^ 32 -> i = 0 \/ len (Data p) < SlotSize * i ->
  KeyOffset p i = Panic SliceBounds /\ Typ p i = Panic SliceBounds /\
  Dead p i = Panic SliceBounds /\ Key p i = Panic SliceBounds /\
  Value p i = Panic SliceBounds /\ ClearSlot p i = Panic SliceBounds /\
  SetKeyOffset p i 0 = Panic SliceBounds /\ SetTyp p i t = Panic SliceBounds /\
  SetDead p i b = Panic SliceBounds /\ SetKey p k i = Panic SliceBounds /\
  SetValue p k i = Panic SliceBounds.
Proof.
  intros H0 H1 H. pose proof (slotBytes_out p i H0 H1 H) as E.
  unfold Value, SetValue, ValueOffset, Key, SetKey, KeyOffset, Typ, Dead, ClearSlot,
    SetKeyOffset, SetTyp, SetDead.
  rewrite E. cbn. done.
Qed.

Lemma slot_out_of_range_panics_witness :
  KeyOffset garbage_page 0 = Panic SliceBounds /\ Typ garbage_page 0 = Panic SliceBounds /\
  Dead garbage_page 0 = Panic SliceBounds /\ Key garbage_page 0 = Panic SliceBounds /\
  Value garbage_page 0 = Panic SliceBounds /\ ClearSlot garbage_page 0 = Panic SliceBounds /\
  SetKeyOffset garbage_page 0 0 = Panic SliceBounds /\
  SetTyp garbage_page 0 Unique = Panic SliceBounds /\
  SetDead garbage_page 0 true = Panic SliceBounds /\
  SetKey garbage_page [Byte.x01] 0 = Panic SliceBounds /\
  SetValue garbage_page [Byte.x01] 0 = Panic SliceBounds.
Proof.
  apply (slot_out_of_range_panics garbage_page 0 [Byte.x01] Unique true).
  - lia.
  - reflexivity.
  - left. reflexivity.
Defined.

(** * [FindSlot] on a page without slots *)

(** X11: on a page without slots [FindSlot] returns 0 when the page has a
    right sibling; when it has none, the search starts above an empty range,
    the difference of the bounds wraps around, and the first probe, slot
    2^31, panics with a slice out of bounds, whatever the data. *)
Theorem FindSlot_empty_page p key :
  Cnt p = 0 ->
  FindSlot p key = if 0 <? GetID (Right p) then Val 0 else Panic SliceBounds.
Proof.
  intros H. unfold FindSlot. rewrite H.
  destruct (0 <? GetID (Right p)); [reflexivity|].
  reflexivity.
Qed.

Lemma FindSlot_empty_page_witness :
  FindSlot (NewPage 32) [Byte.x01] =
  if 0 <? GetID (Right (NewPage 32)) then Val 0 else Panic SliceBounds.
Proof. apply (FindSlot_empty_page (NewPage 32) [Byte.x01]). reflexivity. Defined.


(** * What [LoadPage] returns *)

Definition load_failed (m m' : BufMgr) (slot : Z) : Prop :=
  slot = 0 /\ (m' = with_mgr_err m BLTErrStruct \/ m' = with_mgr_err m BLTErrRead).

Lemma LoadPage_loop_zero fuel m key lvl lock set pageNo drill slot set' m' :
  LoadPage_loop fuel m key lvl lock set pageNo drill = Val (slot, set', m') ->
  (0 < slot /\ m' = m) \/ load_failed m m' slot.
Proof.
  revert set pageNo drill. unfold load_failed.
  induction fuel as [|fuel IH]; intros set pageNo drill; simpl.
  - destruct (0 <? pageNo); [done|]. intros [= <- <- <-]. right. auto.
  - destruct (0 <? pageNo); [|intros [= <- <- <-]; right; auto].
    destruct (pagePool m !! pageNo) as [page|]; [|intros [= <- <- <-]; right; auto].
    assert (D : forall drill,
      (if Kill page
       then LoadPage_loop fuel m key lvl lock (Some pageNo) (GetID (Right page)) drill
       else
         let* slot := FindSlot page key in
         if 0 <? slot
         then if drill =? lvl then Val (slot, Some pageNo, m)
              else
                let* live := LoadPage_live (Z.to_nat (Cnt page)) page slot in
                match live with
                | Some slot0 =>
                    let* v := Value page slot0 in
                    LoadPage_loop fuel m key lvl lock (Some pageNo)
                      (GetIDFromValue v) (u8 (drill - 1))
                | None =>
                    LoadPage_loop fuel m key lvl lock (Some pageNo)
                      (GetID (Right page)) drill
                end
         else LoadPage_loop fuel m key lvl lock (Some pageNo) (GetID (Right page)) drill)
      = Val (slot, set', m') ->
      (0 < slot /\ m' = m) \/
      (slot = 0 /\ (m' = with_mgr_err m BLTErrStruct \/ m' = with_mgr_err m BLTErrRead))).
    { intros d. destruct (Kill page); [apply IH|].
      destruct (FindSlot page key) as [s|]; [|done]. simpl.
      destruct (Z.ltb_spec 0 s); [|apply IH].
      destruct (d =? lvl); [intros [= <- <- <-]; auto|].
      destruct (LoadPage_live _ page s) as [[s'|]|]; simpl; [|apply IH|done].
      destruct (Value page s'); [|done]. simpl. apply IH. }
    destruct (Free page); [intros [= <- <- <-]; right; auto|].
    destruct (negb (Lvl page =? drill)); [|apply D].
    destruct (negb (pageNo =? RootPage)); [intros [= <- <- <-]; right; auto|].
    destruct (negb (bool_decide (lock = LockRead)) && (Lvl page =? lvl));
      [apply IH|apply D].
Qed.

(** X12: [LoadPage] changes no page of the pool, nor the allocation
    data of page zero, nor the page size.  The slot it returns is 0 or above;
    when it is above 0, [set] holds a page of the pool of the level asked
    for, neither free nor being deleted, and the slot is what [FindSlot]
    gives for the key on that page. *)
Theorem LoadPage_result fuel m key lvl lock slot set m' :
  LoadPage fuel m key lvl lock = Val (slot, set, m') ->
  pagePool m' = pagePool m /\ pageZero m' = pageZero m /\
  pageDataSize m' = pageDataSize m /\ 0 <= slot /\
  (0 < slot ->
   exists no page,
     set = Some no /\ pagePool m !! no = Some page /\ Lvl page = lvl /\
     Free page = false /\ Kill page = false /\ FindSlot page key = Val slot).
Proof.
  intros H. pose proof (LoadPage_loop_zero _ _ _ _ _ _ _ _ _ _ _ H) as [[Hs ->]|[-> Hm]].
  - repeat (split; [done || lia|]). intros _.
    destruct (LoadPage_post _ _ _ _ _ _ _ _ H Hs) as (_ & no & page & -> & Hp & Hf & Hl & Hfr & Hk).
    exists no, page. done.
  - destruct Hm as [-> | ->]; repeat (split; [done|]); intros; lia.
Qed.

Lemma LoadPage_result_witness :
  pagePool small_mgr = pagePool small_mgr /\ pageZero small_mgr = pageZero small_mgr /\
  pageDataSize small_mgr = pageDataSize small_mgr /\ 0 <= 1 /\
  (0 < 1 ->
   exists no page,
     Some 2 = Some no /\ pagePool small_mgr !! no = Some page /\ Lvl page = 0 /\
     Free page = false /\ Kill page = false /\ FindSlot page [Byte.x01] = Val 1).
Proof.
  apply (LoadPage_result 3 small_mgr [Byte.x01] 0 LockRead 1 (Some 2) small_mgr).
  vm_compute. reflexivity.
Defined.

(** * Allocating and freeing pages *)

Lemma u64_small z : 0 <= z < 2 ^ 64 -> u64 z = z.
Proof. intros H. unfold u64. apply Z.mod_small. done. Qed.

Lemma GetID_PutID_small id : 0 <= id < 2 ^ 48 -> GetID (PutID id) = id.
Proof. intros H. rewrite GetID_PutID. apply Z.mod_small. done. Qed.

(** X13: a page given back with [FreePage] is the page that the next
    [NewPage] of the manager hands out: the page is marked free and heads the
    free chain; the allocation returns its number, puts the contents on it
    and restores the free chain; the next page number of the file is not
    touched. *)
Theorem FreePage_then_NewPage m no page contents :
  0 < no < 2 ^ 48 -> pagePool m !! no = Some page ->
  len (Data contents) = len (Data page) ->
  exists m1 m2,
    FreePage m no = Val m1 /\
    pagePool m1 = <[no := with_Free (with_Right page (chain (pageZero m))) true]> (pagePool m) /\
    GetID (chain (pageZero m1)) = no /\
    mgr_NewPage m1 contents = (BLTErrOk, Some no, m2) /\
    pagePool m2 = <[no := contents]> (pagePool m) /\
    chain (pageZero m2) = PutID (GetID (chain (pageZero m))) /\
    allocRight (pageZero m2) = allocRight (pageZero m) /\
    mgr_err m2 = BLTErrOk.
Proof.
  intros Hno Hp HL. unfold FreePage, getPage. rewrite Hp. cbn [bind].
  eexists _, _. split; [reflexivity|]. split; [reflexivity|].
  split; [cbn; apply GetID_PutID_small; lia|].
  unfold mgr_NewPage. cbn [pageZero with_pageZero setPage with_pagePool chain pagePool].
  rewrite GetID_PutID_small by lia.
  destruct (Z.ltb_spec 0 no); [|lia].
  rewrite lookup_insert_eq.
  rewrite MemCpyPage_eq by done.
  split; [reflexivity|]. cbn.
  split; [apply insert_insert_eq|]. done.
Qed.

Lemma FreePage_then_NewPage_witness :
  exists m1 m2,
    FreePage small_mgr 2 = Val m1 /\
    pagePool m1 =
      <[2 := with_Free (with_Right small_leaf (chain (pageZero small_mgr))) true]>
        (pagePool small_mgr) /\
    GetID (chain (pageZero m1)) = 2 /\
    mgr_NewPage m1 (NewPage 486) = (BLTErrOk, Some 2, m2) /\
    pagePool m2 = <[2 := NewPage 486]> (pagePool small_mgr) /\
    chain (pageZero m2) = PutID (GetID (chain (pageZero small_mgr))) /\
    allocRight (pageZero m2) = allocRight (pageZero small_mgr) /\
    mgr_err m2 = BLTErrOk.
Proof.
  apply (FreePage_then_NewPage small_mgr 2 small_leaf (NewPage 486)).
  - lia.
  - vm_compute. reflexivity.
  - vm_compute. reflexivity.
Defined.

(** X14: with an empty free chain the manager hands out the pages of the
    file in order: two allocations return the next page number and the one
    after it, put their contents there and touch no other page. *)
Theorem NewPage_twice m c1 c2 :
  GetID (chain (pageZero m)) = 0 ->
  GetID (allocRight (pageZero m)) + 2 < 2 ^ 48 ->
  len (Data c1) = pageDataSize m -> len (Data c2) = pageDataSize m ->
  let no := GetID (allocRight (pageZero m)) in
  exists m1 m2,
    mgr_NewPage m c1 = (BLTErrOk, Some no, m1) /\
    mgr_NewPage m1 c2 = (BLTErrOk, Some (no + 1), m2) /\
    pagePool m2 = <[no + 1 := c2]> (<[no := c1]> (pagePool m)) /\
    GetID (allocRight (pageZero m2)) = no + 2.
Proof.
  intros Hc Ha H1 H2 no.
  pose proof (GetID_nonneg (allocRight (pageZero m))) as Hn. fold no in Hn, Ha.
  pose proof (len_nonneg (Data c1)) as Hpds.
  assert (EN : forall c, len (Data c) = pageDataSize m ->
             MemCpyPage (NewPage (pageDataSize m)) c = c).
  { intros c Hc'. apply MemCpyPage_eq. unfold NewPage. cbn. rewrite len_zeros; lia. }
  eexists _, _.
  unfold mgr_NewPage at 1. rewrite Hc. cbn [Z.ltb Z.compare]. fold no.
  cbn [pageDataSize with_pageZero]. rewrite EN by done.
  split; [reflexivity|].
  unfold mgr_NewPage.
  cbn [pageZero with_pageZero setPage with_pagePool with_mgr_err chain allocRight
       pagePool pageDataSize dups].
  rewrite Hc. cbn [Z.ltb Z.compare].
  rewrite (u64_small (no + 1)) by lia.
  rewrite GetID_PutID_small by lia. rewrite EN by done.
  split; [reflexivity|].
  cbn [pageZero with_pageZero setPage with_pagePool with_mgr_err chain allocRight
       pagePool pageDataSize dups].
  split; [done|].
  rewrite GetID_PutID, (u64_small (no + 1 + 1)) by lia. rewrite Z.mod_small by lia. lia.
Qed.

Lemma NewPage_twice_witness :
  let no := GetID (allocRight (pageZero small_mgr)) in
  exists m1 m2,
    mgr_NewPage small_mgr (NewPage 486) = (BLTErrOk, Some no, m1) /\
    mgr_NewPage m1 (with_Lvl (NewPage 486) 1) = (BLTErrOk, Some (no + 1), m2) /\
    pagePool m2 =
      <[no + 1 := with_Lvl (NewPage 486) 1]> (<[no := NewPage 486]> (pagePool small_mgr)) /\
    GetID (allocRight (pageZero m2)) = no + 2.
Proof.
  apply (NewPage_twice small_mgr (NewPage 486) (with_Lvl (NewPage 486) 1)).
  - vm_compute. reflexivity.
  - vm_compute. reflexivity.
  - vm_compute. reflexivity.
  - vm_compute. reflexivity.
Defined.


(** * The iterator methods of bltree.go *)

(** [tree.cursor], the frame that caches a leaf, and [tree.cursorPage] *)
Record Cursor : Type := mkCursor {
  cursor : Page;
  cursorPage : Z
}.

(** the cursor that [NewBLTree] makes *)
Definition NewCursor (m : BufMgr) : Cursor := mkCursor (NewPage (pageDataSize m)) 0.

(** the inner loop of [nextKey] on the cursor page: [Some slot] is the
    [return slot], [None] is leaving the loop *)
Fixpoint nextKey_scan (n : nat) (c : Page) (right slot : Z) : outcome (option Z) :=
  if slot <? Cnt c then
    match n with
    | O => Panic OutOfFuel
    | S n' =>
        let slot := u32 (slot + 1) in
        let* d := Dead c slot in
        if d then nextKey_scan n' c right slot
        else if (0 <? right) || (slot <? Cnt c) then Val (Some slot)
        else Val None
    end
  else Val None.

(** [nextKey]: the slot, the cursor and the tree.  As in [LoadPage], the
    error of the manager is left as it is when the right page is pinned. *)
Fixpoint nextKey_loop (fuel : nat) (tree : BLTree) (cur : Cursor) (slot : Z)
  : outcome (Z * Cursor * BLTree) :=
  let right := GetID (Right (cursor cur)) in
  let* r := nextKey_scan (Z.to_nat (Cnt (cursor cur))) (cursor cur) right slot in
  match r with
  | Some slot => Val (slot, cur, tree)
  | None =>
      if right =? 0 then Val (0, cur, with_err tree BLTErrOk)
      else
        let cur := mkCursor (cursor cur) right in
        match pagePool (mgr tree) !! right with
        | None => Val (0, cur, with_mgr tree (with_mgr_err (mgr tree) BLTErrRead))
        | Some page =>
            match fuel with
            | O => Panic OutOfFuel
            | S fuel' =>
                nextKey_loop fuel' tree (mkCursor (MemCpyPage (cursor cur) page) right) 0
            end
        end
  end.

Definition nextKey (fuel : nat) (tree : BLTree) (cur : Cursor) (slot : Z)
  : outcome (Z * Cursor * BLTree) :=
  nextKey_loop fuel tree cur slot.

(** [startKey]: the slot, the cursor and the tree *)
Definition startKey (fuel : nat) (tree : BLTree) (cur : Cursor) (key : list byte)
  : outcome (Z * Cursor * BLTree) :=
  let* '(slot, set, m) := LoadPage fuel (mgr tree) key 0 LockRead in
  let tree := with_mgr tree m in
  if 0 <? slot then
    match set with
    | None => Panic NilDeref
    | Some no =>
        let* page := getPage (mgr tree) no in
        Val (slot, mkCursor (MemCpyPage (cursor cur) page) no, tree)
    end
  else Val (0, cur, tree).

(** ** The scan of the cursor page *)

Lemma nextKey_scan_spec c right n : forall slot r,
  0 <= slot -> Cnt c < 2 ^ 32 ->
  nextKey_scan n c right slot = Val r ->
  match r with
  | Some s =>
      slot < s <= Cnt c /\ Dead c s = Val false /\ (0 < right \/ s < Cnt c) /\
      forall j, slot < j < s -> Dead c j = Val true
  | None =>
      (forall j, slot < j < Cnt c -> Dead c j = Val true) /\
      (slot < Cnt c -> Dead c (Cnt c) = Val true \/ right <= 0)
  end.
Proof.
  induction n as [|n IH]; intros slot r H0 Hc; simpl.
  - destruct (Z.ltb_spec slot (Cnt c)); [done|]. intros [= <-]. split; intros; lia.
  - destruct (Z.ltb_spec slot (Cnt c)) as [Hlt|Hge].
    2:{ intros [= <-]. split; intros; lia. }
    rewrite (u32_small (slot + 1)) by lia.
    destruct (Dead c (slot + 1)) as [[|]|] eqn:Ed; [| |done]; cbn [bind].
    + intros H. apply IH in H; [|lia|done].
      destruct r as [s|].
      * destruct H as (H1 & H2 & H3 & H4). split; [lia|]. split; [done|]. split; [done|].
        intros j Hj. destruct (decide (j = slot + 1)) as [->|]; [done|]. apply H4. lia.
      * destruct H as [H1 H2]. split.
        -- intros j Hj. destruct (decide (j = slot + 1)) as [->|]; [done|]. apply H1. lia.
        -- intros _. destruct (decide (slot + 1 = Cnt c)) as [E|]; [left; by rewrite <- E|].
           apply H2. lia.
    + destruct (Z.ltb_spec 0 right) as [Hr|Hr]; cbn [orb].
      * intros [= <-]. split; [lia|]. split; [done|]. split; [by left|]. intros; lia.
      * destruct (Z.ltb_spec (slot + 1) (Cnt c)) as [Hs|Hs]; intros [= <-].
        -- split; [lia|]. split; [done|]. split; [by right|]. intros; lia.
        -- split; [intros; lia|]. intros _. by right.
Qed.

Lemma nextKey_scan_first c right t n : forall slot,
  0 <= slot < t -> t <= Cnt c -> Cnt c < 2 ^ 32 -> t - slot <= Z.of_nat n ->
  (forall j, slot < j < t -> Dead c j = Val true) ->
  Dead c t = Val false ->
  nextKey_scan n c right slot =
    Val (if (0 <? right) || (t <? Cnt c) then Some t else None).
Proof.
  induction n as [|n IH]; intros slot Hs Ht Hc Hn Hd He; [lia|]. simpl.
  destruct (Z.ltb_spec slot (Cnt c)); [|lia].
  rewrite (u32_small (slot + 1)) by lia.
  destruct (decide (slot + 1 = t)) as [E|E].
  - rewrite E, He. cbn [bind]. by destruct ((0 <? right) || (t <? Cnt c)).
  - rewrite Hd by lia. cbn [bind]. apply IH; try lia; try done.
    intros j Hj. apply Hd. lia.
Qed.

Lemma nextKey_scan_none c right n : forall slot,
  0 <= slot -> Cnt c < 2 ^ 32 -> Cnt c - slot <= Z.of_nat n ->
  (forall j, slot < j <= Cnt c -> Dead c j = Val true) ->
  nextKey_scan n c right slot = Val None.
Proof.
  induction n as [|n IH]; intros slot Hs Hc Hn Hd; simpl.
  - destruct (Z.ltb_spec slot (Cnt c)); [lia|done].
  - destruct (Z.ltb_spec slot (Cnt c)); [|done].
    rewrite (u32_small (slot + 1)) by lia.
    rewrite Hd by lia. cbn [bind]. apply IH; try lia.
    intros j Hj. apply Hd. lia.
Qed.

(** ** [nextKey] *)

Lemma nextKey_loop_live fuel tree : forall cur slot s cur' tree',
  0 <= slot -> Cnt (cursor cur) < 2 ^ 32 ->
  (forall no pg, pagePool (mgr tree) !! no = Some pg -> Cnt pg < 2 ^ 32) ->
  nextKey_loop fuel tree cur slot = Val (s, cur', tree') ->
  pagePool (mgr tree') = pagePool (mgr tree) /\
  pageZero (mgr tree') = pageZero (mgr tree) /\
  found tree' = found tree /\ 0 <= s /\
  (0 < s ->
   err tree' = err tree /\ s <= Cnt (cursor cur') /\
   Dead (cursor cur') s = Val false /\
   (GetID (Right (cursor cur')) = 0 -> s < Cnt (cursor cur'))).
Proof.
  induction fuel as [|fuel IH]; intros cur slot s cur' tree' H0 Hc Hpool; simpl.
  all: destruct (nextKey_scan _ (cursor cur) _ slot) as [r|] eqn:Es; [|done]; cbn [bind].
  all: apply nextKey_scan_spec in Es; [|done..].
  all: destruct r as [s0|].
  1,3: intros [= <- <- <-]; destruct Es as (H1 & H2 & H3 & _);
    do 3 (split; [done|]); (split; [lia|]); intros _;
    repeat (split; [done || lia|]); lia.
  all: destruct (Z.eqb_spec (GetID (Right (cursor cur))) 0);
    [intros [= <- <- <-]; do 3 (split; [done|]); split; [lia|]; lia|].
  all: destruct (pagePool (mgr tree) !! GetID (Right (cursor cur))) as [page|] eqn:Ep;
    [|intros [= <- <- <-]; do 3 (split; [done|]); split; [lia|]; lia].
  - done.
  - intros H. apply IH in H; [done|lia| |done].
    cbn [cursor]. unfold MemCpyPage. cbn [Cnt]. exact (Hpool _ _ Ep).
Qed.

(** X15: a slot that [nextKey] returns is a slot of the cursor page that is
    not dead, and never the last slot of a page without right sibling, the
    stopper; the error of the tree is then as before.  Whatever it returns,
    the pages of the pool, the allocation data of page zero and the [found]
    flag of the tree are untouched. *)
Theorem nextKey_returns_live fuel tree cur slot s cur' tree' :
  0 <= slot -> Cnt (cursor cur) < 2 ^ 32 ->
  (forall no pg, pagePool (mgr tree) !! no = Some pg -> Cnt pg < 2 ^ 32) ->
  nextKey fuel tree cur slot = Val (s, cur', tree') ->
  pagePool (mgr tree') = pagePool (mgr tree) /\
  pageZero (mgr tree') = pageZero (mgr tree) /\
  found tree' = found tree /\ 0 <= s /\
  (0 < s ->
   err tree' = err tree /\ s <= Cnt (cursor cur') /\
   Dead (cursor cur') s = Val false /\
   (GetID (Right (cursor cur')) = 0 -> s < Cnt (cursor cur'))).
Proof. apply nextKey_loop_live. Qed.

Lemma small_tree_counts no pg :
  pagePool (mgr small_tree) !! no = Some pg -> Cnt pg < 2 ^ 32.
Proof.
  intros H. apply small_tree_page in H as [[-> | [-> | ->]] ->]; vm_compute; reflexivity.
Qed.

Lemma nextKey_returns_live_witness :
  pagePool (mgr small_tree) = pagePool (mgr small_tree) /\
  pageZero (mgr small_tree) = pageZero (mgr small_tree) /\
  found small_tree = found small_tree /\ 0 <= 1 /\
  (0 < 1 ->
   err small_tree = err small_tree /\ 1 <= Cnt (cursor (mkCursor garbage_page 0)) /\
   Dead (cursor (mkCursor garbage_page 0)) 1 = Val false /\
   (GetID (Right (cursor (mkCursor garbage_page 0))) = 0 ->
    1 < Cnt (cursor (mkCursor garbage_page 0)))).
Proof.
  apply (nextKey_returns_live 0 small_tree (mkCursor garbage_page 0) 0 1
           (mkCursor garbage_page 0) small_tree).
  - lia.
  - vm_compute. reflexivity.
  - exact small_tree_counts.
  - vm_compute. reflexivity.
Defined.

(** X16: [nextKey] skips no slot that is in use: when [t] is the first
    slot after [slot] on the cursor page that is not dead, and it is not the
    last slot of a page without right sibling, [nextKey] returns [t] and
    changes neither the cursor nor the tree. *)
Theorem nextKey_first_live fuel tree cur slot t :
  0 <= slot < t -> t <= Cnt (cursor cur) -> Cnt (cursor cur) < 2 ^ 32 ->
  (forall j, slot < j < t -> Dead (cursor cur) j = Val true) ->
  Dead (cursor cur) t = Val false ->
  0 < GetID (Right (cursor cur)) \/ t < Cnt (cursor cur) ->
  nextKey fuel tree cur slot = Val (t, cur, tree).
Proof.
  intros Hs Ht Hc Hd He Hr. unfold nextKey.
  assert (E : nextKey_scan (Z.to_nat (Cnt (cursor cur))) (cursor cur)
                (GetID (Right (cursor cur))) slot = Val (Some t)).
  { rewrite (nextKey_scan_first _ _ t) by (done || lia).
    destruct (Z.ltb_spec 0 (GetID (Right (cursor cur)))); [done|].
    destruct (Z.ltb_spec t (Cnt (cursor cur))); [done|lia]. }
  destruct fuel; simpl; rewrite E; done.
Qed.

Lemma nextKey_first_live_witness :
  nextKey 0 small_tree (mkCursor garbage_page 0) 0 =
    Val (1, mkCursor garbage_page 0, small_tree).
Proof.
  apply (nextKey_first_live 0 small_tree (mkCursor garbage_page 0) 0 1).
  - lia.
  - vm_compute. discriminate.
  - vm_compute. reflexivity.
  - intros j Hj. lia.
  - vm_compute. reflexivity.
  - right. vm_compute. reflexivity.
Defined.

(** X17: the iteration ends at the stopper: on a cursor page without right
    sibling on which every slot after [slot] but, at most, the last one is
    dead, [nextKey] returns 0 and sets the error of the tree to [BLTErrOk];
    the cursor stays. *)
Theorem nextKey_at_end fuel tree cur slot :
  0 <= slot -> Cnt (cursor cur) < 2 ^ 32 -> GetID (Right (cursor cur)) = 0 ->
  (forall j, slot < j < Cnt (cursor cur) -> Dead (cursor cur) j = Val true) ->
  (slot < Cnt (cursor cur) -> exists b, Dead (cursor cur) (Cnt (cursor cur)) = Val b) ->
  nextKey fuel tree cur slot = Val (0, cur, with_err tree BLTErrOk).
Proof.
  intros Hs Hc Hr Hd He. unfold nextKey.
  set (c := cursor cur) in *.
  assert (E : nextKey_scan (Z.to_nat (Cnt c)) c (GetID (Right c)) slot = Val None).
  { destruct (Z.ltb_spec slot (Cnt c)) as [Hlt|Hge].
    - destruct (He Hlt) as [[|] Eb].
      + apply nextKey_scan_none; [lia..|].
        intros j Hj. destruct (decide (j = Cnt c)) as [->|]; [done|]. apply Hd. lia.
      + rewrite (nextKey_scan_first _ _ (Cnt c)) by (done || lia).
        rewrite Hr, !Z.ltb_irrefl. done.
    - apply nextKey_scan_none; [lia..|]. intros j Hj. lia. }
  destruct fuel; simpl; fold c; rewrite E; cbn [bind]; rewrite Hr; done.
Qed.

Lemma nextKey_at_end_witness :
  nextKey 0 small_tree (mkCursor garbage_page 0) 1 =
    Val (0, mkCursor garbage_page 0, with_err small_tree BLTErrOk).
Proof.
  apply (nextKey_at_end 0 small_tree (mkCursor garbage_page 0) 1).
  - lia.
  - vm_compute. reflexivity.
  - vm_compute. reflexivity.
  - intros j Hj. change (1 < j < 3) in Hj. assert (j = 2) as -> by lia.
    vm_compute. reflexivity.
  - intros _. exists true. vm_compute. reflexivity.
Defined.

(** ** [startKey] *)

(** X18: a slot above 0 that [startKey] returns is the slot that
    [FindSlot] gives for the key on a leaf of the pool that is neither free
    nor being deleted; the cursor page number is the number of that leaf, the
    cursor has its header, and its data when the cursor frame has the size of
    the leaf.  The pages of the pool, the allocation data of page zero, and
    the [found] flag and the error of the tree are as before. *)
Theorem startKey_caches_leaf fuel tree cur key slot cur' tree' :
  startKey fuel tree cur key = Val (slot, cur', tree') -> 0 < slot ->
  pagePool (mgr tree') = pagePool (mgr tree) /\
  pageZero (mgr tree') = pageZero (mgr tree) /\
  found tree' = found tree /\ err tree' = err tree /\
  exists page,
    pagePool (mgr tree) !! cursorPage cur' = Some page /\
    Lvl page = 0 /\ Free page = false /\ Kill page = false /\
    FindSlot page key = Val slot /\
    cursor cur' = MemCpyPage (cursor cur) page /\
    (len (Data (cursor cur)) = len (Data page) -> cursor cur' = page).
Proof.
  unfold startKey.
  destruct (LoadPage fuel (mgr tree) key 0 LockRead) as [[[s set] m']|] eqn:El; [|done].
  cbn [bind].
  destruct (Z.ltb_spec 0 s) as [Hs|Hs]; [|intros [= <- <- <-]; lia].
  destruct (LoadPage_post _ _ _ _ _ _ _ _ El Hs)
    as (-> & no & page & -> & Hp & Hf & Hl & Hfr & Hk).
  rewrite with_mgr_same. unfold getPage. rewrite Hp. cbn [bind].
  intros [= <- <- <-] _. do 4 (split; [done|]). exists page. cbn [cursorPage cursor].
  repeat (split; [done|]). apply MemCpyPage_eq.
Qed.

Lemma startKey_caches_leaf_witness :
  pagePool (mgr small_tree) = pagePool (mgr small_tree) /\
  pageZero (mgr small_tree) = pageZero (mgr small_tree) /\
  found small_tree = found small_tree /\ err small_tree = err small_tree /\
  exists page,
    pagePool (mgr small_tree) !! cursorPage (mkCursor small_leaf 2) = Some page /\
    Lvl page = 0 /\ Free page = false /\ Kill page = false /\
    FindSlot page [Byte.x01] = Val 1 /\
    cursor (mkCursor small_leaf 2) =
      MemCpyPage (cursor (NewCursor (mgr small_tree))) page /\
    (len (Data (cursor (NewCursor (mgr small_tree)))) = len (Data page) ->
     cursor (mkCursor small_leaf 2) = page).
Proof.
  apply (startKey_caches_leaf 3 small_tree (NewCursor (mgr small_tree)) [Byte.x01] 1
           (mkCursor small_leaf 2) small_tree).
  - vm_compute. reflexivity.
  - lia.
Defined.


(** * [splitRoot] *)

Lemma entry_ok_of_keys d off k v :
  key_ok d off k -> key_ok d (off + 1 + len k) v -> len k <= 254 -> entry_ok d off k v.
Proof.
  intros K (V0 & V1 & V2 & V3) Hk. split; [done|]. split; [done|].
  split; [lia|]. split; done.
Qed.

Lemma byte_at_zeros n a : byte_at (zeros n) a = Byte.x00.
Proof.
  unfold byte_at, zeros.
  destruct (replicate (Z.to_nat n) Byte.x00 !! Z.to_nat a) eqn:E; [|done].
  apply lookup_replicate in E as [-> _]. done.
Qed.

Section SplitRoot.
Variable pds : Z.
Variable leftKey : list byte.
Variable leftNo rightNo : Z.
Hypothesis Hk : len leftKey <= 254.
Hypothesis Hpds : 30 + len leftKey <= pds <= 32767.

Local Abbreviation a1 := (pds - 7) (only parsing).
Local Abbreviation a2 := (pds - 10) (only parsing).
Local Abbreviation a3 := (pds - 17) (only parsing).
Local Abbreviation a4 := (pds - 18 - len leftKey) (only parsing).
Let Hk0 : 0 <= len leftKey := len_nonneg leftKey.
Let d0 := zeros pds.
Let d1 := splice d0 (Z.to_nat a1) (byte.of_Z BtId :: PutID rightNo).
Let d2 := splice d1 (Z.to_nat (slot_at 2)) (le_split 4 a2).
Let d3 := splice d2 (Z.to_nat a2) [byte.of_Z 2; Byte.xff; Byte.xff].
Let d4 := splice d3 (Z.to_nat a3) (byte.of_Z BtId :: PutID leftNo).
Let d5 := splice d4 (Z.to_nat (slot_at 1)) (le_split 4 a4).
Let d6 := splice d5 (Z.to_nat a4) (byte.of_Z (len leftKey) :: leftKey).

Definition root_data : list byte := d6.

Let T1 : touched d0 d1 (window a1 (a1 + 7)).
Proof. apply (touched_splice d0 a1). unfold d0. rewrite len_zeros; lia. Qed.

Let L1 : len d1 = pds.
Proof. destruct T1 as [-> _]. apply len_zeros. lia. Qed.

Let T2 : touched d1 d2 (window 6 10).
Proof. apply (touched_splice d1 (slot_at 2)). rewrite L1. unfold slot_at, SlotSize. lia. Qed.

Let L2 : len d2 = pds.
Proof. destruct T2 as [-> _]. done. Qed.

Let T3 : touched d2 d3 (window a2 (a2 + 3)).
Proof. apply (touched_splice d2 a2). rewrite L2. lia. Qed.

Let L3 : len d3 = pds.
Proof. destruct T3 as [-> _]. done. Qed.

Let T4 : touched d3 d4 (window a3 (a3 + 7)).
Proof. apply (touched_splice d3 a3). rewrite L3. lia. Qed.

Let L4 : len d4 = pds.
Proof. destruct T4 as [-> _]. done. Qed.

Let T5 : touched d4 d5 (window 0 4).
Proof. apply (touched_splice d4 (slot_at 1)). rewrite L4. unfold slot_at, SlotSize. lia. Qed.

Let L5 : len d5 = pds.
Proof. destruct T5 as [-> _]. done. Qed.

Let T6 : touched d5 d6 (window a4 (a4 + 1 + len leftKey)).
Proof.
  pose proof (len_nonneg leftKey).
  eapply touched_weaken; [apply (touched_splice d5 a4); rewrite L5; lia|].
  unfold window. intros b. rewrite len_cons. lia.
Qed.

Lemma root_data_len : len root_data = pds.
Proof. unfold root_data. destruct T6 as [-> _]. done. Qed.

(** what is written after the stage [i] *)
Let T56 : touched d4 d6 (fun b => b < 4 \/ a4 <= b < a3).
Proof.
  eapply touched_trans; [exact T5|exact T6|]. unfold window. intros b. lia.
Qed.

Let T46 : touched d3 d6 (fun b => b < 4 \/ a4 <= b < a2).
Proof.
  eapply touched_trans; [exact T4|exact T56|]. unfold window. intros b. lia.
Qed.

Let T36 : touched d2 d6 (fun b => b < 4 \/ a4 <= b < a1).
Proof.
  eapply touched_trans; [exact T3|exact T46|]. unfold window. intros b. lia.
Qed.

Let T26 : touched d1 d6 (fun b => b < 4 \/ 6 <= b < 10 \/ a4 <= b < a1).
Proof.
  eapply touched_trans; [exact T2|exact T36|]. unfold window. intros b. lia.
Qed.

Let T06 : touched d0 d6 (fun b => b < 4 \/ 6 <= b < 10 \/ a4 <= b).
Proof.
  eapply touched_trans; [exact T1|exact T26|]. unfold window. intros b. lia.
Qed.

Lemma root_data_slots : in_slots root_data 1 /\ in_slots root_data 2.
Proof.
  pose proof (len_nonneg leftKey).
  unfold in_slots, SlotSize. rewrite root_data_len. lia.
Qed.

Lemma root_data_off1 : off_of root_data 1 = a4.
Proof.
  pose proof (len_nonneg leftKey).
  unfold root_data.
  rewrite (touched_off_of d5 d6 _ 1 T6) by (unfold window, slot_at, SlotSize; lia).
  apply off_of_set; [|lia]. unfold in_slots, SlotSize. rewrite L4. lia.
Qed.

Lemma root_data_off2 : off_of root_data 2 = a2.
Proof.
  pose proof (len_nonneg leftKey).
  unfold root_data.
  rewrite (touched_off_of d2 d6 _ 2 T36) by (unfold slot_at, SlotSize; lia).
  apply off_of_set; [|lia]. unfold in_slots, SlotSize. rewrite L1. lia.
Qed.

Lemma root_data_views :
  typ_of root_data 1 = Unique /\ dead_of root_data 1 = false /\
  typ_of root_data 2 = Unique /\ dead_of root_data 2 = false.
Proof.
  pose proof (len_nonneg leftKey).
  unfold root_data.
  rewrite !(touched_typ_of d0 d6 _ _ T06), !(touched_dead_of d0 d6 _ _ T06)
    by (unfold slot_at, SlotSize; lia).
  unfold typ_of, dead_of, d0. rewrite !byte_at_zeros. done.
Qed.

Lemma root_data_entry1 : entry_ok root_data a4 leftKey (PutID leftNo).
Proof.
  pose proof (len_nonneg leftKey).
  apply entry_ok_of_keys; [| |done].
  - apply key_ok_write; [lia|rewrite L5; lia|lia].
  - apply (touched_key_ok d4 d6 _ _ _ T56).
    + intros b. change (len (PutID leftNo)) with 6. lia.
    + replace (a4 + 1 + len leftKey) with a3 by lia.
      apply (key_ok_write d3 a3 (PutID leftNo)); [lia|rewrite L3| ];
        change (len (PutID leftNo)) with 6; lia.
Qed.

Lemma root_data_entry2 : entry_ok root_data a2 [Byte.xff; Byte.xff] (PutID rightNo).
Proof.
  pose proof (len_nonneg leftKey).
  apply entry_ok_of_keys; [| |done].
  - apply (touched_key_ok d3 d6 _ _ _ T46).
    + intros b. change (len [Byte.xff; Byte.xff]) with 2. lia.
    + apply (key_ok_write d2 a2 [Byte.xff; Byte.xff]); [lia|rewrite L2| ];
        change (len [Byte.xff; Byte.xff]) with 2; lia.
  - change (len [Byte.xff; Byte.xff]) with 2. replace (a2 + 1 + 2) with a1 by lia.
    apply (touched_key_ok d1 d6 _ _ _ T26).
    + intros b. change (len (PutID rightNo)) with 6. lia.
    + apply (key_ok_write d0 a1 (PutID rightNo)); [lia|unfold d0; rewrite len_zeros| ];
        change (len (PutID rightNo)) with 6; lia.
Qed.

(** the part of [splitRoot] that writes the new root *)
Lemma splitRoot_writes page (A : Type) (k : Page -> Z -> outcome A) :
  (let page := with_Data page (zeros pds) in
   let nxt := u32 (pds - (BtId + 1)) in
   let* d := copy_at (Data page) nxt (byte.of_Z BtId :: PutID rightNo) in
   let page := with_Data page d in
   let nxt := u32 (nxt - (2 + 1)) in
   let* page := SetKeyOffset page 2 nxt in
   let* d := copy_at (Data page) nxt [byte.of_Z 2; Byte.xff; Byte.xff] in
   let page := with_Data page d in
   let nxt := u32 (nxt - (BtId + 1)) in
   let* d := copy_at (Data page) nxt (byte.of_Z BtId :: PutID leftNo) in
   let page := with_Data page d in
   let nxt := u32 (nxt - u32 (u32 (len leftKey) + 1)) in
   let* page := SetKeyOffset page 1 nxt in
   let* d := copy_at (Data page) nxt (byte.of_Z (len leftKey) :: leftKey) in
   k (with_Data page d) nxt)
  = k (with_Data page root_data) a4.
Proof.
  cbv zeta. unfold BtId.
  rewrite (u32_small (pds - (6 + 1))) by lia.
  rewrite (u32_small (pds - (6 + 1) - (2 + 1))) by lia.
  rewrite (u32_small (pds - (6 + 1) - (2 + 1) - (6 + 1))) by lia.
  rewrite (u32_small (len leftKey)) by lia.
  rewrite (u32_small (len leftKey + 1)) by lia.
  rewrite (u32_small (pds - (6 + 1) - (2 + 1) - (6 + 1) - (len leftKey + 1))) by lia.
  replace (pds - (6 + 1)) with a1 by lia.
  replace (a1 - (2 + 1)) with a2 by lia.
  replace (a2 - (6 + 1)) with a3 by lia.
  replace (a3 - (len leftKey + 1)) with a4 by lia.
  cbn [Data with_Data]. fold d0.
  rewrite copy_at_Val by (unfold d0; rewrite len_zeros; lia). cbn [bind].
  change (byte.of_Z 6) with (byte.of_Z BtId). fold d1.
  rewrite SetKeyOffset_Val;
    [|cbn [Data with_Data]; rewrite L1; lia
     |cbn [Data with_Data]; unfold in_slots, SlotSize; rewrite L1; lia|lia].
  cbn [bind Data with_Data]. fold d2.
  rewrite copy_at_Val by (rewrite L2; lia). cbn [bind]. fold d3.
  rewrite copy_at_Val by (rewrite L3; lia). cbn [bind]. fold d4.
  rewrite SetKeyOffset_Val;
    [|cbn [Data with_Data]; rewrite L4; lia
     |cbn [Data with_Data]; unfold in_slots, SlotSize; rewrite L4; lia|lia].
  cbn [bind Data with_Data]. fold d5.
  rewrite copy_at_Val by (rewrite L5; lia). cbn [bind]. fold d6.
  destruct page. reflexivity.
Qed.
End SplitRoot.

(** the root that [splitRoot] writes over the old one *)
Definition raised_root (pds : Z) (rootPage : Page) (leftKey : list byte)
    (leftNo rightNo : Z) : Page :=
  with_Lvl
    (with_Act
       (with_Cnt
          (with_Min
             (with_Right (with_Data rootPage (root_data pds leftKey leftNo rightNo))
                (PutID 0))
             (pds - 18 - len leftKey)) 2) 2)
    (u8 (Lvl rootPage + 1)).

Lemma splitRoot_spec tree root rightNo rootPage leftKey leftNo m1 :
  let m := mgr tree in
  let pds := pageDataSize m in
  pagePool m !! root = Some rootPage ->
  Key rootPage (Cnt rootPage) = Val leftKey ->
  len leftKey <= 254 -> 30 + len leftKey <= pds <= 32767 ->
  (forall no pg, pagePool m !! no = Some pg -> len (Data pg) = pds) ->
  mgr_NewPage m rootPage = (BLTErrOk, Some leftNo, m1) -> leftNo <> root ->
  splitRoot tree root rightNo =
    Val (BLTErrOk,
         with_mgr tree (setPage m1 root (raised_root pds rootPage leftKey leftNo rightNo))) /\
  pagePool m1 = <[leftNo := rootPage]> (pagePool m).
Proof.
  intros m pds Hroot Hkey Hk Hpds Hsize Hnew Hne.
  destruct (mgr_NewPage_spec m rootPage Hsize (Hsize _ _ Hroot))
    as [[m' E]|(no & m0 & _ & E & Hpool & Hpds0)].
  { fold m in Hnew. congruence. }
  assert (no = leftNo /\ m1 = with_mgr_err (setPage m0 no rootPage) BLTErrOk) as [-> Em1]
    by (split; congruence).
  assert (Hp1 : pagePool m1 = <[leftNo := rootPage]> (pagePool m)).
  { rewrite Em1. cbn. by rewrite Hpool. }
  split; [|exact Hp1].
  unfold splitRoot. fold m. unfold getPage at 1. rewrite Hroot. cbn [bind].
  rewrite Hkey. cbn [bind]. rewrite Hnew. cbn [negb bool_decide decide_rel].
  destruct (bool_decide (BLTErrOk = BLTErrOk)) eqn:Eb;
    [|apply bool_decide_eq_false in Eb; done].
  cbn [negb]. unfold getPage. rewrite Hp1, lookup_insert_ne by done.
  rewrite Hroot. cbn [bind].
  assert (Epds : pageDataSize m1 = pds) by (rewrite Em1; cbn; done).
  rewrite Epds. fold pds.
  apply (eq_trans (splitRoot_writes pds leftKey leftNo rightNo Hk Hpds rootPage _
    (fun page nxt =>
       Val (BLTErrOk,
            with_mgr tree
              (setPage m1 root
                 (with_Lvl (with_Act (with_Cnt (with_Min (with_Right page (PutID 0)) nxt) 2) 2)
                    (u8 (Lvl page + 1)))))))).
  reflexivity.
Qed.

Lemma raised_root_reads pds rootPage leftKey leftNo rightNo :
  len leftKey <= 254 -> 30 + len leftKey <= pds <= 32767 ->
  let r := raised_root pds rootPage leftKey leftNo rightNo in
  Key r 1 = Val leftKey /\ Value r 1 = Val (PutID leftNo) /\
  Key r 2 = Val [Byte.xff; Byte.xff] /\ Value r 2 = Val (PutID rightNo) /\
  Typ r 1 = Val Unique /\ Dead r 1 = Val false /\
  Typ r 2 = Val Unique /\ Dead r 2 = Val false.
Proof.
  intros Hk Hpds r.
  assert (D : Data r = root_data pds leftKey leftNo rightNo) by reflexivity.
  pose proof (root_data_len pds leftKey leftNo rightNo Hpds) as L.
  destruct (root_data_slots pds leftKey leftNo rightNo Hpds) as [S1 S2].
  destruct (root_data_views pds leftKey leftNo rightNo Hpds) as (V1 & V2 & V3 & V4).
  pose proof (root_data_entry1 pds leftKey leftNo rightNo Hk Hpds) as E1.
  pose proof (root_data_entry2 pds leftKey leftNo rightNo Hpds) as E2.
  rewrite <- (root_data_off1 pds leftKey leftNo rightNo Hpds) in E1.
  rewrite <- (root_data_off2 pds leftKey leftNo rightNo Hpds) in E2.
  rewrite <- D in *.
  assert (HL : len (Data r) < 2 ^ 31) by lia.
  assert (HL' : len (Data r) < 2 ^ 32) by lia.
  assert (SE1 : slot_entry r 1 leftKey (PutID leftNo)) by done.
  assert (SE2 : slot_entry r 2 [Byte.xff; Byte.xff] (PutID rightNo)) by done.
  split; [apply (Key_Val r HL), (slot_entry_key _ _ _ _ SE1)|].
  split; [apply (Value_Val r HL _ _ _ SE1)|].
  split; [apply (Key_Val r HL), (slot_entry_key _ _ _ _ SE2)|].
  split; [apply (Value_Val r HL _ _ _ SE2)|].
  rewrite !Typ_Val, !Dead_Val by done.
  rewrite V1, V2, V3, V4. done.
Qed.


Lemma small_tree_sizes no pg :
  pagePool (mgr small_tree) !! no = Some pg ->
  len (Data pg) = pageDataSize (mgr small_tree).
Proof.
  intros H. apply small_tree_page in H as [[-> | [-> | ->]] ->]; vm_compute; reflexivity.
Qed.

Definition small_root : Page := small_page 1.

Definition small_alloc : BufMgr := (mgr_NewPage (mgr small_tree) small_root).2.



(** * What [insertSlot] keeps *)

(** where an old slot that is in use goes *)
Lemma inserted_image d d' n s' e min' typ j :
  inserted d d' n s' e min' typ -> 1 <= s' <= e -> e <= n ->
  (e < n -> dead_of d e = true) ->
  1 <= j <= n -> dead_of d j = false ->
  exists j', 1 <= j' <= (if e =? n then n + 2 else n) /\ sv d' j' = sv d j.
Proof.
  intros [I1 I2] Hs He Hdead Hj Hd.
  destruct (Z.ltb_spec j s') as [Hlt|Hge].
  { exists j. split; [destruct (e =? n); lia|]. apply I1. lia. }
  destruct (Z.eqb_spec e n) as [->|Hne].
  - destruct I2 as (_ & _ & I3). exists (j + 2). split; [lia|].
    rewrite I3 by lia. f_equal. lia.
  - destruct I2 as (_ & I3 & I4).
    assert (j <> e) by (intros ->; rewrite Hdead in Hd by lia; done).
    destruct (Z.ltb_spec j e).
    + exists (j + 1). split; [lia|]. rewrite I3 by lia. f_equal. lia.
    + exists j. split; [lia|]. apply I4. lia.
Qed.

(** where the new slot is *)
Lemma inserted_new d d' n s' e min' typ :
  inserted d d' n s' e min' typ -> 1 <= s' <= e -> e <= n ->
  exists i, 1 <= i <= (if e =? n then n + 2 else n) /\ sv d' i = (min', typ, false).
Proof.
  intros [I1 I2] Hs He.
  destruct (Z.eqb_spec e n) as [->|Hne].
  - destruct I2 as (_ & I3 & _). exists (s' + 1). split; [lia|done].
  - destruct I2 as (I3 & _). exists s'. split; [lia|done].
Qed.

Lemma insertSlot_keeps p s key value typ :
  let d := Data p in
  let n := Cnt p in
  let min' := Min p - (BtId + 1) - (len key + 1) in
  len d <= 32767 -> 1 <= s <= n -> len key <= 254 -> len value = BtId ->
  0 <= typ < 256 -> Min p <= len d -> SlotSize * (n + 2) <= min' ->
  (forall j, 1 <= j <= n -> off_of d j <= 32767) ->
  exists p',
    insertSlot p s key value typ = Val p' /\
    Act p' = u32 (Act p + 1) /\ Min p' = min' /\ (Cnt p' = n \/ Cnt p' = n + 2) /\
    len (Data p') = len d /\
    (exists i, 1 <= i <= Cnt p' /\ slot_entry p' i key value /\
               sv (Data p') i = (min', typ, false)) /\
    (forall j k v, 1 <= j <= n -> dead_of d j = false -> Min p <= off_of d j ->
       slot_entry p j k v ->
       exists j', 1 <= j' <= Cnt p' /\ slot_entry p' j' k v /\ sv (Data p') j' = sv d j).
Proof.
  intros d n min' HL Hs Hk Hv Htyp Hmin Hroom Hoff.
  destruct (insertSlot_spec p s key value typ HL Hs Hk Hv Htyp Hmin Hroom Hoff)
    as (e & d' & (He & Hdead & _) & E & T & En & I).
  cbv zeta in E, T. fold d n min' in E, T, En, I, He, Hdead.
  assert (Hs1 : 1 <= s) by lia.
  pose proof (lib_slot_range d s Hs1) as Hs'.
  set (s' := lib_slot d s) in *.
  set (n' := if e =? n then n + 2 else n) in *.
  assert (Hn' : n' = n \/ n' = n + 2) by (unfold n'; destruct (e =? n); lia).
  pose proof T as [L _].
  assert (Hin : forall i, 1 <= i <= n' -> in_slots d' i).
  { intros i Hi. pose proof (len_nonneg key). unfold in_slots, SlotSize, BtId in *.
    rewrite L. unfold min' in Hroom. lia. }
  eexists. split; [exact E|]. cbn [Act Min Cnt Data with_Data with_Act with_Cnt with_Min].
  split; [done|]. split; [done|]. split; [done|]. split; [done|]. split.
  - destruct (inserted_new d d' n s' e min' typ I) as (i & Hi & Ei); [lia..|].
    exists i. fold n'. split; [done|]. split; [|done].
    split; [apply Hin; done|]. cbn [Data with_Data].
    unfold sv in Ei. injection Ei as -> _ _. done.
  - intros j k v Hj Hd Ho [_ Ent].
    destruct (inserted_image d d' n s' e min' typ j I) as (j' & Hj' & Ej); [lia..|done|done|done|].
    exists j'. fold n'. split; [done|]. split; [|done].
    split; [apply Hin; done|]. cbn [Data with_Data].
    pose proof Ej as Ej'. unfold sv in Ej'. injection Ej' as -> _ _.
    fold d in Ent.
    apply (touched_entry_ok d d' _ _ _ _ T); [|done].
    intros b Hb. pose proof (len_nonneg key). unfold SlotSize, BtId in *.
    unfold min' in *. lia.
Qed.




(** * The sibling chain after [splitPage] *)

(** two pages with the same header but for the count of active keys *)
Definition same_frame (p q : Page) : Prop :=
  Cnt p = Cnt q /\ Min p = Min q /\ Garbage p = Garbage q /\ Bits p = Bits q /\
  Free p = Free q /\ Lvl p = Lvl q /\ Kill p = Kill q /\ Right p = Right q.

Lemma same_frame_refl p : same_frame p p.
Proof. repeat split. Qed.

Lemma same_frame_trans p q r : same_frame p q -> same_frame q r -> same_frame p r.
Proof. unfold same_frame. intros H1 H2. intuition congruence. Qed.

Lemma same_frame_Data p d : same_frame (with_Data p d) p.
Proof. repeat split. Qed.

Lemma same_frame_Act p a : same_frame (with_Act p a) p.
Proof. repeat split. Qed.

Lemma SetKeyOffset_frame p i o p' : SetKeyOffset p i o = Val p' -> same_frame p' p.
Proof.
  unfold SetKeyOffset. destruct (32767 <? o); [done|].
  destruct (slotBytes p i); [|done]. intros [= <-]. apply same_frame_Data.
Qed.

Lemma SetTyp_frame p i t p' : SetTyp p i t = Val p' -> same_frame p' p.
Proof.
  unfold SetTyp. destruct (slotBytes p i); [|done]. intros [= <-]. apply same_frame_Data.
Qed.

Lemma SetDead_frame p i b p' : SetDead p i b = Val p' -> same_frame p' p.
Proof.
  unfold SetDead. destruct (slotBytes p i); [|done]. intros [= <-]. apply same_frame_Data.
Qed.

Lemma copy_entry_frame src dst cnt nxt idx dst' nxt' idx' :
  copy_entry src dst cnt nxt idx = Val (dst', nxt', idx') -> same_frame dst' dst.
Proof.
  unfold copy_entry.
  destruct (Value src cnt) as [val|]; [|done]. cbn [bind].
  destruct (copy_at (Data dst) _ _) as [d1|]; [|done]. cbn [bind].
  destruct (Key src cnt) as [key|]; [|done]. cbn [bind].
  destruct (copy_at (Data (with_Data dst d1)) _ _) as [d2|]; [|done]. cbn [bind].
  set (dst2 := with_Data (with_Data dst d1) d2).
  assert (F2 : same_frame dst2 dst) by repeat split.
  clearbody dst2.
  match goal with |- context [bind ?m _] => destruct m as [[dst3 idx3]|] eqn:E3; [|done] end.
  cbn [bind].
  assert (F3 : same_frame dst3 dst).
  { destruct (0 <? idx); [|injection E3 as <- _; done].
    destruct (SetKeyOffset dst2 _ _) as [a|] eqn:Ea; [|done]. cbn [bind] in E3.
    destruct (SetTyp a _ _) as [b|] eqn:Eb; [|done]. cbn [bind] in E3.
    destruct (SetDead b _ _) as [c|] eqn:Ec; [|done]. cbn [bind] in E3.
    injection E3 as <- _.
    apply SetKeyOffset_frame in Ea. apply SetTyp_frame in Eb. apply SetDead_frame in Ec.
    eauto using same_frame_trans. }
  destruct (SetKeyOffset dst3 _ _) as [a|] eqn:Ea; [|done]. cbn [bind].
  destruct (Typ src cnt) as [t|]; [|done]. cbn [bind].
  destruct (SetTyp a _ _) as [b|] eqn:Eb; [|done]. cbn [bind].
  intros [= <- _ _].
  apply SetKeyOffset_frame in Ea. apply SetTyp_frame in Eb.
  eauto using same_frame_trans.
Qed.

Lemma splitPage_upper_frame page max n : forall cnt frame nxt idx frame' nxt' idx',
  splitPage_upper n page max cnt frame nxt idx = Val (frame', nxt', idx') ->
  same_frame frame' frame.
Proof.
  induction n as [|n IH]; intros cnt frame nxt idx frame' nxt' idx'; simpl.
  - destruct (cnt <? max); [done|]. intros [= <- _ _]. apply same_frame_refl.
  - destruct (cnt <? max); [|intros [= <- _ _]; apply same_frame_refl].
    match goal with |- context [bind ?m _] => destruct m as [skip|]; [|done] end.
    cbn [bind]. destruct skip; [apply IH|].
    destruct (copy_entry page frame _ nxt idx) as [[[f1 n1] i1]|] eqn:Ec; [|done].
    cbn [bind].
    destruct (Dead page _) as [dd|]; [|done]. cbn [bind].
    destruct (SetDead f1 i1 dd) as [f2|] eqn:Es; [|done]. cbn [bind].
    destruct (Dead f2 i1) as [d2|]; [|done]. cbn [bind].
    intros H. apply IH in H.
    apply copy_entry_frame in Ec. apply SetDead_frame in Es.
    eapply same_frame_trans; [exact H|].
    destruct d2; [|eapply same_frame_trans; [apply same_frame_Act|]];
      eauto using same_frame_trans.
Qed.

Lemma splitPage_lower_frame frame max n : forall cnt page nxt idx page' nxt' idx',
  splitPage_lower n frame max cnt page nxt idx = Val (page', nxt', idx') ->
  same_frame page' page.
Proof.
  induction n as [|n IH]; intros cnt page nxt idx page' nxt' idx'; simpl.
  - destruct (cnt <? max); [done|]. intros [= <- _ _]. apply same_frame_refl.
  - destruct (cnt <? max); [|intros [= <- _ _]; apply same_frame_refl].
    destruct (Dead frame _) as [skip|]; [|done]. cbn [bind].
    destruct skip; [apply IH|].
    destruct (copy_entry frame page _ nxt idx) as [[[p1 n1] i1]|] eqn:Ec; [|done].
    cbn [bind]. intros H. apply IH in H. apply copy_entry_frame in Ec.
    eapply same_frame_trans; [exact H|].
    eapply same_frame_trans; [apply same_frame_Act|]. done.
Qed.

Lemma mgr_NewPage_pool m c e no m1 :
  mgr_NewPage m c = (e, Some no, m1) ->
  exists pg,
    pagePool m1 = <[no := pg]> (pagePool m) /\
    Lvl pg = Lvl c /\ Right pg = Right c /\ Free pg = Free c /\ Kill pg = Kill c /\
    Cnt pg = Cnt c.
Proof.
  unfold mgr_NewPage.
  destruct (0 <? GetID (chain (pageZero m))).
  - destruct (pagePool m !! GetID (chain (pageZero m))) as [page|]; [|done].
    intros [= <- <- <-]. eexists. split; [reflexivity|]. done.
  - intros [= <- <- <-]. eexists. split; [reflexivity|]. done.
Qed.

Lemma splitPage_links tree pageNo page rightNo tree' :
  pagePool (mgr tree) !! pageNo = Some page ->
  splitPage tree pageNo = Val (Some rightNo, tree') -> rightNo <> pageNo ->
  exists lpage rpage,
    pagePool (mgr tree') !! pageNo = Some lpage /\
    pagePool (mgr tree') !! rightNo = Some rpage /\
    Right lpage = PutID rightNo /\ Lvl lpage = Lvl page /\
    Free lpage = Free page /\ Kill lpage = Kill page /\
    Right rpage = (if RootPage <? pageNo then PutID (GetID (Right page)) else zeros BtId) /\
    Lvl rpage = Lvl page /\ Free rpage = false /\ Kill rpage = false /\
    forall no, no <> pageNo -> no <> rightNo ->
      pagePool (mgr tree') !! no = pagePool (mgr tree) !! no.
Proof.
  intros Hpage. unfold splitPage, getPage at 1. rewrite Hpage. cbn [bind].
  destruct (splitPage_upper _ page _ _ _ _ _) as [[[frame nxt] idx]|] eqn:Eu; [|done].
  cbn [bind]. apply splitPage_upper_frame in Eu.
  destruct Eu as (_ & _ & _ & _ & Hfree & _ & Hkill & Hright).
  match goal with |- context [mgr_NewPage _ ?f] => set (fr := f) end.
  destruct (mgr_NewPage (mgr tree) fr) as [[e rs] m1] eqn:En.
  destruct (bool_decide (e = BLTErrOk)); cbn [negb]; [|done].
  destruct rs as [no|]; [|done].
  destruct (mgr_NewPage_pool _ _ _ _ _ En) as (pg & Hp1 & Hl & Hr & Hf & Hk & _).
  unfold getPage. rewrite Hp1.
  destruct (decide (pageNo = no)) as [->|Hne].
  { rewrite lookup_insert_eq. cbn [bind].
    destruct (Typ _ _); [|done]. cbn [bind].
    destruct (splitPage_lower _ _ _ _ _ _ _) as [[[? ?] ?]|]; [|done]. cbn [bind].
    intros [= -> _] Hneq. done. }
  rewrite lookup_insert_ne by done. rewrite Hpage. cbn [bind].
  destruct (Typ _ _); [|done]. cbn [bind].
  destruct (splitPage_lower _ _ _ _ _ _ _) as [[[lp nxt2] idx2]|] eqn:El; [|done].
  cbn [bind]. apply splitPage_lower_frame in El.
  destruct El as (_ & _ & _ & _ & Hfree2 & Hlvl2 & Hkill2 & _).
  intros [= <- <-] _.
  eexists _, pg. cbn [mgr with_mgr setPage pagePool with_pagePool].
  rewrite Hp1.
  split; [apply lookup_insert_eq|].
  split; [rewrite lookup_insert_ne by done; apply lookup_insert_eq|].
  split; [reflexivity|].
  split; [exact Hlvl2|]. split; [exact Hfree2|]. split; [exact Hkill2|].
  split.
  { rewrite Hr. unfold fr. destruct (RootPage <? pageNo); [reflexivity|].
    cbn. exact Hright. }
  split; [rewrite Hl; unfold fr; by destruct (RootPage <? pageNo)|].
  split; [rewrite Hf; unfold fr; destruct (RootPage <? pageNo); cbn; exact Hfree|].
  split; [rewrite Hk; unfold fr; destruct (RootPage <? pageNo); cbn; exact Hkill|].
  intros k Hk1 Hk2. rewrite !lookup_insert_ne by done. done.
Qed.

(** X21: [splitPage] links the new page into the sibling chain.  Whenever
    it returns a right page, other than the page itself, the page that was
    split points to it with [Right]; the right page points to the old right
    sibling when the page is not the root, and has no right sibling when it
    is; both have the level of the page that was split, the right page is
    neither free nor being deleted, and no other page of the pool has
    changed. *)
Theorem splitPage_links_siblings tree pageNo page rightNo tree' :
  pagePool (mgr tree) !! pageNo = Some page ->
  splitPage tree pageNo = Val (Some rightNo, tree') -> rightNo <> pageNo ->
  exists lpage rpage,
    pagePool (mgr tree') !! pageNo = Some lpage /\
    pagePool (mgr tree') !! rightNo = Some rpage /\
    Right lpage = PutID rightNo /\ Lvl lpage = Lvl page /\
    Free lpage = Free page /\ Kill lpage = Kill page /\
    Right rpage = (if RootPage <? pageNo then PutID (GetID (Right page)) else zeros BtId) /\
    Lvl rpage = Lvl page /\ Free rpage = false /\ Kill rpage = false /\
    forall no, no <> pageNo -> no <> rightNo ->
      pagePool (mgr tree') !! no = pagePool (mgr tree) !! no.
Proof. apply splitPage_links. Qed.

Definition split_result : BLTree :=
  match splitPage split_tree 2 with
  | Val (_, t) => t
  | Panic _ => split_tree
  end.

Lemma splitPage_links_siblings_witness :
  exists lpage rpage,
    pagePool (mgr split_result) !! 2 = Some lpage /\
    pagePool (mgr split_result) !! 3 = Some rpage /\
    Right lpage = PutID 3 /\ Lvl lpage = Lvl garbage_page /\
    Free lpage = Free garbage_page /\ Kill lpage = Kill garbage_page /\
    Right rpage = (if RootPage <? 2 then PutID (GetID (Right garbage_page)) else zeros BtId) /\
    Lvl rpage = Lvl garbage_page /\ Free rpage = false /\ Kill rpage = false /\
    forall no, no <> 2 -> no <> 3 ->
      pagePool (mgr split_result) !! no = pagePool (mgr split_tree) !! no.
Proof.
  apply (splitPage_links_siblings split_tree 2 garbage_page 3 split_result).
  - vm_compute. reflexivity.
  - vm_compute. reflexivity.
  - discriminate.
Defined.


(** * [deleteKey] of a key that is there *)

(** the page after [deleteKey] has marked the slot of the key, when no slot
    beneath the fence is to be collapsed *)
Definition deleted_page (pdead : Page) (key val : list byte) : Page :=
  with_Act
    (with_Garbage pdead
       (u32 (Garbage pdead + u32 (u32 (1 + len key) + u32 (1 + len val)))))
    (u32 (Act pdead - 1)).

Lemma deleteKey_collapse_none n p :
  u32 (Cnt p - 1) = 0 \/ Dead p (u32 (Cnt p - 1)) = Val false ->
  deleteKey_collapse n p = Val p.
Proof.
  intros H. destruct n; simpl.
  all: destruct (Z.ltb_spec 0 (u32 (Cnt p - 1))); [|done].
  all: destruct H as [H|H]; [lia|]; rewrite H; done.
Qed.

Lemma deleteKey_found fuel tree key slot pageNo m page ptr t val pdead :
  let slot' := if t =? Librarian then u32 (slot + 1) else slot in
  let page1 := deleted_page pdead key val in
  LoadPage (S fuel) (mgr tree) key 0 LockWrite = Val (slot, Some pageNo, m) ->
  0 < slot ->
  pagePool (mgr tree) !! pageNo = Some page ->
  Key page slot = Val ptr -> Typ page slot = Val t ->
  Key page slot' = Val key -> Dead page slot' = Val false ->
  Value page slot' = Val val ->
  SetDead page slot' true = Val pdead ->
  u32 (Cnt page1 - 1) = 0 \/ Dead page1 (u32 (Cnt page1 - 1)) = Val false ->
  Act page1 <> 0 ->
  deleteKey (S fuel) tree key 0 =
    Val (BLTErrOk, with_found (with_mgr tree (setPage (mgr tree) pageNo page1)) true).
Proof.
  intros slot' page1 HL Hs Hp Hk Ht Hk' Hd Hv Hsd Hcol Hact.
  pose proof (LoadPage_post _ _ _ _ _ _ _ _ HL Hs) as [-> _].
  cbn [deleteKey]. rewrite HL. cbn [bind].
  destruct (Z.eqb_spec slot 0); [lia|].
  unfold getPage. unfold with_mgr at 1. cbn [mgr]. rewrite Hp. cbn [bind].
  rewrite Hk, Ht. cbn [bind].
  assert (E : (if t =? Librarian
               then let* ptr0 := Key page (u32 (slot + 1)) in Val (u32 (slot + 1), ptr0)
               else Val (slot, ptr)) = Val (slot', key)).
  { unfold slot' in *. destruct (t =? Librarian).
    - rewrite Hk'. done.
    - rewrite Hk in Hk'. injection Hk' as ->. done. }
  rewrite E. cbn [bind].
  assert (Ec : (KeyCmp key key =? 0) = true) by (apply Z.eqb_eq, KeyCmp_eq; done).
  rewrite Ec, Hd. cbn [bind negb]. rewrite Hv. cbn [bind]. rewrite Hsd. cbn [bind].
  fold (deleted_page pdead key val). fold page1.
  assert (EC : Cnt page1 = Cnt pdead) by reflexivity.
  rewrite EC in *.
  rewrite deleteKey_collapse_none by done. cbn [bind].
  change (0 <? 0) with false. change (1 <? 0) with false.
  rewrite andb_false_r. cbn [andb].
  assert (Ea : (Act page1 =? 0) = false) by (apply Z.eqb_neq; done).
  match goal with |- context [if ?c then _ else _] => change c with (Act page1 =? 0) end.
  rewrite Ea. reflexivity.
Qed.

Section Deleted.
Variable m : BufMgr.
Variable pageNo : Z.
Variable page pdead : Page.
Variable key val : list byte.
Variable slot' : Z.

Let d := Data page.
Let n := Cnt page.
Let page1 := deleted_page pdead key val.

Hypothesis Hpage : pagePool m !! pageNo = Some page.
Hypothesis HL : len d < 2 ^ 31.
Hypothesis Hslots : SlotSize * n <= len d.
Hypothesis Hslot : 1 <= slot' <= n.
Hypothesis Hheap : forall i o, 1 <= i <= n -> KeyOffset page i = Val o -> SlotSize * n <= o.
Hypothesis Hsd : SetDead page slot' true = Val pdead.

Let Hin : forall i, 1 <= i <= n -> in_slots d i.
Proof. intros i Hi. unfold in_slots, SlotSize in *. lia. Qed.

Let HL32 : len d < 2 ^ 32.
Proof. lia. Qed.

Lemma deleted_data :
  exists d1,
    pdead = with_Data page d1 /\
    touched d d1 (window (slot_at slot' + 5) (slot_at slot' + 6)) /\
    dead_of d1 slot' = true.
Proof.
  destruct (SetDead_spec page slot' HL32 (Hin slot' Hslot) true) as (d1 & E & T & D).
  exists d1. rewrite Hsd in E. injection E as ->. done.
Qed.

Lemma deleted_header :
  Cnt page1 = n /\ Lvl page1 = Lvl page /\ Right page1 = Right page /\
  Free page1 = Free page /\ Kill page1 = Kill page /\ len (Data page1) = len d.
Proof.
  destruct deleted_data as (d1 & E & [L _] & _). unfold page1, deleted_page.
  rewrite E. cbn. done.
Qed.

Lemma deleted_slot_dead : Dead page1 slot' = Val true.
Proof.
  destruct deleted_data as (d1 & E & [L _] & D).
  assert (E1 : Data page1 = d1) by (unfold page1, deleted_page; rewrite E; done).
  rewrite Dead_Val; rewrite E1; [by rewrite D|lia|].
  unfold in_slots in *. rewrite L. apply Hin. done.
Qed.

(** what the other slots read, and the type of every slot *)
Lemma deleted_other i :
  1 <= i <= n ->
  Typ page1 i = Typ page i /\ (i <> slot' -> Dead page1 i = Dead page i) /\
  forall k, Key page1 i = Val k -> Key page i = Val k.
Proof.
  intros Hi. destruct deleted_data as (d1 & E & T & D). pose proof T as [L _].
  assert (E1 : Data page1 = d1) by (unfold page1, deleted_page; rewrite E; done).
  assert (Hi1 : in_slots (Data page1) i).
  { rewrite E1. unfold in_slots. rewrite L. apply Hin. done. }
  assert (HL1 : len (Data page1) < 2 ^ 31) by (rewrite E1; lia).
  assert (HL1' : len (Data page1) < 2 ^ 32) by lia.
  assert (Eo : off_of d1 i = off_of d i).
  { apply (touched_off_of d d1 _ i T); [lia|]. unfold window, slot_at, SlotSize. intros b. lia. }
  split; [|split].
  - rewrite !Typ_Val by auto. rewrite E1. f_equal.
    apply (touched_typ_of d d1 _ i T); [lia|]. unfold window, slot_at, SlotSize. lia.
  - intros Hne. rewrite !Dead_Val by auto. rewrite E1. f_equal.
    apply (touched_dead_of d d1 _ i T); [lia|]. unfold window, slot_at, SlotSize. lia.
  - intros k Hk.
    assert (Hi32 : SlotSize * i < 2 ^ 32) by (unfold SlotSize in *; lia).
    assert (Hi0 : 0 <= i) by lia.
    apply (Key_inv page1 HL1 i k Hi0 Hi32) in Hk as [_ K].
    rewrite E1, Eo in K.
    apply Key_Val; [done|]. split; [auto|]. fold d.
    assert (Ho : SlotSize * n <= off_of d i).
    { apply (Hheap i _ Hi). apply KeyOffset_Val; auto. }
    apply (key_ok_agree d1 d (off_of d i) (off_of d i + 1 + len k)); [|lia|lia|done].
    apply agree_sym. apply (touched_agree d d1 _ _ _ T).
    unfold window, slot_at, SlotSize in *. intros b. lia.
Qed.
End Deleted.

(** the only slot in use of a leaf that holds [key] is [slot'] of [pageNo] *)
Definition only_at (m : BufMgr) (key : list byte) (pageNo slot' : Z) : Prop :=
  forall no pg i p0 t0,
    pagePool m !! no = Some pg -> Lvl pg = 0 -> 1 <= i <= Cnt pg ->
    Dead pg i = Val false -> Key pg i = Val p0 -> Typ pg i = Val t0 ->
    holds_key p0 t0 key = true -> no = pageNo /\ i = slot'.

Lemma delete_not_live m pageNo page pdead key val slot' :
  pagePool m !! pageNo = Some page ->
  len (Data page) < 2 ^ 31 -> SlotSize * Cnt page <= len (Data page) ->
  1 <= slot' <= Cnt page ->
  (forall i o, 1 <= i <= Cnt page -> KeyOffset page i = Val o -> SlotSize * Cnt page <= o) ->
  SetDead page slot' true = Val pdead ->
  only_at m key pageNo slot' ->
  ~ live_at_leaf (setPage m pageNo (deleted_page pdead key val)) key.
Proof.
  intros Hpage HL Hslots Hslot Hheap Hsd Huniq
    (no & pg & i & p0 & t0 & Hp & Hl & Hi & Hd & Hk & Ht & Hh).
  destruct (deleted_header page pdead key val slot' HL Hslots Hslot Hsd)
    as (HC & HLv & _).
  cbn [setPage pagePool with_pagePool] in Hp.
  destruct (decide (no = pageNo)) as [->|Hne].
  - rewrite lookup_insert_eq in Hp. injection Hp as <-.
    rewrite HC in Hi. rewrite HLv in Hl.
    destruct (deleted_other page pdead key val slot' HL Hslots Hslot Hheap Hsd i Hi)
      as (ET & ED & EK).
    destruct (decide (i = slot')) as [->|Hi'].
    + rewrite (deleted_slot_dead page pdead key val slot' HL Hslots Hslot Hsd) in Hd. done.
    + rewrite ED in Hd by done. rewrite ET in Ht. apply EK in Hk.
      destruct (Huniq pageNo page i p0 t0 Hpage Hl Hi Hd Hk Ht Hh) as [_ ?]. done.
  - rewrite lookup_insert_ne in Hp by done.
    destruct (Huniq no pg i p0 t0 Hp Hl Hi Hd Hk Ht Hh) as [? _]. done.
Qed.

Lemma delete_chained m pageNo page pdead key val slot' :
  pagePool m !! pageNo = Some page ->
  len (Data page) < 2 ^ 31 -> SlotSize * Cnt page <= len (Data page) ->
  1 <= slot' <= Cnt page ->
  (forall i o, 1 <= i <= Cnt page -> KeyOffset page i = Val o -> SlotSize * Cnt page <= o) ->
  SetDead page slot' true = Val pdead ->
  Lvl page = 0 ->
  leaves_chained m ->
  leaves_chained (setPage m pageNo (deleted_page pdead key val)).
Proof.
  intros Hpage HL Hslots Hslot Hheap Hsd Hlvl Hch.
  destruct (deleted_header page pdead key val slot' HL Hslots Hslot Hsd)
    as (HC & HLv & HR & _).
  set (page1 := deleted_page pdead key val) in *.
  assert (Hright : forall pg right,
            (forall r, 0 < GetID (Right pg) -> pagePool m !! GetID (Right pg) = Some r ->
                       Lvl r = 0 /\ 1 <= Cnt r) ->
            0 < GetID (Right pg) ->
            <[pageNo := page1]> (pagePool m) !! GetID (Right pg) = Some right ->
            Lvl right = 0 /\ 1 <= Cnt right).
  { intros pg right Hold Hpos Hr.
    destruct (decide (GetID (Right pg) = pageNo)) as [E|E].
    - rewrite E, lookup_insert_eq in Hr. injection Hr as <-.
      rewrite HC, HLv. split; [done|lia].
    - rewrite lookup_insert_ne in Hr by done. apply (Hold right Hpos Hr). }
  intros no pg Hp Hl. cbn [setPage pagePool with_pagePool] in *.
  destruct (decide (no = pageNo)) as [->|Hne].
  - rewrite lookup_insert_eq in Hp. injection Hp as <-.
    destruct (Hch pageNo page Hpage Hlvl) as (H0 & H1 & H2 & H3 & H4).
    rewrite HC, HR.
    split; [done|]. split; [done|]. split; [done|]. split.
    + assert (Hn : 1 <= Cnt page <= Cnt page) by lia.
      destruct (deleted_other page pdead key val slot' HL Hslots Hslot Hheap Hsd _ Hn)
        as (ET & _). fold page1 in ET. rewrite ET. done.
    + intros right Hpos Hr. apply (Hright page right); [|done|].
      * exact H4.
      * exact Hr.
  - rewrite lookup_insert_ne in Hp by done.
    destruct (Hch no pg Hp Hl) as (H0 & H1 & H2 & H3 & H4).
    repeat (split; [done|]).
    intros right Hpos Hr. apply (Hright pg right H4 Hpos Hr).
Qed.

(** X22: deleting a key and looking for it.  When [LoadPage] stands on the
    slot of the key (or on the librarian in front of it), the slot is in use,
    no dead slot lies just beneath the fence and the leaf keeps an active
    key, [deleteKey] at level 0 returns [BLTErrOk], sets [found], marks the
    slot dead, counts one active key less and the bytes of key and value as
    garbage; no other page changes.  If the slot was the only one in use
    holding the key, whatever [findKey] then returns for the key is -1 with no
    value bytes. *)
Theorem deleteKey_then_findKey fuel tree key slot pageNo m page ptr t val :
  let slot' := if t =? Librarian then u32 (slot + 1) else slot in
  LoadPage (S fuel) (mgr tree) key 0 LockWrite = Val (slot, Some pageNo, m) ->
  0 < slot ->
  pagePool (mgr tree) !! pageNo = Some page ->
  Key page slot = Val ptr -> Typ page slot = Val t ->
  Key page slot' = Val key -> Dead page slot' = Val false ->
  Value page slot' = Val val ->
  Cnt page = 1 \/ (slot' <> Cnt page - 1 /\ Dead page (Cnt page - 1) = Val false) ->
  u32 (Act page - 1) <> 0 ->
  len (Data page) < 2 ^ 31 -> SlotSize * Cnt page <= len (Data page) ->
  (forall i o, 1 <= i <= Cnt page -> KeyOffset page i = Val o -> SlotSize * Cnt page <= o) ->
  leaves_chained (mgr tree) ->
  only_at (mgr tree) key pageNo slot' ->
  exists tree1 page1,
    deleteKey (S fuel) tree key 0 = Val (BLTErrOk, tree1) /\
    found tree1 = true /\
    pagePool (mgr tree1) = <[pageNo := page1]> (pagePool (mgr tree)) /\
    Dead page1 slot' = Val true /\ Cnt page1 = Cnt page /\
    Act page1 = u32 (Act page - 1) /\
    Garbage page1 = u32 (Garbage page + u32 (u32 (1 + len key) + u32 (1 + len val))) /\
    forall fuel' valMax ret fk fv tree2,
      findKey fuel' tree1 key valMax = Val (ret, fk, fv, tree2) ->
      ret = -1 /\ fv = [].
Proof.
  intros slot' HLoad Hs Hpage Hk Ht Hk' Hd Hv Hcol Hact HL Hslots Hheap Hch Huniq.
  destruct (LoadPage_post _ _ _ _ _ _ _ _ HLoad Hs)
    as (_ & no & pg & [= <-] & Hp & Hf & Hl & _).
  rewrite Hpage in Hp. injection Hp as <-.
  destruct (Hch pageNo page Hpage Hl) as (Hc0 & Hc & Hr & Hlast & _).
  destruct (FindSlot_range page key slot Hc0 Hc Hr Hf) as [[?|Hsr] _]; [lia|].
  assert (Hslot : 1 <= slot' <= Cnt page).
  { unfold slot'. destruct (Z.eqb_spec t Librarian) as [->|]; [|done].
    assert (slot <> Cnt page) by congruence. rewrite u32_small by lia. lia. }
  assert (Hin : in_slots (Data page) slot') by (unfold in_slots, SlotSize in *; lia).
  assert (HL32 : len (Data page) < 2 ^ 32) by lia.
  destruct (SetDead_spec page slot' HL32 Hin true) as (d1 & Hsd & T & D).
  set (pdead := with_Data page d1) in *.
  set (page1 := deleted_page pdead key val).
  destruct (deleted_header page pdead key val slot' HL Hslots Hslot Hsd)
    as (HC & HLv & HR & _). fold page1 in HC, HLv, HR.
  assert (Hcol1 : u32 (Cnt page1 - 1) = 0 \/ Dead page1 (u32 (Cnt page1 - 1)) = Val false).
  { rewrite HC. rewrite (u32_small (Cnt page - 1)) by lia.
    destruct (decide (Cnt page = 1)) as [->|Hn1]; [left; done|].
    destruct Hcol as [?|[Hne Hdd]]; [done|]. right.
    assert (Hn : 1 <= Cnt page - 1 <= Cnt page) by lia.
    destruct (deleted_other page pdead key val slot' HL Hslots Hslot Hheap Hsd _ Hn)
      as (_ & ED & _). fold page1 in ED. rewrite ED by lia. done. }
  assert (Hact1 : Act page1 <> 0) by exact Hact.
  exists (with_found (with_mgr tree (setPage (mgr tree) pageNo page1)) true), page1.
  split.
  { apply (deleteKey_found fuel tree key slot pageNo m page ptr t val pdead); done. }
  split; [done|]. split; [done|].
  split; [apply (deleted_slot_dead page pdead key val slot' HL Hslots Hslot Hsd)|].
  split; [done|]. split; [done|]. split; [done|].
  intros fuel' valMax ret fk fv tree2.
  apply findKey_absent; cbn [mgr with_found with_mgr].
  - apply (delete_not_live (mgr tree) pageNo page pdead key val slot'); done.
  - apply (delete_chained (mgr tree) pageNo page pdead key val slot'); done.
Qed.

(** a tree with the keys [1] and [2] *)
Definition two_key_tree : BLTree :=
  match insertKey 3 small_tree [Byte.x01] 0 value1 true with
  | Val (_, t1) =>
      match insertKey 3 t1 [Byte.x02] 0 value1 true with
      | Val (_, t2) => t2
      | Panic _ => small_tree
      end
  | Panic _ => small_tree
  end.

Definition two_key_page (no : Z) : Page :=
  default (NewPage 0) (pagePool (mgr two_key_tree) !! no).

Lemma two_key_tree_page no page :
  pagePool (mgr two_key_tree) !! no = Some page ->
  (no = 0 \/ no = 1 \/ no = 2) /\ page = two_key_page no.
Proof.
  intros H. split; [|unfold two_key_page; rewrite H; done].
  destruct (decide (no = 0)) as [|H0]; [auto|].
  destruct (decide (no = 1)) as [|H1]; [auto|].
  destruct (decide (no = 2)) as [|H2]; [auto|].
  exfalso. revert H.
  assert (E : pagePool (mgr two_key_tree) =
              <[2 := two_key_page 2]> (<[1 := two_key_page 1]> (<[0 := two_key_page 0]> ∅)))
    by (vm_compute; reflexivity).
  rewrite E. rewrite !lookup_insert_ne by done. rewrite lookup_empty. done.
Qed.

Lemma two_key_slots i :
  1 <= i <= 5 -> i = 1 \/ i = 2 \/ i = 3 \/ i = 4 \/ i = 5.
Proof. lia. Qed.

Lemma two_key_tree_chained : leaves_chained (mgr two_key_tree).
Proof.
  intros no page Hp Hl.
  apply two_key_tree_page in Hp as [[-> | [-> | ->]] ->].
  - split; [vm_compute; discriminate|]. split; [vm_compute; reflexivity|].
    split; [vm_compute; discriminate|]. split; [vm_compute; discriminate|].
    intros right _. vm_compute. discriminate.
  - revert Hl. vm_compute. discriminate.
  - split; [vm_compute; discriminate|]. split; [vm_compute; reflexivity|].
    split; [vm_compute; discriminate|]. split; [vm_compute; discriminate|].
    intros right Hr. revert Hr. vm_compute. discriminate.
Qed.

Lemma two_key_tree_only : only_at (mgr two_key_tree) [Byte.x01] 2 2.
Proof.
  intros no pg i p0 t0 Hp Hl Hi Hd Hk Ht Hh.
  apply two_key_tree_page in Hp as [[-> | [-> | ->]] ->].
  - assert (E : Cnt (two_key_page 0) = 0) by (vm_compute; reflexivity). lia.
  - revert Hl. vm_compute. discriminate.
  - split; [done|].
    assert (E : Cnt (two_key_page 2) = 5) by (vm_compute; reflexivity).
    rewrite E in Hi.
    destruct (two_key_slots i Hi) as [-> | [-> | [-> | [-> | ->]]]].
    + revert Hd. vm_compute. discriminate.
    + done.
    + revert Hd. vm_compute. discriminate.
    + assert (E1 : Key (two_key_page 2) 4 = Val [Byte.x02]) by (vm_compute; reflexivity).
      assert (E2 : Typ (two_key_page 2) 4 = Val 0) by (vm_compute; reflexivity).
      rewrite E1 in Hk. rewrite E2 in Ht. injection Hk as <-. injection Ht as <-.
      revert Hh. vm_compute. discriminate.
    + assert (E1 : Key (two_key_page 2) 5 = Val stopper) by (vm_compute; reflexivity).
      assert (E2 : Typ (two_key_page 2) 5 = Val 0) by (vm_compute; reflexivity).
      rewrite E1 in Hk. rewrite E2 in Ht. injection Hk as <-. injection Ht as <-.
      revert Hh. vm_compute. discriminate.
Qed.

Lemma two_key_heap i o :
  1 <= i <= Cnt (two_key_page 2) -> KeyOffset (two_key_page 2) i = Val o ->
  SlotSize * Cnt (two_key_page 2) <= o.
Proof.
  assert (E : Cnt (two_key_page 2) = 5) by (vm_compute; reflexivity).
  rewrite E. intros Hi.
  destruct (two_key_slots i Hi) as [-> | [-> | [-> | [-> | ->]]]];
    vm_compute; intros [= <-]; discriminate.
Qed.

Lemma deleteKey_then_findKey_witness :
  exists tree1 page1,
    deleteKey 3 two_key_tree [Byte.x01] 0 = Val (BLTErrOk, tree1) /\
    found tree1 = true /\
    pagePool (mgr tree1) = <[2 := page1]> (pagePool (mgr two_key_tree)) /\
    Dead page1 2 = Val true /\ Cnt page1 = Cnt (two_key_page 2) /\
    Act page1 = u32 (Act (two_key_page 2) - 1) /\
    Garbage page1 =
      u32 (Garbage (two_key_page 2) + u32 (u32 (1 + len [Byte.x01]) + u32 (1 + len value1))) /\
    forall fuel' valMax ret fk fv tree2,
      findKey fuel' tree1 [Byte.x01] valMax = Val (ret, fk, fv, tree2) ->
      ret = -1 /\ fv = [].
Proof.
  apply (deleteKey_then_findKey 2 two_key_tree [Byte.x01] 1 2 (mgr two_key_tree)
           (two_key_page 2) [Byte.x01] Librarian value1).
  - vm_compute. reflexivity.
  - lia.
  - vm_compute. reflexivity.
  - vm_compute. reflexivity.
  - vm_compute. reflexivity.
  - vm_compute. reflexivity.
  - vm_compute. reflexivity.
  - vm_compute. reflexivity.
  - right. split; [vm_compute; discriminate|vm_compute; reflexivity].
  - vm_compute. discriminate.
  - vm_compute. reflexivity.
  - vm_compute. discriminate.
  - exact two_key_heap.
  - exact two_key_tree_chained.
  - exact two_key_tree_only.
Defined.


(** * The value that [findKey] returns *)

(** X23: [findKey] cuts the value to [valMax] bytes.  When [LoadPage]
    stands on the slot of the key (or on the librarian in front of it), and
    the slot is in use, not a duplicate and not the last slot of a leaf
    without right sibling, [findKey] returns the key, the first
    min(valMax, len) bytes of its value and their number, and leaves the tree
    as it was; with a negative [valMax] it panics. *)
Theorem findKey_cuts_value fuel tree key valMax x no page kx t t' v :
  let slot := if t =? Librarian then u32 (x + 1) else x in
  LoadPage fuel (mgr tree) key 0 LockRead = Val (x, Some no, mgr tree) ->
  0 < x ->
  pagePool (mgr tree) !! no = Some page ->
  Key page x = Val kx -> Typ page x = Val t ->
  Key page slot = Val key -> Typ page slot = Val t' -> t' <> Duplicate ->
  Dead page slot = Val false -> Value page slot = Val v ->
  ~ (slot = Cnt page /\ GetID (Right page) = 0) ->
  findKey fuel tree key valMax =
    if valMax <? 0 then Panic SliceBounds
    else Val (Z.min valMax (len v), key, take (Z.to_nat (Z.min valMax (len v))) v, tree).
Proof.
  intros slot HLoad Hx Hpage Hkx Ht Hk Ht' Hdup Hd Hv Hstop.
  unfold findKey. rewrite HLoad. cbn [bind]. rewrite with_mgr_same.
  rewrite findKey_loop_eq.
  destruct (Z.ltb_spec 0 x); [|lia].
  unfold getPage. rewrite Hpage. cbn [bind]. rewrite Hkx, Ht. cbn [bind].
  assert (E1 : (if t =? Librarian
                then let* ptr := Key page (u32 (x + 1)) in Val (u32 (x + 1), ptr)
                else Val (x, kx)) = Val (slot, key)).
  { unfold slot in *. destruct (t =? Librarian).
    - rewrite Hk. done.
    - rewrite Hkx in Hk. injection Hk as ->. done. }
  rewrite E1. cbn [bind]. rewrite Ht'. cbn [bind].
  assert (E2 : (slot =? Cnt page) && (GetID (Right page) =? 0) = false).
  { destruct (Z.eqb_spec slot (Cnt page)), (Z.eqb_spec (GetID (Right page)) 0);
      simpl; try done. exfalso. apply Hstop. done. }
  rewrite E2, Hd. cbn [bind].
  destruct (Z.eqb_spec t' Duplicate) as [|_]; [done|].
  rewrite Z.eqb_refl. cbn [andb].
  replace (Z.to_nat (len key)) with (length key) by (unfold len; lia).
  rewrite firstn_all.
  replace (KeyCmp key key =? 0) with true by (symmetry; apply Z.eqb_eq, KeyCmp_eq; done).
  rewrite Hv. cbn [bind].
  pose proof (len_nonneg v) as Hv0.
  destruct (Z.ltb_spec (len v) valMax) as [Hlt|Hge].
  - destruct (Z.ltb_spec (len v) 0); [lia|].
    destruct (Z.ltb_spec valMax 0); [lia|].
    rewrite Z.min_r by lia. done.
  - destruct (Z.ltb_spec valMax 0); [done|].
    rewrite Z.min_l by lia. done.
Qed.

Lemma findKey_cuts_value_witness :
  findKey 3 two_key_tree [Byte.x02] 4 =
    if 4 <? 0 then Panic SliceBounds
    else Val (Z.min 4 (len value1), [Byte.x02],
              take (Z.to_nat (Z.min 4 (len value1))) value1, two_key_tree).
Proof.
  apply (findKey_cuts_value 3 two_key_tree [Byte.x02] 4 3 2 (two_key_page 2)
           [Byte.x02] Librarian Unique value1).
  - vm_compute. reflexivity.
  - lia.
  - vm_compute. reflexivity.
  - vm_compute. reflexivity.
  - vm_compute. reflexivity.
  - vm_compute. reflexivity.
  - vm_compute. reflexivity.
  - discriminate.
  - vm_compute. reflexivity.
  - vm_compute. reflexivity.
  - intros [H _]. revert H. vm_compute. discriminate.
Defined.


(** * [collapseRoot] *)

Lemma collapseRoot_child_first p t n : forall idx,
  1 <= idx <= t -> t <= Cnt p -> Cnt p < 2 ^ 32 ->
  (forall j, idx <= j < t -> Dead p j = Val true) ->
  Dead p t = Val false -> t - idx <= Z.of_nat n ->
  collapseRoot_child n p idx = Val t.
Proof.
  induction n as [|n IH]; intros idx Hi Ht Hc Hd He Hn; simpl.
  - assert (idx = t) as -> by lia.
    destruct (Z.leb_spec t (Cnt p)); [|lia]. rewrite He. done.
  - destruct (Z.leb_spec idx (Cnt p)); [|lia].
    destruct (decide (idx = t)) as [->|Hne].
    + rewrite He. done.
    + rewrite Hd by lia. cbn [bind negb].
      rewrite (u32_small (idx + 1)) by lia.
      apply IH; try lia; try done. intros j Hj. apply Hd. lia.
Qed.

(** X24: [collapseRoot] takes a level from the tree.  When the first slot
    of the root that is not dead points to a child page of the pool, of the
    size of the root, that is not itself an inner page above level 1 with a
    single key, [collapseRoot] returns [BLTErrOk]: the root holds the
    contents of the child, and the child page is given back: marked free,
    pointing to the old head of the free chain, and the new head of it.  No
    other page changes. *)
Theorem collapseRoot_takes_child fuel tree root rootPg t v child childPg :
  pagePool (mgr tree) !! root = Some rootPg ->
  1 <= t <= Cnt rootPg -> Cnt rootPg < 2 ^ 32 ->
  (forall j, 1 <= j < t -> Dead rootPg j = Val true) ->
  Dead rootPg t = Val false ->
  Value rootPg t = Val v -> GetIDFromValue v = child ->
  0 < child < 2 ^ 48 -> child <> root ->
  pagePool (mgr tree) !! child = Some childPg ->
  len (Data rootPg) = len (Data childPg) ->
  ~ (1 < Lvl childPg /\ Act childPg = 1) ->
  exists tree',
    collapseRoot (S fuel) tree root = Val (BLTErrOk, tree') /\
    pagePool (mgr tree') =
      <[child := with_Free (with_Right childPg (chain (pageZero (mgr tree)))) true]>
        (<[root := childPg]> (pagePool (mgr tree))) /\
    GetID (chain (pageZero (mgr tree'))) = child /\
    allocRight (pageZero (mgr tree')) = allocRight (pageZero (mgr tree)) /\
    found tree' = found tree /\ err tree' = err tree.
Proof.
  intros Hroot Ht Hc Hd He Hv Hid Hch Hne Hchild HL Hkeep.
  cbn [collapseRoot]. unfold getPage at 1. rewrite Hroot. cbn [bind].
  rewrite (collapseRoot_child_first rootPg t) by (done || lia). cbn [bind].
  rewrite Hv. cbn [bind]. rewrite Hid, Hchild.
  rewrite MemCpyPage_eq by done.
  unfold FreePage, getPage.
  cbn [setPage pagePool with_pagePool pageZero with_pageZero].
  rewrite lookup_insert_ne by done. rewrite Hchild. cbn [bind].
  cbn [setPage pagePool with_pagePool pageZero with_pageZero].
  rewrite lookup_insert_ne by done. rewrite lookup_insert_eq. cbn [bind].
  assert (E : (1 <? Lvl childPg) && (Act childPg =? 1) = false).
  { destruct (Z.ltb_spec 1 (Lvl childPg)), (Z.eqb_spec (Act childPg) 1); simpl; try done.
    exfalso. apply Hkeep. done. }
  rewrite E. cbn [negb].
  eexists. split; [reflexivity|].
  cbn [mgr with_mgr setPage pagePool with_pagePool pageZero with_pageZero chain allocRight
       found err].
  split; [reflexivity|]. split; [apply GetID_PutID_small; lia|].
  split; [reflexivity|]. split; reflexivity.
Qed.

Lemma collapseRoot_takes_child_witness :
  exists tree',
    collapseRoot 1 small_tree 1 = Val (BLTErrOk, tree') /\
    pagePool (mgr tree') =
      <[2 := with_Free (with_Right small_leaf (chain (pageZero (mgr small_tree)))) true]>
        (<[1 := small_leaf]> (pagePool (mgr small_tree))) /\
    GetID (chain (pageZero (mgr tree'))) = 2 /\
    allocRight (pageZero (mgr tree')) = allocRight (pageZero (mgr small_tree)) /\
    found tree' = found small_tree /\ err tree' = err small_tree.
Proof.
  apply (collapseRoot_takes_child 0 small_tree 1 small_root 1 (PutID 2) 2 small_leaf).
  - vm_compute. reflexivity.
  - vm_compute. split; discriminate.
  - vm_compute. reflexivity.
  - intros j Hj. lia.
  - vm_compute. reflexivity.
  - vm_compute. reflexivity.
  - vm_compute. reflexivity.
  - lia.
  - discriminate.
  - vm_compute. reflexivity.
  - vm_compute. reflexivity.
  - intros [H _]. revert H. vm_compute. discriminate.
Defined.


(** * A key of 255 bytes, inserted and looked for *)

(** C1: the round trip fails for a key of 255 bytes, the longest the
    claim allows and one length byte can tell.  On a new tree [insertKey]
    of [long_key] with the value [value1] returns [Ok], and the leaf holds
    the key in slot 2 with the length byte 6 and the six bytes of [value1]
    right behind it.  [findKey] for the key then returns 6 and the key, but
    as value the first six bytes of the key: [ValueOffset] adds 1+keyLen as
    bytes, which wraps to 0, so [Value] reads the key. *)
Theorem insert_long_key_wrong_value :
  len long_key = 255 /\
  exists tree leaf off,
    insertKey 3 small_tree long_key 0 value1 true = Val (BLTErrOk, tree) /\
    pagePool (mgr tree) !! 2 = Some leaf /\
    Key leaf 2 = Val long_key /\ Dead leaf 2 = Val false /\
    KeyOffset leaf 2 = Val off /\
    slice (Data leaf) (off + 256) (off + 263) = Val (Byte.x06 :: value1) /\
    ValueOffset leaf 2 = Val off /\
    findKey 3 tree long_key 6 = Val (6, long_key, take 6 long_key, tree) /\
    take 6 long_key <> value1.
Proof.
  split; [reflexivity|].
  eexists _, _, _.
  split. { vm_compute. reflexivity. }
  split. { vm_compute. reflexivity. }
  split. { vm_compute. reflexivity. }
  split. { vm_compute. reflexivity. }
  split. { vm_compute. reflexivity. }
  split. { vm_compute. reflexivity. }
  split. { vm_compute. reflexivity. }
  split. { vm_compute. reflexivity. }
  vm_compute. discriminate.
Qed.

(** * The same key inserted twice as a duplicate *)

(** the stored keys of two duplicates of the key [1]: the key and the
    sequence number *)
Definition dup_key (seq : Z) : list byte := [Byte.x01] ++ PutID seq.

(** C6: the order is broken by two inserts of one key that are not
    unique.  [insertKey] makes the key to be stored from the key and a
    sequence number, but looks for the place with the key alone, which is
    below every stored duplicate of it: on a new tree the second duplicate of
    the key [1] goes in front of the first.  Slot 1 of the leaf is in use and
    holds the key with the sequence number 2, slot 2 the key with the sequence
    number 1. *)
Theorem insert_duplicates_unsorted :
  exists tree1 tree2 leaf,
    insertKey 3 small_tree [Byte.x01] 0 value1 false = Val (BLTErrOk, tree1) /\
    insertKey 3 tree1 [Byte.x01] 0 value1 false = Val (BLTErrOk, tree2) /\
    pagePool (mgr tree2) !! 2 = Some leaf /\
    Cnt leaf = 3 /\
    Dead leaf 1 = Val false /\ Typ leaf 1 = Val Duplicate /\
    Key leaf 1 = Val (dup_key 2) /\
    Dead leaf 2 = Val false /\ Typ leaf 2 = Val Duplicate /\
    Key leaf 2 = Val (dup_key 1) /\
    KeyCmp (dup_key 2) (dup_key 1) = 1 /\
    ~ sortedness leaf.
Proof.
  eexists _, _, _.
  split. { vm_compute. reflexivity. }
  split. { vm_compute. reflexivity. }
  split. { vm_compute. reflexivity. }
  match goal with |- Cnt ?q = 3 /\ _ => set (leaf := q) end.
  assert (F1 : Dead leaf 1 = Val false) by (vm_compute; reflexivity).
  assert (F2 : Key leaf 1 = Val (dup_key 2)) by (vm_compute; reflexivity).
  assert (F3 : Key leaf 2 = Val (dup_key 1)) by (vm_compute; reflexivity).
  split. { vm_compute. reflexivity. }
  split; [exact F1|]. split. { vm_compute. reflexivity. }
  split; [exact F2|]. split. { vm_compute. reflexivity. }
  split. { vm_compute. reflexivity. }
  split; [exact F3|]. split. { vm_compute. reflexivity. }
  intros S. destruct (S 1) as [D|(ki & kj & K1 & K2 & L)].
  - vm_compute. done.
  - congruence.
  - rewrite F2 in K1. change (1 + 1) with 2 in K2. rewrite F3 in K2.
    injection K1 as <-. injection K2 as <-. vm_compute in L. done.
Qed.

